(* ===== verification/_CoqProject ===== *)
-Q . S2P
Prelude.v
RustStr.v
Json.v
State.v
Error.v
Step.v
CondLexer.v
CondParser.v
Condition.v
Flow.v
Bus.v
Migration.v
EngineResult.v
Storage.v
SqlStore.v
SqlBackend.v
Stream.v
Prog.v
StepExec.v
Sequential.v
Hierarchical.v
Pool.v
Parallel.v
Dag.v
Distributed.v
Footprint.v
Fleet.v
QueueRunner.v
Runner.v
EndToEnd.v
RunDistributed.v
SubFlow.v
RustPath.v
Mcp.v
Float.v
Serde.v
SerdeTypes.v
Codecs.v
Hub.v
EventBus.v
Durable.v
Hardware.v
McpWorkflow.v
McpMath.v
McpConvert.v
McpText.v
McpPaths.v
McpFiles.v
McpProcess.v
McpGit.v
McpNet.v
McpTenant.v
McpTools.v
TenantCodec.v
ConformKit.v
ConformCondition.v
ConformDefs.v
ConformProps.v
ConformEngine.v
ConformStores.v
ConformText.v
ConformLib.v
ConformMcp.v
ConformSystem.v
ConformTenant.v
ConformHardware.v
