(* ===== verification/Prelude.v ===== *)
(** * Szal workflow engine: a verified model

    Szal runs workflows: a flow is a list of steps with dependencies, conditions
    and retry policies, which an engine executes in one of four modes, around
    handlers supplied by the user.  This library models the crate under
    [rust-old/src/] as Rocq functions and proves what it promises.

    ** The program's parts and the files that model them

    Data and pure components, each a file of its own over this prelude
    (results as [result] with [let?] for the [?] operator, integers at their
    width, lists):
    - [RustStr]: the [core::str] and [f64] operations the crate calls (byte
      strings, [trim], [split], [find], correctly rounded decimal parsing);
    - [Json]: [serde_json::Value] as the crate matches on it.  The library is
      not part of the repository: [JsonNumber] and [JsonLib] are the operations
      called, [JsonLaws] their documented behaviour, [SerdeModel] an instance;
    - [State] (state.rs), [Error] (error.rs): the workflow states, the errors;
    - [Step] (step.rs): [StepDef] and builder, backoff, [StepResult];
    - [Flow] (flow.rs): [FlowDef], builder, [validate] and its cycle search;
    - [CondLexer], [CondParser], [Condition] (condition.rs): [tokenize], the
      recursive-descent [Parser], [eval_expr], [CompiledCondition],
      [ConditionCache], [render_template], [build_step_context];
    - [Bus] (bus.rs): events, their topics and log records;
    - [Migration] (migration.rs): the migration registry;
    - [EngineResult] (engine/result.rs, [ExecutionRecord] of storage.rs);
    - [Storage] (storage.rs): the two store interfaces, as the type classes
      [ExecutionStore] and [ExecutionStoreLaws], and the in-memory stores;
    - [SqlStore] (sql_store.rs): the SQL store over an abstract database, the
      class [SqlDb], and [SpawnSink], which joins a mirror, a channel and a
      background writer, as a step relation; [SqlBackend]: the macro's two
      dialects, [connect] and [migrate], over the calls of sqlx ([Sqlx], with
      what the statements are documented to do, [SqlxLaws]), as [SqlDb]s;
    - [Stream] (stream.rs, [ProgressReporter] of engine/mod.rs): SSE frames;
    - [Serde], [SerdeTypes]: what serde's derived [Serialize] and [Deserialize]
      write and read, the general part (structures, missing fields, attributes;
      [JsonText] is serde_json's text) and the types of step.rs, flow.rs,
      state.rs, bus.rs, storage.rs and engine/result.rs; [Codecs]: serde_json's
      entry points with them, the implementations of [RecordCodec] (the rows of
      the SQL store) and [DefinitionCodec] (the tools);
    - [Hub] (stream.rs): [ProgressHub] over tokio's broadcast channel, the class
      [Broadcast]; [EventBus] (bus.rs): [EventBus] over majra's hub, [PubSub].

    The engine:
    - [Prog]: the effects of the [async] code.  [act] lists every call the
      engine makes out of itself (clock, sleep, handler, rollback, event and
      metric sinks, cancellation token, condition cache, store, heartbeat,
      tasks, queue), [prog] is a computation over them, [exec] runs one against
      an oracle, [wp] verifies one against all answers;
    - [StepExec] (engine/step_exec.rs, the helpers of engine/mod.rs and
      metrics.rs): one step with its timeouts and retries;
    - [Sequential], [Hierarchical], [Parallel], [Dag] (engine/sequential.rs,
      hierarchical.rs, parallel.rs, dag.rs): the executor of each mode;
    - [Pool]: tokio's tasks and the semaphore, which [Parallel] and [Dag]
      coordinate: configurations, the step relation of all schedules, the
      adequacy of [wp] for them, termination and deadlock freedom;
    - [QueueRunner] (engine/queue_runner.rs): enqueue all, then work the queue;
    - [Footprint]: which calls each executor can make;
    - [Runner] (engine/runner.rs, [EngineConfig] of engine/mod.rs): [Engine]
      and its builder, [run], [run_with_cancellation], rollback, heartbeat;
    - [EndToEnd]: the engine over all schedules and any lawful store;
    - [Distributed] (engine/distributed.rs): the coordinator of a distributed
      run; [Fleet]: the coordinator with a worker per node, the queues of the
      fleet and the channel of results, as a step relation; [RunDistributed]
      (engine/runner.rs): [run_distributed];
    - [SubFlow] (engine/mod.rs): [sub_flow_handler], which runs a stored flow in
      an engine of its own;
    - [Durable]: [run] with the SQL-backed sink, its background writer, a dialect
      and the derived codec;
    - [Hardware] (engine/hardware.rs, and what the feature adds to step.rs,
      engine/mod.rs and engine/runner.rs): requirements, the check of the entry
      points, the effective concurrency; [AiHwaccel] is the crate it calls.

    The MCP server (mcp/), whose tools are programs over the calls of the
    operating system:
    - [RustPath], [Float]: lines, words, [std::path], and the arithmetic and the
      text of [f64], which the tools call;
    - [Mcp] (mcp/mod.rs): the [Tool] interface, responses and error codes, the
      calls [io] with [io_legal], what is documented of their answers, the
      computations [mcp] with their weakest precondition [mwp], and the class
      [ToolLaws] of what every tool promises;
    - [McpPaths] (mcp/mod.rs): [validate_path] and the sandbox, with the class
      [Confined] of the tools that keep to it;
    - [McpWorkflow] (mcp/tools/state_tools.rs, step_tools.rs, flow_tools.rs,
      engine_tools.rs), [McpMath] (math_tools.rs), [McpConvert]
      (conversion_tools.rs), [McpText] (template_tools.rs, encoding_tools.rs,
      json_tools.rs, the URL encoding of net_tools.rs), [McpFiles]
      (file_tools.rs, hash_tools.rs, the word counter), [McpProcess]
      (process_tools.rs, system_tools.rs), [McpGit] (git_tools.rs), [McpNet]
      (net_tools.rs, pool.rs): a definition and a call per tool, as in the code;
    - [McpTenant] (tenant.rs): the registry of tenants and its checks;
      [TenantCodec]: what serde derives for them;
    - [McpTools] (mcp/tools/mod.rs, mcp/mod.rs): [all_tools], [register_tools],
      and what holds of every tool.

    The repository's own tests, over the definitions above, with concrete
    instances of the libraries (a test is the list of its assertions, and keeps
    its name):
    - [ConformKit]: tests, assertions, JSON literals;
    - [ConformCondition]: the tests of condition.rs;
    - [ConformDefs]: those of tests/mod.rs, state.rs, step.rs, flow.rs, storage.rs,
      migration.rs, bus.rs, stream.rs and sql_store.rs;
    - [ConformProps]: the property tests, for every input rather than the
      generated ones, the fuzz targets (fuzz/) and the programs of examples/
      with what they print;
    - [ConformEngine]: the tests of engine/mod.rs, whole runs of the engine under
      one fair schedule; [ConformStores]: those of engine/distributed.rs, and the
      run of an engine over the SQL store; [ConformHardware]: those of
      engine/hardware.rs, on every machine, and of metrics.rs;
    - [ConformText], [ConformLib]: libraries of the tools as functions that
      compute (JSON text, UUIDs, Base64, SHA-256, MD5, a token bucket), written
      from their public formats; with them [ConformMcp] has the tests of the tools
      that compute, [ConformSystem] those of the sandbox and of the tools that call
      the system, on a concrete machine, and [ConformTenant] those of mcp/pool.rs
      and mcp/tenant.rs.

    The flow of control is the code's: [Runner.run] calls [Flow.validate],
    announces and records the flow, hands the steps to the executor of the
    flow's mode (or to [QueueRunner.run_queued]), which calls
    [StepExec.execute_step] for each step it runs and [Condition.evaluate]
    through the cache for each condition, then rolls back, reports, records.

    ** How the code is represented

    Pure functions are functions; [Result] is [result]; a panic is [None] or the
    [Panicked] outcome of a [prog], and [finally] is a drop guard.  A struct is
    a record; a [HashMap] is a [gmap], and what depends on its iteration order
    takes that order from [HashOrder].  [u64] and [u32] are integers whose
    saturation and wrap-around are written out; whether an overflow panics is
    the build's choice ([BuildProfile]).  Shared state behind a lock is the
    contents, passed explicitly.  Handlers, clocks, the token, the pubsub hub,
    the queue, the store and the condition cache (which other threads also
    fill) answer as the environment likes, within what [legal] says of them: a
    handler awaited without a limit does not time out, a cached condition is
    the compiled one, a task is joined with an outcome of its step.  Nothing is
    assumed of clocks and tokens.  Concurrency is a relation on configurations:
    any enabled party may move, so a theorem about reachable configurations
    holds under every schedule.

    The crate is taken with the features [majra] (the metrics, the queue and the
    heartbeat), [sqlite] and [postgres]; [Hardware] adds what [hardware] changes
    to the build without it.

    ** What the theorems show

    - Whole runs ([EndToEnd]): [engine_correct] (a run meets the promise of its
      mode, success means no failed step), [engine_terminates] (finite
      schedules, no deadlock, bounded concurrency), [every_step_accounted],
      [run_persists] (what the store holds after a run, for every lawful
      store), [queued_run_record_stale]; [run_durable] ([Durable]): what the
      database holds after a run, however the writer interleaves.
    - The hardware build: [hardware_respected] (a run with its devices is the run
      of the other builds, one without them calls nothing),
      [effective_concurrency_greatest].
    - Distributed runs ([Fleet], [RunDistributed]): [distributed_correct] under
      every schedule and placement, [run_distributed_correct],
      [run_distributed_can_end] (from everywhere), [lost_result_stalls].
    - Sub-flows: [sub_flow_handler_correct].
    - The engine's sequence of calls ([Runner]): [run_does],
      [run_with_cancellation_does], [rollback_in_reverse], [heartbeat_released],
      [run_error_iff_invalid].
    - Executors: [dag_correct] and [dag_dependencies_first], [parallel_correct],
      [sequential_run], [hierarchical_run], [queued_run]: each result of a run
      has its reason, and no step runs before or without what it needs.
    - One step ([StepExec]): [execute_step_story], the number of attempts and
      the delays between them, the overflow of the attempt count.
    - Validation: [validate_iff_spec], [cycle_detected_iff].
    - Conditions: tokenizer, parser and printer against a declarative lexical
      specification and grammar ([compile_iff_denotes],
      [parser_accepts_grammar], [parse_print]), the meaning of the common
      condition ([status_condition_correct]), transparency of the cache, the
      template language.
    - Stores: the in-memory and the SQL-backed store as refinements of a history
      of saves and removals; [sink_durable] under every interleaving with the
      writer; [sql_store_correct] down to the statements of both dialects;
      workflow lookup; migration.
    - Codecs: [flow_json_roundtrip] (definitions survive JSON, also old ones),
      [deep_record_stuck] (a record too deep to be read back stays for ever).
    - Messages: [hub_delivers] (what a subscriber of the progress hub gets and
      misses), [progress_reaches_client] (from a handler to an SSE client),
      [event_routing] (what each pattern of the event bus selects).
    - The MCP server ([McpTools]): [tools_keep_promises] (every tool answers
      responses, refuses missing fields, stays in the sandbox and does not panic,
      but for [szal_file_read]), [tools_registered]; what single tools do:
      [math_eval_correct] against a grammar, [flow_tools_build],
      [state_tools_faithful], [result_inspect_agrees], [exec_tool_runs],
      [http_guarded], [git_no_injection], [file_read_answers],
      [dir_list_bounded], [blame_counts], [tenant_isolation], and round trips
      ([encodings_roundtrip], [base_convert_roundtrip], [duration_roundtrip],
      [split_join_roundtrip], [git_log_roundtrip], [http_response_roundtrip]).

    - The tests ([Conform*]): every assertion the authors make of the modelled
      code holds of the model, and every input of the fuzz targets is survived
      ([fuzz_flow_validate_holds], [fuzz_state_transitions_holds]).

    ** Fuel

    Recursion that is not structural takes fuel, and a theorem says that the
    fuel used is enough.
    - [tokenize] and [render_template]: one unit per byte, each turn consumes
      one;
    - [parse_expr]: [parse_fuel], five units per token (the depth of the five
      grammar levels) and five more;
    - the cycle search: [cycle_fuel], one unit per id mentioned, each descent
      visits a new one;
    - [migrate_to]: [migrate_fuel], the distance to the target version, which
      each migration shortens;
    - [dag_loop]: one unit per step, each batch deals with one at least;
    - [worker_loop]: any number above that of the steps when the queue is the
      run's own; the fuel of [run] is this one, and other modes ignore it;
    - [submit_ready] and [coordinate]: one unit per step, each turn submits or
      receives one;
    - [math_eval]: one unit per byte for the tokenizer, [eval_fuel] for the
      evaluator, three units per token and three more ([eval_tokens_total]);
    - [list_entries]: the entries still to be collected and one more, each turn
      but the last collects one; [collect_dir]: the levels of
      [MAX_DIR_DEPTH];
    - [split_loop], [trim_start_matches_loop], [utf8_valid_loop]: the length of
      the text; [digits]: the bits of the number; in [Float], 17 digits and 400
      powers of ten, which every [f64] is within;
    - [read_step_fuel]: the depth of the JSON value and one more, each level of
      sub-steps is deeper ([read_step_fuel_enough]);
    - [drive] of [Pool] runs a configuration under one schedule, in examples;
      [played] and [turns] do in the tests (2000 moves of a pool, 400
      turns of each worker: the runs end before, or the test would not pass).
    - [read_json] of [ConformText]: two units per byte of the text.

    ** What is not modelled

    - the [Debug] implementations but that of [HardwareContext], which only
      tracing uses;
    - the channels of tokio and majra, the database and the detection of
      hardware: libraries, each a class with its documented behaviour and a
      concrete instance;
    - the dispatch of the MCP server (the crate bote) and the rate limiter
      (majra), which are parameters with their documented behaviour, as are the
      digests, Base64 and the calendar; what other programs do to the file
      system between two calls of a tool is any answer of the system, but a path
      is not resolved again by the call that opens it: links that are made
      after a path was validated are out of the model, and paths are UTF-8;
    - the depth of the machine's stack, in the recursive evaluators;
    - [tracing], serde_json's printer and parser, the tokio runtime itself:
      libraries, which appear as parameters or as the environment;
    - the port to another language under [src/], the benches, and the module
      declarations of the crate root. *)

From Stdlib Require Import ZArith Lia Ascii.
From stdpp Require Import base tactics option list strings gmap.

Open Scope Z_scope.

(** ** Results

    Rust's [Result<T, E>], with the [?] operator as [let?]. *)

Inductive result (T E : Type) : Type :=
| Ok (t : T)
| Err (e : E).
Arguments Ok {T E} t.
Arguments Err {T E} e.

Definition result_bind {A B E} (m : result A E) (k : A -> result B E) : result B E :=
  match m with Ok a => k a | Err e => Err e end.

Definition is_ok {A E} (m : result A E) : bool :=
  match m with Ok _ => true | Err _ => false end.

Definition map_err {A E F} (f : E -> F) (m : result A E) : result A F :=
  match m with Ok a => Ok a | Err e => Err (f e) end.

Definition ok_or {A E} (o : option A) (e : E) : result A E :=
  match o with Some a => Ok a | None => Err e end.

Declare Scope szal_scope.
Delimit Scope szal_scope with szal.
Notation "'let?' x ':=' c 'in' k" := (result_bind c (fun x => k))
  (at level 10, x pattern, c at level 100, k at level 200,
   format "'let?'  x  ':='  c  'in' '//' k") : szal_scope.
Open Scope szal_scope.

#[export] Instance result_eq_dec {A E} `{EqDecision A, EqDecision E} :
  EqDecision (result A E).
Proof. solve_decision. Defined.

(** ** Machine integers

    Fixed-width Rust integers are [Z] values; the widths the code uses and the
    operations of [core::num] it calls. *)

Definition u32_max : Z := 2 ^ 32 - 1.
Definition u64_max : Z := 2 ^ 64 - 1.
Definition usize_max : Z := 2 ^ 64 - 1.

Definition in_u32 (n : Z) : Prop := 0 <= n <= u32_max.
Definition in_u64 (n : Z) : Prop := 0 <= n <= u64_max.

(** [u64::saturating_mul] *)
Definition sat_mul_u64 (a b : Z) : Z := Z.min (a * b) u64_max.

(** [uN::saturating_sub] *)
Definition sat_sub (a b : Z) : Z := Z.max (a - b) 0.

(** [u64::checked_shl]: [None] when the shift amount reaches the width, the
    bits shifted out are lost otherwise. *)
Definition checked_shl_u64 (a s : Z) : option Z :=
  if s <? 64 then Some (Z.land (Z.shiftl a s) u64_max) else None.

Lemma sat_mul_u64_range a b : 0 <= a -> 0 <= b -> in_u64 (sat_mul_u64 a b).
Proof. unfold in_u64, sat_mul_u64, u64_max. intros. nia. Qed.

Lemma sat_sub_range a b m : 0 <= a <= m -> 0 <= b -> 0 <= sat_sub a b <= m.
Proof. unfold sat_sub. lia. Qed.

Lemma checked_shl_one s :
  0 <= s -> s < 64 -> checked_shl_u64 1 s = Some (2 ^ s).
Proof.
  intros H0 H. unfold checked_shl_u64. rewrite (proj2 (Z.ltb_lt _ _) H).
  rewrite Z.shiftl_1_l. f_equal. unfold u64_max.
  replace (2 ^ 64 - 1) with (Z.ones 64) by reflexivity.
  rewrite Z.land_ones by lia. apply Z.mod_small. split; [lia|].
  apply Z.pow_lt_mono_r; lia.
Qed.

(** ** Association-list lookup (first binding wins) *)

Fixpoint assoc {V} (k : string) (l : list (string * V)) : option V :=
  match l with
  | [] => None
  | (k', v) :: l => if decide (k = k') then Some v else assoc k l
  end.

(** ** Lists *)

Lemma elem_of_rev {A} (x : A) (l : list A) : x ∈ rev l <-> x ∈ l.
Proof. by rewrite !list_elem_of_In, <- in_rev. Qed.

(** The boolean filter of the Standard Library keeps the order. *)
Lemma sublist_list_filter {A} (p : A -> bool) (l : list A) : List.filter p l `sublist_of` l.
Proof.
  induction l as [|x l IH]; cbn; [done|]. destruct (p x); by constructor.
Qed.

(** ** Decimal text of integers ([Display] of the integer types) *)

Definition digit_char (n : Z) : ascii := ascii_of_N (Z.to_N (48 + n)).

Fixpoint decimal_digits (fuel : nat) (n : Z) (acc : string) : string :=
  match fuel with
  | O => acc
  | S fuel =>
      let acc := String (digit_char (n mod 10)) acc in
      if n <? 10 then acc else decimal_digits fuel (n / 10) acc
  end.

Definition show_Z (n : Z) : string :=
  if n <? 0 then "-" +:+ decimal_digits (S (Z.to_nat (Z.log2 (- n)))) (- n) ""
  else decimal_digits (S (Z.to_nat (Z.log2 n))) n "".

Example show_Z_u64_max : show_Z u64_max = "18446744073709551615".
Proof. reflexivity. Qed.
Example show_Z_negative : show_Z (-120) = "-120".
Proof. reflexivity. Qed.

(** ** Hints and tactics shared by the components *)

Create HintDb szal.
Create Rewrite HintDb szal.
#[export] Hint Resolve sat_mul_u64_range sat_sub_range : szal.

(** Case analysis on every [match] or [if] of the goal. *)
Ltac cases :=
  repeat (case_match; simplify_eq/=; try done).
