(* ===== verification/RustStr.v ===== *)
(** * Strings and floats of the Rust standard library

    A [&str] is its UTF-8 byte sequence: a Rocq [string], scanned as a
    [list ascii].  This file holds the [core::str] and [f64] operations the
    engine calls: ASCII classes, [trim], [split], [find], decimal parsing of
    [f64] (correctly rounded, on the binary64 numbers of [SpecFloat]). *)

From Stdlib Require Import ZArith Lia Ascii SpecFloat.
From stdpp Require Import base tactics option list strings.
From S2P Require Import Prelude.

Open Scope Z_scope.

Definition as_bytes (s : string) : list ascii := String.list_ascii_of_string s.
Definition from_bytes (l : list ascii) : string := String.string_of_list_ascii l.

Lemma from_as_bytes s : from_bytes (as_bytes s) = s.
Proof. apply String.string_of_list_ascii_of_string. Qed.

Lemma as_from_bytes l : as_bytes (from_bytes l) = l.
Proof. apply String.list_ascii_of_string_of_list_ascii. Qed.

Lemma as_bytes_inj s t : as_bytes s = as_bytes t -> s = t.
Proof. intros H. by rewrite <- (from_as_bytes s), H, from_as_bytes. Qed.

Lemma as_bytes_app s t : as_bytes (s +:+ t) = as_bytes s ++ as_bytes t.
Proof.
  unfold as_bytes. induction s as [|c s IH]; [done|].
  change (String c s +:+ t) with (String c (s +:+ t)). cbn. by rewrite IH.
Qed.

#[export] Hint Rewrite from_as_bytes as_from_bytes as_bytes_app : szal.

(** ** Byte classes *)

Definition code (c : ascii) : Z := Z.of_N (N_of_ascii c).

Definition between (lo hi : Z) (c : ascii) : bool := (lo <=? code c) && (code c <=? hi).

Definition is_ascii (c : ascii) : bool := code c <? 128.
Definition is_ascii_digit : ascii -> bool := between 48 57.
Definition is_ascii_alphabetic (c : ascii) : bool := between 65 90 c || between 97 122 c.
Definition is_ascii_alphanumeric (c : ascii) : bool :=
  is_ascii_alphabetic c || is_ascii_digit c.

(** [u8::is_ascii_whitespace]: space, tab, line feed, form feed, return. *)
Definition is_ascii_whitespace (c : ascii) : bool :=
  (code c =? 32) || (code c =? 9) || (code c =? 10) || (code c =? 12) || (code c =? 13).

Definition eqc (c d : ascii) : bool := bool_decide (c = d).

(** ** [str::trim]: Unicode [White_Space], decoded from UTF-8 *)

Definition ws1 (a : ascii) : bool := between 9 13 a || (code a =? 32).
Definition ws2 (a b : ascii) : bool :=
  (code a =? 194) && ((code b =? 133) || (code b =? 160)).
Definition ws3 (a b c : ascii) : bool :=
  ((code a =? 225) && (code b =? 154) && (code c =? 128)) ||
  ((code a =? 226) && (code b =? 128) &&
     (between 128 138 c || (code c =? 168) || (code c =? 169) || (code c =? 175))) ||
  ((code a =? 226) && (code b =? 129) && (code c =? 159)) ||
  ((code a =? 227) && (code b =? 128) && (code c =? 128)).

Fixpoint trim_start_bytes (l : list ascii) : list ascii :=
  match l with
  | [] => []
  | a :: l1 =>
      if ws1 a then trim_start_bytes l1
      else match l1 with
           | [] => l
           | b :: l2 =>
               if ws2 a b then trim_start_bytes l2
               else match l2 with
                    | [] => l
                    | c :: l3 => if ws3 a b c then trim_start_bytes l3 else l
                    end
           end
  end.

(** The same scan on the reversed bytes. *)
Fixpoint trim_end_rev (l : list ascii) : list ascii :=
  match l with
  | [] => []
  | a :: l1 =>
      if ws1 a then trim_end_rev l1
      else match l1 with
           | [] => l
           | b :: l2 =>
               if ws2 b a then trim_end_rev l2
               else match l2 with
                    | [] => l
                    | c :: l3 => if ws3 c b a then trim_end_rev l3 else l
                    end
           end
  end.

Definition trim_bytes (l : list ascii) : list ascii :=
  rev (trim_end_rev (rev (trim_start_bytes l))).

Definition str_trim (s : string) : string := from_bytes (trim_bytes (as_bytes s)).

Lemma ws1_is_ascii a : ws1 a = true -> is_ascii a = true.
Proof. unfold ws1, is_ascii, between. lia. Qed.

Lemma ws2_high a b : ws2 a b = true -> is_ascii a = false /\ is_ascii b = false.
Proof. unfold ws2, is_ascii. lia. Qed.

Lemma ws3_high a b c :
  ws3 a b c = true -> is_ascii a = false /\ is_ascii b = false /\ is_ascii c = false.
Proof. unfold ws3, is_ascii, between. lia. Qed.

(** A string that starts and ends with a plain ASCII character is left alone. *)
Lemma trim_start_solid a l :
  is_ascii a = true -> ws1 a = false -> trim_start_bytes (a :: l) = a :: l.
Proof.
  intros Ha Hw. cbn. rewrite Hw. destruct l as [|b l]; [done|].
  destruct (ws2 a b) eqn:E2; [apply ws2_high in E2; intuition congruence|].
  destruct l as [|c l]; [done|].
  destruct (ws3 a b c) eqn:E3; [apply ws3_high in E3; intuition congruence|done].
Qed.

Lemma trim_end_rev_solid a l :
  is_ascii a = true -> ws1 a = false -> trim_end_rev (a :: l) = a :: l.
Proof.
  intros Ha Hw. cbn. rewrite Hw. destruct l as [|b l]; [done|].
  destruct (ws2 b a) eqn:E2; [apply ws2_high in E2; intuition congruence|].
  destruct l as [|c l]; [done|].
  destruct (ws3 c b a) eqn:E3; [apply ws3_high in E3; intuition congruence|done].
Qed.

Definition solid (c : ascii) : bool := is_ascii c && negb (ws1 c).

Lemma trim_bytes_solid a l z :
  solid a = true -> solid z = true -> rev (a :: l) = z :: rev (removelast (a :: l)) ->
  trim_bytes (a :: l) = a :: l.
Proof.
  unfold solid. intros Ha Hz Hr. unfold trim_bytes.
  rewrite trim_start_solid by (destruct (is_ascii a), (ws1 a); done).
  rewrite Hr, trim_end_rev_solid, <- Hr by (destruct (is_ascii z), (ws1 z); done).
  apply rev_involutive.
Qed.

(** ** Scanning *)

(** The longest prefix whose bytes satisfy [p], and the rest. *)
Fixpoint span (p : ascii -> bool) (l : list ascii) : list ascii * list ascii :=
  match l with
  | [] => ([], [])
  | a :: l' =>
      if p a then let '(t, r) := span p l' in (a :: t, r) else ([], l)
  end.

Lemma span_app p l : (span p l).1 ++ (span p l).2 = l.
Proof.
  induction l as [|a l IH]; [done|]. cbn. destruct (p a); [|done].
  destruct (span p l) as [t r]. cbn in *. by rewrite IH.
Qed.

Lemma span_length p l : (length (span p l).2 <= length l)%nat.
Proof. rewrite <- (span_app p l) at 2. rewrite length_app. lia. Qed.

Lemma span_all p t r :
  forallb p t = true -> (match r with [] => true | a :: _ => negb (p a) end) = true ->
  span p (t ++ r) = (t, r).
Proof.
  intros Ht Hr. induction t as [|a t IH]; cbn in *.
  - destruct r as [|a r]; [done|]. cbn. by destruct (p a).
  - apply andb_prop in Ht as [-> Ht]. by rewrite (IH Ht).
Qed.

#[export] Hint Resolve span_length : szal.

(** [str::split(c)] for an ASCII separator: always at least one piece. *)
Fixpoint split_bytes (sep : ascii) (l : list ascii) : list (list ascii) :=
  match l with
  | [] => [[]]
  | a :: l' =>
      if eqc a sep then [] :: split_bytes sep l'
      else match split_bytes sep l' with
           | [] => [[a]]
           | p :: ps => (a :: p) :: ps
           end
  end.

Definition split_on (sep : ascii) (s : string) : list string :=
  from_bytes <$> split_bytes sep (as_bytes s).

(** [pieces.join(sep)] *)
Fixpoint join_bytes (sep : ascii) (ps : list (list ascii)) : list ascii :=
  match ps with
  | [] => []
  | [p] => p
  | p :: ps => p ++ sep :: join_bytes sep ps
  end.

Lemma split_bytes_cons sep l : exists p ps, split_bytes sep l = p :: ps.
Proof.
  destruct l as [|a l]; cbn; [eauto|].
  destruct (eqc a sep); [eauto|]. destruct (split_bytes sep l); eauto.
Qed.

Lemma join_split sep l : join_bytes sep (split_bytes sep l) = l.
Proof.
  induction l as [|a l IH]; [done|]. cbn.
  destruct (split_bytes_cons sep l) as (p & ps & E). rewrite E in *.
  destruct (eqc a sep) eqn:Ea.
  - apply bool_decide_eq_true in Ea as ->. cbn. by rewrite <- IH.
  - destruct ps; cbn in *; by rewrite <- IH.
Qed.

Lemma split_bytes_none sep l :
  forallb (fun a => negb (eqc a sep)) l = true -> split_bytes sep l = [l].
Proof.
  induction l as [|a l IH]; [done|]. cbn. intros [Ha Hl]%andb_prop.
  rewrite (IH Hl). by destruct (eqc a sep).
Qed.

Lemma split_bytes_app sep p l :
  forallb (fun a => negb (eqc a sep)) p = true ->
  split_bytes sep (p ++ sep :: l) = p :: split_bytes sep l.
Proof.
  intros H. induction p as [|a p IH]; cbn in *.
  - unfold eqc. by rewrite bool_decide_eq_true_2.
  - apply andb_prop in H as [Ha Hp]. rewrite (IH Hp). by destruct (eqc a sep).
Qed.

(** [str::find(pattern)]: byte offset of the first occurrence. *)
Fixpoint starts_with (p l : list ascii) : bool :=
  match p, l with
  | [], _ => true
  | a :: p, b :: l => eqc a b && starts_with p l
  | _ :: _, [] => false
  end.

Fixpoint find_bytes (p l : list ascii) : option nat :=
  if starts_with p l then Some 0%nat
  else match l with
       | [] => None
       | _ :: l' => S <$> find_bytes p l'
       end.

Lemma starts_with_app p l : starts_with p (p ++ l) = true.
Proof.
  induction p as [|a p IH]; [done|]. cbn. rewrite IH. unfold eqc.
  by rewrite bool_decide_eq_true_2.
Qed.

Lemma find_bytes_spec p l n :
  find_bytes p l = Some n -> (n <= length l)%nat /\ starts_with p (drop n l) = true.
Proof.
  revert n. induction l as [|a l IH]; intros n; cbn [find_bytes].
  - destruct (starts_with p []) eqn:E; [|done]. intros [= <-]. split; [cbn; lia|done].
  - destruct (starts_with p (a :: l)) eqn:E.
    + intros [= <-]. split; [cbn; lia|done].
    + destruct (find_bytes p l) as [m|]; [|done]. intros [= <-].
      destruct (IH m eq_refl). split; [cbn; lia|done].
Qed.

(** ** Binary64 *)

Definition f64 : Type := spec_float.
Definition f64_prec : Z := 53.
Definition f64_emax : Z := 1024.

Definition digit_val (c : ascii) : Z := code c - 48.

Definition digits_val (l : list ascii) : Z :=
  fold_left (fun n c => n * 10 + digit_val c) l 0.

(** [m / 10^k] rounded to the nearest binary64, ties to even. *)
Definition f64_of_decimal (m : Z) (k : Z) : f64 :=
  match m with
  | Zpos p =>
      SFdiv f64_prec f64_emax (S754_finite false p 0)
            (S754_finite false (Z.to_pos (10 ^ k)) 0)
  | _ => S754_zero false
  end.

Definition f64_of_Z (n : Z) : f64 := binary_normalize f64_prec f64_emax n 0 false.

Definition f64_eqb (a b : f64) : bool := SFeqb a b.

(** [f64::partial_cmp] *)
Definition f64_partial_cmp (a b : f64) : option comparison := SFcompare a b.

Definition f64_is_finite (a : f64) : bool :=
  match a with S754_zero _ | S754_finite _ _ _ => true | _ => false end.

(** [str::parse::<f64>] on the strings [D], [D.], [.D] and [D.D] ([D] a
    non-empty run of digits, with an optional sign): what the engine's two
    tokenizers can pass.  Anything else they can pass is an error. *)
Definition parse_unsigned_f64 (l : list ascii) : option f64 :=
  let '(ip, r) := span is_ascii_digit l in
  match r with
  | [] => if decide (ip = []) then None else Some (f64_of_decimal (digits_val ip) 0)
  | c :: r' =>
      if eqc c "."%char then
        let '(fp, r'') := span is_ascii_digit r' in
        if decide (r'' = []) then
          if decide (ip ++ fp = []) then None
          else Some (f64_of_decimal (digits_val (ip ++ fp)) (Z.of_nat (length fp)))
        else None
      else None
  end.

Definition parse_f64 (l : list ascii) : option f64 :=
  match l with
  | c :: l' =>
      if eqc c "-"%char then SFopp <$> parse_unsigned_f64 l' else parse_unsigned_f64 l
  | [] => None
  end.

Example parse_f64_tenth :
  parse_f64 (as_bytes "0.1") = Some (S754_finite false 7205759403792794 (-56)).
Proof. vm_compute. reflexivity. Qed.

(** A run of digits, alone or with a fractional part, always parses. *)
Lemma parse_f64_digits d :
  d <> [] -> forallb is_ascii_digit d = true -> is_Some (parse_f64 d).
Proof.
  intros Hne Hd. destruct d as [|c d]; [done|]. unfold parse_f64.
  assert (Hc : eqc c "-"%char = false).
  { cbn in Hd. apply andb_prop in Hd as [Hc _]. apply bool_decide_eq_false.
    by intros ->. }
  rewrite Hc. unfold parse_unsigned_f64.
  rewrite <- (app_nil_r (c :: d)). rewrite span_all by done.
  rewrite decide_False by done. eauto.
Qed.

Lemma parse_f64_decimal d e :
  d <> [] -> forallb is_ascii_digit d = true ->
  e <> [] -> forallb is_ascii_digit e = true ->
  is_Some (parse_f64 (d ++ "."%char :: e)).
Proof.
  intros Hne Hd Hne' He. destruct d as [|c d]; [done|]. unfold parse_f64. cbn [app].
  assert (Hc : eqc c "-"%char = false).
  { cbn in Hd. apply andb_prop in Hd as [Hc _]. apply bool_decide_eq_false.
    by intros ->. }
  rewrite Hc. unfold parse_unsigned_f64.
  rewrite (span_all _ (c :: d) ("."%char :: e)) by done.
  unfold eqc at 1. rewrite bool_decide_eq_true_2 by done.
  rewrite <- (app_nil_r e). rewrite span_all by done.
  rewrite decide_True by done. rewrite decide_False by done. eauto.
Qed.
