(* ===== verification/Json.v ===== *)
(** * The JSON library, as an interface

    [serde_json] is not part of the repository: the engine matches on its
    public [Value] enum and calls a handful of its functions.  [JsonNumber] and
    [JsonLib] are the operations the engine calls, parameters of every
    definition that uses them; [JsonLaws] states their documented behaviour,
    the hypothesis of the theorems that need it.  [SerdeModel] is a concrete
    instance, which the witnesses compute with. *)

From Stdlib Require Import ZArith Lia Ascii SpecFloat.
From stdpp Require Import base tactics option list strings.
From S2P Require Import Prelude RustStr.

Open Scope Z_scope.

(** [serde_json::Number] *)
Class JsonNumber := {
  Number : Type;
  number_eqb : Number -> Number -> bool;
  as_f64 : Number -> option f64;
  from_f64 : f64 -> option Number;
  number_of_u64 : Z -> Number
}.

(** [serde_json::Value].  An object is the list of its entries. *)
Inductive Value `{JsonNumber} : Type :=
| Null
| VBool (b : bool)
| VNumber (n : Number)
| VString (s : string)
| VArray (a : list Value)
| VObject (o : list (string * Value)).

Class JsonLib `{JsonNumber} := {
  (** [Value::get] with a string index *)
  value_get : Value -> string -> option Value;
  (** [Map::insert] *)
  map_insert : string -> Value -> list (string * Value) -> list (string * Value);
  (** [impl Display for Value]: compact JSON text *)
  value_to_string : Value -> string
}.

(** What the documentation of [serde_json] promises. *)
Class JsonLaws `{JL : JsonLib} : Prop := {
  value_get_object o k : value_get (VObject o) k = assoc k o;
  value_get_other v k :
    (forall o, v <> VObject o) -> value_get v k = None;
  assoc_map_insert k k' v o :
    assoc k' (map_insert k v o) = if decide (k' = k) then Some v else assoc k' o;
  from_f64_finite x :
    f64_is_finite x = true -> exists n, from_f64 x = Some n /\ as_f64 n = Some x;
  from_f64_not_finite x : f64_is_finite x = false -> from_f64 x = None
}.

Lemma assoc_map_insert_eq `{JsonLaws} k v o : assoc k (map_insert k v o) = Some v.
Proof. rewrite assoc_map_insert. by rewrite decide_True. Qed.

Lemma assoc_map_insert_ne `{JsonLaws} k k' v o :
  k' <> k -> assoc k' (map_insert k v o) = assoc k' o.
Proof. intros Hk. rewrite assoc_map_insert. by rewrite decide_False. Qed.

#[export] Hint Rewrite @value_get_object @assoc_map_insert_eq : szal.

(** [Value::as_str] is a match on the enum. *)
Definition as_str `{JsonNumber} (v : Value) : option string :=
  match v with VString s => Some s | _ => None end.

(** [json!({k: v, ...})]: keys inserted in the order written. *)
Definition json_object `{JsonLib} (l : list (string * Value)) : list (string * Value) :=
  fold_left (fun o '(k, v) => map_insert k v o) l [].

(** [json!] of an [Option<String>] *)
Definition json_opt_string `{JsonNumber} (o : option string) : Value :=
  match o with Some s => VString s | None => Null end.

(** ** A concrete instance *)

Module SerdeModel.

Inductive Num : Type := PosInt (n : Z) | NegInt (n : Z) | Float (x : f64).

Definition num_eqb (a b : Num) : bool :=
  match a, b with
  | PosInt n, PosInt m | NegInt n, NegInt m => n =? m
  | Float x, Float y => f64_eqb x y
  | _, _ => false
  end.

Definition num_as_f64 (a : Num) : option f64 :=
  match a with
  | PosInt n | NegInt n => Some (f64_of_Z n)
  | Float x => Some x
  end.

#[export] Instance serde_number : JsonNumber := {|
  Number := Num;
  number_eqb := num_eqb;
  as_f64 := num_as_f64;
  from_f64 x := if f64_is_finite x then Some (Float x) else None;
  number_of_u64 n := PosInt n
|}.

Definition get (v : Value) (k : string) : option Value :=
  match v with VObject o => assoc k o | _ => None end.

Fixpoint insert (k : string) (v : Value) (o : list (string * Value))
  : list (string * Value) :=
  match o with
  | [] => [(k, v)]
  | (k', v') :: o => if decide (k = k') then (k, v) :: o else (k', v') :: insert k v o
  end.

Definition text (v : Value) : string :=
  match v with
  | Null => "null"
  | VBool true => "true"
  | VBool false => "false"
  | VNumber (PosInt n) | VNumber (NegInt n) => show_Z n
  | VNumber (Float _) => "0.0"
  | VString s => s
  | VArray _ => "[]"
  | VObject _ => "{}"
  end.

#[export] Instance serde_lib : JsonLib := {|
  value_get := get; map_insert := insert; value_to_string := text
|}.

Lemma assoc_insert k k' v o :
  assoc k' (insert k v o) = if decide (k' = k) then Some v else assoc k' o.
Proof.
  induction o as [|[k1 v1] o IH]; cbn.
  - done.
  - destruct (decide (k = k1)) as [->|Hk]; cbn.
    + by destruct (decide (k' = k1)).
    + rewrite IH. destruct (decide (k' = k1)), (decide (k' = k)); congruence.
Qed.

#[export] Instance serde_laws : JsonLaws.
Proof.
  split.
  - done.
  - intros [] k Hv; try done. by destruct (Hv o).
  - intros. apply assoc_insert.
  - intros x Hx. exists (Float x). cbn. by rewrite Hx.
  - intros x Hx. cbn. by rewrite Hx.
Qed.

End SerdeModel.
