(* ===== verification/State.v ===== *)
(** * Workflow state machine

    [WorkflowState] of [rust-old/src/state.rs]: the states, which of them are
    terminal, the transitions the machine admits and the textual form. *)

From S2P Require Import Prelude.
From Stdlib Require Import Lia.
From stdpp Require Import base tactics list strings.

Module WorkflowState.

Inductive t : Type :=
| Created | Running | Paused | Completed | Failed | RollingBack | RolledBack
| Cancelled.

#[export] Instance eq_dec : EqDecision t.
Proof. solve_decision. Defined.

Definition is_terminal (s : t) : bool :=
match s with
| Completed | RolledBack | Cancelled => true
| _ => false
end.

Definition valid_transition (s to : t) : bool :=
match s, to with
| Created, Running
| Running, Paused
| Running, Completed
| Running, Failed
| Running, Cancelled
| Running, RollingBack
| Paused, Running
| Paused, Cancelled
| Failed, RollingBack
| RollingBack, RolledBack
| RollingBack, Failed => true
| _, _ => false
end.

(** [impl Display for WorkflowState] *)
Definition fmt (s : t) : string :=
match s with
| Created => "created"
| Running => "running"
| Paused => "paused"
| Completed => "completed"
| Failed => "failed"
| RollingBack => "rolling_back"
| RolledBack => "rolled_back"
| Cancelled => "cancelled"
end.

(** ** Runs of the machine *)

(** One admitted move. *)
Definition moves (s u : t) : Prop := valid_transition s u = true.

(** A sequence of states each reached from the previous one. *)
Inductive lifecycle : t -> list t -> t -> Prop :=
| lifecycle_here s : lifecycle s [] s
| lifecycle_move s m l u :
  valid_transition s m = true -> lifecycle m l u -> lifecycle s (m :: l) u.

Definition all_states : list t :=
[Created; Running; Paused; Completed; Failed; RollingBack; RolledBack; Cancelled].

Lemma all_states_complete s : s ∈ all_states.
Proof. destruct s; unfold all_states; repeat constructor. Qed.

#[export] Hint Resolve all_states_complete : szal.

Lemma terminal_no_move s u : is_terminal s = true -> valid_transition s u = false.
Proof. by destruct s, u. Qed.

Lemma state_fmt_inj s u : fmt s = fmt u -> s = u.
Proof. by destruct s, u. Qed.

(** A state is terminal exactly when the machine admits no move out of it. *)
Lemma terminal_iff_no_outgoing s :
is_terminal s = true <-> forall u, valid_transition s u = false.
Proof.
split.
- intros H u. by apply terminal_no_move.
- intros H. destruct s; try done.
  + specialize (H Running). done.
  + specialize (H Paused). done.
  + specialize (H Running). done.
  + specialize (H RollingBack). done.
  + specialize (H RolledBack). done.
Qed.

End WorkflowState.

Export (hints) WorkflowState.
