(* ===== verification/Error.v ===== *)
(** * Errors

    [SzalError] of [rust-old/src/error.rs] with the messages [thiserror]
    derives from its attributes. *)

From Stdlib Require Import ZArith.
From stdpp Require Import base strings.
From S2P Require Import Prelude.

Open Scope Z_scope.

Inductive SzalError : Type :=
| StepFailed (step reason : string)
| StepTimeout (step : string) (timeout_ms : Z)
| InvalidFlow (msg : string)
| RetryExhausted (step : string) (attempts : Z)
| RollbackFailed (step reason : string)
| CycleDetected (flow : string)
| MigrationFailed (msg : string)
| HardwareUnavailable (step requirement : string)
| QueueError (msg : string)
| Other (msg : string).

#[export] Instance SzalError_eq_dec : EqDecision SzalError.
Proof. solve_decision. Defined.

(** [impl Display for SzalError] *)
Definition fmt_error (e : SzalError) : string :=
  match e with
  | StepFailed s r => "step failed: " +:+ s +:+ " — " +:+ r
  | StepTimeout s ms => "step timeout: " +:+ s +:+ " after " +:+ show_Z ms +:+ "ms"
  | InvalidFlow m => "flow invalid: " +:+ m
  | RetryExhausted s n =>
      "retry exhausted: " +:+ s +:+ " after " +:+ show_Z n +:+ " attempts"
  | RollbackFailed s r => "rollback failed: " +:+ s +:+ " — " +:+ r
  | CycleDetected f => "cycle detected in DAG: " +:+ f
  | MigrationFailed m => "migration failed: " +:+ m
  | HardwareUnavailable s r =>
      "hardware unavailable: step '" +:+ s +:+ "' requires " +:+ r +:+
        " but no matching device found"
  | QueueError m => "queue operation failed: " +:+ m
  | Other m => m
  end.
