(* ===== verification/Step.v ===== *)
(** * Workflow steps

    [rust-old/src/step.rs]: step definitions and their builder, the backoff
    arithmetic of retries, step results.  The [hardware] field exists only under
    the cargo feature of that name and is not part of this model. *)

From Stdlib Require Import ZArith Lia.
From stdpp Require Import base tactics option list strings gmap.
From S2P Require Import Prelude Json.

Open Scope Z_scope.

(** [uuid::Uuid], compared and hashed by value. *)
Definition Uuid : Type := N.
#[export] Instance Uuid_eq_dec : EqDecision Uuid := N.eq_dec.
#[export] Instance Uuid_countable : Countable Uuid := N_countable.

(** The text form of a [Uuid] and its parser ([uuid] crate). *)
Class UuidLib := {
  uuid_to_string : Uuid -> string;
  uuid_parse : string -> option Uuid
}.

(** Documented: parsing the text of an id gives the id back. *)
Class UuidLaws `{UuidLib} : Prop := {
  uuid_parse_to_string u : uuid_parse (uuid_to_string u) = Some u
}.

Definition StepId : Type := Uuid.
#[export] Instance StepId_eq_dec : EqDecision StepId := N.eq_dec.
#[export] Instance StepId_countable : Countable StepId := N_countable.

Module TriggerMode.
Inductive t : Type := All | Any.
#[export] Instance eq_dec : EqDecision t.
Proof. solve_decision. Defined.
End TriggerMode.

Module BackoffStrategy.
Inductive t : Type := Fixed | Linear | Exponential.
#[export] Instance eq_dec : EqDecision t.
Proof. solve_decision. Defined.

(** [BackoffStrategy::delay_ms]: [base_delay_ms] a [u64], [attempt] a [u32]
    counted from 1. *)
Definition delay_ms (b : t) (base_delay_ms attempt : Z) : Z :=
  match b with
  | Fixed => base_delay_ms
  | Linear => sat_mul_u64 base_delay_ms attempt
  | Exponential =>
      sat_mul_u64 base_delay_ms
        (default u64_max (checked_shl_u64 1 (sat_sub attempt 1)))
  end.
End BackoffStrategy.

Module StepStatus.
Inductive t : Type :=
| Pending | Running | Completed | Failed | Skipped | RolledBack.
#[export] Instance eq_dec : EqDecision t.
Proof. solve_decision. Defined.

(** [impl Display for StepStatus] *)
Definition fmt (s : t) : string :=
  match s with
  | Pending => "pending"
  | Running => "running"
  | Completed => "completed"
  | Failed => "failed"
  | Skipped => "skipped"
  | RolledBack => "rolled_back"
  end.

Lemma step_status_fmt_inj s u : fmt s = fmt u -> s = u.
Proof. by destruct s, u. Qed.
End StepStatus.

Export (hints) TriggerMode BackoffStrategy StepStatus.

Section Steps.
Context `{JN : JsonNumber}.

Inductive StepDef : Type := mkStepDef {
  id : StepId;
  name : string;
  description : string;
  timeout_ms : Z;
  max_retries : Z;
  retry_delay_ms : Z;
  backoff : BackoffStrategy.t;
  rollbackable : bool;
  step_type : option string;
  config : option Value;
  condition : option string;
  depends_on : list StepId;
  trigger_mode : TriggerMode.t;
  sub_steps : list StepDef
}.

(** [StepDef::new]; [fresh] is the id [Uuid::new_v4] returns. *)
Definition step_new (fresh : StepId) (nm : string) : StepDef := {|
  id := fresh;
  name := nm;
  description := "";
  timeout_ms := 30000;
  max_retries := 0;
  retry_delay_ms := 1000;
  backoff := BackoffStrategy.Fixed;
  rollbackable := false;
  step_type := None;
  config := None;
  condition := None;
  depends_on := [];
  trigger_mode := TriggerMode.All;
  sub_steps := []
|}.

Definition with_timeout (s : StepDef) (ms : Z) : StepDef :=
  {| id := id s; name := name s; description := description s;
     timeout_ms := ms; max_retries := max_retries s;
     retry_delay_ms := retry_delay_ms s; backoff := backoff s;
     rollbackable := rollbackable s; step_type := step_type s;
     config := config s; condition := condition s;
     depends_on := depends_on s; trigger_mode := trigger_mode s;
     sub_steps := sub_steps s |}.

Definition with_retries (s : StepDef) (max delay : Z) : StepDef :=
  {| id := id s; name := name s; description := description s;
     timeout_ms := timeout_ms s; max_retries := max;
     retry_delay_ms := delay; backoff := backoff s;
     rollbackable := rollbackable s; step_type := step_type s;
     config := config s; condition := condition s;
     depends_on := depends_on s; trigger_mode := trigger_mode s;
     sub_steps := sub_steps s |}.

Definition with_backoff (s : StepDef) (b : BackoffStrategy.t) : StepDef :=
  {| id := id s; name := name s; description := description s;
     timeout_ms := timeout_ms s; max_retries := max_retries s;
     retry_delay_ms := retry_delay_ms s; backoff := b;
     rollbackable := rollbackable s; step_type := step_type s;
     config := config s; condition := condition s;
     depends_on := depends_on s; trigger_mode := trigger_mode s;
     sub_steps := sub_steps s |}.

Definition with_rollback (s : StepDef) : StepDef :=
  {| id := id s; name := name s; description := description s;
     timeout_ms := timeout_ms s; max_retries := max_retries s;
     retry_delay_ms := retry_delay_ms s; backoff := backoff s;
     rollbackable := true; step_type := step_type s;
     config := config s; condition := condition s;
     depends_on := depends_on s; trigger_mode := trigger_mode s;
     sub_steps := sub_steps s |}.

(** The builder [StepDef::depends_on(step_id)]. *)
Definition with_dependency (s : StepDef) (d : StepId) : StepDef :=
  {| id := id s; name := name s; description := description s;
     timeout_ms := timeout_ms s; max_retries := max_retries s;
     retry_delay_ms := retry_delay_ms s; backoff := backoff s;
     rollbackable := rollbackable s; step_type := step_type s;
     config := config s; condition := condition s;
     depends_on := depends_on s ++ [d]; trigger_mode := trigger_mode s;
     sub_steps := sub_steps s |}.

Definition with_step_type (s : StepDef) (t : string) : StepDef :=
  {| id := id s; name := name s; description := description s;
     timeout_ms := timeout_ms s; max_retries := max_retries s;
     retry_delay_ms := retry_delay_ms s; backoff := backoff s;
     rollbackable := rollbackable s; step_type := Some t;
     config := config s; condition := condition s;
     depends_on := depends_on s; trigger_mode := trigger_mode s;
     sub_steps := sub_steps s |}.

Definition with_config (s : StepDef) (c : Value) : StepDef :=
  {| id := id s; name := name s; description := description s;
     timeout_ms := timeout_ms s; max_retries := max_retries s;
     retry_delay_ms := retry_delay_ms s; backoff := backoff s;
     rollbackable := rollbackable s; step_type := step_type s;
     config := Some c; condition := condition s;
     depends_on := depends_on s; trigger_mode := trigger_mode s;
     sub_steps := sub_steps s |}.

Definition with_condition (s : StepDef) (expr : string) : StepDef :=
  {| id := id s; name := name s; description := description s;
     timeout_ms := timeout_ms s; max_retries := max_retries s;
     retry_delay_ms := retry_delay_ms s; backoff := backoff s;
     rollbackable := rollbackable s; step_type := step_type s;
     config := config s; condition := Some expr;
     depends_on := depends_on s; trigger_mode := trigger_mode s;
     sub_steps := sub_steps s |}.

Definition with_trigger_mode (s : StepDef) (m : TriggerMode.t) : StepDef :=
  {| id := id s; name := name s; description := description s;
     timeout_ms := timeout_ms s; max_retries := max_retries s;
     retry_delay_ms := retry_delay_ms s; backoff := backoff s;
     rollbackable := rollbackable s; step_type := step_type s;
     config := config s; condition := condition s;
     depends_on := depends_on s; trigger_mode := m;
     sub_steps := sub_steps s |}.

Definition with_sub_step (s c : StepDef) : StepDef :=
  {| id := id s; name := name s; description := description s;
     timeout_ms := timeout_ms s; max_retries := max_retries s;
     retry_delay_ms := retry_delay_ms s; backoff := backoff s;
     rollbackable := rollbackable s; step_type := step_type s;
     config := config s; condition := condition s;
     depends_on := depends_on s; trigger_mode := trigger_mode s;
     sub_steps := sub_steps s ++ [c] |}.

Record StepResult : Type := mkStepResult {
  step_id : StepId;
  status : StepStatus.t;
  output : Value;
  duration_ms : Z;
  attempts : Z;
  error : option string
}.

(** ** Steps as trees

    The induction principle through [sub_steps], and the flattening of a
    definition. *)

Lemma StepDef_tree_ind (P : StepDef -> Prop) :
  (forall s, Forall P (sub_steps s) -> P s) -> forall s, P s.
Proof.
  intros Hs. fix IH 1. intros s. apply Hs. destruct s as [? ? ? ? ? ? ? ? ? ? ? ? ? l].
  cbn. induction l as [|c l IHl]; constructor; [apply IH|apply IHl].
Qed.

(** A step and all its descendants, parents first. *)
Fixpoint subtree (s : StepDef) : list StepDef :=
  s :: flat_map subtree (sub_steps s).

Definition forest (l : list StepDef) : list StepDef := flat_map subtree l.

Lemma subtree_unfold s : subtree s = s :: forest (sub_steps s).
Proof. by destruct s. Qed.

Lemma forest_cons s l : forest (s :: l) = subtree s ++ forest l.
Proof. done. Qed.

Lemma forest_app l k : forest (l ++ k) = forest l ++ forest k.
Proof. apply flat_map_app. Qed.

End Steps.

(** ** Backoff *)

Lemma checked_shl_one_default s :
  0 <= s -> default u64_max (checked_shl_u64 1 s) = Z.min (2 ^ Z.min s 64) u64_max.
Proof.
  intros Hs. destruct (Z.lt_ge_cases s 64) as [Hl|Hg].
  - rewrite checked_shl_one by done. cbn. rewrite (Z.min_l s 64) by lia.
    rewrite Z.min_l; [done|]. unfold u64_max.
    assert (2 ^ s < 2 ^ 64) by (apply Z.pow_lt_mono_r; lia). lia.
  - unfold checked_shl_u64. rewrite (proj2 (Z.ltb_ge _ _) Hg). cbn.
    rewrite (Z.min_r s 64) by lia. reflexivity.
Qed.

Lemma sat_mul_saturated b a :
  0 <= b -> 0 <= a -> sat_mul_u64 b (Z.min a u64_max) = sat_mul_u64 b a.
Proof.
  unfold sat_mul_u64, u64_max. intros Hb Ha.
  destruct (Z.le_ge_cases a (2 ^ 64 - 1)); [by rewrite (Z.min_l a) by lia|].
  rewrite (Z.min_r a) by lia. destruct (decide (b = 0)) as [->|]; [done|].
  rewrite !Z.min_r; nia.
Qed.

(** The retry delay is the mathematical formula of its strategy (constant,
    [base * attempt], [base * 2^(attempt-1)]) cut off at [u64::MAX]: it never
    wraps, for any attempt number a [u32] holds. *)
Theorem delay_ms_spec b base attempt :
  in_u64 base -> in_u32 attempt -> 1 <= attempt ->
  BackoffStrategy.delay_ms b base attempt =
    Z.min u64_max
      match b with
      | BackoffStrategy.Fixed => base
      | BackoffStrategy.Linear => base * attempt
      | BackoffStrategy.Exponential => base * 2 ^ (attempt - 1)
      end.
Proof.
  unfold in_u64, in_u32. intros Hb Ha H1. destruct b; cbn.
  - lia.
  - unfold sat_mul_u64. lia.
  - replace (sat_sub attempt 1) with (attempt - 1) by (unfold sat_sub; lia).
    rewrite checked_shl_one_default by lia.
    rewrite sat_mul_saturated by (try apply Z.pow_nonneg; lia).
    unfold sat_mul_u64. rewrite Z.min_comm.
    destruct (Z.le_ge_cases (attempt - 1) 64) as [Hl|Hg];
      [by rewrite (Z.min_l (attempt - 1)) by lia|].
    rewrite (Z.min_r (attempt - 1)) by lia.
    assert (2 ^ 64 <= 2 ^ (attempt - 1)) by (apply Z.pow_le_mono_r; lia).
    destruct (decide (base = 0)) as [->|]; [done|].
    unfold u64_max in *. rewrite !Z.min_l; [done|nia|nia].
Qed.

Lemma delay_ms_spec_witness :
  (in_u64 1000 /\ in_u32 70 /\ 1 <= 70) /\
  BackoffStrategy.delay_ms BackoffStrategy.Exponential 1000 70 = Z.min u64_max (1000 * 2 ^ (70 - 1)).
Proof.
  split; [unfold in_u64, in_u32, u64_max, u32_max; lia|].
  apply (delay_ms_spec BackoffStrategy.Exponential 1000 70);
    unfold in_u64, in_u32, u64_max, u32_max; lia.
Defined.
