(* ===== verification/CondLexer.v ===== *)
(** * Condition expressions: the tokenizer

    [tokenize] of [rust-old/src/condition.rs].  The cursor [i] into the byte
    slice is the list of bytes that remain; one iteration of the [while] loop is
    [lex], and [fuel] bounds the number of iterations. *)

From Stdlib Require Import ZArith Lia Ascii.
From stdpp Require Import base tactics option list strings.
From S2P Require Import Prelude RustStr.

Open Scope Z_scope.

Module Token.
Inductive t : Type :=
| Path (p : string)
| StringLit (s : string)
| NumberLit (n : f64)
| BoolLit (b : bool)
| Eq | NotEq | Gt | Gte | Lt | Lte | Not | And | Or | LParen | RParen.
End Token.

(** The [Err(String)] values of the module, one constructor per message. *)
Inductive CondError : Type :=
| UnterminatedString
| InvalidNumber (s : string)
| UnexpectedByte (b : ascii)
| UnexpectedChar (c : ascii)
| ExpectedRParen
| UnexpectedToken (t : Token.t)
| UnexpectedEnd
| TrailingToken (t : Token.t).

(** The two-character operators. *)
Definition two_char (b c : ascii) : option Token.t :=
  if eqc b "=" && eqc c "=" then Some Token.Eq
  else if eqc b "!" && eqc c "=" then Some Token.NotEq
  else if eqc b ">" && eqc c "=" then Some Token.Gte
  else if eqc b "<" && eqc c "=" then Some Token.Lte
  else if eqc b "&" && eqc c "&" then Some Token.And
  else if eqc b "|" && eqc c "|" then Some Token.Or
  else None.

Definition is_quote (c : ascii) : bool := eqc c "'".

Definition is_word (c : ascii) : bool :=
  is_ascii_alphanumeric c || eqc c "_" || eqc c "-" || eqc c ".".

(** The extent of a number literal: digits, and a fractional part only when a
    digit follows the dot. *)
Definition number_span (l : list ascii) : list ascii * list ascii :=
  let '(ip, r) := span is_ascii_digit l in
  match r with
  | dot :: d :: r' =>
      if eqc dot "." && is_ascii_digit d then
        let '(fp, r'') := span is_ascii_digit (d :: r') in (ip ++ dot :: fp, r'')
      else (ip, r)
  | _ => (ip, r)
  end.

Definition word_token (w : list ascii) : Token.t :=
  let w := from_bytes w in
  if decide (w = "true") then Token.BoolLit true
  else if decide (w = "false") then Token.BoolLit false
  else Token.Path w.

(** The loop body past the two-character operators. *)
Definition lex_single (b : ascii) (r : list ascii)
  : result (option Token.t * list ascii) CondError :=
  if eqc b ">" then Ok (Some Token.Gt, r)
  else if eqc b "<" then Ok (Some Token.Lt, r)
  else if eqc b "!" then Ok (Some Token.Not, r)
  else if eqc b "(" then Ok (Some Token.LParen, r)
  else if eqc b ")" then Ok (Some Token.RParen, r)
  else if is_quote b then
    let '(s, r') := span (fun c => negb (is_quote c)) r in
    match r' with
    | [] => Err UnterminatedString
    | _ :: r'' => Ok (Some (Token.StringLit (from_bytes s)), r'')
    end
  else if is_ascii_digit b then
    let '(num, r') := number_span (b :: r) in
    match parse_f64 num with
    | Some x => Ok (Some (Token.NumberLit x), r')
    | None => Err (InvalidNumber (from_bytes num))
    end
  else if is_ascii_alphabetic b || eqc b "_" then
    let '(w, r') := span is_word (b :: r) in
    Ok (Some (word_token w), r')
  else if is_ascii b then Err (UnexpectedChar b)
  else Err (UnexpectedByte b).

(** One iteration: the token pushed, if any, and the bytes left. *)
Definition lex (b : ascii) (r : list ascii)
  : result (option Token.t * list ascii) CondError :=
  if is_ascii_whitespace b then Ok (None, r)
  else match r with
       | c :: r' =>
           match two_char b c with
           | Some t => Ok (Some t, r')
           | None => lex_single b r
           end
       | [] => lex_single b r
       end.

Fixpoint tokenize_loop (fuel : nat) (l : list ascii) (tokens : list Token.t)
  : option (result (list Token.t) CondError) :=
  match l with
  | [] => Some (Ok tokens)
  | b :: r =>
      match fuel with
      | O => None
      | S fuel =>
          match lex b r with
          | Ok (Some t, r') => tokenize_loop fuel r' (tokens ++ [t])
          | Ok (None, r') => tokenize_loop fuel r' tokens
          | Err e => Some (Err e)
          end
      end
  end.

Definition tokenize (input : string) : option (result (list Token.t) CondError) :=
  tokenize_loop (length (as_bytes input)) (as_bytes input) [].

(** ** Progress: every iteration consumes a byte *)

Lemma number_span_length l : (length (number_span l).2 <= length (span is_ascii_digit l).2)%nat.
Proof.
  unfold number_span. destruct (span is_ascii_digit l) as [ip r].
  destruct r as [|dot [|d r']]; cbn [snd]; try lia.
  destruct (eqc dot "." && is_ascii_digit d); cbn [snd]; [|lia].
  assert (H := span_length is_ascii_digit (d :: r')).
  destruct (span is_ascii_digit (d :: r')). cbn in *. lia.
Qed.

Lemma span_length_lt p a l : p a = true -> (length (span p (a :: l)).2 < S (length l))%nat.
Proof.
  intros Ha. cbn. rewrite Ha. assert (H := span_length p l).
  destruct (span p l). cbn in *. lia.
Qed.

Lemma lex_single_length b r t r' :
  lex_single b r = Ok (t, r') -> (length r' <= length r)%nat.
Proof.
  unfold lex_single. intros H.
  repeat match type of H with
         | (if eqc _ _ then _ else _) = _ => case_match; [by simplify_eq|]
         end.
  destruct (is_quote b) eqn:Eq.
  { assert (Hs := span_length (fun c => negb (is_quote c)) r).
    destruct (span _ r) as [s [|q r'']]; simplify_eq. cbn in *. lia. }
  destruct (is_ascii_digit b) eqn:Ed.
  { assert (Hn := number_span_length (b :: r)). assert (Hs := span_length_lt _ _ r Ed).
    destruct (number_span (b :: r)) as [num r'']. cbn [snd] in Hn.
    destruct (parse_f64 num); simplify_eq. lia. }
  destruct (is_ascii_alphabetic b || eqc b "_") eqn:Ea.
  { assert (Hw : is_word b = true).
    { unfold is_word, is_ascii_alphanumeric.
      apply orb_prop in Ea as [-> | ->]; [done|]. by rewrite orb_true_r. }
    assert (Hs := span_length_lt _ _ r Hw).
    destruct (span is_word (b :: r)). simplify_eq. cbn [snd] in Hs. lia. }
  by destruct (is_ascii b).
Qed.

Lemma lex_length b r t r' : lex b r = Ok (t, r') -> (length r' <= length r)%nat.
Proof.
  unfold lex. destruct (is_ascii_whitespace b); [by intros; simplify_eq|].
  destruct r as [|c r0]; [apply lex_single_length|].
  destruct (two_char b c); [|apply lex_single_length]. intros. simplify_eq. cbn. lia.
Qed.

Lemma tokenize_loop_fuel fuel : forall l tokens,
  (length l <= fuel)%nat -> is_Some (tokenize_loop fuel l tokens).
Proof.
  induction fuel as [|fuel IH]; intros [|b r] tokens Hl; cbn in *; [by eauto|lia|by eauto|].
  destruct (lex b r) as [[[t|] r']|e] eqn:E; [| |by eauto];
    apply lex_length in E; apply IH; lia.
Qed.

(** More fuel, and the tokens pushed before, change nothing. *)
Lemma tokenize_loop_more fuel fuel' l tokens r :
  tokenize_loop fuel l tokens = Some r -> (fuel <= fuel')%nat ->
  tokenize_loop fuel' l tokens = Some r.
Proof.
  revert fuel' l tokens. induction fuel as [|fuel IH]; intros fuel' [|b l] tokens; cbn.
  - by destruct fuel'.
  - done.
  - by destruct fuel'.
  - intros H Hf. destruct fuel' as [|fuel']; [lia|]. cbn.
    destruct (lex b l) as [[[t|] r']|]; [apply IH; [done|lia]..|done].
Qed.

(** The text read as the tokens [ts]: a specification of the loop without
    cursor, accumulator or fuel. *)
Inductive reads : list ascii -> list Token.t -> Prop :=
| reads_end : reads [] []
| reads_skip b r r' ts : lex b r = Ok (None, r') -> reads r' ts -> reads (b :: r) ts
| reads_token b r r' t ts :
    lex b r = Ok (Some t, r') -> reads r' ts -> reads (b :: r) (t :: ts).

Lemma tokenize_loop_reads fuel : forall l tokens ts,
  tokenize_loop fuel l tokens = Some (Ok ts) <->
  exists ts', ts = tokens ++ ts' /\ reads l ts' /\
              is_Some (tokenize_loop fuel l tokens).
Proof.
  assert (Hfwd : forall fuel l tokens ts,
    tokenize_loop fuel l tokens = Some (Ok ts) -> exists ts', ts = tokens ++ ts' /\ reads l ts').
  { clear fuel. induction fuel as [|fuel IH]; intros [|b r] tokens ts; cbn.
    - intros [= <-]. exists []. rewrite app_nil_r. eauto using reads_end.
    - done.
    - intros [= <-]. exists []. rewrite app_nil_r. eauto using reads_end.
    - destruct (lex b r) as [[[t|] r']|] eqn:E; [| |done]; intros H;
        destruct (IH _ _ _ H) as (ts' & -> & Hr).
      + exists (t :: ts'). rewrite <- app_assoc. split; [done|]. eauto using reads_token.
      + exists ts'. eauto using reads_skip. }
  intros l tokens ts. split.
  - intros H. destruct (Hfwd _ _ _ _ H) as (ts' & -> & Hr). exists ts'. rewrite H. eauto.
  - intros (ts' & -> & Hr & Hf). revert fuel tokens Hf.
    induction Hr as [|b r r' ts' E _ IH|b r r' t ts' E _ IH]; intros fuel tokens Hf.
    + rewrite app_nil_r. by destruct fuel.
    + destruct fuel as [|fuel]; [by destruct Hf|]. cbn in *. rewrite E in *. by apply IH.
    + destruct fuel as [|fuel]; [by destruct Hf|]. cbn in *. rewrite E in *.
      rewrite IH by done. by rewrite <- app_assoc.
Qed.

Lemma tokenize_reads input ts :
  tokenize input = Some (Ok ts) <-> reads (as_bytes input) ts.
Proof.
  unfold tokenize. rewrite tokenize_loop_reads. split.
  - by intros (ts' & -> & Hr & _).
  - intros Hr. exists ts. split_and!; [done..|]. by apply tokenize_loop_fuel.
Qed.

(** ** Texts of tokens *)

(** A word the tokenizer reads as one path. *)
Definition word_bytes (l : list ascii) : bool :=
  match l with
  | [] => false
  | a :: _ => (is_ascii_alphabetic a || eqc a "_") && forallb is_word l
  end.

(** The ways to write a token, without surrounding blanks. *)
Inductive written : list ascii -> Token.t -> Prop :=
| written_path w :
    word_bytes w = true -> from_bytes w <> "true" -> from_bytes w <> "false" ->
    written w (Token.Path (from_bytes w))
| written_true : written (as_bytes "true") (Token.BoolLit true)
| written_false : written (as_bytes "false") (Token.BoolLit false)
| written_string s :
    forallb (fun c => negb (is_quote c)) s = true ->
    written ("'"%char :: s ++ ["'"%char]) (Token.StringLit (from_bytes s))
| written_int d x :
    d <> [] -> forallb is_ascii_digit d = true -> parse_f64 d = Some x ->
    written d (Token.NumberLit x)
| written_decimal d e x :
    d <> [] -> forallb is_ascii_digit d = true ->
    e <> [] -> forallb is_ascii_digit e = true ->
    parse_f64 (d ++ "."%char :: e) = Some x ->
    written (d ++ "."%char :: e) (Token.NumberLit x)
| written_eq : written (as_bytes "==") Token.Eq
| written_noteq : written (as_bytes "!=") Token.NotEq
| written_gt : written (as_bytes ">") Token.Gt
| written_gte : written (as_bytes ">=") Token.Gte
| written_lt : written (as_bytes "<") Token.Lt
| written_lte : written (as_bytes "<=") Token.Lte
| written_not : written (as_bytes "!") Token.Not
| written_and : written (as_bytes "&&") Token.And
| written_or : written (as_bytes "||") Token.Or
| written_lparen : written (as_bytes "(") Token.LParen
| written_rparen : written (as_bytes ")") Token.RParen.

(** What follows a token in a text whose tokens are separated by blanks. *)
Definition blank_or_end (l : list ascii) : Prop := l = [] \/ exists r, l = " "%char :: r.

(** No operator, quote or blank starts with this byte. *)
Definition plain (b : ascii) : bool :=
  negb (is_ascii_whitespace b || eqc b "=" || eqc b "!" || eqc b ">" || eqc b "<" ||
        eqc b "&" || eqc b "|" || eqc b "(" || eqc b ")" || is_quote b).

Ltac every_byte b := destruct b as [[] [] [] [] [] [] [] []].

Lemma word_start_plain b :
  is_ascii_alphabetic b || eqc b "_" = true -> plain b = true /\ is_ascii_digit b = false.
Proof. by every_byte b. Qed.

Lemma digit_plain b : is_ascii_digit b = true -> plain b = true.
Proof. by every_byte b. Qed.

Lemma lex_plain b r :
  plain b = true ->
  lex b r =
    if is_ascii_digit b then
      let '(num, r') := number_span (b :: r) in
      match parse_f64 num with
      | Some x => Ok (Some (Token.NumberLit x), r')
      | None => Err (InvalidNumber (from_bytes num))
      end
    else if is_ascii_alphabetic b || eqc b "_" then
      let '(w, r') := span is_word (b :: r) in Ok (Some (word_token w), r')
    else if is_ascii b then Err (UnexpectedChar b)
    else Err (UnexpectedByte b).
Proof.
  unfold plain. rewrite negb_true_iff, !orb_false_iff.
  intros [[[[[[[[[Hw H1] H2] H3] H4] H5] H6] H7] H8] H9].
  unfold lex. rewrite Hw.
  assert (Hs : lex_single b r =
    if is_ascii_digit b then
      let '(num, r') := number_span (b :: r) in
      match parse_f64 num with
      | Some x => Ok (Some (Token.NumberLit x), r')
      | None => Err (InvalidNumber (from_bytes num))
      end
    else if is_ascii_alphabetic b || eqc b "_" then
      let '(w, r') := span is_word (b :: r) in Ok (Some (word_token w), r')
    else if is_ascii b then Err (UnexpectedChar b)
    else Err (UnexpectedByte b)).
  { unfold lex_single. by rewrite H3, H4, H2, H7, H8, H9. }
  destruct r as [|c r']; [done|]. unfold two_char. by rewrite H1, H2, H3, H4, H5, H6.
Qed.

Lemma blank_stops p rest :
  p " "%char = false -> blank_or_end rest ->
  (match rest with [] => true | a :: _ => negb (p a) end) = true.
Proof. intros Hp [-> | [r ->]]; [done|]. by rewrite Hp. Qed.

Lemma number_span_int d rest :
  forallb is_ascii_digit d = true -> blank_or_end rest ->
  number_span (d ++ rest) = (d, rest).
Proof.
  intros Hd Hr. unfold number_span. rewrite span_all; [|done|by apply blank_stops].
  by destruct Hr as [-> | [[|c r] ->]].
Qed.

Lemma number_span_decimal d e rest :
  forallb is_ascii_digit d = true -> e <> [] -> forallb is_ascii_digit e = true ->
  blank_or_end rest ->
  number_span ((d ++ "."%char :: e) ++ rest) = (d ++ "."%char :: e, rest).
Proof.
  intros Hd Hne He Hr. unfold number_span. rewrite <- app_assoc.
  rewrite span_all by done. destruct e as [|c e]; [done|].
  assert (Hc : is_ascii_digit c = true) by (cbn in He; by apply andb_prop in He as [-> _]).
  cbn [app]. rewrite Hc. change (eqc "." "." && true) with true. cbv iota.
  change (c :: e ++ rest) with ((c :: e) ++ rest).
  rewrite span_all; [done|done|by apply blank_stops].
Qed.

Lemma word_token_path w :
  from_bytes w <> "true" -> from_bytes w <> "false" ->
  word_token w = Token.Path (from_bytes w).
Proof. intros H1 H2. unfold word_token. by rewrite !decide_False. Qed.

(** The tokenizer reads a written token back and stops right after it. *)
Lemma lex_word w rest :
  word_bytes w = true -> blank_or_end rest ->
  exists b r, w ++ rest = b :: r /\ lex b r = Ok (Some (word_token w), rest).
Proof.
  intros Hw Hr. destruct w as [|b w]; [done|]. exists b, (w ++ rest). split; [done|].
  cbn [word_bytes] in Hw. apply andb_prop in Hw as [Hb Hw].
  destruct (word_start_plain b Hb) as [Hp Hd]. rewrite lex_plain by done. rewrite Hd, Hb.
  change (b :: w ++ rest) with ((b :: w) ++ rest).
  rewrite span_all; [done|done|by apply blank_stops].
Qed.

Lemma lex_number d x rest :
  match d with [] => False | b :: _ => is_ascii_digit b = true end ->
  parse_f64 d = Some x -> number_span (d ++ rest) = (d, rest) ->
  exists b r, d ++ rest = b :: r /\ lex b r = Ok (Some (Token.NumberLit x), rest).
Proof.
  intros Hb Hx Hs. destruct d as [|b d]; [done|]. exists b, (d ++ rest). split; [done|].
  rewrite lex_plain by by apply digit_plain. rewrite Hb.
  change (b :: d ++ rest) with ((b :: d) ++ rest). by rewrite Hs, Hx.
Qed.

Lemma lex_written w t rest :
  written w t -> blank_or_end rest ->
  exists b r, w ++ rest = b :: r /\ lex b r = Ok (Some t, rest).
Proof.
  intros Hw Hr.
  destruct Hw as [w Hw H1 H2| | |s Hs|d x Hne Hd Hx|d e x Hne Hd Hne' He Hx| | | | | | | | | | |];
    try by (destruct Hr as [-> | [r ->]]; do 2 eexists; (split; [reflexivity|reflexivity])).
  - rewrite <- (word_token_path w) by done. by apply lex_word.
  - exists "'"%char, (s ++ "'"%char :: rest). split; [cbn; by rewrite <- app_assoc|].
    replace (lex "'" (s ++ "'"%char :: rest)) with (lex_single "'" (s ++ "'"%char :: rest))
      by (by destruct (s ++ "'"%char :: rest)).
    unfold lex_single. cbn -[span app]. by rewrite span_all.
  - apply lex_number; [|done|by apply number_span_int].
    destruct d; [done|]. cbn in Hd. by apply andb_prop in Hd as [Hd _].
  - apply lex_number; [|done|by apply number_span_decimal].
    destruct d; [done|]. cbn in Hd. by apply andb_prop in Hd as [Hd _].
Qed.

(** Texts of tokens separated by single blanks read back as those tokens. *)
Lemma reads_written ws ts :
  Forall2 written ws ts -> reads (join_bytes " " ws) ts.
Proof.
  induction 1 as [|w t ws ts Hw Hws IH]; [constructor|].
  destruct ws as [|w' ws].
  - inversion Hws; subst. cbn.
    destruct (lex_written w t [] Hw (or_introl eq_refl)) as (b & r & E & Hl).
    rewrite app_nil_r in E. rewrite E. eapply reads_token; [exact Hl|constructor].
  - change (join_bytes " " (w :: w' :: ws)) with (w ++ " "%char :: join_bytes " " (w' :: ws)).
    destruct (lex_written w t (" "%char :: join_bytes " " (w' :: ws)) Hw) as (b & r & E & Hl);
      [right; by eexists|].
    rewrite E. eapply reads_token; [exact Hl|]. eapply reads_skip; [|exact IH].
    reflexivity.
Qed.

(** Written tokens neither start nor end with a blank. *)
Definition solid_ends (w : list ascii) : Prop :=
  (exists a l, w = a :: l /\ solid a = true) /\ (exists l z, w = l ++ [z] /\ solid z = true).

Lemma word_solid b : is_word b = true -> solid b = true.
Proof. by every_byte b. Qed.

Lemma digit_solid b : is_ascii_digit b = true -> solid b = true.
Proof. by every_byte b. Qed.

Lemma forallb_solid_ends w :
  w <> [] -> forallb solid w = true -> solid_ends w.
Proof.
  intros Hne Hw. split.
  - destruct w as [|a l]; [done|]. cbn in Hw. apply andb_prop in Hw as [Ha _]. eauto.
  - destruct (exists_last Hne) as (l & z & ->). rewrite forallb_app in Hw.
    apply andb_prop in Hw as [_ Hz]. cbn in Hz. rewrite andb_true_r in Hz. eauto.
Qed.

Lemma forallb_weaken (p q : ascii -> bool) l :
  (forall c, p c = true -> q c = true) -> forallb p l = true -> forallb q l = true.
Proof. intros Hpq. rewrite !forallb_forall. auto. Qed.

Lemma written_solid w t : written w t -> solid_ends w.
Proof.
  intros Hw.
  destruct Hw as [w Hw H1 H2| | |s Hs|d x Hne Hd Hx|d e x Hne Hd Hne' He Hx| | | | | | | | | | |];
    try (by apply forallb_solid_ends).
  - destruct w as [|a w]; [done|]. cbn [word_bytes] in Hw. apply andb_prop in Hw as [_ Hw].
    apply forallb_solid_ends; [done|]. exact (forallb_weaken _ _ _ word_solid Hw).
  - split; [by eexists _, _|]. exists ("'"%char :: s), "'"%char. done.
  - apply forallb_solid_ends; [done|]. exact (forallb_weaken _ _ _ digit_solid Hd).
  - apply forallb_solid_ends; [by destruct d|]. rewrite forallb_app.
    rewrite (forallb_weaken _ _ _ digit_solid Hd). cbn.
    exact (forallb_weaken _ _ _ digit_solid He).
Qed.

Lemma join_solid_ends ws ts :
  Forall2 written ws ts -> ws <> [] -> solid_ends (join_bytes " " ws).
Proof.
  induction 1 as [|w t ws ts Hw Hws IH]; [done|]. intros _.
  destruct ws as [|w' ws]; [by eapply written_solid|].
  change (join_bytes " " (w :: w' :: ws)) with (w ++ " "%char :: join_bytes " " (w' :: ws)).
  destruct (written_solid w t Hw) as [(a & l & -> & Ha) _].
  destruct IH as [_ (l' & z & E & Hz)]; [done|]. split; [by eexists _, _|].
  exists ((a :: l) ++ " "%char :: l'), z. rewrite E. split; [by rewrite <- app_assoc|done].
Qed.

Lemma trim_solid_ends w : solid_ends w -> trim_bytes w = w.
Proof.
  intros [(a & l & -> & Ha) (l' & z & E & Hz)]. apply (trim_bytes_solid a l z); [done..|].
  rewrite E, rev_app_distr. f_equal. by rewrite removelast_last.
Qed.
