(* ===== verification/CondParser.v ===== *)
(** * Condition expressions: the parser

    [Expr] and [Parser] of [rust-old/src/condition.rs].  The parser's state
    ([tokens], [pos]) is the list of tokens from [pos] on; [fuel] bounds the
    depth of the calls and [None] is running out of it.  [Grammar.derives] is
    the grammar of the module's documentation; the parser accepts exactly it. *)

From Stdlib Require Import ZArith Lia Ascii SpecFloat.
From stdpp Require Import base tactics option list strings.
From S2P Require Import Prelude RustStr Json CondLexer.

Open Scope Z_scope.

Module Expr.
Section Ast.
Context `{JN : JsonNumber}.
Inductive t : Type :=
| Literal (v : Value)
| Path (p : string)
| Eq (l r : t)
| NotEq (l r : t)
| Gt (l r : t)
| Gte (l r : t)
| Lt (l r : t)
| Lte (l r : t)
| Not (e : t)
| And (l r : t)
| Or (l r : t).
End Ast.
End Expr.

(** Results of a parsing function: an expression and the tokens left. *)
Abbreviation parsed := (option (result (Expr.t * list Token.t) CondError)).

Definition pbind `{JN : JsonNumber} (m : parsed) (k : Expr.t -> list Token.t -> parsed) : parsed :=
  match m with
  | Some (Ok (e, ts)) => k e ts
  | Some (Err err) => Some (Err err)
  | None => None
  end.

Notation "'let+' ( e , ts ) := m 'in' k" := (pbind m (fun e ts => k))
  (at level 10, e name, ts name, m at level 100, k at level 200,
   format "'let+'  ( e ,  ts )  :=  m  'in' '//' k") : szal_scope.

Section Parser.
Context `{JN : JsonNumber}.

(** The constructor a comparison operator builds. *)
Definition cmp_op (t : Token.t) : option (Expr.t -> Expr.t -> Expr.t) :=
  match t with
  | Token.Eq => Some Expr.Eq
  | Token.NotEq => Some Expr.NotEq
  | Token.Gt => Some Expr.Gt
  | Token.Gte => Some Expr.Gte
  | Token.Lt => Some Expr.Lt
  | Token.Lte => Some Expr.Lte
  | _ => None
  end.

(** [Number::from_f64(n).map(Value::Number).unwrap_or(Value::Null)] *)
Definition number_value (x : f64) : Value :=
  match from_f64 x with Some n => VNumber n | None => Null end.

Fixpoint parse_or (fuel : nat) (ts : list Token.t) : parsed :=
  match fuel with
  | O => None
  | S fuel => let+ (left, ts) := parse_and fuel ts in or_loop fuel left ts
  end
(** the [while] of [parse_or] *)
with or_loop (fuel : nat) (left : Expr.t) (ts : list Token.t) : parsed :=
  match fuel with
  | O => None
  | S fuel =>
      match ts with
      | Token.Or :: ts =>
          let+ (right, ts) := parse_and fuel ts in
          or_loop fuel (Expr.Or left right) ts
      | _ => Some (Ok (left, ts))
      end
  end
with parse_and (fuel : nat) (ts : list Token.t) : parsed :=
  match fuel with
  | O => None
  | S fuel => let+ (left, ts) := parse_cmp fuel ts in and_loop fuel left ts
  end
(** the [while] of [parse_and] *)
with and_loop (fuel : nat) (left : Expr.t) (ts : list Token.t) : parsed :=
  match fuel with
  | O => None
  | S fuel =>
      match ts with
      | Token.And :: ts =>
          let+ (right, ts) := parse_cmp fuel ts in
          and_loop fuel (Expr.And left right) ts
      | _ => Some (Ok (left, ts))
      end
  end
with parse_cmp (fuel : nat) (ts : list Token.t) : parsed :=
  match fuel with
  | O => None
  | S fuel =>
      let+ (left, ts) := parse_value fuel ts in
      match ts with
      | t :: ts' =>
          match cmp_op t with
          | Some op =>
              let+ (right, ts'') := parse_value fuel ts' in
              Some (Ok (op left right, ts''))
          | None => Some (Ok (left, ts))
          end
      | [] => Some (Ok (left, ts))
      end
  end
with parse_value (fuel : nat) (ts : list Token.t) : parsed :=
  match fuel with
  | O => None
  | S fuel =>
      match ts with
      | Token.Not :: ts =>
          let+ (inner, ts) := parse_value fuel ts in
          Some (Ok (Expr.Not inner, ts))
      | Token.StringLit s :: ts => Some (Ok (Expr.Literal (VString s), ts))
      | Token.NumberLit n :: ts => Some (Ok (Expr.Literal (number_value n), ts))
      | Token.BoolLit b :: ts => Some (Ok (Expr.Literal (VBool b), ts))
      | Token.Path p :: ts => Some (Ok (Expr.Path p, ts))
      | Token.LParen :: ts =>
          let+ (expr, ts) := parse_or fuel ts in
          match ts with
          | Token.RParen :: ts => Some (Ok (expr, ts))
          | _ => Some (Err ExpectedRParen)
          end
      | tok :: _ => Some (Err (UnexpectedToken tok))
      | [] => Some (Err UnexpectedEnd)
      end
  end.

(** [parse_expr] *)
Definition parse_expr (fuel : nat) (ts : list Token.t) : parsed := parse_or fuel ts.

Definition parse_fuel (ts : list Token.t) : nat := 5 * length ts + 5.

(** [parse_expr] followed by the check for trailing tokens of [compile]. *)
Definition parse_tokens (ts : list Token.t) : option (result Expr.t CondError) :=
  match parse_expr (parse_fuel ts) ts with
  | Some (Ok (ast, tok :: _)) => Some (Err (TrailingToken tok))
  | Some (Ok (ast, [])) => Some (Ok ast)
  | Some (Err e) => Some (Err e)
  | None => None
  end.

(** ** Fuel *)

(** A parsing function that needs [need] fuel and consumes at least [eats]
    tokens when it succeeds. *)
Definition served (m : parsed) (n : nat) : Prop :=
  match m with
  | Some (Ok (_, ts')) => (length ts' <= n)%nat
  | Some (Err _) => True
  | None => False
  end.

Lemma served_bind m k n n' :
  served m n ->
  (forall e ts, (length ts <= n)%nat -> served (k e ts) n') ->
  served (pbind m k) n'.
Proof. destruct m as [[[e ts]|err]|]; cbn; auto. Qed.

Lemma served_weaken m n n' : served m n -> (n <= n')%nat -> served m n'.
Proof. destruct m as [[[e ts]|err]|]; cbn; auto. lia. Qed.

Lemma parse_served fuel :
  (forall ts, 5 * length ts + 5 <= fuel -> served (parse_or fuel ts) (pred (length ts)))%nat /\
  (forall l ts, 5 * length ts + 4 <= fuel -> served (or_loop fuel l ts) (length ts))%nat /\
  (forall ts, 5 * length ts + 4 <= fuel -> served (parse_and fuel ts) (pred (length ts)))%nat /\
  (forall l ts, 5 * length ts + 3 <= fuel -> served (and_loop fuel l ts) (length ts))%nat /\
  (forall ts, 5 * length ts + 3 <= fuel -> served (parse_cmp fuel ts) (pred (length ts)))%nat /\
  (forall ts, 5 * length ts + 2 <= fuel -> served (parse_value fuel ts) (pred (length ts)))%nat.
Proof.
  induction fuel as [|fuel (IHor & IHol & IHand & IHal & IHcmp & IHval)];
    [split_and!; intros; lia|].
  split_and!.
  - intros ts Hf. cbn [parse_or]. eapply served_bind; [apply IHand; lia|].
    intros e ts' Hl. eapply served_weaken; [apply IHol; lia|lia].
  - intros l ts Hf. cbn [or_loop]. destruct ts as [|[] ts]; cbn [length] in *; try (cbn; lia).
    eapply served_bind; [apply IHand; lia|].
    intros e ts' Hl. eapply served_weaken; [apply IHol; lia|lia].
  - intros ts Hf. cbn [parse_and]. eapply served_bind; [apply IHcmp; lia|].
    intros e ts' Hl. eapply served_weaken; [apply IHal; lia|lia].
  - intros l ts Hf. cbn [and_loop]. destruct ts as [|[] ts]; cbn [length] in *; try (cbn; lia).
    eapply served_bind; [apply IHcmp; lia|].
    intros e ts' Hl. eapply served_weaken; [apply IHal; lia|lia].
  - intros ts Hf. cbn [parse_cmp]. eapply served_bind; [apply IHval; lia|].
    intros e [|t ts'] Hl; [cbn; lia|]. cbn [length] in Hl.
    destruct (cmp_op t); [|cbn; lia].
    eapply served_bind; [apply IHval; lia|]. intros e' ts'' Hl'. cbn. lia.
  - intros ts Hf. cbn [parse_value].
    destruct ts as [|[] ts]; cbn [length] in *; try (cbn; lia).
    + eapply served_bind; [apply IHval; lia|]. intros e ts' Hl. cbn. lia.
    + eapply served_bind; [apply IHor; lia|].
      intros e [|[] ts'] Hl; cbn in *; try done. lia.
Qed.

Lemma parse_tokens_total ts : is_Some (parse_tokens ts).
Proof.
  unfold parse_tokens, parse_expr.
  assert (H := proj1 (parse_served (parse_fuel ts)) ts ltac:(unfold parse_fuel; lia)).
  destruct (parse_or (parse_fuel ts) ts) as [[[e [|t ts']]|err]|]; [by eauto..|done].
Qed.

(** A result reached with some fuel is reached with more. *)
Definition keeps (m m' : parsed) : Prop := forall r, m = Some r -> m' = Some r.

Lemma keeps_bind m m' k k' :
  keeps m m' -> (forall e ts, keeps (k e ts) (k' e ts)) -> keeps (pbind m k) (pbind m' k').
Proof.
  unfold keeps. intros Hm Hk r. destruct m as [[[e ts]|err]|]; cbn; [| |done].
  - rewrite (Hm _ eq_refl). cbn. apply Hk.
  - by rewrite (Hm _ eq_refl).
Qed.

Lemma parse_keeps fuel :
  (forall ts, keeps (parse_or fuel ts) (parse_or (S fuel) ts)) /\
  (forall l ts, keeps (or_loop fuel l ts) (or_loop (S fuel) l ts)) /\
  (forall ts, keeps (parse_and fuel ts) (parse_and (S fuel) ts)) /\
  (forall l ts, keeps (and_loop fuel l ts) (and_loop (S fuel) l ts)) /\
  (forall ts, keeps (parse_cmp fuel ts) (parse_cmp (S fuel) ts)) /\
  (forall ts, keeps (parse_value fuel ts) (parse_value (S fuel) ts)).
Proof.
  induction fuel as [|fuel (IHor & IHol & IHand & IHal & IHcmp & IHval)];
    [split_and!; by intros|].
  split_and!; intros.
  - cbn [parse_or]. by apply keeps_bind.
  - cbn [or_loop]. destruct ts as [|[] ts]; try (by intros ?). by apply keeps_bind.
  - cbn [parse_and]. by apply keeps_bind.
  - cbn [and_loop]. destruct ts as [|[] ts]; try (by intros ?). by apply keeps_bind.
  - cbn [parse_cmp]. apply keeps_bind; [done|]. intros e [|t ts']; [by intros ?|].
    destruct (cmp_op t); [|by intros ?].
    apply keeps_bind; [done|]. by intros ? ? ?.
  - cbn [parse_value]. destruct ts as [|[] ts]; try (by intros ?).
    + apply keeps_bind; [done|]. by intros ? ? ?.
    + apply keeps_bind; [done|]. by intros ? ? ?.
Qed.

Lemma parse_or_more fuel fuel' ts r :
  parse_or fuel ts = Some r -> (fuel <= fuel')%nat -> parse_or fuel' ts = Some r.
Proof.
  intros H Hf. induction Hf as [|fuel' _ IH]; [done|]. by apply parse_keeps.
Qed.

End Parser.

(** ** The grammar

    [or_expr = and_expr ("||" and_expr)*] and the rules below it, as printed at
    the head of the module, with the expression each phrase denotes: chains of
    [&&] and [||] associate to the left, comparisons do not chain. *)
Module Grammar.
Section Derivations.
Context `{JN : JsonNumber}.

Inductive level : Type := Value | Cmp | And | Or.

Inductive derives : level -> list Token.t -> Expr.t -> Prop :=
| d_string s : derives Value [Token.StringLit s] (Expr.Literal (VString s))
| d_number x : derives Value [Token.NumberLit x] (Expr.Literal (number_value x))
| d_bool b : derives Value [Token.BoolLit b] (Expr.Literal (VBool b))
| d_path p : derives Value [Token.Path p] (Expr.Path p)
| d_not ts e : derives Value ts e -> derives Value (Token.Not :: ts) (Expr.Not e)
| d_paren ts e :
    derives Or ts e -> derives Value (Token.LParen :: ts ++ [Token.RParen]) e
| d_value ts e : derives Value ts e -> derives Cmp ts e
| d_cmp ts1 ts2 t op e1 e2 :
    derives Value ts1 e1 -> cmp_op t = Some op -> derives Value ts2 e2 ->
    derives Cmp (ts1 ++ t :: ts2) (op e1 e2)
| d_cmp_only ts e : derives Cmp ts e -> derives And ts e
| d_and ts1 ts2 e1 e2 :
    derives And ts1 e1 -> derives Cmp ts2 e2 ->
    derives And (ts1 ++ Token.And :: ts2) (Expr.And e1 e2)
| d_and_only ts e : derives And ts e -> derives Or ts e
| d_or ts1 ts2 e1 e2 :
    derives Or ts1 e1 -> derives And ts2 e2 ->
    derives Or (ts1 ++ Token.Or :: ts2) (Expr.Or e1 e2).

(** *** Soundness: what the parser returns, the grammar derives *)

(** [m] parsed a prefix of [ts] that denotes its expression, given that the
    tokens [pre] already denote what [m] started from. *)
Definition sound (lv : level) (pre ts : list Token.t) (m : parsed) : Prop :=
  forall e ts', m = Some (Ok (e, ts')) ->
  exists used, ts = used ++ ts' /\ derives lv (pre ++ used) e.

Lemma bind_inv (m : parsed) k e ts :
  pbind m k = Some (Ok (e, ts)) ->
  exists e' ts', m = Some (Ok (e', ts')) /\ k e' ts' = Some (Ok (e, ts)).
Proof. destruct m as [[[e' ts']|]|]; cbn; [eauto|done|done]. Qed.

Lemma sound_return lv l pre ts : derives lv pre l -> sound lv pre ts (Some (Ok (l, ts))).
Proof. intros Hd e ts' [= <- <-]. exists []. by rewrite app_nil_r. Qed.

(** Parsing [m] and going on with [k], from what [m] consumed on. *)
Lemma sound_bind lv lv' pre pre' ts (m : parsed) k :
  sound lv' [] ts m ->
  (forall e used ts', derives lv' used e -> sound lv (pre ++ pre' ++ used) ts' (k e ts')) ->
  sound lv pre (pre' ++ ts) (pbind m k).
Proof.
  intros Hm Hk e ts' H. apply bind_inv in H as (l & ts1 & H1 & H2).
  destruct (Hm _ _ H1) as (u1 & -> & D1). destruct (Hk _ _ _ D1 _ _ H2) as (u2 & -> & D2).
  exists (pre' ++ u1 ++ u2). split; [by rewrite <- !app_assoc|].
  by rewrite <- !app_assoc in D2.
Qed.

Lemma sound_cmp fuel ts :
  (forall ts, sound Value [] ts (parse_value fuel ts)) -> sound Cmp [] ts (parse_cmp (S fuel) ts).
Proof.
  intros IH. cbn [parse_cmp]. apply (sound_bind _ Value [] []); [apply IH|].
  intros l u ts1 D. cbn [app]. destruct ts1 as [|t ts1]; [by apply sound_return, d_value|].
  destruct (cmp_op t) as [op|] eqn:E; [|by apply sound_return, d_value].
  apply (sound_bind _ Value u [t]); [apply IH|]. intros r u2 ts2 D2.
  by apply sound_return, d_cmp.
Qed.

Lemma sound_value fuel ts :
  (forall ts, sound Or [] ts (parse_or fuel ts)) ->
  (forall ts, sound Value [] ts (parse_value fuel ts)) ->
  sound Value [] ts (parse_value (S fuel) ts).
Proof.
  intros IHor IHval. cbn [parse_value].
  destruct ts as [|[] ts]; try done;
    try by (intros e ts' H; injection H as <- <-; eexists [_]; split; [reflexivity|constructor]).
  - apply (sound_bind _ Value [] [Token.Not]); [apply IHval|]. intros i u ts1 D.
    by apply sound_return, d_not.
  - intros e ts' H. apply bind_inv in H as (i & ts1 & H1 & H2).
    destruct (IHor _ _ _ H1) as (u & -> & D).
    destruct ts1 as [|[] ts1]; try done. injection H2 as <- <-.
    exists (Token.LParen :: u ++ [Token.RParen]).
    split; [cbn; by rewrite <- app_assoc|]. by constructor.
Qed.

Lemma parse_sound fuel :
  (forall ts, sound Or [] ts (parse_or fuel ts)) /\
  (forall l pre ts, derives Or pre l -> sound Or pre ts (or_loop fuel l ts)) /\
  (forall ts, sound And [] ts (parse_and fuel ts)) /\
  (forall l pre ts, derives And pre l -> sound And pre ts (and_loop fuel l ts)) /\
  (forall ts, sound Cmp [] ts (parse_cmp fuel ts)) /\
  (forall ts, sound Value [] ts (parse_value fuel ts)).
Proof.
  induction fuel as [|fuel (IHor & IHol & IHand & IHal & IHcmp & IHval)];
    [split_and!; by intros|].
  split_and!; [| | | |intros ts; by apply sound_cmp|intros ts; by apply sound_value].
  - intros ts. cbn [parse_or]. apply (sound_bind _ And [] []); [apply IHand|].
    intros l u ts1 D. by apply IHol, d_and_only.
  - intros l pre ts Hl. cbn [or_loop]. destruct ts as [|[] ts]; try by apply sound_return.
    apply (sound_bind _ And pre [Token.Or]); [apply IHand|]. intros r u ts1 D. by apply IHol, d_or.
  - intros ts. cbn [parse_and]. apply (sound_bind _ Cmp [] []); [apply IHcmp|].
    intros l u ts1 D. by apply IHal, d_cmp_only.
  - intros l pre ts Hl. cbn [and_loop]. destruct ts as [|[] ts]; try by apply sound_return.
    apply (sound_bind _ Cmp pre [Token.And]); [apply IHcmp|]. intros r u ts1 D. by apply IHal, d_and.
Qed.

(** *** Completeness: what the grammar derives, the parser returns *)

(** [f] returns [r] once it has enough fuel. *)
Definition settles (f : nat -> parsed) (r : result (Expr.t * list Token.t) CondError) : Prop :=
  exists n, forall m, (n <= m)%nat -> f m = Some r.

Lemma settles_step (f g : nat -> parsed) r :
  (forall m, f (S m) = g m) -> settles g r -> settles f r.
Proof.
  intros Hfg [n Hn]. exists (S n). intros [|m] Hm; [lia|]. rewrite Hfg. apply Hn. lia.
Qed.

Lemma settles_bind (f : nat -> parsed) k e ts r :
  settles f (Ok (e, ts)) -> settles (fun m => k m e ts) r ->
  settles (fun m => pbind (f m) (k m)) r.
Proof.
  intros [n Hn] [n' Hn']. exists (max n n'). intros m Hm.
  rewrite (Hn m) by lia. cbn. apply Hn'. lia.
Qed.

Lemma settles_done r : settles (fun _ => Some r) r.
Proof. by exists O. Qed.

Definition no_cmp (ts : list Token.t) : Prop :=
  match ts with t :: _ => cmp_op t = None | [] => True end.
Definition no_and (ts : list Token.t) : Prop :=
  match ts with Token.And :: _ => False | _ => True end.
Definition no_or (ts : list Token.t) : Prop :=
  match ts with Token.Or :: _ => False | _ => True end.

Lemma and_loop_stops e ts :
  no_and ts -> settles (fun m => and_loop m e ts) (Ok (e, ts)).
Proof. intros H. exists 1%nat. intros [|m] Hm; [lia|]. by destruct ts as [|[] ts]. Qed.

Lemma or_loop_stops e ts :
  no_or ts -> settles (fun m => or_loop m e ts) (Ok (e, ts)).
Proof. intros H. exists 1%nat. intros [|m] Hm; [lia|]. by destruct ts as [|[] ts]. Qed.

(** What parsing a phrase of each level and then going on with [rest]
    amounts to. *)
Definition complete (lv : level) (ts : list Token.t) (e : Expr.t) : Prop :=
  forall rest,
  match lv with
  | Value => settles (fun m => parse_value m (ts ++ rest)) (Ok (e, rest))
  | Cmp => no_cmp rest -> settles (fun m => parse_cmp m (ts ++ rest)) (Ok (e, rest))
  | And => forall r, no_cmp rest -> settles (fun m => and_loop m e rest) r ->
             settles (fun m => parse_and m (ts ++ rest)) r
  | Or => forall r, no_cmp rest -> no_and rest -> settles (fun m => or_loop m e rest) r ->
             settles (fun m => parse_or m (ts ++ rest)) r
  end.

Lemma derives_complete lv ts e : derives lv ts e -> complete lv ts e.
Proof.
  induction 1 as
    [s|x|b|p|ts e _ IH|ts e _ IH|ts e _ IH|ts1 ts2 t op e1 e2 _ IH1 Hop _ IH2
    |ts e _ IH|ts1 ts2 e1 e2 _ IH1 _ IH2|ts e _ IH|ts1 ts2 e1 e2 _ IH1 _ IH2]; intros rest.
  1-4: eapply settles_step; [reflexivity|apply settles_done].
  - eapply settles_step; [reflexivity|].
    eapply settles_bind; [apply IH|apply settles_done].
  - eapply settles_step; [reflexivity|]. cbn [app]. rewrite <- app_assoc.
    eapply settles_bind.
    + apply (IH ([Token.RParen] ++ rest)); [done|done|]. by apply or_loop_stops.
    + apply settles_done.
  - intros Hc. eapply settles_step; [reflexivity|].
    eapply settles_bind; [apply IH|].
    destruct rest as [|t rest]; [apply settles_done|]. cbn in Hc. rewrite Hc.
    apply settles_done.
  - intros Hc. eapply settles_step; [reflexivity|]. rewrite <- app_assoc.
    eapply settles_bind; [apply IH1|]. cbn [app]. rewrite Hop.
    eapply settles_bind; [apply IH2|apply settles_done].
  - intros r Hc Hr. eapply settles_step; [reflexivity|].
    eapply settles_bind; [by apply IH|done].
  - intros r Hc Hr. rewrite <- app_assoc. cbn [app]. apply IH1; [done|].
    eapply settles_step; [reflexivity|].
    eapply settles_bind; [by apply IH2|done].
  - intros r Hc Ha Hr. eapply settles_step; [reflexivity|].
    eapply settles_bind; [apply IH; [done|by apply and_loop_stops]|done].
  - intros r Hc Ha Hr. rewrite <- app_assoc. cbn [app]. apply IH1; [done|done|].
    eapply settles_step; [reflexivity|].
    eapply settles_bind; [apply IH2; [done|by apply and_loop_stops]|done].
Qed.

Lemma derives_parse ts e : derives Or ts e -> parse_tokens ts = Some (Ok e).
Proof.
  intros H. destruct (derives_complete Or ts e H [] (Ok (e, [])) I I) as [n Hn];
    [by apply or_loop_stops|].
  rewrite app_nil_r in Hn. destruct (parse_tokens_total ts) as [r Hr]. rewrite Hr.
  unfold parse_tokens, parse_expr in Hr.
  destruct (parse_or (parse_fuel ts) ts) as [r'|] eqn:E; [|done].
  assert (Hmax := parse_or_more _ (max n (parse_fuel ts)) _ _ E ltac:(lia)).
  rewrite Hn in Hmax by lia. by injection Hmax as <-.
Qed.

Lemma parse_derives ts e : parse_tokens ts = Some (Ok e) -> derives Or ts e.
Proof.
  unfold parse_tokens, parse_expr.
  destruct (parse_or (parse_fuel ts) ts) as [[[e' [|t ts']]|]|] eqn:E; try done.
  intros [= ->]. destruct (proj1 (parse_sound (parse_fuel ts)) ts e [] E) as (u & -> & D).
  by rewrite app_nil_r in *.
Qed.

End Derivations.
End Grammar.

(** ** Printing

    A fully parenthesised rendering of an expression whose literals have a
    token form. *)
Section Printer.
Context `{JN : JsonNumber}.

Definition wrap (ts : list Token.t) : list Token.t := Token.LParen :: ts ++ [Token.RParen].

(** [x] is the float a number literal of the expression was read from. *)
Fixpoint print (num : Number -> f64) (e : Expr.t) : list Token.t :=
  let bin l t r := wrap (print num l ++ t :: print num r) in
  match e with
  | Expr.Literal (VBool b) => [Token.BoolLit b]
  | Expr.Literal (VString s) => [Token.StringLit s]
  | Expr.Literal (VNumber n) => [Token.NumberLit (num n)]
  | Expr.Literal _ => [Token.NumberLit (S754_infinity false)]
  | Expr.Path p => [Token.Path p]
  | Expr.Not e => Token.Not :: print num e
  | Expr.Eq l r => bin l Token.Eq r
  | Expr.NotEq l r => bin l Token.NotEq r
  | Expr.Gt l r => bin l Token.Gt r
  | Expr.Gte l r => bin l Token.Gte r
  | Expr.Lt l r => bin l Token.Lt r
  | Expr.Lte l r => bin l Token.Lte r
  | Expr.And l r => bin l Token.And r
  | Expr.Or l r => bin l Token.Or r
  end.

(** The literals a condition can contain. *)
Fixpoint printable (num : Number -> f64) (e : Expr.t) : Prop :=
  match e with
  | Expr.Literal (VBool _) | Expr.Literal (VString _) | Expr.Path _ => True
  | Expr.Literal (VNumber n) => from_f64 (num n) = Some n
  | Expr.Literal Null => from_f64 (S754_infinity false) = None
  | Expr.Literal _ => False
  | Expr.Not e => printable num e
  | Expr.Eq l r | Expr.NotEq l r | Expr.Gt l r | Expr.Gte l r | Expr.Lt l r
  | Expr.Lte l r | Expr.And l r | Expr.Or l r => printable num l /\ printable num r
  end.

Lemma print_derives num e :
  printable num e -> Grammar.derives Grammar.Value (print num e) e.
Proof.
  assert (Hcmp : forall t op l r, cmp_op t = Some op ->
    Grammar.derives Grammar.Value (print num l) l ->
    Grammar.derives Grammar.Value (print num r) r ->
    Grammar.derives Grammar.Value (wrap (print num l ++ t :: print num r)) (op l r)).
  { intros. apply Grammar.d_paren, Grammar.d_and_only, Grammar.d_cmp_only. by apply Grammar.d_cmp. }
  induction e as [v|p|l IHl r IHr|l IHl r IHr|l IHl r IHr|l IHl r IHr|l IHl r IHr|l IHl r IHr
                 |e IH|l IHl r IHr|l IHl r IHr]; cbn; intros H;
    try (by destruct H; apply Hcmp; auto).
  - destruct v as [| | n | | |]; try done; try constructor.
    + assert (Hn : Expr.Literal Null = Expr.Literal (number_value (S754_infinity false)))
        by (unfold number_value; by rewrite H).
      rewrite Hn. constructor.
    + assert (Hn : Expr.Literal (VNumber n) = Expr.Literal (number_value (num n)))
        by (unfold number_value; by rewrite H).
      rewrite Hn. constructor.
  - constructor.
  - constructor. auto.
  - destruct H as [Hl Hr]. apply Grammar.d_paren, Grammar.d_and_only, Grammar.d_and.
    + apply Grammar.d_cmp_only, Grammar.d_value. auto.
    + apply Grammar.d_value. auto.
  - destruct H as [Hl Hr]. apply Grammar.d_paren, Grammar.d_or.
    + apply Grammar.d_and_only, Grammar.d_cmp_only, Grammar.d_value. auto.
    + apply Grammar.d_cmp_only, Grammar.d_value. auto.
Qed.

Lemma value_is_or ts e :
  Grammar.derives Grammar.Value ts e -> Grammar.derives Grammar.Or ts e.
Proof. intros. by apply Grammar.d_and_only, Grammar.d_cmp_only, Grammar.d_value. Qed.

End Printer.

(** Parsing terminates, and accepts exactly the documented grammar: a token
    list parses to the expression [e] if and only if the grammar derives [e]
    from the whole of it (so precedence, associativity and the absence of
    chained comparisons are as documented). *)
Theorem parser_accepts_grammar `{JN : JsonNumber} ts :
  (exists r, parse_tokens ts = Some r) /\
  forall e, parse_tokens ts = Some (Ok e) <-> Grammar.derives Grammar.Or ts e.
Proof.
  split.
  - destruct (parse_tokens_total ts) as [r Hr]. by exists r.
  - split; [apply Grammar.parse_derives|apply Grammar.derives_parse].
Qed.


