(* ===== verification/Condition.v ===== *)
(** * Condition expressions: evaluation, compilation, cache, templates

    The rest of [rust-old/src/condition.rs]: [resolve_path], [eval_expr] and its
    comparisons, [CompiledCondition], [ConditionCache], [render_template] and
    [build_step_context]. *)

From Stdlib Require Import ZArith Lia Ascii SpecFloat.
From stdpp Require Import base tactics option list strings gmap.
From S2P Require Import Prelude RustStr Json Step CondLexer CondParser.

Open Scope Z_scope.

Section Eval.
Context `{JN : JsonNumber} `{JL : !JsonLib}.

(** [for segment in path.split('.')] *)
Fixpoint walk (segments : list string) (current : Value) : Value :=
  match segments with
  | [] => current
  | segment :: segments =>
      match value_get current segment with
      | Some v => walk segments v
      | None => Null
      end
  end.

Definition resolve_path (path : string) (context : Value) : Value :=
  walk (split_on "." path) context.

Definition values_equal (a b : Value) : bool :=
  match a, b with
  | VString a, VString b => bool_decide (a = b)
  | VNumber a, VNumber b => number_eqb a b
  | VBool a, VBool b => Bool.eqb a b
  | Null, Null => true
  | _, _ => false
  end.

Definition values_compare (a b : Value) : option comparison :=
  match a, b with
  | VNumber a, VNumber b =>
      match as_f64 a, as_f64 b with
      | Some af, Some bf => f64_partial_cmp af bf
      | _, _ => None
      end
  | VString a, VString b => Some (String.compare a b)
  | _, _ => None
  end.

Definition is_truthy (v : Value) : bool :=
  match v with
  | VBool b => b
  | Null => false
  | VString s => bool_decide (s <> "")
  | VNumber n =>
      match as_f64 n with Some f => negb (f64_eqb f (S754_zero false)) | None => false end
  | VArray a => bool_decide (a <> [])
  | VObject o => bool_decide (o <> [])
  end.

Definition ordering_is (want : comparison -> bool) (o : option comparison) : bool :=
  match o with Some c => want c | None => false end.

Fixpoint eval_expr (e : Expr.t) (context : Value) : result Value CondError :=
  let compare want lhs rhs :=
    let? l := eval_expr lhs context in
    let? r := eval_expr rhs context in
    Ok (VBool (ordering_is want (values_compare l r))) in
  match e with
  | Expr.Literal v => Ok v
  | Expr.Path p => Ok (resolve_path p context)
  | Expr.Eq lhs rhs =>
      let? l := eval_expr lhs context in
      let? r := eval_expr rhs context in
      Ok (VBool (values_equal l r))
  | Expr.NotEq lhs rhs =>
      let? l := eval_expr lhs context in
      let? r := eval_expr rhs context in
      Ok (VBool (negb (values_equal l r)))
  | Expr.Gt lhs rhs =>
      compare (fun c => match c with Gt => true | _ => false end) lhs rhs
  | Expr.Gte lhs rhs =>
      compare (fun c => match c with Gt | Eq => true | _ => false end) lhs rhs
  | Expr.Lt lhs rhs =>
      compare (fun c => match c with Lt => true | _ => false end) lhs rhs
  | Expr.Lte lhs rhs =>
      compare (fun c => match c with Lt | Eq => true | _ => false end) lhs rhs
  | Expr.Not inner =>
      let? v := eval_expr inner context in
      Ok (VBool (negb (is_truthy v)))
  | Expr.And lhs rhs =>
      let? l := eval_expr lhs context in
      if negb (is_truthy l) then Ok (VBool false)
      else let? r := eval_expr rhs context in Ok (VBool (is_truthy r))
  | Expr.Or lhs rhs =>
      let? l := eval_expr lhs context in
      if is_truthy l then Ok (VBool true)
      else let? r := eval_expr rhs context in Ok (VBool (is_truthy r))
  end.

(** ** [CompiledCondition] *)

Record CompiledCondition : Type := mkCompiled {
  source : string;
  ast : Expr.t
}.

(** [CompiledCondition::compile].  Neither loop runs out of fuel
    ([compile_total]); the [Err] of that case is never returned. *)
Definition compile (expr : string) : result CompiledCondition CondError :=
  let trimmed := str_trim expr in
  if decide (trimmed = "") then
    Ok {| source := ""; ast := Expr.Literal (VBool true) |}
  else
    match tokenize trimmed with
    | None => Err UnexpectedEnd
    | Some (Err e) => Err e
    | Some (Ok tokens) =>
        match parse_tokens tokens with
        | None => Err UnexpectedEnd
        | Some (Err e) => Err e
        | Some (Ok ast) => Ok {| source := trimmed; ast := ast |}
        end
    end.

(** [CompiledCondition::evaluate] *)
Definition evaluate_compiled (c : CompiledCondition) (context : Value)
  : result bool CondError :=
  let? v := eval_expr (ast c) context in Ok (is_truthy v).

(** [evaluate] *)
Definition evaluate (expr : string) (context : Value) : result bool CondError :=
  let? c := compile expr in evaluate_compiled c context.

(** ** [ConditionCache]

    The map under the lock; a lookup under the read lock and an
    insert-if-absent under the write lock are the two atomic operations. *)

Record ConditionCache : Type := mkCache {
  entries : gmap string (result CompiledCondition CondError)
}.

Definition cache_new : ConditionCache := mkCache ∅.

Definition cache_read (c : ConditionCache) (expr : string)
  : option (result CompiledCondition CondError) := entries c !! expr.

(** [entry(expr).or_insert_with(|| compiled.clone()).clone()] *)
Definition cache_or_insert (c : ConditionCache) (expr : string)
    (compiled : result CompiledCondition CondError)
  : result CompiledCondition CondError * ConditionCache :=
  match entries c !! expr with
  | Some hit => (hit, c)
  | None => (compiled, mkCache (<[expr := compiled]> (entries c)))
  end.

(** [ConditionCache::compiled] *)
Definition compiled (c : ConditionCache) (expr : string)
  : result CompiledCondition CondError * ConditionCache :=
  match cache_read c expr with
  | Some hit => (hit, c)
  | None => cache_or_insert c expr (compile expr)
  end.

(** [ConditionCache::evaluate] *)
Definition cache_evaluate (c : ConditionCache) (expr : string) (context : Value)
  : result bool CondError * ConditionCache :=
  let '(entry, c') := compiled c expr in
  match entry with
  | Ok cond => (evaluate_compiled cond context, c')
  | Err e => (Err e, c')
  end.

Definition cache_len (c : ConditionCache) : nat := size (entries c).
Definition cache_is_empty (c : ConditionCache) : bool := bool_decide (cache_len c = O).

(** ** [render_template] *)

Definition open_braces : list ascii := ["{"; "{"]%char.
Definition close_braces : list ascii := ["}"; "}"]%char.

(** [char::len_utf8] from the leading byte. *)
Definition utf8_width (b : ascii) : nat :=
  if code b <? 128 then 1 else if code b <? 224 then 2 else if code b <? 240 then 3 else 4.

(** The text substituted for a placeholder. *)
Definition placeholder_text (v : Value) : list ascii :=
  match v with
  | Null => []
  | VString s => as_bytes s
  | other => as_bytes (value_to_string other)
  end.

(** One iteration of the loop from byte [b]: the bytes appended to the result
    and the bytes of the template left. *)
Definition render_step (b : ascii) (r : list ascii) (context : Value)
  : list ascii * list ascii :=
  let copy :=
    if is_ascii b then ([b], r)
    else (take (utf8_width b) (b :: r), drop (utf8_width b) (b :: r)) in
  if starts_with open_braces (b :: r) then
    let inner := drop 1 r in
    match find_bytes close_braces inner with
    | Some end_ =>
        let path := str_trim (from_bytes (take end_ inner)) in
        (placeholder_text (resolve_path path context), drop (end_ + 2) inner)
    | None => copy
    end
  else copy.

Fixpoint render_loop (fuel : nat) (l : list ascii) (context : Value) (out : list ascii)
  : option (list ascii) :=
  match l with
  | [] => Some out
  | b :: r =>
      match fuel with
      | O => None
      | S fuel =>
          let '(text, r') := render_step b r context in
          render_loop fuel r' context (out ++ text)
      end
  end.

Definition render_template (template : string) (context : Value) : option string :=
  from_bytes <$> render_loop (length (as_bytes template)) (as_bytes template) context [].

(** ** [build_step_context] *)

(** [steps.iter().map(|s| (s.id, s.name)).collect()] *)
Definition id_to_name (steps : list StepDef) : gmap StepId string :=
  fold_left (fun m s => <[id s := name s]> m) steps ∅.

Definition result_entry (r : StepResult) : Value :=
  VObject (json_object
    [("status", VString (StepStatus.fmt (status r)));
     ("output", output r);
     ("error", json_opt_string (error r))]).

Fixpoint context_entries (names : gmap StepId string) (results : list StepResult)
    (step_map : list (string * Value)) : list (string * Value) :=
  match results with
  | [] => step_map
  | r :: results =>
      match names !! step_id r with
      | None => context_entries names results step_map
      | Some nm => context_entries names results (map_insert nm (result_entry r) step_map)
      end
  end.

Definition build_step_context (results : list StepResult) (steps : list StepDef) : Value :=
  VObject (json_object [("steps", VObject (context_entries (id_to_name steps) results []))]).

End Eval.

(** ** Evaluation never fails *)

Section EvalFacts.
Context `{JN : JsonNumber} `{JL : !JsonLib}.

Lemma eval_total e ctx : exists v, eval_expr e ctx = Ok v.
Proof.
  induction e as [v|p|l IHl r IHr|l IHl r IHr|l IHl r IHr|l IHl r IHr|l IHl r IHr|l IHl r IHr
                 |e IH|l IHl r IHr|l IHl r IHr]; cbn; [by eauto|by eauto|..];
    try (destruct IHl as [vl ->], IHr as [vr ->]; cbn; by eauto).
  - destruct IH as [v ->]. cbn. eauto.
  - destruct IHl as [vl ->], IHr as [vr ->]. cbn. destruct (is_truthy vl); cbn; eauto.
  - destruct IHl as [vl ->], IHr as [vr ->]. cbn. destruct (is_truthy vl); cbn; eauto.
Qed.

Lemma evaluate_compiled_total c ctx : exists b, evaluate_compiled c ctx = Ok b.
Proof. unfold evaluate_compiled. destruct (eval_total (ast c) ctx) as [v ->]. cbn. eauto. Qed.

(** *** Compilation *)

Lemma tokenize_total s : is_Some (tokenize s).
Proof. unfold tokenize. by apply tokenize_loop_fuel. Qed.

(** The text of a condition and the expression it denotes. *)
Inductive denotes (text : string) : Expr.t -> Prop :=
| denotes_blank : str_trim text = "" -> denotes text (Expr.Literal (VBool true))
| denotes_expr ts e :
    str_trim text <> "" -> reads (as_bytes (str_trim text)) ts ->
    Grammar.derives Grammar.Or ts e -> denotes text e.

Lemma compile_denotes s c :
  compile s = Ok c <-> source c = str_trim s /\ denotes s (ast c).
Proof.
  unfold compile. destruct (decide (str_trim s = "")) as [Hs|Hs].
  - split.
    + intros [= <-]. cbn. split; [done|]. by constructor.
    + destruct c as [src a]; cbn. intros [-> Hd]. inversion Hd; subst; [by rewrite Hs|done].
  - destruct (tokenize_total (str_trim s)) as [r Hr]. rewrite Hr.
    split.
    + intros H. destruct r as [ts|err]; [|done]. apply tokenize_reads in Hr.
      destruct (parse_tokens ts) as [[e|err]|] eqn:Hp; [|done|done].
      injection H as <-. cbn. split; [done|].
      by eapply denotes_expr; [done|exact Hr|apply Grammar.parse_derives].
    + destruct c as [src a]; cbn. intros [-> Hden]. inversion Hden as [?|ts e _ Hrd Hd]; subst; [done|].
      apply tokenize_reads in Hrd. rewrite Hr in Hrd. injection Hrd as ->.
      by rewrite (Grammar.derives_parse ts a Hd).
Qed.

(** The two fuel branches of [compile] are dead. *)
Lemma compile_total s :
  str_trim s <> "" ->
  exists r, tokenize (str_trim s) = Some r /\
    match r with Ok ts => is_Some (parse_tokens ts) | Err _ => True end.
Proof.
  intros _. destruct (tokenize_total (str_trim s)) as [r Hr]. exists r. split; [done|].
  destruct r; [apply parse_tokens_total|done].
Qed.

(** *** The cache *)

(** Every entry is what compiling its key gives. *)
Definition cache_ok (c : ConditionCache) : Prop :=
  forall k r, entries c !! k = Some r -> r = compile k.

Lemma cache_new_ok : cache_ok cache_new.
Proof. unfold cache_ok, cache_new. intros k r H. cbn in H. by rewrite lookup_empty in H. Qed.

Lemma cache_or_insert_ok c expr :
  cache_ok c -> cache_ok (cache_or_insert c expr (compile expr)).2.
Proof.
  unfold cache_ok, cache_or_insert. intros Hc k r.
  destruct (entries c !! expr) as [hit|]; [apply Hc|]. cbn.
  rewrite lookup_insert. case_decide as E; [|apply Hc]. intros [= <-]. by rewrite E.
Qed.

Lemma compiled_correct c expr :
  cache_ok c ->
  (compiled c expr).1 = compile expr /\ cache_ok (compiled c expr).2 /\
  dom (entries (compiled c expr).2) = {[expr]} ∪ dom (entries c).
Proof.
  intros Hc. unfold compiled, cache_read.
  assert (Hok := cache_or_insert_ok c expr Hc). unfold cache_or_insert in *.
  destruct (entries c !! expr) as [hit|] eqn:E; cbn.
  - split_and!; [by apply Hc|done|]. assert (expr ∈ dom (entries c)) by (apply elem_of_dom; eauto).
    set_solver.
  - split_and!; [done|done|]. apply dom_insert_L.
Qed.

Lemma cache_evaluate_correct c expr ctx :
  cache_ok c ->
  (cache_evaluate c expr ctx).1 = evaluate expr ctx /\
  cache_ok (cache_evaluate c expr ctx).2 /\
  dom (entries (cache_evaluate c expr ctx).2) = {[expr]} ∪ dom (entries c).
Proof.
  intros Hc. unfold cache_evaluate, evaluate.
  destruct (compiled_correct c expr Hc) as (H1 & H2 & H3).
  destruct (compiled c expr) as [entry c']. cbn in *. subst entry.
  by destruct (compile expr).
Qed.

(** A thread's evaluations against the shared cache, one request after the
    other. *)
Fixpoint cache_run (c : ConditionCache) (reqs : list (string * Value))
  : list (result bool CondError) * ConditionCache :=
  match reqs with
  | [] => ([], c)
  | (expr, ctx) :: reqs =>
      let '(r, c) := cache_evaluate c expr ctx in
      let '(rs, c) := cache_run c reqs in
      (r :: rs, c)
  end.

(** The caches other threads can produce between two of our operations:
    reading leaves the map alone, so only the insertions show. *)
Inductive cache_reach : ConditionCache -> ConditionCache -> Prop :=
| reach_refl c : cache_reach c c
| reach_insert c expr c' :
    cache_reach (cache_or_insert c expr (compile expr)).2 c' -> cache_reach c c'.

Lemma cache_reach_ok c c' : cache_reach c c' -> cache_ok c -> cache_ok c'.
Proof.
  induction 1 as [|c expr c' _ IH]; [done|]. intros Hc. by apply IH, cache_or_insert_ok.
Qed.

Lemma cache_run_correct reqs : forall c,
  cache_ok c ->
  (cache_run c reqs).1 = (fun '(expr, ctx) => evaluate expr ctx) <$> reqs /\
  cache_ok (cache_run c reqs).2 /\
  dom (entries (cache_run c reqs).2) = list_to_set reqs.*1 ∪ dom (entries c).
Proof.
  induction reqs as [|[expr ctx] reqs IH]; intros c Hc; cbn; [set_solver|].
  destruct (cache_evaluate_correct c expr ctx Hc) as (H1 & H2 & H3).
  destruct (cache_evaluate c expr ctx) as [r c']. cbn in *. subst r.
  destruct (IH c' H2) as (H4 & H5 & H6). destruct (cache_run c' reqs) as [rs c'']. cbn in *.
  split_and!; [by rewrite H4|done|]. rewrite H6, H3. set_solver.
Qed.

(** *** Templates *)

Lemma utf8_width_pos b : (0 < utf8_width b)%nat.
Proof. unfold utf8_width. repeat case_match; lia. Qed.

Lemma render_step_length b r ctx :
  (length (render_step b r ctx).2 <= length r)%nat.
Proof.
  unfold render_step. assert (Hw := utf8_width_pos b).
  assert (Hcopy : (length (if is_ascii b then ([b], r)
      else (take (utf8_width b) (b :: r), drop (utf8_width b) (b :: r))).2 <= length r)%nat).
  { destruct (is_ascii b); cbn [snd]; [done|]. rewrite length_drop. cbn. lia. }
  destruct (starts_with open_braces (b :: r)); [|done].
  destruct (find_bytes close_braces (drop 1 r)); [|done].
  cbn [snd]. rewrite !length_drop. lia.
Qed.

Lemma render_loop_total fuel : forall l ctx out,
  (length l <= fuel)%nat -> is_Some (render_loop fuel l ctx out).
Proof.
  induction fuel as [|fuel IH]; intros [|b r] ctx out Hl; cbn in *; [by eauto|lia|by eauto|].
  assert (H := render_step_length b r ctx).
  destruct (render_step b r ctx) as [text r']. cbn in H. apply IH. lia.
Qed.

Lemma render_template_total t ctx : is_Some (render_template t ctx).
Proof.
  unfold render_template.
  destruct (render_loop_total (length (as_bytes t)) (as_bytes t) ctx [] ltac:(lia)) as [o ->].
  by eexists.
Qed.

(** Fuel and accumulator abstracted away. *)
Inductive renders (ctx : Value) : list ascii -> list ascii -> Prop :=
| renders_nil : renders ctx [] []
| renders_cons b r text r' out :
    render_step b r ctx = (text, r') -> renders ctx r' out ->
    renders ctx (b :: r) (text ++ out).

Lemma render_loop_renders fuel : forall l ctx out o,
  (length l <= fuel)%nat ->
  render_loop fuel l ctx out = Some o <-> exists o', o = out ++ o' /\ renders ctx l o'.
Proof.
  induction fuel as [|fuel IH]; intros [|b r] ctx out o Hl; cbn in *; try lia.
  1,2: split; [intros [= <-]; exists []; by rewrite app_nil_r; eauto using renders_nil
              |intros (o' & -> & Hr); inversion Hr; by rewrite app_nil_r].
  assert (H := render_step_length b r ctx).
  destruct (render_step b r ctx) as [text r'] eqn:E. cbn in H.
  rewrite IH by lia. split.
  - intros (o' & -> & Hr). exists (text ++ o'). rewrite <- app_assoc. split; [done|].
    by eapply renders_cons.
  - intros (o' & -> & Hr). inversion Hr as [|? ? text' r'' out' E' Hr' ]; subst.
    rewrite E in E'. injection E' as <- <-. exists out'. by rewrite <- app_assoc.
Qed.

Lemma render_template_renders t ctx o :
  render_template t ctx = Some o <-> renders ctx (as_bytes t) (as_bytes o).
Proof.
  unfold render_template.
  assert (Hl : forall o', render_loop (length (as_bytes t)) (as_bytes t) ctx [] = Some o' <->
                    renders ctx (as_bytes t) o').
  { intros o'. rewrite render_loop_renders by lia. cbn. naive_solver. }
  rewrite <- Hl. destruct (render_loop _ _ _ _) as [o'|]; cbn; [|done]. split.
  - intros [= <-]. by rewrite as_from_bytes.
  - intros [= ->]. by rewrite from_as_bytes.
Qed.

Lemma renders_fun l ctx o o' : renders ctx l o -> renders ctx l o' -> o = o'.
Proof.
  intros H. revert o'. induction H as [|b r text r' out E _ IH]; intros o' H'.
  - by inversion H'.
  - inversion H' as [|? ? text' r'' out' E' H'']; subst. rewrite E in E'.
    injection E' as <- <-. by rewrite (IH _ H'').
Qed.

Lemma renders_exists l ctx : exists o, renders ctx l o.
Proof.
  destruct (render_loop_total (length l) l ctx [] ltac:(lia)) as [o Ho].
  apply render_loop_renders in Ho as (o' & _ & Hr); [by exists o'|lia].
Qed.

(** No two adjacent opening braces. *)
Fixpoint no_open (l : list ascii) : bool :=
  match l with
  | [] => true
  | _ :: l' => negb (starts_with open_braces l) && no_open l'
  end.

Lemma no_open_drop n l : no_open l = true -> no_open (drop n l) = true.
Proof.
  revert n. induction l as [|a l IH]; intros [|n] H; try done.
  cbn [no_open drop] in *. apply andb_prop in H as [_ H]. by apply IH.
Qed.

Lemma renders_literal l ctx : no_open l = true -> renders ctx l l.
Proof.
  remember (length l) as n eqn:Hn.
  induction (lt_wf n) as [n _ IH] in l, Hn |- *. intros H.
  destruct l as [|b r]; [constructor|].
  assert (Hb : starts_with open_braces (b :: r) = false).
  { cbn [no_open] in H. apply andb_prop in H as [H _]. by destruct (starts_with _ _). }
  assert (Hw := utf8_width_pos b).
  destruct (is_ascii b) eqn:Ea.
  - change (b :: r) with ([b] ++ r) at 2. eapply renders_cons.
    + unfold render_step. by rewrite Hb, Ea.
    + eapply IH; [|reflexivity|]; [subst; cbn; lia|]. by apply (no_open_drop 1 (b :: r)).
  - rewrite <- (take_drop (utf8_width b) (b :: r)) at 2. eapply renders_cons.
    + unfold render_step. by rewrite Hb, Ea.
    + eapply IH; [|reflexivity|by apply no_open_drop].
      subst. rewrite length_drop. cbn. lia.
Qed.

Lemma renders_placeholder path post ctx out :
  forallb (fun c => negb (eqc c "}")) path = true ->
  renders ctx post out ->
  renders ctx (open_braces ++ path ++ close_braces ++ post)
    (placeholder_text (resolve_path (str_trim (from_bytes path)) ctx) ++ out).
Proof.
  intros Hp Hpost. cbn [open_braces app]. eapply renders_cons; [|exact Hpost].
  unfold render_step. cbn [starts_with open_braces drop].
  assert (Hf : find_bytes close_braces (path ++ close_braces ++ post) = Some (length path)).
  { clear -Hp. induction path as [|c path IH].
    - cbn [app length]. cbn. destruct post; reflexivity.
    - cbn [forallb] in Hp. apply andb_prop in Hp as [Hc Hp].
      cbn [app find_bytes]. rewrite (IH Hp).
      assert (Hs : starts_with close_braces (c :: path ++ close_braces ++ post) = false).
      { cbn. unfold eqc in *. destruct (decide (c = "}"%char)) as [->|Hne]; [done|].
        rewrite bool_decide_eq_false_2 by congruence. done. }
      by rewrite Hs. }
  change (eqc "{" "{" && (eqc "{" "{" && true)) with true. cbv iota.
  rewrite !drop_0, Hf, take_app_length.
  replace (length path + 2)%nat with (length (path ++ close_braces))
    by (rewrite length_app; done).
  rewrite (app_assoc path close_braces post). by rewrite drop_app_length.
Qed.

Lemma renders_prefix pre l ctx out :
  forallb (fun c => is_ascii c && negb (eqc c "{")) pre = true ->
  renders ctx l out -> renders ctx (pre ++ l) (pre ++ out).
Proof.
  intros Hp Hl. induction pre as [|b pre IH]; [done|]. cbn [forallb] in Hp.
  apply andb_prop in Hp as [Hb Hp]. apply andb_prop in Hb as [Ha Hb].
  change ((b :: pre) ++ out) with ([b] ++ (pre ++ out)).
  change ((b :: pre) ++ l) with (b :: (pre ++ l)). eapply renders_cons; [|by apply IH].
  unfold render_step.
  assert (Hs : starts_with open_braces (b :: pre ++ l) = false).
  { cbn. unfold eqc in *. destruct (decide (b = "{"%char)) as [->|Hne]; [done|].
    rewrite bool_decide_eq_false_2 by congruence. done. }
  by rewrite Hs, Ha.
Qed.

End EvalFacts.

(** ** Conditions as text *)

Section Texts.
Context `{JN : JsonNumber} `{JL : !JsonLib}.

Lemma derives_nonempty lv ts e : Grammar.derives lv ts e -> ts <> [].
Proof. by induction 1 as [| | | | | | |[|]| |[|]| |[|]]. Qed.

(** Any blank-separated writing of the tokens of a phrase compiles to the
    expression the grammar assigns to it. *)
Lemma compile_written ws ts e :
  Forall2 written ws ts -> Grammar.derives Grammar.Or ts e ->
  let text := from_bytes (join_bytes " " ws) in
  compile text = Ok {| source := text; ast := e |}.
Proof.
  intros Hw Hd. cbn.
  assert (Hne : ws <> []).
  { intros ->. inversion Hw; subst. by apply derives_nonempty in Hd. }
  assert (Hs := join_solid_ends _ _ Hw Hne).
  assert (Ht : str_trim (from_bytes (join_bytes " " ws)) = from_bytes (join_bytes " " ws)).
  { unfold str_trim. by rewrite as_from_bytes, trim_solid_ends. }
  apply compile_denotes. cbn. rewrite Ht. split; [done|].
  eapply denotes_expr; [| |exact Hd]; rewrite Ht.
  - intros E. destruct Hs as [(a & l & El & _) _]. rewrite El in E. done.
  - rewrite as_from_bytes. by apply reads_written.
Qed.

(** ** The context conditions see *)

(** The name the context files a result under. *)
Definition named (steps : list StepDef) (r : StepResult) (nm : string) : Prop :=
  id_to_name steps !! step_id r = Some nm.

Lemma context_entries_app names rs rs' m :
  context_entries names (rs ++ rs') m =
  context_entries names rs' (context_entries names rs m).
Proof.
  revert m. induction rs as [|r rs IH]; intros m; [done|]. cbn.
  destruct (names !! step_id r); apply IH.
Qed.

Lemma context_entries_other `{!JsonLaws} names rs nm m :
  (forall r, r ∈ rs -> names !! step_id r <> Some nm) ->
  assoc nm (context_entries names rs m) = assoc nm m.
Proof.
  revert m. induction rs as [|r rs IH]; intros m Hrs; [done|]. cbn.
  assert (Hr := Hrs r (list_elem_of_here _ _)).
  assert (Hrs' : forall r, r ∈ rs -> names !! step_id r <> Some nm)
    by (intros r' Hin; apply Hrs; by right).
  destruct (names !! step_id r) as [nm'|]; rewrite IH by done; [|done].
  apply assoc_map_insert_ne. congruence.
Qed.

Lemma context_entries_last `{!JsonLaws} names pre r post nm m :
  names !! step_id r = Some nm ->
  (forall r', r' ∈ post -> names !! step_id r' <> Some nm) ->
  assoc nm (context_entries names (pre ++ r :: post) m) = Some (result_entry r).
Proof.
  intros Hr Hpost. rewrite context_entries_app. cbn. rewrite Hr.
  rewrite context_entries_other by done. apply assoc_map_insert_eq.
Qed.

Definition no_dot (s : string) : Prop :=
  forallb (fun c => negb (eqc c ".")) (as_bytes s) = true.

Lemma split_on_app p s :
  no_dot p -> split_on "." (p +:+ "." +:+ s) = p :: split_on "." s.
Proof.
  intros Hp. unfold split_on. rewrite !as_bytes_app.
  change (as_bytes ".") with ["."%char]. cbn [app].
  rewrite split_bytes_app by done. cbn. by rewrite from_as_bytes.
Qed.

Lemma split_on_single p : no_dot p -> split_on "." p = [p].
Proof.
  intros Hp. unfold split_on. rewrite split_bytes_none by done.
  cbn. by rewrite from_as_bytes.
Qed.

(** Resolving [steps.<nm>.<field>] against the context. *)
Lemma resolve_step_field `{!JsonLaws} steps results r pre post nm field :
  results = pre ++ r :: post -> named steps r nm ->
  (forall r', r' ∈ post -> ~ named steps r' nm) -> no_dot nm -> no_dot field ->
  resolve_path ("steps." +:+ nm +:+ "." +:+ field) (build_step_context results steps) =
    match value_get (result_entry r) field with Some v => v | None => Null end.
Proof.
  intros -> Hr Hpost Hnm Hfield. unfold resolve_path.
  change ("steps." +:+ nm +:+ "." +:+ field) with ("steps" +:+ "." +:+ (nm +:+ "." +:+ field)).
  rewrite !split_on_app, split_on_single by done. unfold build_step_context.
  cbn [walk json_object fold_left]. rewrite value_get_object, assoc_map_insert_eq.
  cbn [walk]. rewrite value_get_object.
  rewrite (context_entries_last _ pre r post nm) by done. cbn [walk].
  by destruct (value_get (result_entry r) field).
Qed.

Lemma result_entry_status `{!JsonLaws} r :
  value_get (result_entry r) "status" = Some (VString (StepStatus.fmt (status r))).
Proof.
  unfold result_entry, json_object. cbn [fold_left]. rewrite value_get_object.
  rewrite !assoc_map_insert_ne by done. apply assoc_map_insert_eq.
Qed.

Lemma result_entry_output `{!JsonLaws} r :
  value_get (result_entry r) "output" = Some (output r).
Proof.
  unfold result_entry, json_object. cbn [fold_left]. rewrite value_get_object.
  rewrite assoc_map_insert_ne by done. apply assoc_map_insert_eq.
Qed.

Lemma result_entry_error `{!JsonLaws} r :
  value_get (result_entry r) "error" = Some (json_opt_string (error r)).
Proof.
  unfold result_entry, json_object. cbn [fold_left]. rewrite value_get_object.
  apply assoc_map_insert_eq.
Qed.

(** The text [steps.<nm>.status == '<st>'] and its expression. *)
Definition status_test (nm st : string) : string :=
  "steps." +:+ nm +:+ ".status == '" +:+ st +:+ "'".

Definition word_string (s : string) : Prop := forallb is_word (as_bytes s) = true.
Definition no_quote (s : string) : Prop :=
  forallb (fun c => negb (is_quote c)) (as_bytes s) = true.

Lemma compile_status_test nm st :
  word_string nm -> no_quote st ->
  compile (status_test nm st) =
    Ok {| source := status_test nm st;
          ast := Expr.Eq (Expr.Path ("steps." +:+ nm +:+ "." +:+ "status"))
                         (Expr.Literal (VString st)) |}.
Proof.
  intros Hnm Hst. set (p := "steps." +:+ nm +:+ "." +:+ "status").
  assert (Hw : Forall2 written
    [as_bytes p; as_bytes "=="; "'"%char :: as_bytes st ++ ["'"%char]]
    [Token.Path (from_bytes (as_bytes p)); Token.Eq; Token.StringLit (from_bytes (as_bytes st))]).
  { repeat constructor.
    - unfold p. rewrite !as_bytes_app. cbn. rewrite forallb_app. by rewrite Hnm.
    - rewrite from_as_bytes. unfold p. by destruct nm.
    - rewrite from_as_bytes. unfold p. by destruct nm.
    - done. }
  assert (Hd : Grammar.derives Grammar.Or
    [Token.Path (from_bytes (as_bytes p)); Token.Eq; Token.StringLit (from_bytes (as_bytes st))]
    (Expr.Eq (Expr.Path p) (Expr.Literal (VString st)))).
  { apply Grammar.d_and_only, Grammar.d_cmp_only. rewrite !from_as_bytes.
    apply (Grammar.d_cmp [_] [_]); [constructor|done|constructor]. }
  assert (Htext : from_bytes (join_bytes " "
    [as_bytes p; as_bytes "=="; "'"%char :: as_bytes st ++ ["'"%char]]) = status_test nm st).
  { apply as_bytes_inj. rewrite as_from_bytes. unfold status_test, p. cbn [join_bytes].
    rewrite !as_bytes_app, <- !app_assoc. reflexivity. }
  assert (Hc := compile_written _ _ _ Hw Hd). cbv zeta in Hc. by rewrite Htext in Hc.
Qed.

End Texts.

(** ** Properties

    Witnesses compute with [SerdeModel]. *)

#[local] Existing Instances SerdeModel.serde_number SerdeModel.serde_lib SerdeModel.serde_laws.


(** Completeness on text: any way of writing the tokens of a phrase of the
    grammar, separated by blanks, compiles to the expression it denotes. *)
Lemma compile_of_text `{JN : JsonNumber} `{JL : !JsonLib} ws ts e :
  Forall2 written ws ts -> Grammar.derives Grammar.Or ts e ->
  compile (from_bytes (join_bytes " " ws)) =
    Ok {| source := from_bytes (join_bytes " " ws); ast := e |}.
Proof. intros Hw Hd. exact (compile_written ws ts e Hw Hd). Qed.

(** Evaluation has no error of its own: [evaluate] fails exactly when
    compilation does, with the same error, whatever the context. *)
Lemma evaluate_fails_iff_compile_fails `{JN : JsonNumber} `{JL : !JsonLib} expr ctx e :
  evaluate expr ctx = Err e <-> compile expr = Err e.
Proof.
  unfold evaluate. destruct (compile expr) as [c|e']; cbn.
  - by destruct (evaluate_compiled_total c ctx) as [b ->].
  - split; by intros [= ->].
Qed.

(** End to end: the condition [steps.<name>.status == '<status>'], evaluated
    by text against the context built from step results, holds if and only if
    the last result filed under that name has that status. *)
Theorem status_condition_correct
    `{JN : JsonNumber} `{JL : !JsonLib} `{!JsonLaws} steps results r pre post nm st :
  results = pre ++ r :: post -> named steps r nm ->
  (forall r', r' ∈ post -> ~ named steps r' nm) ->
  word_string nm -> no_dot nm -> no_quote st ->
  evaluate (status_test nm st) (build_step_context results steps) =
    Ok (bool_decide (StepStatus.fmt (status r) = st)).
Proof.
  intros Hres Hr Hpost Hw Hd Hq. unfold evaluate. rewrite compile_status_test by done.
  cbn [result_bind evaluate_compiled ast eval_expr].
  unfold evaluate_compiled. cbn [ast eval_expr result_bind].
  rewrite (resolve_step_field steps results r pre post nm "status") by done.
  by rewrite result_entry_status.
Qed.

Module ContextExample.
Import SerdeModel.
Definition the_step : StepDef := step_new 1%N "build".
Definition the_result : StepResult := {|
  step_id := 1%N; status := StepStatus.Completed; output := Null;
  duration_ms := 5; attempts := 1; error := None |}.
End ContextExample.

Lemma status_condition_correct_witness :
  evaluate (status_test "build" "completed")
    (build_step_context [ContextExample.the_result] [ContextExample.the_step]) = Ok true.
Proof.
  apply (status_condition_correct [ContextExample.the_step] [ContextExample.the_result]
           ContextExample.the_result [] [] "build" "completed"); try reflexivity.
  intros r' Hr. inversion Hr.
Defined.

(** The cache is transparent: starting from the empty cache, whatever other
    threads insert into it meanwhile, every evaluation through it returns what
    direct evaluation does; the run leaves one entry per distinct expression it
    or they asked for. *)
Theorem cache_transparent `{JN : JsonNumber} `{JL : !JsonLib} others reqs :
  cache_reach cache_new others ->
  (cache_run others reqs).1 = (fun '(expr, ctx) => evaluate expr ctx) <$> reqs /\
  dom (entries (cache_run others reqs).2) = list_to_set reqs.*1 ∪ dom (entries others).
Proof.
  intros H. apply cache_reach_ok in H; [|apply cache_new_ok].
  by destruct (cache_run_correct reqs others H) as (H1 & _ & H3).
Qed.

Lemma cache_transparent_witness :
  let reqs := [("true", Null); ("a ==", Null); ("true", Null)] in
  (@cache_run SerdeModel.serde_number SerdeModel.serde_lib cache_new reqs).1 =
    [Ok true; Err UnexpectedEnd; Ok true].
Proof.
  cbv zeta.
  rewrite (proj1 (@cache_transparent SerdeModel.serde_number SerdeModel.serde_lib
             cache_new _ (reach_refl _))).
  vm_compute. reflexivity.
Defined.


(** A number literal in a condition is a float; [serde_json] compares numbers by
    representation, so the literal equals no integer of the context, although
    the ordering operators, which go through [f64], put them together. *)
Lemma integer_differs_from_literal :
  let ctx := VObject [("n", VNumber (SerdeModel.PosInt 10))] in
  evaluate "n == 10" ctx = Ok false /\ evaluate "n != 10" ctx = Ok true /\
  evaluate "n >= 10 && n <= 10" ctx = Ok true.
Proof. split_and!; vm_compute; reflexivity. Qed.
