(* ===== verification/Flow.v ===== *)
(** * Flow definitions and their validation

    [rust-old/src/flow.rs]: [FlowDef], its builder, and [validate] with the
    depth-first cycle check.  [Graph] holds the search and its correctness;
    [validate_spec] is the abstract promise of a validated flow. *)

From Stdlib Require Import ZArith Lia.
From stdpp Require Import base tactics option list strings gmap relations.
From S2P Require Import Prelude Json Error Step.

Open Scope Z_scope.

Definition FlowId : Type := Uuid.

Module FlowMode.
Inductive t : Type := Sequential | Parallel | Dag | Hierarchical.
#[export] Instance eq_dec : EqDecision t.
Proof. solve_decision. Defined.

(** [impl Display for FlowMode] *)
Definition fmt (m : t) : string :=
  match m with
  | Sequential => "sequential"
  | Parallel => "parallel"
  | Dag => "dag"
  | Hierarchical => "hierarchical"
  end.

Lemma flow_mode_fmt_inj m n : fmt m = fmt n -> m = n.
Proof. by destruct m, n. Qed.
End FlowMode.
Export (hints) FlowMode.

(** ** Depth-first cycle search

    The nested function [dfs] of [check_cycles], on the adjacency map
    [deps : HashMap<Uuid, &Vec<Uuid>>] with the two mutable sets [visited] and
    [in_stack] passed along.  [fuel] bounds the depth of the recursion; [None]
    is running out of it. *)
Module Graph.

Definition deps_map : Type := gmap StepId (list StepId).
Definition sets : Type := (gset StepId * gset StepId)%type.

(** The loop [for &n in neighbors] of one call, [rec] being the recursive
    call. *)
Fixpoint scan (rec : StepId -> sets -> option (bool * sets))
    (neighbors : list StepId) (st : sets) : option (bool * sets) :=
  match neighbors with
  | [] => Some (false, st)
  | n :: ns =>
      if bool_decide (n ∉ st.1) then
        match rec n st with
        | Some (true, st') => Some (true, st')
        | Some (false, st') => scan rec ns st'
        | None => None
        end
      else if bool_decide (n ∈ st.2) then Some (true, st)
      else scan rec ns st
  end.

Fixpoint dfs (fuel : nat) (deps : gmap StepId (list StepId)) (node : StepId)
    (st : sets) : option (bool * sets) :=
  match fuel with
  | O => None
  | S fuel =>
      let st := ({[node]} ∪ st.1, {[node]} ∪ st.2) in
      let r := match deps !! node with
               | Some neighbors => scan (dfs fuel deps) neighbors st
               | None => Some (false, st)
               end in
      match r with
      | Some (true, st') => Some (true, st')
      | Some (false, st') => Some (false, (st'.1, st'.2 ∖ {[node]}))
      | None => None
      end
  end.

(** The loop over the steps: stop at the first search that finds a cycle. *)
Fixpoint search (fuel : nat) (deps : gmap StepId (list StepId)) (nodes : list StepId)
    (st : sets) : option bool :=
  match nodes with
  | [] => Some false
  | v :: nodes =>
      if bool_decide (v ∉ st.1) then
        match dfs fuel deps v st with
        | Some (true, _) => Some true
        | Some (false, st') => search fuel deps nodes st'
        | None => None
        end
      else search fuel deps nodes st
  end.

(** *** Edges, and the invariant of the search *)

Definition edge (deps : gmap StepId (list StepId)) (u v : StepId) : Prop :=
  exists ns, deps !! u = Some ns /\ v ∈ ns.

Definition cyclic (deps : gmap StepId (list StepId)) : Prop :=
  exists u, tc (edge deps) u u.

(** Every edge sequence out of [u] is finite. *)
Definition grounded (deps : gmap StepId (list StepId)) (u : StepId) : Prop :=
  Acc (fun v w => edge deps w v) u.

Record inv (deps : gmap StepId (list StepId)) (st : sets) : Prop := {
  inv_stack : st.2 ⊆ st.1;
  inv_done u : u ∈ st.1 -> u ∉ st.2 -> grounded deps u
}.

Section Search.
Context (deps : gmap StepId (list StepId)).

Lemma grounded_no_cycle u : grounded deps u -> ~ tc (edge deps) u u.
Proof.
  intros Hg. induction Hg as [u _ IH]. intros Hc.
  inversion Hc as [? ? Huu|? v ? Huv Hvu]; subst; [by eapply IH|].
  apply (IH v Huv). by eapply tc_r.
Qed.

(** What one recursive call promises. *)
Definition call_ok (rec : StepId -> sets -> option (bool * sets)) (n : StepId)
    (st : sets) : Prop :=
  n ∉ st.1 -> inv deps st -> (forall s, s ∈ st.2 -> rtc (edge deps) s n) ->
  match rec n st with
  | Some (true, _) => cyclic deps
  | Some (false, st') => inv deps st' /\ st'.2 = st.2 /\ {[n]} ∪ st.1 ⊆ st'.1
  | None => True
  end.

Lemma scan_ok rec ns st v :
  (forall n st, call_ok rec n st) ->
  inv deps st -> (forall n, n ∈ ns -> edge deps v n) ->
  (forall s, s ∈ st.2 -> rtc (edge deps) s v) ->
  match scan rec ns st with
  | Some (true, _) => cyclic deps
  | Some (false, st') =>
      inv deps st' /\ st'.2 = st.2 /\ st.1 ⊆ st'.1 /\
      (forall n, n ∈ ns -> n ∈ st'.1 /\ n ∉ st'.2)
  | None => True
  end.
Proof.
  intros Hrec. revert st. induction ns as [|n ns IH]; intros st Hi He Hs; cbn.
  { split_and!; try done. intros n Hn%elem_of_nil. done. }
  assert (Hvn : edge deps v n) by (apply He; left).
  assert (He' : forall m, m ∈ ns -> edge deps v m) by (intros m Hm; apply He; by right).
  case_bool_decide as Hn.
  - assert (Hc := Hrec n st Hn Hi ltac:(intros s Hs'; eapply rtc_r; eauto)).
    destruct (rec n st) as [[[] st1]|]; [done| |done].
    destruct Hc as (Hi1 & Hs1 & Hv1).
    assert (IH1 := IH st1 Hi1 He' ltac:(by rewrite Hs1)).
    destruct (scan rec ns st1) as [[[] st2]|]; [done| |done].
    destruct IH1 as (Hi2 & Hs2 & Hv2 & Hall).
    split_and!; [done|congruence|set_solver|].
    intros m [->|Hm]%elem_of_cons; [|by apply Hall].
    split; [set_solver|]. rewrite Hs2, Hs1. intros Hbad.
    by apply Hn, (inv_stack _ _ Hi).
  - case_bool_decide as Hst.
    + exists n. eapply tc_rtc_l; [by apply Hs|]. by apply tc_once.
    + assert (IH1 := IH st Hi He' Hs).
      destruct (scan rec ns st) as [[[] st2]|]; [done| |done].
      destruct IH1 as (Hi2 & Hs2 & Hv2 & Hall). split_and!; try done.
      intros m [->|Hm]%elem_of_cons; [|by apply Hall].
      split; [set_solver|congruence].
Qed.

Lemma inv_push v (st : sets) :
  inv deps st -> inv deps ({[v]} ∪ st.1, {[v]} ∪ st.2).
Proof.
  intros [Hs Hd]. split; cbn; [set_solver|].
  intros u Hu1 Hu2. apply Hd; set_solver.
Qed.

Lemma inv_pop v (st st' : sets) :
  v ∉ st.2 -> st'.2 = {[v]} ∪ st.2 -> inv deps st' ->
  (forall w, edge deps v w -> w ∈ st'.1 /\ w ∉ st'.2) ->
  inv deps (st'.1, st'.2 ∖ {[v]}).
Proof.
  intros Hv Hs' [Hs Hd] Hw. split; cbn; [set_solver|].
  intros u Hu1 Hu2. destruct (decide (u = v)) as [->|Hne].
  - constructor. intros w Hvw. destruct (Hw w Hvw) as [Hw1 Hw2]. by apply Hd.
  - apply Hd; set_solver.
Qed.

Lemma dfs_ok fuel : forall v st, call_ok (dfs fuel deps) v st.
Proof.
  induction fuel as [|fuel IH]; intros v st Hv Hi Hs; [done|]. cbn [dfs].
  set (st0 := ({[v]} ∪ st.1, {[v]} ∪ st.2) : sets).
  assert (Hi0 : inv deps st0) by by apply inv_push.
  assert (Hv2 : v ∉ st.2) by (intros Hb; by apply Hv, (inv_stack _ _ Hi)).
  assert (Hpop : st0.2 ∖ {[v]} = st.2) by (unfold st0; cbn; set_solver).
  destruct (deps !! v) as [ns|] eqn:E.
  - assert (Hscan := scan_ok (dfs fuel deps) ns st0 v IH Hi0).
    destruct (scan (dfs fuel deps) ns st0) as [[[] st1]|]; [| |done].
    + apply Hscan; [by exists ns|]. unfold st0; cbn. intros s Hs'.
      apply elem_of_union in Hs' as [->%elem_of_singleton|Hs']; [done|by apply Hs].
    + destruct Hscan as (Hi1 & Hs1 & Hv1 & Hall).
      * intros n Hn. by exists ns.
      * unfold st0; cbn. intros s Hs'.
        apply elem_of_union in Hs' as [->%elem_of_singleton|Hs']; [done|by apply Hs].
      * split_and!; cbn; [|by rewrite Hs1|unfold st0 in Hv1; cbn in Hv1; set_solver].
        eapply inv_pop; [exact Hv2|by rewrite Hs1|done|].
        intros w (ns' & Hns' & Hw). rewrite E in Hns'. injection Hns' as <-.
        by apply Hall.
  - split_and!; cbn; [|done|done].
    apply (inv_pop v st st0); [done|done|done|].
    intros w (ns' & Hns' & Hw). congruence.
Qed.

Lemma search_ok fuel nodes : forall st,
  inv deps st -> st.2 = ∅ ->
  match search fuel deps nodes st with
  | Some true => cyclic deps
  | Some false => forall v, v ∈ st.1 \/ v ∈ nodes -> grounded deps v
  | None => True
  end.
Proof.
  induction nodes as [|v nodes IH]; intros st Hi Hs; cbn.
  { intros v [Hv|Hv%elem_of_nil]; [|done].
    apply (inv_done _ _ Hi); [done|]. rewrite Hs. set_solver. }
  case_bool_decide as Hv.
  - assert (Hd := dfs_ok fuel v st Hv Hi).
    destruct (dfs fuel deps v st) as [[[] st1]|]; [| |done].
    + apply Hd. rewrite Hs. set_solver.
    + destruct Hd as (Hi1 & Hs1 & Hv1); [rewrite Hs; set_solver|].
      assert (IH1 := IH st1 Hi1). rewrite Hs1 in IH1. specialize (IH1 Hs).
      destruct (search fuel deps nodes st1) as [[]|]; [done| |done].
      intros u Hu. apply IH1. rewrite elem_of_cons in Hu. set_solver.
  - assert (IH1 := IH st Hi Hs).
    destruct (search fuel deps nodes st) as [[]|]; [done| |done].
    intros u Hu. apply IH1. rewrite elem_of_cons in Hu. set_solver.
Qed.

(** *** Termination: the depth never exceeds the number of nodes *)

Definition closed (U : gset StepId) : Prop :=
  forall u v, u ∈ U -> edge deps u v -> v ∈ U.

Definition total_on (U : gset StepId) (fuel : nat)
    (rec : StepId -> sets -> option (bool * sets)) : Prop :=
  forall n st, n ∈ U -> n ∉ st.1 -> (size (U ∖ st.1) <= fuel)%nat ->
    exists b st', rec n st = Some (b, st') /\ st.1 ⊆ st'.1.

Lemma size_shrink (U A B : gset StepId) : A ⊆ B -> (size (U ∖ B) <= size (U ∖ A))%nat.
Proof. intros. apply subseteq_size. set_solver. Qed.

Lemma scan_total U fuel rec ns : forall st,
  total_on U fuel rec -> (forall n, n ∈ ns -> n ∈ U) ->
  (size (U ∖ st.1) <= fuel)%nat ->
  exists b st', scan rec ns st = Some (b, st') /\ st.1 ⊆ st'.1.
Proof.
  induction ns as [|n ns IH]; intros st Hrec Hns Hsz; cbn; [by eauto|].
  case_bool_decide as Hn.
  - destruct (Hrec n st) as (b & st1 & -> & Hv); [apply Hns; left|done|done|].
    destruct b; [by eauto|].
    destruct (IH st1 Hrec) as (b & st2 & -> & Hv2).
    + intros m Hm. apply Hns. by right.
    + etransitivity; [by apply size_shrink|done].
    + exists b, st2. split; [done|]. by etransitivity.
  - case_bool_decide; [by eauto|].
    apply IH; [done| |done]. intros m Hm. apply Hns. by right.
Qed.

Lemma dfs_total U fuel : closed U -> total_on U fuel (dfs fuel deps).
Proof.
  intros HU. induction fuel as [|fuel IH]; intros v st Hv Hn Hsz.
  { exfalso. apply (Nat.le_0_r) in Hsz. apply size_empty_inv in Hsz. set_solver. }
  cbn [dfs]. set (st0 := ({[v]} ∪ st.1, {[v]} ∪ st.2) : sets).
  assert (Hst0 : st.1 ⊆ st0.1) by (unfold st0; cbn; set_solver).
  destruct (deps !! v) as [ns|] eqn:E; [|by eauto].
  destruct (scan_total U fuel (dfs fuel deps) ns st0) as (b & st1 & -> & Hst1).
  - done.
  - intros n Hin. apply (HU v); [done|]. by exists ns.
  - assert (Hlt : (size (U ∖ st0.1) < size (U ∖ st.1))%nat).
    { apply subset_size. unfold st0; cbn. set_solver. }
    lia.
  - destruct b; eexists _, _; (split; [done|]); cbn; by etransitivity.
Qed.

Lemma search_total U fuel nodes : forall st,
  closed U -> (forall v, v ∈ nodes -> v ∈ U) -> (size U <= fuel)%nat ->
  exists b, search fuel deps nodes st = Some b.
Proof.
  induction nodes as [|v nodes IH]; intros st HU Hin Hsz; cbn; [by eauto|].
  assert (Hin' : forall u, u ∈ nodes -> u ∈ U) by (intros u Hu; apply Hin; by right).
  case_bool_decide as Hv; [|by apply IH].
  destruct (dfs_total U fuel HU v st) as (b & st1 & -> & _); [apply Hin; left|done| |].
  - etransitivity; [|exact Hsz]. apply subseteq_size. set_solver.
  - destruct b; [by eauto|]. by apply IH.
Qed.

End Search.

End Graph.

(** ** Flow definitions *)

Definition default_flow_version : Z := 1.

Section Flows.
Context `{JN : JsonNumber}.

Record FlowDef : Type := mkFlowDef {
  flow_id : FlowId;
  flow_name : string;
  flow_description : string;
  flow_mode : FlowMode.t;
  steps : list StepDef;
  rollback_on_failure : bool;
  flow_timeout_ms : option Z;
  version : Z
}.

(** [FlowDef::new]; [fresh] is the id [Uuid::new_v4] returns. *)
Definition flow_new (fresh : FlowId) (nm : string) (mode : FlowMode.t) : FlowDef := {|
  flow_id := fresh;
  flow_name := nm;
  flow_description := "";
  flow_mode := mode;
  steps := [];
  rollback_on_failure := false;
  flow_timeout_ms := None;
  version := default_flow_version
|}.

Definition add_step (f : FlowDef) (s : StepDef) : FlowDef :=
  {| flow_id := flow_id f; flow_name := flow_name f;
     flow_description := flow_description f; flow_mode := flow_mode f;
     steps := steps f ++ [s]; rollback_on_failure := rollback_on_failure f;
     flow_timeout_ms := flow_timeout_ms f; version := version f |}.

Definition with_version (f : FlowDef) (v : Z) : FlowDef :=
  {| flow_id := flow_id f; flow_name := flow_name f;
     flow_description := flow_description f; flow_mode := flow_mode f;
     steps := steps f; rollback_on_failure := rollback_on_failure f;
     flow_timeout_ms := flow_timeout_ms f; version := v |}.

Definition flow_with_rollback (f : FlowDef) : FlowDef :=
  {| flow_id := flow_id f; flow_name := flow_name f;
     flow_description := flow_description f; flow_mode := flow_mode f;
     steps := steps f; rollback_on_failure := true;
     flow_timeout_ms := flow_timeout_ms f; version := version f |}.

Definition flow_with_timeout (f : FlowDef) (ms : Z) : FlowDef :=
  {| flow_id := flow_id f; flow_name := flow_name f;
     flow_description := flow_description f; flow_mode := flow_mode f;
     steps := steps f; rollback_on_failure := rollback_on_failure f;
     flow_timeout_ms := Some ms; version := version f |}.

(** *** Validation *)

(** [steps.iter().map(|s| (s.id, &s.depends_on)).collect()]: a later step
    with the same id replaces an earlier one. *)
Definition deps_of (l : list StepDef) : gmap StepId (list StepId) :=
  fold_left (fun m s => <[id s := depends_on s]> m) l ∅.

Definition id_set (l : list StepDef) : gset StepId := list_to_set (id <$> l).

Definition nonempty {A} (l : list A) : bool :=
  match l with [] => false | _ => true end.

(** Every id the steps mention bounds the depth of the search. *)
Definition mentioned (l : list StepDef) : list StepId :=
  flat_map (fun s => id s :: depends_on s) l.

Definition cycle_fuel (l : list StepDef) : nat := length (mentioned l).

Definition missing_dep (ids : gset StepId) (s : StepDef) : bool :=
  existsb (fun d => bool_decide (d ∉ ids)) (depends_on s).

(** The second loop: the first step with a dependency outside the flow. *)
Fixpoint check_refs (ids : gset StepId) (l : list StepDef) : result unit SzalError :=
  match l with
  | [] => Ok tt
  | s :: l =>
      if missing_dep ids s
      then Err (InvalidFlow ("step '" +:+ name s +:+ "' depends on non-existent step"))
      else check_refs ids l
  end.

Definition check_cycles (f : FlowDef) : result unit SzalError :=
  let ids := id_set (steps f) in
  let deps := deps_of (steps f) in
  match Graph.search (cycle_fuel (steps f)) deps (id <$> steps f) (∅, ∅) with
  | Some true => Err (CycleDetected (flow_name f))
  | Some false => check_refs ids (steps f)
  | None => Err (Other "cycle search out of fuel")
  end.

Fixpoint validate_hier_step (s : StepDef) : result unit SzalError :=
  if nonempty (depends_on s)
  then Err (InvalidFlow ("step '" +:+ name s +:+
         "' has depends_on in hierarchical mode (use sub_steps for nesting)"))
  else
    (fix go (l : list StepDef) : result unit SzalError :=
       match l with
       | [] => Ok tt
       | c :: l => let? _ := validate_hier_step c in go l
       end) (sub_steps s).

Fixpoint validate_hierarchical (l : list StepDef) : result unit SzalError :=
  match l with
  | [] => Ok tt
  | s :: l => let? _ := validate_hier_step s in validate_hierarchical l
  end.

(** The last loop of [validate]. *)
Fixpoint check_triggers (l : list StepDef) : result unit SzalError :=
  match l with
  | [] => Ok tt
  | s :: l =>
      if bool_decide (trigger_mode s = TriggerMode.Any) && negb (nonempty (depends_on s))
      then Err (InvalidFlow ("step '" +:+ name s +:+
             "' has trigger_mode Any but no dependencies"))
      else check_triggers l
  end.

Definition validate (f : FlowDef) : result unit SzalError :=
  let? _ :=
    (if bool_decide (flow_mode f = FlowMode.Dag) then check_cycles f
     else if existsb (fun s => nonempty (depends_on s)) (steps f)
     then Err (InvalidFlow ("steps have dependencies but flow mode is " +:+
            FlowMode.fmt (flow_mode f) +:+ " (use dag mode for dependencies)"))
     else Ok tt) in
  let? _ :=
    (if bool_decide (flow_mode f = FlowMode.Hierarchical)
     then validate_hierarchical (steps f) else Ok tt) in
  check_triggers (steps f).

(** *** The abstract specification *)

(** The step a lookup by id in [deps_of] finds. *)
Definition flow_edge (l : list StepDef) (u v : StepId) : Prop :=
  Graph.edge (deps_of l) u v.

Record validate_spec (f : FlowDef) : Prop := {
  vs_acyclic :
    flow_mode f = FlowMode.Dag -> forall u, ~ tc (flow_edge (steps f)) u u;
  vs_refs :
    flow_mode f = FlowMode.Dag ->
    forall s d, s ∈ steps f -> d ∈ depends_on s -> d ∈ id <$> steps f;
  vs_no_deps :
    flow_mode f <> FlowMode.Dag -> forall s, s ∈ steps f -> depends_on s = [];
  vs_hierarchical :
    flow_mode f = FlowMode.Hierarchical ->
    forall s, s ∈ forest (steps f) -> depends_on s = [];
  vs_triggers :
    forall s, s ∈ steps f -> trigger_mode s = TriggerMode.Any -> depends_on s <> []
}.

Lemma nonempty_false {A} (l : list A) : nonempty l = false <-> l = [].
Proof. by destruct l. Qed.

Lemma fold_insert_lookup l (m : gmap StepId (list StepId)) u :
  fold_left (fun (m : gmap StepId (list StepId)) s => <[id s := depends_on s]> m) l m !! u =
    match find (fun s => bool_decide (id s = u)) (rev l) with
    | Some s => Some (depends_on s)
    | None => m !! u
    end.
Proof.
  induction l as [|s l IH] using rev_ind; [done|].
  rewrite fold_left_app, rev_app_distr. cbn.
  rewrite lookup_insert. case_decide as H; case_bool_decide; try done.
Qed.

(** With distinct ids the edges are exactly the declared dependencies. *)
Lemma flow_edge_unique l u v :
  NoDup (id <$> l) ->
  flow_edge l u v <-> exists s, s ∈ l /\ id s = u /\ v ∈ depends_on s.
Proof.
  intros Hnd. unfold flow_edge, Graph.edge, deps_of.
  setoid_rewrite fold_insert_lookup. rewrite lookup_empty.
  destruct (find _ (rev l)) as [s|] eqn:E.
  - apply find_some in E as [Hin Hs%bool_decide_eq_true].
    apply in_rev, list_elem_of_In in Hin. split.
    + intros (ns & [= <-] & Hv). eauto.
    + intros (s' & Hs' & Hid & Hv). exists (depends_on s). split; [done|].
      assert (s' = s) as ->; [|done].
      apply list_elem_of_lookup in Hs' as [i Hi].
      apply list_elem_of_lookup in Hin as [j Hj].
      assert (i = j) as ->; [|congruence].
      eapply NoDup_lookup; [exact Hnd| |]; rewrite list_lookup_fmap.
      * rewrite Hi. cbn. by rewrite Hid.
      * rewrite Hj. cbn. by rewrite Hs.
  - split; [intros (ns & Hns & _); done|].
    intros (s & Hs & Hid & _). exfalso.
    apply list_elem_of_In, in_rev in Hs.
    apply (find_none _ _ E) in Hs. by apply bool_decide_eq_false in Hs.
Qed.

(** *** Each check against its part of the specification *)

Lemma missing_dep_spec ids s :
  missing_dep ids s = false <-> forall d, d ∈ depends_on s -> d ∈ ids.
Proof.
  unfold missing_dep. rewrite <- not_true_iff_false, existsb_exists. split.
  - intros H d Hd. destruct (decide (d ∈ ids)) as [|Hn]; [done|].
    destruct H. exists d. rewrite <- list_elem_of_In. by rewrite bool_decide_eq_true.
  - intros H (d & Hd%list_elem_of_In & Hb%bool_decide_eq_true). auto.
Qed.

Lemma check_refs_ok ids l :
  check_refs ids l = Ok tt <-> forall s d, s ∈ l -> d ∈ depends_on s -> d ∈ ids.
Proof.
  induction l as [|s l IH]; cbn.
  { split; [|done]. by intros _ s d Hs%elem_of_nil. }
  destruct (missing_dep ids s) eqn:E.
  - split; [done|]. intros H. exfalso. apply not_false_iff_true in E. apply E.
    apply missing_dep_spec. intros d Hd. apply (H s d); [left|done].
  - rewrite IH. setoid_rewrite elem_of_cons. split.
    + intros H s' d [->|Hs] Hd; [|eauto]. by apply (proj1 (missing_dep_spec ids s) E).
    + intros H s' d Hs Hd. eauto.
Qed.

Lemma check_triggers_ok l :
  check_triggers l = Ok tt <->
  forall s, s ∈ l -> trigger_mode s = TriggerMode.Any -> depends_on s <> [].
Proof.
  induction l as [|s l IH]; cbn.
  { split; [|done]. by intros _ s Hs%elem_of_nil. }
  case_bool_decide as Ht; [destruct (nonempty (depends_on s)) eqn:E|]; cbn.
  - rewrite IH. setoid_rewrite elem_of_cons. split.
    + intros H s' [->|Hs]; [intros _ Hd; by rewrite Hd in E|by apply H].
    + eauto.
  - apply nonempty_false in E. split; [done|].
    intros H. exfalso. by apply (H s); [left|..].
  - rewrite IH. setoid_rewrite elem_of_cons. split; [|eauto].
    intros H s' [->|Hs]; [done|by apply H].
Qed.

Lemma validate_hier_ok s :
  validate_hier_step s = Ok tt <-> forall t, t ∈ subtree s -> depends_on t = [].
Proof.
  induction s as [s IH] using StepDef_tree_ind. rewrite subtree_unfold.
  assert (Hgo : forall l,
    Forall (fun c => validate_hier_step c = Ok tt <->
                     forall t, t ∈ subtree c -> depends_on t = []) l ->
    (fix go (l : list StepDef) : result unit SzalError :=
       match l with
       | [] => Ok tt
       | c :: l => let? _ := validate_hier_step c in go l
       end) l = Ok tt <-> forall t, t ∈ forest l -> depends_on t = []).
  { clear s IH. intros l Hl. induction Hl as [|c l Hc Hl IHl].
    - split; [|done]. by intros _ t Ht%elem_of_nil.
    - rewrite forest_cons. setoid_rewrite elem_of_app.
      destruct (validate_hier_step c) as [[]|e] eqn:E; cbn.
      + rewrite IHl. destruct Hc as [Hc _]. specialize (Hc eq_refl).
        split; [intros H t [Ht|Ht]; auto|auto].
      + split; [done|]. intros H. exfalso.
        assert (Hbad : Err e = Ok tt) by (apply Hc; auto). done. }
  destruct s as [? ? ? ? ? ? ? ? ? ? ? deps ? subs]. cbn in *. setoid_rewrite elem_of_cons.
  destruct deps as [|d deps]; cbn.
  - rewrite (Hgo subs IH). split; [intros H t [->|Ht]; auto|auto].
  - split; [done|]. intros H. by specialize (H _ (or_introl eq_refl)).
Qed.

Lemma validate_hierarchical_ok l :
  validate_hierarchical l = Ok tt <-> forall t, t ∈ forest l -> depends_on t = [].
Proof.
  induction l as [|s l IH].
  { split; [|done]. by intros _ t Ht%elem_of_nil. }
  rewrite forest_cons. setoid_rewrite elem_of_app. cbn.
  assert (Hs := validate_hier_ok s).
  destruct (validate_hier_step s) as [[]|e]; cbn.
  - rewrite IH. destruct Hs as [Hs _]. specialize (Hs eq_refl).
    split; [intros H t [Ht|Ht]; auto|auto].
  - split; [done|]. intros H. by rewrite (proj2 Hs ltac:(auto)).
Qed.

Lemma size_list_to_set_le (l : list StepId) :
  (size (list_to_set l : gset StepId) <= length l)%nat.
Proof.
  induction l as [|x l IH]; cbn; [by rewrite size_empty|].
  rewrite size_union_alt, size_singleton.
  assert (size (list_to_set l ∖ {[x]} : gset StepId) <= size (list_to_set l : gset StepId))%nat
    by (apply subseteq_size; set_solver). lia.
Qed.

Lemma mentioned_id l s : s ∈ l -> id s ∈ mentioned l.
Proof.
  intros Hs. apply list_elem_of_In, in_flat_map. exists s.
  split; [by apply list_elem_of_In|by left].
Qed.

Lemma mentioned_closed l : Graph.closed (deps_of l) (list_to_set (mentioned l)).
Proof.
  intros u v _ (ns & Hns & Hv). unfold deps_of in Hns.
  rewrite fold_insert_lookup, lookup_empty in Hns.
  destruct (find _ (rev l)) as [s|] eqn:E; [|done]. injection Hns as <-.
  apply find_some in E as [Hin%in_rev _].
  apply elem_of_list_to_set, list_elem_of_In, in_flat_map.
  exists s. split; [done|right]. by apply list_elem_of_In.
Qed.

(** The fuel of [check_cycles] is never exhausted. *)
Lemma search_complete l :
  exists b, Graph.search (cycle_fuel l) (deps_of l) (id <$> l) (∅, ∅) = Some b.
Proof.
  apply (Graph.search_total _ (list_to_set (mentioned l))).
  - apply mentioned_closed.
  - intros v Hv. apply list_elem_of_fmap in Hv as (s & -> & Hs).
    by apply elem_of_list_to_set, mentioned_id.
  - apply size_list_to_set_le.
Qed.

Lemma deps_of_dom l u ns : deps_of l !! u = Some ns -> u ∈ id <$> l.
Proof.
  unfold deps_of. rewrite fold_insert_lookup, lookup_empty.
  destruct (find _ (rev l)) as [s|] eqn:E; [|done]. intros _.
  apply find_some in E as [Hin%in_rev Hid%bool_decide_eq_true].
  rewrite <- Hid. apply list_elem_of_fmap. exists s. split; [done|].
  by apply list_elem_of_In.
Qed.

(** The search answers the question it is asked, whatever the steps are. *)
Lemma search_spec l b :
  Graph.search (cycle_fuel l) (deps_of l) (id <$> l) (∅, ∅) = Some b ->
  b = true <-> exists u, tc (flow_edge l) u u.
Proof.
  intros Hb.
  assert (H := Graph.search_ok (deps_of l) (cycle_fuel l) (id <$> l) (∅, ∅)).
  rewrite Hb in H. destruct b.
  - split; [intros _|done]. apply H; [split; cbn; [set_solver|]|done]. set_solver.
  - split; [done|]. intros (u & Hu). exfalso.
    assert (Hdom : u ∈ id <$> l).
    { inversion Hu as [? ? (ns & Hns & _)|? ? ? (ns & Hns & _)]; subst; by eapply deps_of_dom. }
    eapply Graph.grounded_no_cycle; [|exact Hu].
    apply H; [split; cbn; set_solver|done|by right].
Qed.

(** Without a cycle, every chain of dependencies is finite. *)
Lemma acyclic_grounded l u :
  (forall v, ~ tc (flow_edge l) v v) -> u ∈ id <$> l -> Graph.grounded (deps_of l) u.
Proof.
  intros Hac Hu. destruct (search_complete l) as [b Hb].
  assert (H := Graph.search_ok (deps_of l) (cycle_fuel l) (id <$> l) (∅, ∅)).
  rewrite Hb in H. destruct b.
  - destruct (proj1 (search_spec l true Hb) eq_refl) as [v Hv]. by destruct (Hac v).
  - apply H; [split; cbn; set_solver|done|by right].
Qed.

Lemma check_cycles_ok f :
  check_cycles f = Ok tt <->
  (forall u, ~ tc (flow_edge (steps f)) u u) /\
  (forall s d, s ∈ steps f -> d ∈ depends_on s -> d ∈ id <$> steps f).
Proof.
  unfold check_cycles. destruct (search_complete (steps f)) as [b Hb]. rewrite Hb.
  assert (Hspec := search_spec _ _ Hb). destruct b.
  - split; [done|]. intros [Hac _]. destruct (proj1 Hspec eq_refl) as [u Hu].
    by destruct (Hac u).
  - rewrite check_refs_ok. unfold id_set. setoid_rewrite elem_of_list_to_set.
    split; [|tauto]. intros H. split; [|done]. intros u Hu.
    assert (false = true) by (apply Hspec; eauto). done.
Qed.

End Flows.

(** The two halves of the correctness of [validate]. *)
Lemma validate_ok_spec `{JN : JsonNumber} (f : FlowDef) : validate f = Ok tt -> validate_spec f.
Proof.
  unfold validate.
  intros H. destruct (decide (flow_mode f = FlowMode.Dag)) as [Hd|Hd].
  + rewrite bool_decide_eq_true_2 in H by done. rewrite bool_decide_eq_false_2 in H by congruence.
    destruct (check_cycles f) as [[]|] eqn:E; [|done]. apply check_cycles_ok in E as [Hac Href].
    cbn in H. rewrite check_triggers_ok in H. split; intros; eauto; congruence.
  + rewrite bool_decide_eq_false_2 in H by done.
    destruct (existsb _ _) eqn:E; [done|]. cbn in H.
    assert (Hno : forall s, s ∈ steps f -> depends_on s = []).
    { intros s Hs. apply nonempty_false. apply not_true_iff_false. intros Hn.
      apply not_true_iff_false in E. apply E, existsb_exists. exists s.
      by rewrite <- list_elem_of_In. }
    case_bool_decide as Hh.
    * destruct (validate_hierarchical (steps f)) as [[]|] eqn:Ev; [|done]. cbn in H.
      assert (Ev' := proj1 (validate_hierarchical_ok (steps f)) Ev). rewrite check_triggers_ok in H.
      split; intros; eauto; congruence.
    * cbn in H. rewrite check_triggers_ok in H. split; intros; eauto; congruence.
Qed.

Lemma spec_validate_ok `{JN : JsonNumber} (f : FlowDef) : validate_spec f -> validate f = Ok tt.
Proof.
  unfold validate.
  intros [Hac Href Hno Hh Ht]. apply check_triggers_ok in Ht. rewrite Ht.
  case_bool_decide as Hd.
  + rewrite (proj2 (check_cycles_ok f) (conj (Hac Hd) (Href Hd))). cbn.
    by rewrite bool_decide_eq_false_2 by congruence.
  + destruct (existsb _ _) eqn:E.
    { apply existsb_exists in E as (s & Hs%list_elem_of_In & Hn).
      by rewrite (Hno Hd s Hs) in Hn. }
    cbn. case_bool_decide as Hm; [|done].
    by rewrite (proj2 (validate_hierarchical_ok _)) by auto.
Qed.

(** C14. [validate] accepts a flow exactly when it meets the specification: in
    DAG mode the dependency graph has no cycle and mentions only steps of the
    flow; in the other modes no step (for hierarchical flows, no descendant)
    declares a dependency; and a step triggered by any dependency has one. *)
Theorem validate_iff_spec `{JN : JsonNumber} (f : FlowDef) :
  validate f = Ok tt <-> validate_spec f.
Proof. split; [apply validate_ok_spec|apply spec_validate_ok]. Qed.

(** In DAG mode [CycleDetected] is reported exactly when the dependency
    graph has a cycle, whatever else is wrong with the flow; the search always
    terminates within its fuel. *)
Theorem cycle_detected_iff `{JN : JsonNumber} (f : FlowDef) :
  flow_mode f = FlowMode.Dag ->
  (exists nm, validate f = Err (CycleDetected nm)) <->
  (exists u, tc (flow_edge (steps f)) u u).
Proof.
  intros Hd. unfold validate. rewrite bool_decide_eq_true_2 by done.
  rewrite bool_decide_eq_false_2 by congruence. unfold check_cycles.
  destruct (search_complete (steps f)) as [b Hb]. rewrite Hb.
  assert (Hspec := search_spec _ _ Hb). destruct b.
  - cbn. rewrite <- Hspec. split; [done|]. intros _. by eexists.
  - rewrite <- Hspec. split; [|done]. intros [nm H]. exfalso.
    assert (Hr : forall ids l nm, check_refs ids l <> Err (CycleDetected nm)).
    { intros ids l nm'. induction l as [|s l IH]; cbn; [done|]. by destruct missing_dep. }
    assert (Ht : forall l nm, check_triggers l <> Err (CycleDetected nm)).
    { intros l nm'. induction l as [|s l IH]; cbn; [done|]. by destruct (_ && _). }
    destruct (check_refs _ _) as [[]|e] eqn:E; cbn in H.
    + by apply Ht in H.
    + injection H as ->. by apply Hr in E.
Qed.

(** Concrete flows, evaluated. *)
Module FlowExamples.
Import SerdeModel.

Definition step (i : StepId) (nm : string) (ds : list StepId) : StepDef :=
  fold_left with_dependency ds (step_new i nm).

Definition dag (l : list StepDef) : FlowDef :=
  fold_left add_step l (flow_new 100%N "ci-cd" FlowMode.Dag).

Definition pipeline : FlowDef :=
  dag [step 1%N "build" []; step 2%N "test" [1%N]; step 3%N "deploy" [1%N; 2%N]].

Definition looped : FlowDef :=
  dag [step 1%N "a" [3%N]; step 2%N "b" [1%N]; step 3%N "c" [2%N]].

Example validate_pipeline : validate pipeline = Ok tt.
Proof. vm_compute. reflexivity. Qed.

Example validate_looped : validate looped = Err (CycleDetected "ci-cd").
Proof. vm_compute. reflexivity. Qed.

Example validate_dangling :
  validate (dag [step 1%N "a" [9%N]]) =
    Err (InvalidFlow "step 'a' depends on non-existent step").
Proof. vm_compute. reflexivity. Qed.
End FlowExamples.

Lemma cycle_detected_iff_witness :
  flow_mode FlowExamples.looped = FlowMode.Dag /\
  exists u, tc (flow_edge (steps FlowExamples.looped)) u u.
Proof.
  split; [reflexivity|].
  apply (cycle_detected_iff FlowExamples.looped eq_refl).
  exists "ci-cd". vm_compute. reflexivity.
Defined.
