(* ===== verification/Bus.v ===== *)
(** * Workflow events

    [rust-old/src/bus.rs]: the event record and its constructors, the topic an
    event is published under, the bus, and the mapping to tracing records.
    [majra::pubsub] is outside the repository: publishing is what is handed to
    it. *)

From Stdlib Require Import ZArith Lia Ascii.
From stdpp Require Import base tactics option list strings.
From S2P Require Import Prelude RustStr Json.

Open Scope Z_scope.

Module EventType.
Inductive t : Type :=
| FlowStarted | FlowCompleted | FlowFailed | FlowRolledBack
| StepStarted | StepCompleted | StepFailed | StepRetry | StepRollback
| StepSkipped | StepTimeout.
#[export] Instance eq_dec : EqDecision t.
Proof. solve_decision. Defined.

(** [impl Display for EventType] *)
Definition fmt (e : t) : string :=
  match e with
  | FlowStarted => "flow_started"
  | FlowCompleted => "flow_completed"
  | FlowFailed => "flow_failed"
  | FlowRolledBack => "flow_rolled_back"
  | StepStarted => "step_started"
  | StepCompleted => "step_completed"
  | StepFailed => "step_failed"
  | StepRetry => "step_retry"
  | StepRollback => "step_rollback"
  | StepSkipped => "step_skipped"
  | StepTimeout => "step_timeout"
  end.

Lemma event_type_fmt_inj e f : fmt e = fmt f -> e = f.
Proof. by destruct e, f. Qed.
End EventType.
Export (hints) EventType.

(** A [chrono::DateTime<Utc>], as an instant. *)
Definition Timestamp : Type := Z.

Module Event.

Record t : Type := mkEvent {
  event_type : EventType.t;
  flow_name : option string;
  step_name : option string;
  step_id : option string;
  attempt : option Z;
  duration_ms : option Z;
  error : option string;
  timestamp : Timestamp
}.

(** [WorkflowEvent::new]; [now] is what [Utc::now()] returns. *)
Definition new (now : Timestamp) (ty : EventType.t) : t :=
  {| event_type := ty; flow_name := None; step_name := None; step_id := None;
     attempt := None; duration_ms := None; error := None; timestamp := now |}.

Definition with_flow (e : t) (nm : string) : t :=
  {| event_type := event_type e; flow_name := Some nm; step_name := step_name e;
     step_id := step_id e; attempt := attempt e; duration_ms := duration_ms e;
     error := error e; timestamp := timestamp e |}.

Definition with_step (e : t) (nm id : string) : t :=
  {| event_type := event_type e; flow_name := flow_name e; step_name := Some nm;
     step_id := Some id; attempt := attempt e; duration_ms := duration_ms e;
     error := error e; timestamp := timestamp e |}.

Definition with_duration (e : t) (ms : Z) : t :=
  {| event_type := event_type e; flow_name := flow_name e; step_name := step_name e;
     step_id := step_id e; attempt := attempt e; duration_ms := Some ms;
     error := error e; timestamp := timestamp e |}.

Definition with_attempt (e : t) (n : Z) : t :=
  {| event_type := event_type e; flow_name := flow_name e; step_name := step_name e;
     step_id := step_id e; attempt := Some n; duration_ms := duration_ms e;
     error := error e; timestamp := timestamp e |}.

Definition with_error (e : t) (msg : string) : t :=
  {| event_type := event_type e; flow_name := flow_name e; step_name := step_name e;
     step_id := step_id e; attempt := attempt e; duration_ms := duration_ms e;
     error := Some msg; timestamp := timestamp e |}.

Definition flow_started (now : Timestamp) (flow : string) : t :=
  with_flow (new now EventType.FlowStarted) flow.
Definition flow_completed (now : Timestamp) (flow : string) (ms : Z) : t :=
  with_duration (with_flow (new now EventType.FlowCompleted) flow) ms.
Definition flow_failed (now : Timestamp) (flow err : string) : t :=
  with_error (with_flow (new now EventType.FlowFailed) flow) err.
Definition flow_rolled_back (now : Timestamp) (flow : string) : t :=
  with_flow (new now EventType.FlowRolledBack) flow.
Definition step_started (now : Timestamp) (nm id : string) : t :=
  with_step (new now EventType.StepStarted) nm id.
Definition step_completed (now : Timestamp) (nm id : string) (ms n : Z) : t :=
  with_attempt (with_duration (with_step (new now EventType.StepCompleted) nm id) ms) n.
Definition step_failed (now : Timestamp) (nm id err : string) (n : Z) : t :=
  with_attempt (with_error (with_step (new now EventType.StepFailed) nm id) err) n.
Definition step_retry (now : Timestamp) (nm id : string) (n : Z) : t :=
  with_attempt (with_step (new now EventType.StepRetry) nm id) n.
Definition step_skipped (now : Timestamp) (nm id reason : string) : t :=
  with_error (with_step (new now EventType.StepSkipped) nm id) reason.
Definition step_timeout (now : Timestamp) (nm id : string) (ms : Z) : t :=
  with_duration (with_step (new now EventType.StepTimeout) nm id) ms.
Definition step_rollback (now : Timestamp) (nm id : string) : t :=
  with_step (new now EventType.StepRollback) nm id.

Definition is_flow_event (ty : EventType.t) : bool :=
  match ty with
  | EventType.FlowStarted | EventType.FlowCompleted | EventType.FlowFailed
  | EventType.FlowRolledBack => true
  | _ => false
  end.

(** [WorkflowEvent::topic] *)
Definition topic (e : t) : string :=
  if is_flow_event (event_type e) then
    "szal/flow/" +:+ default "unknown" (flow_name e) +:+ "/" +:+ EventType.fmt (event_type e)
  else
    "szal/step/" +:+ default "unknown" (step_name e) +:+ "/" +:+ EventType.fmt (event_type e).

End Event.

(** [EventBus::publish]: the topic and payload passed to the pub/sub, none when
    the event does not serialize; [to_value] is [serde_json::to_value]. *)
Definition publish `{JN : JsonNumber} (to_value : Event.t -> result Value string)
    (e : Event.t) : option (string * Value) :=
  match to_value e with
  | Ok payload => Some (Event.topic e, payload)
  | Err _ => None
  end.

(** ** [otel_event_sink]: the record handed to [tracing::info!] *)

Definition otel_status (ty : EventType.t) : string :=
  match ty with
  | EventType.FlowCompleted | EventType.StepCompleted => "ok"
  | EventType.FlowFailed | EventType.StepFailed | EventType.StepTimeout => "error"
  | EventType.StepSkipped => "skipped"
  | EventType.FlowRolledBack | EventType.StepRollback => "rolled_back"
  | _ => "unset"
  end.

Inductive OtelRecord : Type :=
| OtelFlow (event_type flow status : string) (duration_ms : Z) (error : string)
| OtelStep (event_type flow step step_id status : string) (attempt duration_ms : Z)
    (error : string).

Definition otel_record (e : Event.t) : OtelRecord :=
  let ty := EventType.fmt (Event.event_type e) in
  let flow := default "" (Event.flow_name e) in
  let status := otel_status (Event.event_type e) in
  if Event.is_flow_event (Event.event_type e) then
    OtelFlow ty flow status (default 0 (Event.duration_ms e)) (default "" (Event.error e))
  else
    OtelStep ty flow (default "" (Event.step_name e)) (default "" (Event.step_id e)) status
      (default 0 (Event.attempt e)) (default 0 (Event.duration_ms e))
      (default "" (Event.error e)).

(** ** Topics *)

Definition no_slash (s : string) : Prop :=
  forallb (fun c => negb (eqc c "/")) (as_bytes s) = true.

Lemma split_slash p s : no_slash p -> split_on "/" (p +:+ "/" +:+ s) = p :: split_on "/" s.
Proof.
  intros Hp. unfold split_on. rewrite !as_bytes_app. change (as_bytes "/") with ["/"%char].
  cbn [app]. rewrite split_bytes_app by done. cbn. by rewrite from_as_bytes.
Qed.

(** The subject of an event: the name its topic carries. *)
Definition subject (e : Event.t) : string :=
  default "unknown" (if Event.is_flow_event (Event.event_type e) then Event.flow_name e
                     else Event.step_name e).

Lemma topic_segments e :
  no_slash (subject e) ->
  split_on "/" (Event.topic e) =
    ["szal"; if Event.is_flow_event (Event.event_type e) then "flow" else "step";
     subject e; EventType.fmt (Event.event_type e)].
Proof.
  intros Hs. unfold subject in *.
  assert (Ht : split_on "/" (EventType.fmt (Event.event_type e)) =
                 [EventType.fmt (Event.event_type e)])
    by (destruct (Event.event_type e); vm_compute; reflexivity).
  unfold Event.topic. destruct (Event.is_flow_event (Event.event_type e)).
  - change ("szal/flow/" +:+ ?x) with ("szal" +:+ "/" +:+ ("flow" +:+ "/" +:+ x)).
    by rewrite !split_slash, Ht by done.
  - change ("szal/step/" +:+ ?x) with ("szal" +:+ "/" +:+ ("step" +:+ "/" +:+ x)).
    by rewrite !split_slash, Ht by done.
Qed.

(** Topics separate events: for names without a slash, two events share a
    topic exactly when they have the same type and the same subject (the flow for
    flow events, the step for step events). *)
Theorem topic_eq_iff e f :
  no_slash (subject e) -> no_slash (subject f) ->
  Event.topic e = Event.topic f <->
  Event.event_type e = Event.event_type f /\ subject e = subject f.
Proof.
  intros He Hf. split.
  - intros H. assert (Hs := f_equal (split_on "/") H).
    rewrite !topic_segments in Hs by done. injection Hs as _ Hsub Hty.
    split; [by apply EventType.event_type_fmt_inj|done].
  - intros [Hty Hsub]. unfold Event.topic, subject in *. rewrite Hty in *.
    by destruct (Event.is_flow_event (Event.event_type f)); rewrite Hsub.
Qed.

Lemma topic_eq_iff_witness :
  Event.topic (Event.step_retry 7 "build" "id-1" 2) =
  Event.topic (Event.step_retry 9 "build" "id-2" 3).
Proof.
  apply (topic_eq_iff (Event.step_retry 7 "build" "id-1" 2)
           (Event.step_retry 9 "build" "id-2" 3)); [reflexivity|reflexivity|].
  split; reflexivity.
Defined.

(** The documented topic of a started flow is [szal/flow/<name>/started]; the
    last segment the code produces is the full event type. *)
Lemma flow_started_topic now nm :
  Event.topic (Event.flow_started now nm) = "szal/flow/" +:+ nm +:+ "/flow_started".
Proof. reflexivity. Qed.
