(* ===== verification/Migration.v ===== *)
(** * Flow versioning and migration

    [rust-old/src/migration.rs].  A migration is its trait's three methods; the
    registry is the map from source version to migration; [register] panics
    ([None]) on the two assertions. *)

From Stdlib Require Import ZArith Lia.
From stdpp Require Import base tactics option list strings gmap.
From S2P Require Import Prelude Json Error Step Flow.

Open Scope Z_scope.

Section Migration.
Context `{JN : JsonNumber}.

(** [trait FlowMigration] *)
Record FlowMigration : Type := mkMigration {
  source_version : Z;
  target_version : Z;
  migrate : FlowDef -> result FlowDef SzalError
}.

(** [fn_migration] *)
Definition fn_migration (from to : Z) (f : FlowDef -> result FlowDef SzalError)
  : FlowMigration :=
  {| source_version := from; target_version := to; migrate := f |}.

Record MigrationRegistry : Type := mkRegistry { migrations : gmap Z FlowMigration }.

Definition registry_new : MigrationRegistry := mkRegistry ∅.

Definition register (reg : MigrationRegistry) (m : FlowMigration)
  : option MigrationRegistry :=
  let from := source_version m in
  let to := target_version m in
  if to <=? from then None
  else match migrations reg !! from with
       | Some _ => None
       | None => Some (mkRegistry (<[from := m]> (migrations reg)))
       end.

(** [with_migration] chains [register]. *)
Fixpoint with_migrations (reg : MigrationRegistry) (ms : list FlowMigration)
  : option MigrationRegistry :=
  match ms with
  | [] => Some reg
  | m :: ms =>
      match register reg m with
      | Some reg => with_migrations reg ms
      | None => None
      end
  end.

Definition max_version (_ : Z) (m : FlowMigration) (acc : option Z) : option Z :=
  Some (match acc with Some v => Z.max v (target_version m) | None => target_version m end).

Definition latest_version (reg : MigrationRegistry) : option Z :=
  map_fold max_version None (migrations reg).

Definition no_migration (f : FlowDef) (current target : Z) : SzalError :=
  MigrationFailed ("no migration registered from version " +:+ show_Z current +:+
    " (flow '" +:+ flow_name f +:+ "', target " +:+ show_Z target +:+ ")").

Definition overshoots (f : FlowDef) (current to target : Z) : SzalError :=
  MigrationFailed ("migration from version " +:+ show_Z current +:+ " jumps to " +:+
    show_Z to +:+ ", overshooting target " +:+ show_Z target +:+
    " (flow '" +:+ flow_name f +:+ "')").

Definition downgrade (f : FlowDef) (target : Z) : SzalError :=
  MigrationFailed ("flow '" +:+ flow_name f +:+ "' is at version " +:+
    show_Z (version f) +:+ " which is newer than target " +:+ show_Z target +:+
    "; downgrades are not supported").

(** The [while flow.version < target] loop; [None] is running out of fuel. *)
Fixpoint migrate_loop (fuel : nat) (reg : MigrationRegistry) (f : FlowDef) (target : Z)
  : option (result FlowDef SzalError) :=
  if version f <? target then
    match fuel with
    | O => None
    | S fuel =>
        let current := version f in
        match migrations reg !! current with
        | None => Some (Err (no_migration f current target))
        | Some m =>
            let to := target_version m in
            if target <? to then Some (Err (overshoots f current to target))
            else match migrate m f with
                 | Err e => Some (Err e)
                 | Ok f' => migrate_loop fuel reg (with_version f' to) target
                 end
        end
    end
  else Some (Ok f).

Definition migrate_fuel (f : FlowDef) (target : Z) : nat := Z.to_nat (target - version f).

Definition migrate_to (reg : MigrationRegistry) (f : FlowDef) (target : Z)
  : option (result FlowDef SzalError) :=
  if version f =? target then Some (Ok f)
  else if target <? version f then Some (Err (downgrade f target))
  else migrate_loop (migrate_fuel f target) reg f target.

Definition migrate_latest (reg : MigrationRegistry) (f : FlowDef)
  : option (result FlowDef SzalError) :=
  match latest_version reg with
  | Some target => if version f <? target then migrate_to reg f target else Some (Ok f)
  | None => Some (Ok f)
  end.

(** ** Registries built by [register] *)

Definition registry_ok (reg : MigrationRegistry) : Prop :=
  forall v m, migrations reg !! v = Some m -> source_version m = v /\ v < target_version m.

Lemma register_ok reg m reg' :
  registry_ok reg -> register reg m = Some reg' -> registry_ok reg'.
Proof.
  unfold registry_ok, register. intros Hok H.
  destruct (target_version m <=? source_version m) eqn:E; [done|].
  destruct (migrations reg !! source_version m); [done|]. injection H as <-. cbn.
  intros v m'. rewrite lookup_insert. case_decide as D; [|apply Hok].
  intros [= <-]. split; [done|]. apply Z.leb_gt in E. lia.
Qed.

Lemma with_migrations_ok ms : forall reg reg',
  registry_ok reg -> with_migrations reg ms = Some reg' -> registry_ok reg'.
Proof.
  induction ms as [|m ms IH]; intros reg reg' Hok H; cbn in H; [by injection H as <-|].
  destruct (register reg m) as [reg1|] eqn:E; [|done].
  by apply (IH reg1); [eapply register_ok|].
Qed.

Lemma registry_new_ok : registry_ok registry_new.
Proof. intros v m H. cbn in H. by rewrite lookup_empty in H. Qed.

Lemma latest_version_upper reg v m :
  migrations reg !! v = Some m ->
  exists t, latest_version reg = Some t /\ target_version m <= t.
Proof.
  unfold latest_version. revert v m.
  apply (map_fold_weak_ind (fun (r : option Z) (M : gmap Z FlowMigration) =>
    forall v m, M !! v = Some m -> exists t, r = Some t /\ target_version m <= t)).
  - intros v m H. by rewrite lookup_empty in H.
  - intros v m M r Hv IH w m'. rewrite lookup_insert. unfold max_version.
    case_decide as D; [intros [= <-]|intros Hw; destruct (IH w m' Hw) as (t & -> & Ht)].
    + eexists. split; [done|]. destruct r; lia.
    + eexists. split; [done|]. lia.
Qed.

Lemma latest_version_attained reg t :
  latest_version reg = Some t ->
  exists v m, migrations reg !! v = Some m /\ target_version m = t.
Proof.
  unfold latest_version. revert t.
  apply (map_fold_weak_ind (fun (r : option Z) (M : gmap Z FlowMigration) =>
    forall t, r = Some t -> exists v m, M !! v = Some m /\ target_version m = t)); [done|].
  intros v m M r Hv IH t. unfold max_version. intros [= <-].
  assert (Hnew : exists v' m', (<[v := m]> M : gmap Z FlowMigration) !! v' = Some m' /\
                   target_version m' = target_version m)
    by (exists v, m; by rewrite lookup_insert_eq).
  destruct r as [t'|]; [|exact Hnew].
  destruct (IH t' eq_refl) as (w & m' & Hw & Ht).
  destruct (Z.max_dec t' (target_version m)) as [-> | ->]; [|exact Hnew].
  exists w, m'. rewrite lookup_insert_ne by congruence. done.
Qed.

(** ** The chain of migrations *)

(** [f] becomes [f'] at [target] by applying the registered migration of each
    version in turn, never past [target]. *)
Inductive upgrades (reg : MigrationRegistry) (target : Z) : FlowDef -> FlowDef -> Prop :=
| upgrades_done f : version f = target -> upgrades reg target f f
| upgrades_step f m f1 f' :
    version f < target -> migrations reg !! version f = Some m ->
    target_version m <= target -> migrate m f = Ok f1 ->
    upgrades reg target (with_version f1 (target_version m)) f' ->
    upgrades reg target f f'.

Lemma upgrades_version reg target f f' : upgrades reg target f f' -> version f' = target.
Proof. by induction 1. Qed.

Lemma migrate_loop_spec reg target : registry_ok reg ->
  forall fuel f, version f <= target -> (Z.to_nat (target - version f) <= fuel)%nat ->
  exists r, migrate_loop fuel reg f target = Some r /\
    forall f', r = Ok f' <-> upgrades reg target f f'.
Proof.
  intros Hok. induction fuel as [|fuel IH]; intros f Hv Hf; cbn [migrate_loop];
    destruct (version f <? target) eqn:E; try (apply Z.ltb_lt in E; lia);
    try (apply Z.ltb_ge in E).
  1,3: exists (Ok f); split; [done|]; intros f'; split;
       [intros [= <-]; constructor; lia|intros H; inversion H; subst; [done|lia]].
  apply Z.ltb_lt in E.
  destruct (migrations reg !! version f) as [m|] eqn:Em; cycle 1.
  { eexists. split; [done|]. intros f'. split; [done|].
    intros H. inversion H; subst; [lia|congruence]. }
  destruct (Hok _ _ Em) as [Hs Ht].
  destruct (target <? target_version m) eqn:Eo.
  { apply Z.ltb_lt in Eo. eexists. split; [done|]. intros f'. split; [done|].
    intros H. inversion H as [|? m' ? ? ? Hm Hle]; subst; [lia|].
    rewrite Em in Hm. injection Hm as <-. lia. }
  apply Z.ltb_ge in Eo.
  destruct (migrate m f) as [f1|e] eqn:Ef; cycle 1.
  { eexists. split; [done|]. intros f'. split; [done|].
    intros H. inversion H as [|? m' ? ? ? Hm Hle Hok']; subst; [lia|].
    rewrite Em in Hm. injection Hm as <-. congruence. }
  destruct (IH (with_version f1 (target_version m))) as (r & Hr & Hspec);
    [cbn; lia|cbn; lia|].
  exists r. split; [done|]. intros f'. rewrite Hspec. split.
  - intros H. by eapply upgrades_step.
  - intros H. inversion H as [|? m' f1' ? ? Hm Hle Hok' Hrest]; subst; [lia|].
    rewrite Em in Hm. injection Hm as <-. rewrite Ef in Hok'. by injection Hok' as <-.
Qed.

End Migration.


(** [migrate_latest] brings a flow to the highest registered target version
    or leaves it alone: it never lowers a version, and when it succeeds the flow
    is at least as new as every registered target. *)
Theorem migrate_latest_spec `{JN : JsonNumber} ms reg f f' :
  with_migrations registry_new ms = Some reg ->
  migrate_latest reg f = Some (Ok f') ->
  version f <= version f' /\
  (forall v m, migrations reg !! v = Some m -> target_version m <= version f').
Proof.
  intros Hreg. unfold migrate_latest. destruct (latest_version reg) as [t|] eqn:El.
  - assert (Hall : forall v m, migrations reg !! v = Some m -> target_version m <= t).
    { intros v m Hv. destruct (latest_version_upper reg v m Hv) as (t' & Ht' & Hle). congruence. }
    destruct (version f <? t) eqn:Ev.
    + apply Z.ltb_lt in Ev. intros H.
      apply with_migrations_ok in Hreg; [|apply registry_new_ok].
      unfold migrate_to in H. destruct (version f =? t) eqn:Ee; [apply Z.eqb_eq in Ee; lia|].
      destruct (t <? version f) eqn:Et; [apply Z.ltb_lt in Et; lia|].
      destruct (migrate_loop_spec reg t Hreg (migrate_fuel f t) f) as (r & Hr & Hs);
        [lia|unfold migrate_fuel; lia|].
      rewrite Hr in H. injection H as ->. destruct (Hs f') as [Hu _].
      rewrite (upgrades_version _ _ _ _ (Hu eq_refl)). split; [lia|exact Hall].
    + apply Z.ltb_ge in Ev. intros [= <-]. split; [lia|]. intros v m Hv.
      specialize (Hall v m Hv). lia.
  - intros [= <-]. split; [lia|]. intros v m Hv.
    destruct (latest_version_upper reg v m Hv) as (t' & Ht' & _). congruence.
Qed.

Module MigrationExamples.
Import SerdeModel.
Definition rename (f : FlowDef) : result FlowDef SzalError := Ok f.
Definition chain : list FlowMigration := [fn_migration 1 2 rename; fn_migration 2 5 rename].
Definition old : FlowDef := flow_new 1%N "pipeline" FlowMode.Sequential.

Example overshoot :
  migrate_to (default registry_new (with_migrations registry_new chain)) old 3 =
    Some (Err (MigrationFailed
      "migration from version 2 jumps to 5, overshooting target 3 (flow 'pipeline')")).
Proof. reflexivity. Qed.

Definition registry : MigrationRegistry :=
  default registry_new (with_migrations registry_new chain).
Definition upgraded : FlowDef := with_version (with_version old 2) 5.
End MigrationExamples.


Lemma migrate_latest_spec_witness :
  version MigrationExamples.old <= version MigrationExamples.upgraded.
Proof.
  apply (migrate_latest_spec MigrationExamples.chain MigrationExamples.registry);
    reflexivity.
Defined.
