(* ===== verification/EngineResult.v ===== *)
(** * Flow results and execution records

    [rust-old/src/engine/result.rs] (the result of a complete flow and its
    counters) and the [ExecutionRecord] snapshot of [rust-old/src/storage.rs]. *)

From Stdlib Require Import ZArith Lia.
From stdpp Require Import base tactics option list strings.
From S2P Require Import Prelude Json State Step.

Open Scope Z_scope.

Section Results.
Context `{JN : JsonNumber}.

Record FlowResult : Type := mkFlowResult {
  result_flow : string;
  result_steps : list StepResult;
  total_duration_ms : Z;
  success : bool;
  rolled_back : bool
}.

(** [iter().filter(|s| s.status == st).count()] *)
Definition count_status (st : StepStatus.t) (l : list StepResult) : nat :=
  length (filter (fun r => status r = st) l).

Definition completed_count (r : FlowResult) : nat :=
  count_status StepStatus.Completed (result_steps r).
Definition failed_count (r : FlowResult) : nat :=
  count_status StepStatus.Failed (result_steps r).
Definition skipped_count (r : FlowResult) : nat :=
  count_status StepStatus.Skipped (result_steps r).

(** [step_results.iter().any(|r| r.status == StepStatus::Failed)] *)
Definition has_failures (l : list StepResult) : bool :=
  existsb (fun r => bool_decide (status r = StepStatus.Failed)) l.

Record ExecutionRecord : Type := mkExecutionRecord {
  execution_id : string;
  record_flow : string;
  record_state : WorkflowState.t;
  record_result : option FlowResult;
  started_at : string;
  finished_at : option string
}.

(** ** Facts *)

Lemma has_failures_spec l :
  has_failures l = true <-> exists r, r ∈ l /\ status r = StepStatus.Failed.
Proof.
  unfold has_failures. rewrite existsb_exists.
  split; intros (r & Hr & Hs); exists r; (split; [by apply list_elem_of_In|]);
    [by apply bool_decide_eq_true in Hs|by apply bool_decide_eq_true].
Qed.

Lemma has_failures_app l k : has_failures (l ++ k) = has_failures l || has_failures k.
Proof. apply existsb_app. Qed.

Lemma count_status_app st l k :
  count_status st (l ++ k) = (count_status st l + count_status st k)%nat.
Proof. unfold count_status. by rewrite filter_app, length_app. Qed.

Lemma count_status_one st r :
  count_status st [r] = if decide (status r = st) then 1%nat else O.
Proof. unfold count_status. rewrite filter_cons. by case_decide. Qed.

Lemma has_failures_count l : has_failures l = false <-> count_status StepStatus.Failed l = O.
Proof.
  induction l as [|r l IH]; [done|].
  change (r :: l) with ([r] ++ l).
  rewrite has_failures_app, count_status_app, orb_false_iff, IH, count_status_one.
  cbn [has_failures existsb]. rewrite orb_false_r.
  case_bool_decide; case_decide; cbn; naive_solver lia.
Qed.

(** A list whose results are all completed, failed or skipped is split into
    three parts by the counters of its flow result. *)
(** A step that was dealt with. *)
Definition is_final (r : StepResult) : Prop :=
  status r = StepStatus.Completed \/ status r = StepStatus.Failed \/
  status r = StepStatus.Skipped.

Lemma counts_partition l :
  Forall is_final l ->
  length l = (count_status StepStatus.Completed l + count_status StepStatus.Failed l
              + count_status StepStatus.Skipped l)%nat.
Proof.
  induction 1 as [|r l Hr _ IH]; [done|].
  change (r :: l) with ([r] ++ l).
  rewrite length_app, !count_status_app, IH, !count_status_one.
  destruct Hr as [E|[E|E]]; rewrite E; repeat case_decide; try done; cbn [length]; lia.
Qed.

End Results.
