(* ===== verification/Storage.v ===== *)
(** * Workflow storage and execution stores

    [rust-old/src/storage.rs]: the [WorkflowStorage] trait and its in-memory
    implementation, the [ExecutionStore] trait (here an interface class with the
    laws its clients rely on) and its in-memory implementation.  A method that
    mutates through [&self] becomes a function on the contents behind the lock.
    No operation can panic while it holds a lock, so the locks are never
    poisoned and the [expect] calls return. *)

From Stdlib Require Import ZArith Lia Ascii.
From stdpp Require Import base tactics option list strings gmap.
From S2P Require Import Prelude Json State Step Flow EngineResult.

Open Scope Z_scope.

(** ** Iteration order of a [HashMap]

    Unspecified: some arrangement of the entries, different from map to map. *)

Class HashOrder := {
  hash_iter : forall {V : Type}, gmap string V -> list (string * V);
  hash_iter_perm : forall {V : Type} (m : gmap string V), hash_iter m ≡ₚ map_to_list m
}.

Section HashIteration.
Context `{HO : HashOrder} {V : Type}.
Implicit Types m : gmap string V.

Definition hash_keys m : list string := (hash_iter m).*1.
Definition hash_values m : list V := (hash_iter m).*2.

Lemma elem_of_hash_keys m k : k ∈ hash_keys m <-> is_Some (m !! k).
Proof.
  unfold hash_keys. rewrite hash_iter_perm, list_elem_of_fmap. split.
  - intros ([k' v] & -> & H). apply elem_of_map_to_list in H. by exists v.
  - intros [v Hv]. exists (k, v). split; [done|]. by apply elem_of_map_to_list.
Qed.

Lemma NoDup_hash_keys m : NoDup (hash_keys m).
Proof. unfold hash_keys. rewrite hash_iter_perm. apply NoDup_fst_map_to_list. Qed.

Lemma elem_of_hash_values m v : v ∈ hash_values m <-> exists k, m !! k = Some v.
Proof.
  unfold hash_values. rewrite hash_iter_perm, list_elem_of_fmap. split.
  - intros ([k v'] & -> & H). exists k. by apply elem_of_map_to_list in H.
  - intros [k Hk]. exists (k, v). split; [done|]. by apply elem_of_map_to_list.
Qed.
End HashIteration.

(** [Iterator::find] *)
Fixpoint find_first {A} (p : A -> bool) (l : list A) : option A :=
  match l with
  | [] => None
  | x :: l => if p x then Some x else find_first p l
  end.

Lemma find_first_some {A} (p : A -> bool) l x : find_first p l = Some x -> x ∈ l /\ p x = true.
Proof.
  induction l as [|y l IH]; cbn; [done|]. destruct (p y) eqn:E.
  - intros [= ->]. split; [left|done].
  - intros H. destruct (IH H). split; [by right|done].
Qed.

Lemma find_first_none {A} (p : A -> bool) l : find_first p l = None <-> Forall (fun x => p x = false) l.
Proof.
  induction l as [|y l IH]; cbn; [by split|]. destruct (p y) eqn:E.
  - split; [done|]. intros H. inversion H. congruence.
  - rewrite IH. split; intros H; [by constructor|by inversion H].
Qed.

(** ** In-memory workflow storage *)

Section Workflows.
Context `{JN : JsonNumber} `{UL : UuidLib} `{HO : HashOrder}.

Record InMemoryStorage : Type := mkStorage { flows : gmap string FlowDef }.

Definition storage_new : InMemoryStorage := mkStorage ∅.

Definition storage_insert (f : FlowDef) (s : InMemoryStorage) : InMemoryStorage :=
  mkStorage (<[flow_name f := f]> (flows s)).

Definition storage_remove (nm : string) (s : InMemoryStorage)
  : option FlowDef * InMemoryStorage :=
  (flows s !! nm, mkStorage (delete nm (flows s))).

Definition get_by_name (s : InMemoryStorage) (nm : string) : option FlowDef := flows s !! nm.

Definition get_by_id (s : InMemoryStorage) (i : string) : option FlowDef :=
  match uuid_parse i with
  | None => None
  | Some u => find_first (fun f => bool_decide (flow_id f = u)) (hash_values (flows s))
  end.

Definition storage_list (s : InMemoryStorage) : list string := hash_keys (flows s).

(** The states the public operations build. *)
Inductive stored : InMemoryStorage -> Prop :=
| stored_new : stored storage_new
| stored_insert f s : stored s -> stored (storage_insert f s)
| stored_remove nm s : stored s -> stored (storage_remove nm s).2.

(** Every definition sits under its own name. *)
Lemma stored_named s : stored s -> map_Forall (fun k f => flow_name f = k) (flows s).
Proof.
  induction 1; cbn.
  - apply map_Forall_empty.
  - by apply map_Forall_insert_2.
  - by apply map_Forall_delete.
Qed.

Lemma get_by_id_some s i f :
  get_by_id s i = Some f ->
  uuid_parse i = Some (flow_id f) /\ exists k, flows s !! k = Some f.
Proof.
  unfold get_by_id. destruct (uuid_parse i) as [u|]; [|done].
  intros [Hin Hp]%find_first_some. apply bool_decide_eq_true in Hp. subst u.
  split; [done|]. by apply elem_of_hash_values.
Qed.

Lemma get_by_id_none s i u :
  uuid_parse i = Some u ->
  get_by_id s i = None <-> forall k f, flows s !! k = Some f -> flow_id f <> u.
Proof.
  intros Hu. unfold get_by_id. rewrite Hu, find_first_none, Forall_forall. split.
  - intros H k f Hk He. specialize (H f). rewrite He, bool_decide_eq_false in H.
    apply H; [|done]. apply elem_of_hash_values. by exists k.
  - intros H f Hf. apply elem_of_hash_values in Hf as [k Hk].
    apply bool_decide_eq_false. eauto.
Qed.
End Workflows.

(** ** The execution store interface

    The four methods of the [ExecutionStore] trait, and what an implementation
    promises: its contents are a map from execution ids to records, read and
    updated as the methods' documentation says. *)

Class ExecutionStore `{JN : JsonNumber} (S : Type) := {
  save : ExecutionRecord -> S -> S;
  get : string -> S -> option ExecutionRecord;
  list_ids : option string -> S -> list string;
  remove : string -> S -> option ExecutionRecord * S
}.

(** [flow_name.is_none_or(|n| r.flow_name == n)] *)
Definition flow_matches `{JN : JsonNumber} (nm : option string) (r : ExecutionRecord) : bool :=
  match nm with None => true | Some n => bool_decide (record_flow r = n) end.

Class ExecutionStoreLaws `{JN : JsonNumber} (S : Type) `{!ExecutionStore S} := {
  contents : S -> gmap string ExecutionRecord;
  store_ok : S -> Prop;
  save_ok r s : store_ok s -> store_ok (save r s);
  remove_ok i s : store_ok s -> store_ok (remove i s).2;
  contents_save r s : contents (save r s) = <[execution_id r := r]> (contents s);
  contents_remove i s : contents (remove i s).2 = delete i (contents s);
  remove_returns i s : (remove i s).1 = contents s !! i;
  get_contents i s : get i s = contents s !! i;
  list_nodup nm s : store_ok s -> NoDup (list_ids nm s);
  list_contents nm s i :
    store_ok s ->
    i ∈ list_ids nm s <-> exists r, contents s !! i = Some r /\ flow_matches nm r = true
}.

(** ** What a client of any execution store can rely on *)

Section StoreClients.
Context `{JN : JsonNumber} {S : Type} `{ES : !ExecutionStore S} `{EL : !ExecutionStoreLaws S}.

Inductive store_op : Type :=
| OpSave (r : ExecutionRecord)
| OpRemove (i : string).

Definition store_apply (s : S) (op : store_op) : S :=
  match op with OpSave r => save r s | OpRemove i => (remove i s).2 end.

Definition store_run (ops : list store_op) (s : S) : S := foldl store_apply s ops.

(** The record an id has after a sequence of operations, read off the
    sequence: the last one that names the id decides. *)
Fixpoint last_written (i : string) (ops : list store_op) (init : option ExecutionRecord)
  : option ExecutionRecord :=
  match ops with
  | [] => init
  | OpSave r :: ops =>
      last_written i ops (if decide (execution_id r = i) then Some r else init)
  | OpRemove j :: ops => last_written i ops (if decide (j = i) then None else init)
  end.

Lemma get_store_run i ops s :
  get i (store_run ops s) = last_written i ops (get i s).
Proof.
  revert s. induction ops as [|[r|j] ops IH]; intros s; cbn; [done| |];
    unfold store_run in IH |- *; cbn; rewrite IH, !get_contents; f_equal;
    case_decide; subst.
  - by rewrite contents_save, lookup_insert_eq.
  - by rewrite contents_save, lookup_insert_ne.
  - by rewrite contents_remove, lookup_delete_eq.
  - by rewrite contents_remove, lookup_delete_ne.
Qed.

Lemma store_run_ok ops s : store_ok s -> store_ok (store_run ops s).
Proof.
  revert s. induction ops as [|[r|j] ops IH]; intros s Hs; cbn; [done| |]; apply IH;
    [by apply save_ok|by apply remove_ok].
Qed.
End StoreClients.

(** ** In-memory execution store *)

Section Executions.
Context `{JN : JsonNumber} `{HO : HashOrder}.

Record InMemoryExecutionStore : Type := mkExecutions {
  records : gmap string ExecutionRecord
}.

Definition executions_new : InMemoryExecutionStore := mkExecutions ∅.

Definition mem_save (r : ExecutionRecord) (s : InMemoryExecutionStore)
  : InMemoryExecutionStore :=
  mkExecutions (<[execution_id r := r]> (records s)).

Definition mem_get (i : string) (s : InMemoryExecutionStore) : option ExecutionRecord :=
  records s !! i.

Definition listed (nm : option string) (m : gmap string ExecutionRecord) : list string :=
  map execution_id (List.filter (flow_matches nm) (hash_values m)).

Definition mem_list (nm : option string) (s : InMemoryExecutionStore) : list string :=
  listed nm (records s).

Definition mem_remove (i : string) (s : InMemoryExecutionStore)
  : option ExecutionRecord * InMemoryExecutionStore :=
  (records s !! i, mkExecutions (delete i (records s))).

#[export] Instance mem_store : ExecutionStore InMemoryExecutionStore := {|
  save := mem_save; get := mem_get; list_ids := mem_list; remove := mem_remove
|}.

(** Records are stored under their own id. *)
Definition keyed (m : gmap string ExecutionRecord) : Prop :=
  map_Forall (fun k r => execution_id r = k) m.

Lemma keyed_insert r m : keyed m -> keyed (<[execution_id r := r]> m).
Proof. intros. by apply map_Forall_insert_2. Qed.
Lemma keyed_delete i m : keyed m -> keyed (delete i m).
Proof. intros. by apply map_Forall_delete. Qed.

Lemma elem_of_listed nm m i :
  keyed m ->
  i ∈ listed nm m <-> exists r, m !! i = Some r /\ flow_matches nm r = true.
Proof.
  intros Hk. unfold listed. rewrite list_elem_of_In, in_map_iff. split.
  - intros (r & <- & [Hr Hf]%filter_In).
    apply list_elem_of_In, elem_of_hash_values in Hr as [k Hr].
    exists r. split; [|done]. by rewrite (Hk k r Hr).
  - intros (r & Hr & Hf). exists r. split; [by apply (Hk i r)|].
    apply filter_In. split; [|done]. apply list_elem_of_In, elem_of_hash_values. by exists i.
Qed.

Lemma hash_values_keys m : keyed m -> map execution_id (hash_values m) = hash_keys m.
Proof.
  intros Hk. unfold hash_values, hash_keys. rewrite <- list_fmap_compose.
  apply list_fmap_ext. intros n [k r] Hn. cbn.
  apply (Hk k r), elem_of_map_to_list. rewrite <- hash_iter_perm.
  by apply list_elem_of_lookup_2 in Hn.
Qed.

Lemma NoDup_listed nm m : keyed m -> NoDup (listed nm m).
Proof.
  intros Hk. unfold listed.
  assert (NoDup (map execution_id (hash_values m))) as Hnd
    by (rewrite hash_values_keys by done; apply NoDup_hash_keys).
  induction (hash_values m) as [|r l IH]; cbn in *; [constructor|].
  apply NoDup_cons in Hnd as [Hr Hl]. destruct (flow_matches nm r); [|by apply IH].
  cbn. constructor; [|by apply IH].
  intros Hin%list_elem_of_In%in_map_iff. apply Hr.
  destruct Hin as (r' & <- & [Hin _]%filter_In).
  by apply list_elem_of_In, in_map.
Qed.

#[export] Instance mem_store_laws : ExecutionStoreLaws InMemoryExecutionStore := {|
  contents := records;
  store_ok s := keyed (records s);
  save_ok r s := keyed_insert r (records s);
  remove_ok i s := keyed_delete i (records s);
  contents_save _ _ := eq_refl;
  contents_remove _ _ := eq_refl;
  remove_returns _ _ := eq_refl;
  get_contents _ _ := eq_refl;
  list_nodup nm s := NoDup_listed nm (records s);
  list_contents nm s i := elem_of_listed nm (records s) i
|}.
End Executions.

(** ** Concrete instances

    A map iterated in the order of [map_to_list], and ids printed in unary:
    the interfaces above have implementations. *)

Module StorageModel.
Definition list_order : HashOrder := {|
  hash_iter V m := map_to_list m;
  hash_iter_perm V m := reflexivity _
|}.

Fixpoint unary (n : nat) : string :=
  match n with O => "" | S n => String "1"%char (unary n) end.
Fixpoint unary_length (s : string) : nat :=
  match s with "" => O | String _ s => S (unary_length s) end.
Definition unary_ids : UuidLib := {|
  uuid_to_string u := unary (N.to_nat u);
  uuid_parse s := Some (N.of_nat (unary_length s))
|}.
Lemma unary_length_unary n : unary_length (unary n) = n.
Proof. induction n; cbn; congruence. Qed.
Definition unary_laws : UuidLaws (H := unary_ids).
Proof. constructor. intros u. cbn. by rewrite unary_length_unary, N2Nat.id. Defined.
End StorageModel.

(** ** Properties *)

(** A workflow storage built by [insert] and [remove] answers lookups by
    name with the definition of that name, lookups by id with a definition that
    has the id (and finds one exactly when one is stored), and lists each
    stored name once. *)
Theorem storage_lookup_spec `{JN : JsonNumber} `{UW : UuidLaws} `{HO : HashOrder}
    (s : InMemoryStorage) :
  stored s ->
  (forall f nm, get_by_name (storage_insert f s) nm =
     if decide (nm = flow_name f) then Some f else get_by_name s nm) /\
  (forall r nm, storage_remove r s = (get_by_name s r, (storage_remove r s).2) /\
     get_by_name (storage_remove r s).2 nm = if decide (nm = r) then None else get_by_name s nm) /\
  (forall u f, get_by_id s (uuid_to_string u) = Some f ->
     flow_id f = u /\ get_by_name s (flow_name f) = Some f) /\
  (forall u, get_by_id s (uuid_to_string u) = None <->
     forall nm f, get_by_name s nm = Some f -> flow_id f <> u) /\
  NoDup (storage_list s) /\
  (forall nm, nm ∈ storage_list s <-> is_Some (get_by_name s nm)).
Proof.
  intros Hs. split_and!.
  - intros f nm. unfold get_by_name. cbn. case_decide; subst;
      [by rewrite lookup_insert_eq|by rewrite lookup_insert_ne].
  - intros r nm. split; [done|]. unfold get_by_name. cbn. case_decide; subst;
      [by rewrite lookup_delete_eq|by rewrite lookup_delete_ne].
  - intros u f [Hu [k Hk]]%get_by_id_some. rewrite uuid_parse_to_string in Hu.
    split; [congruence|]. unfold get_by_name. by rewrite (stored_named s Hs k f Hk).
  - intros u. apply get_by_id_none, uuid_parse_to_string.
  - apply NoDup_hash_keys.
  - intros nm. apply elem_of_hash_keys.
Qed.

Lemma storage_lookup_spec_witness :
  let _ := SerdeModel.serde_number in
  let _ := StorageModel.unary_ids in
  let _ := StorageModel.list_order in
  let f := flow_new 3%N "deploy" FlowMode.Dag in
  let s := storage_insert f storage_new in
  stored s /\ get_by_id s (uuid_to_string 3%N) = Some f /\ flow_id f = 3%N.
Proof.
  intros ? ? ? f s. assert (stored s) as Hs by apply stored_insert, stored_new.
  split; [done|]. split; [reflexivity|].
  pose proof (@storage_lookup_spec _ _ StorageModel.unary_laws _ s Hs) as (_ & _ & H & _).
  apply (H 3%N f). reflexivity.
Defined.

(** After any sequence of saves and removals the in-memory execution store
    returns for an id the last record saved under it and not removed since, and
    lists (optionally for one flow) exactly the ids that have such a record,
    each once. *)
Theorem memory_store_history `{JN : JsonNumber} `{HO : HashOrder} (ops : list store_op) :
  let s := store_run ops executions_new in
  (forall i, get i s = last_written i ops None) /\
  (forall nm, NoDup (list_ids nm s)) /\
  (forall nm i, i ∈ list_ids nm s <->
     exists r, last_written i ops None = Some r /\ flow_matches nm r = true) /\
  (forall i, (remove i s).1 = last_written i ops None).
Proof.
  intros s. assert (store_ok s) as Hs by (apply store_run_ok, map_Forall_empty).
  assert (forall i, get i s = last_written i ops None) as Hg
    by (intros i; unfold s; by rewrite get_store_run).
  split_and!; [done|intros nm; by apply list_nodup| |].
  - intros nm i. rewrite list_contents by done. by setoid_rewrite <- Hg.
  - intros i. by rewrite remove_returns, <- get_contents.
Qed.
