(* ===== verification/SqlStore.v ===== *)
(** * Durable execution stores

    [rust-old/src/sql_store.rs]: the store generated by [sqlx_execution_store!]
    (fallible operations on the [szal_executions] table) and [SpawnSink], which
    adapts it to the synchronous [ExecutionStore] the engine consumes: writes go
    to an in-process mirror at once and through an ordered channel to a single
    background writer.  The database behind [sqlx] and the JSON codec of records
    are parameters. *)

From Stdlib Require Import ZArith Lia.
From stdpp Require Import base tactics option list strings gmap relations.
From S2P Require Import Prelude Json State Error Step Flow EngineResult Storage.

Open Scope Z_scope.

(** [serde_json::to_string] and [from_str] at [ExecutionRecord]. *)
Class RecordCodec `{JN : JsonNumber} := {
  record_to_string : ExecutionRecord -> result string string;
  record_from_string : string -> result ExecutionRecord string
}.

(** A record has no map with non-string keys: it always serialises.  What was
    written can be read back when it is [readable], perhaps with its numbers
    rounded, and is read back unchanged when it is [exact]. *)
Class RecordCodecLaws `{RecordCodec} := {
  readable : ExecutionRecord -> Prop;
  exact : ExecutionRecord -> Prop;
  record_serialises r : exists d, record_to_string r = Ok d;
  record_reads r d :
    readable r -> record_to_string r = Ok d -> exists r', record_from_string d = Ok r';
  record_reads_back r d : exact r -> record_to_string r = Ok d -> record_from_string d = Ok r;
  exact_readable r : exact r -> readable r
}.

(** The SQL statements the store sends, on a database handle of type [D];
    each may fail. *)
Class SqlDb (D : Type) := {
  db_upsert : string -> string -> string -> D -> result unit string * D;
  db_select : string -> D -> result (option string) string * D;
  db_ids : option string -> D -> result (list string) string * D;
  db_delete : string -> D -> result unit string * D
}.

(** The table behind the handle: rows [(flow_name, data)] under their primary
    key.  A statement that fails leaves the table as it was; while the database
    is up none fails. *)
Class SqlDbLaws (D : Type) `{SqlDb D} := {
  db_rows : D -> gmap string (string * string);
  db_up : D -> Prop;
  upsert_rows i f x d :
    db_rows (db_upsert i f x d).2 =
      if is_ok (db_upsert i f x d).1 then <[i := (f, x)]> (db_rows d) else db_rows d;
  select_rows i d : db_rows (db_select i d).2 = db_rows d;
  select_data i d o : (db_select i d).1 = Ok o -> o = snd <$> db_rows d !! i;
  delete_rows i d :
    db_rows (db_delete i d).2 =
      if is_ok (db_delete i d).1 then delete i (db_rows d) else db_rows d;
  ids_rows nm d : db_rows (db_ids nm d).2 = db_rows d;
  ids_nodup nm d l : (db_ids nm d).1 = Ok l -> NoDup l;
  ids_listed nm d l i : (db_ids nm d).1 = Ok l ->
    i ∈ l <-> exists row, db_rows d !! i = Some row /\
                match nm with None => True | Some n => row.1 = n end;
  up_upsert i f x d : db_up d -> is_ok (db_upsert i f x d).1 = true /\ db_up (db_upsert i f x d).2;
  up_select i d : db_up d -> is_ok (db_select i d).1 = true /\ db_up (db_select i d).2;
  up_ids nm d : db_up d -> is_ok (db_ids nm d).1 = true /\ db_up (db_ids nm d).2;
  up_delete i d : db_up d -> is_ok (db_delete i d).1 = true /\ db_up (db_delete i d).2
}.

Section Sql.
Context `{JN : JsonNumber} `{RC : !RecordCodec} {D : Type} `{DB : !SqlDb D}.

(** [sqlx_err] and [json_err] wrap the message as [SzalError::Other]. *)
Definition sqlx_err (e : string) : SzalError := Other e.
Definition json_err (e : string) : SzalError := Other e.

Definition sql_save (r : ExecutionRecord) (d : D) : result unit SzalError * D :=
  match map_err json_err (record_to_string r) with
  | Err e => (Err e, d)
  | Ok data =>
      let '(res, d) := db_upsert (execution_id r) (record_flow r) data d in
      (map_err sqlx_err res, d)
  end.

Definition sql_get (i : string) (d : D) : result (option ExecutionRecord) SzalError * D :=
  let '(row, d) := db_select i d in
  (let? row := map_err sqlx_err row in
   match row with
   | Some data => let? r := map_err json_err (record_from_string data) in Ok (Some r)
   | None => Ok None
   end, d).

Definition sql_list (nm : option string) (d : D) : result (list string) SzalError * D :=
  let '(rows, d) := db_ids nm d in (map_err sqlx_err rows, d).

Definition sql_remove (i : string) (d : D) : result (option ExecutionRecord) SzalError * D :=
  let '(existing, d) := sql_get i d in
  match existing with
  | Err e => (Err e, d)
  | Ok None => (Ok None, d)
  | Ok (Some r) =>
      let '(res, d) := db_delete i d in
      match map_err sqlx_err res with
      | Err e => (Err e, d)
      | Ok _ => (Ok (Some r), d)
      end
  end.

(** [DurableSave]: an error is logged and dropped. *)
Definition save_record (r : ExecutionRecord) (d : D) : D := (sql_save r d).2.
Definition delete_record (i : string) (d : D) : D := (sql_remove i d).2.

(** ** The sink *)

Inductive WriteOp : Type :=
| Save (r : ExecutionRecord)
| Delete (i : string).

(** [queue] holds the operations sent and not yet received; [rx] says whether
    the receiver is still in its slot, [writer] whether the background writer
    owns it. *)
Record SpawnSink : Type := mkSink {
  mirror : gmap string ExecutionRecord;
  queue : list WriteOp;
  rx : bool;
  writer_started : bool;
  writer : bool
}.

Definition sink_new : SpawnSink :=
  {| mirror := ∅; queue := []; rx := true; writer_started := false; writer := false |}.

Definition ensure_writer (s : SpawnSink) : SpawnSink :=
  if writer_started s then s
  else {| mirror := mirror s; queue := queue s; rx := false;
          writer_started := true; writer := writer s || rx s |}.

(** [self.mirror.write().insert(..)] and [self.tx.send(..)], each atomic. *)
Definition mirror_insert (r : ExecutionRecord) (s : SpawnSink) : SpawnSink :=
  {| mirror := <[execution_id r := r]> (mirror s); queue := queue s; rx := rx s;
     writer_started := writer_started s; writer := writer s |}.
Definition mirror_remove (i : string) (s : SpawnSink) : SpawnSink :=
  {| mirror := delete i (mirror s); queue := queue s; rx := rx s;
     writer_started := writer_started s; writer := writer s |}.
Definition send (op : WriteOp) (s : SpawnSink) : SpawnSink :=
  {| mirror := mirror s; queue := queue s ++ [op]; rx := rx s;
     writer_started := writer_started s; writer := writer s |}.

Definition sink_save (r : ExecutionRecord) (s : SpawnSink) : SpawnSink :=
  let s := ensure_writer s in
  let s := mirror_insert r s in
  send (Save r) s.

Definition sink_get (i : string) (s : SpawnSink) : option ExecutionRecord := mirror s !! i.

Definition sink_list `{HO : HashOrder} (nm : option string) (s : SpawnSink) : list string :=
  listed nm (mirror s).

Definition sink_remove (i : string) (s : SpawnSink) : option ExecutionRecord * SpawnSink :=
  let s := ensure_writer s in
  let removed := mirror s !! i in
  let s := mirror_remove i s in
  (removed, match removed with Some _ => send (Delete i) s | None => s end).

(** One turn of the background writer's loop. *)
Definition apply_op (op : WriteOp) (d : D) : D :=
  match op with Save r => save_record r d | Delete i => delete_record i d end.

Definition writer_turn (s : SpawnSink) (d : D) : option (SpawnSink * D) :=
  if writer s then
    match queue s with
    | [] => None
    | op :: q =>
        Some ({| mirror := mirror s; queue := q; rx := rx s;
                 writer_started := writer_started s; writer := writer s |}, apply_op op d)
    end
  else None.

(** ** Executions of the sink

    Calls of the trait's methods by one task, which saves records that satisfy
    [saved], and turns of the writer, in any order. *)
Inductive sink_step (saved : ExecutionRecord -> Prop)
  : SpawnSink * D -> SpawnSink * D -> Prop :=
| step_save r s d : saved r -> sink_step saved (s, d) (sink_save r s, d)
| step_remove i s d : sink_step saved (s, d) ((sink_remove i s).2, d)
| step_writer s d s' d' : writer_turn s d = Some (s', d') -> sink_step saved (s, d) (s', d').

End Sql.

(** ** The sink is an execution store *)

Section SinkStore.
Context `{JN : JsonNumber} `{HO : HashOrder}.

#[export] Instance sink_store : ExecutionStore SpawnSink := {|
  save := sink_save; get := sink_get; list_ids := sink_list; remove := sink_remove
|}.

Lemma mirror_ensure_writer s : mirror (ensure_writer s) = mirror s.
Proof. unfold ensure_writer. by destruct (writer_started s). Qed.

Lemma mirror_sink_save r s : mirror (sink_save r s) = <[execution_id r := r]> (mirror s).
Proof. cbn. by rewrite mirror_ensure_writer. Qed.

Lemma mirror_sink_remove i s : mirror (sink_remove i s).2 = delete i (mirror s).
Proof.
  cbn. destruct (mirror (ensure_writer s) !! i); cbn; by rewrite mirror_ensure_writer.
Qed.

#[export, refine] Instance sink_store_laws : ExecutionStoreLaws SpawnSink := {|
  contents := mirror;
  store_ok s := keyed (mirror s);
  contents_save := mirror_sink_save;
  contents_remove := mirror_sink_remove;
  get_contents _ _ := eq_refl;
  list_nodup nm s := NoDup_listed nm (mirror s);
  list_contents nm s i := elem_of_listed nm (mirror s) i
|}.
Proof.
  - intros r s. cbn. rewrite mirror_ensure_writer. apply keyed_insert.
  - intros i s. change (remove i s) with (sink_remove i s).
    rewrite mirror_sink_remove. apply keyed_delete.
  - intros i s. cbn. by rewrite mirror_ensure_writer.
Defined.
End SinkStore.

(** ** The database follows the mirror *)

Section Durability.
Context `{JN : JsonNumber} `{RC : !RecordCodec} `{RL : !RecordCodecLaws}.
Context {D : Type} `{DB : !SqlDb D} `{DL : !SqlDbLaws D}.

(** [i]'s row holds the text of the record, which can be read. *)
Definition row_of (r : ExecutionRecord) (row : string * string) : Prop :=
  row.1 = record_flow r /\ record_to_string r = Ok row.2 /\ readable r.

Definition agrees (m : gmap string ExecutionRecord) (rows : gmap string (string * string))
  : Prop :=
  forall i, option_Forall2 row_of (m !! i) (rows !! i).

(** What a queue of writes will have done to a map of records. *)
Definition replay (q : list WriteOp) (m : gmap string ExecutionRecord)
  : gmap string ExecutionRecord :=
  foldl (fun m op => match op with
                     | Save r => <[execution_id r := r]> m
                     | Delete i => delete i m
                     end) m q.

Arguments replay : simpl never.

Lemma replay_snoc q op m :
  replay (q ++ [op]) m =
    match op with
    | Save r => <[execution_id r := r]> (replay q m)
    | Delete i => delete i (replay q m)
    end.
Proof. unfold replay. by rewrite foldl_app. Qed.

Lemma agrees_insert m rows r data :
  agrees m rows -> record_to_string r = Ok data -> readable r ->
  agrees (<[execution_id r := r]> m) (<[execution_id r := (record_flow r, data)]> rows).
Proof.
  intros Ha Hd Hr i. destruct (decide (i = execution_id r)) as [->|].
  - rewrite !lookup_insert_eq. by repeat constructor.
  - by rewrite !lookup_insert_ne.
Qed.

Lemma agrees_delete m rows i : agrees m rows -> agrees (delete i m) (delete i rows).
Proof.
  intros Ha j. destruct (decide (j = i)) as [->|].
  - rewrite !lookup_delete_eq. constructor.
  - by rewrite !lookup_delete_ne.
Qed.

Lemma save_record_agrees r m d :
  db_up d -> agrees m (db_rows d) -> readable r ->
  is_ok (sql_save r d).1 = true /\ db_up (save_record r d) /\ agrees (<[execution_id r := r]> m) (db_rows (save_record r d)).
Proof.
  intros Hup Ha Hr. unfold save_record, sql_save.
  destruct (record_serialises r) as (data & Hd). rewrite Hd. cbn.
  destruct (up_upsert (execution_id r) (record_flow r) data d Hup) as [Hok Hup'].
  pose proof (upsert_rows (execution_id r) (record_flow r) data d) as Hrows.
  rewrite Hok in Hrows.
  destruct (db_upsert _ _ _ _) as [[u|e] d']; cbn in *; [|done].
  split; [done|]. split; [done|]. rewrite Hrows. by apply agrees_insert.
Qed.

Lemma sql_get_agrees i m d :
  db_up d -> agrees m (db_rows d) ->
  db_up (sql_get i d).2 /\ db_rows (sql_get i d).2 = db_rows d /\
  exists o, (sql_get i d).1 = Ok o /\ (o = None <-> m !! i = None) /\
    (forall r, m !! i = Some r -> exact r -> o = Some r).
Proof.
  intros Hup Ha. unfold sql_get.
  destruct (up_select i d Hup) as [Hok Hup'].
  pose proof (select_rows i d) as Hrows. pose proof (select_data i d) as Hdata.
  destruct (db_select i d) as [[row|e] d']; cbn in *; [|done].
  split; [done|]. split; [done|]. specialize (Hdata row eq_refl). subst row.
  specialize (Ha i). destruct (db_rows d !! i) as [[f x]|]; cbn; inversion Ha as [r row Hr Er|]; subst.
  - destruct Hr as (_ & Hx & Hr). cbn in Hx. destruct (record_reads r x Hr Hx) as (r' & Hr').
    rewrite Hr'. cbn. exists (Some r'). split; [done|]. split; [by split|].
    intros r0 [= <-] He. pose proof (record_reads_back r x He Hx). congruence.
  - by exists None.
Qed.

Lemma delete_record_agrees i m d :
  db_up d -> agrees m (db_rows d) ->
  is_ok (sql_remove i d).1 = true /\ db_up (delete_record i d) /\ agrees (delete i m) (db_rows (delete_record i d)).
Proof.
  intros Hup Ha. unfold delete_record, sql_remove.
  destruct (sql_get_agrees i m d Hup Ha) as (Hup1 & Hrows1 & o & Ho & Hnone & _).
  destruct (sql_get i d) as [g d1]; cbn in *. subst g. destruct o as [r|]; cbn.
  - destruct (up_delete i d1 Hup1) as [Hok Hup2]. pose proof (delete_rows i d1) as Hrows2.
    rewrite Hok in Hrows2. destruct (db_delete i d1) as [[u|e] d2]; cbn in *; [|done].
    split; [done|]. split; [done|]. rewrite Hrows2, Hrows1. by apply agrees_delete.
  - split; [done|]. split; [done|]. rewrite Hrows1. rewrite delete_id by (by apply Hnone). done.
Qed.

Definition op_readable (op : WriteOp) : Prop :=
  match op with Save r => readable r | Delete _ => True end.

Lemma apply_op_agrees op m d :
  db_up d -> agrees m (db_rows d) -> op_readable op ->
  db_up (apply_op op d) /\ agrees (replay [op] m) (db_rows (apply_op op d)).
Proof.
  destruct op as [r|i]; intros Hup Ha Hr; unfold replay; cbn;
    [by apply save_record_agrees|by apply delete_record_agrees].
Qed.

(** The invariant of the sink: the rows, with the pending writes replayed, are
    the mirror; and operations wait only while a writer exists. *)
Definition sink_inv (c : SpawnSink * D) : Prop :=
  db_up c.2 /\
  (exists m, agrees m (db_rows c.2) /\ replay (queue c.1) m = mirror c.1) /\
  Forall op_readable (queue c.1) /\
  (if writer_started c.1 then writer c.1 = true else rx c.1 = true /\ queue c.1 = []).

Lemma ensure_writer_writer s :
  (if writer_started s then writer s = true else rx s = true /\ queue s = []) ->
  writer (ensure_writer s) = true /\ writer_started (ensure_writer s) = true
  /\ queue (ensure_writer s) = queue s.
Proof.
  unfold ensure_writer. destruct (writer_started s) eqn:E; cbn; [by rewrite E|].
  intros [-> ->]. by rewrite orb_true_r.
Qed.

Lemma sink_inv_step c c' : sink_step readable c c' -> sink_inv c -> sink_inv c'.
Proof.
  unfold sink_inv.
  destruct 1 as [r s d Hr|i s d|s d s' d' Ht]; cbn; intros (Hup & (m & Ha & Hm) & Hops & Hw).
  - destruct (ensure_writer_writer s Hw) as (Hw1 & Hw2 & Hq). rewrite Hw2, Hw1, Hq.
    split; [done|]. split; [|split; [|done]].
    + exists m. split; [done|]. by rewrite replay_snoc, Hm, mirror_ensure_writer.
    + apply Forall_app. split; [done|]. by repeat constructor.
  - destruct (ensure_writer_writer s Hw) as (Hw1 & Hw2 & Hq).
    rewrite mirror_ensure_writer.
    destruct (mirror s !! i) eqn:Ei; cbn; rewrite Hw2, Hw1, Hq, mirror_ensure_writer;
      (split; [done|]); (split; [exists m; split; [done|]|split; [|done]]).
    + by rewrite replay_snoc, Hm.
    + apply Forall_app. split; [done|]. by repeat constructor.
    + by rewrite Hm, delete_id.
    + done.
  - unfold writer_turn in Ht. destruct (writer s) eqn:Ew; [|done].
    destruct (queue s) as [|op q] eqn:Eq; [done|]. simplify_eq/=.
    apply Forall_cons in Hops as [Hop Hops].
    destruct (apply_op_agrees op m d Hup Ha Hop) as [Hup' Ha'].
    split; [done|]. split; [|split; [done|by destruct (writer_started s); naive_solver]].
    exists (replay [op] m). by split.
Qed.
End Durability.

(** ** The asynchronous store by itself *)

Section History.
Context `{JN : JsonNumber} `{RC : !RecordCodec} `{RL : !RecordCodecLaws}.
Context {D : Type} `{DB : !SqlDb D} `{DL : !SqlDbLaws D}.

(** Calls of [save] and [remove]: the errors they return, and the database they
    leave. *)
Definition sql_call (op : store_op) (d : D) : result unit SzalError * D :=
  match op with
  | OpSave r => sql_save r d
  | OpRemove i => let '(res, d) := sql_remove i d in (let? _ := res in Ok tt, d)
  end.

Fixpoint sql_calls (ops : list store_op) (d : D) : result unit SzalError * D :=
  match ops with
  | [] => (Ok tt, d)
  | op :: ops =>
      let '(res, d) := sql_call op d in
      match res with Ok _ => sql_calls ops d | Err e => (Err e, d) end
  end.

Definition saves_readable (op : store_op) : Prop :=
  match op with OpSave r => readable r | OpRemove _ => True end.

(** The records a sequence of calls leaves. *)
Definition recorded (ops : list store_op) (m : gmap string ExecutionRecord)
  : gmap string ExecutionRecord :=
  foldl (fun m op => match op with
                     | OpSave r => <[execution_id r := r]> m
                     | OpRemove i => delete i m
                     end) m ops.

Lemma recorded_lookup ops : forall m i, recorded ops m !! i = last_written i ops (m !! i).
Proof.
  unfold recorded.
  induction ops as [|[r|j] ops IH]; intros m i; cbn; [done| |]; rewrite IH; f_equal;
    case_decide; subst;
    [by rewrite lookup_insert_eq|by rewrite lookup_insert_ne
    |by rewrite lookup_delete_eq|by rewrite lookup_delete_ne].
Qed.

Lemma sql_calls_agree ops : forall m d,
  db_up d -> agrees m (db_rows d) -> Forall saves_readable ops ->
  (sql_calls ops d).1 = Ok tt /\ db_up (sql_calls ops d).2 /\
  agrees (recorded ops m) (db_rows (sql_calls ops d).2).
Proof.
  unfold recorded. induction ops as [|op ops IH]; intros m d Hup Ha Hops; [done|].
  apply Forall_cons in Hops as [Hop Hops]. cbn [sql_calls foldl]. destruct op as [r|i]; cbn in Hop |- *.
  - destruct (save_record_agrees r m d Hup Ha Hop) as (Hok & Hup' & Ha').
    unfold save_record in Hup', Ha'. destruct (sql_save r d) as [[u|e] d']; cbn in *; [|done].
    by apply IH.
  - destruct (delete_record_agrees i m d Hup Ha) as (Hok & Hup' & Ha').
    unfold delete_record in Hup', Ha'. destruct (sql_remove i d) as [[u|e] d']; cbn in *; [|done].
    by apply IH.
Qed.

Lemma sql_list_agrees nm m d :
  db_up d -> agrees m (db_rows d) ->
  exists l, (sql_list nm d).1 = Ok l /\ NoDup l /\
    forall i, i ∈ l <-> exists r, m !! i = Some r /\ flow_matches nm r = true.
Proof.
  intros Hup Ha. unfold sql_list. destruct (up_ids nm d Hup) as [Hok _].
  pose proof (ids_nodup nm d) as Hnd. pose proof (ids_listed nm d) as Hl.
  destruct (db_ids nm d) as [[l|e] d']; cbn in *; [|done]. exists l.
  split; [done|]. split; [by apply Hnd|]. intros i. rewrite (Hl l i eq_refl). split.
  - intros (row & Hrow & Hnm). specialize (Ha i). rewrite Hrow in Ha.
    inversion Ha as [r row' (Hf & _) Er|]; subst. exists r. split; [done|].
    unfold flow_matches. destruct nm; [|done]. apply bool_decide_eq_true. congruence.
  - intros (r & Hr & Hnm). specialize (Ha i). rewrite Hr in Ha.
    inversion Ha as [r' row (Hf & _) Er|]; subst. exists row. split; [done|].
    unfold flow_matches in Hnm. destruct nm; [|done]. apply bool_decide_eq_true in Hnm. congruence.
Qed.

(** A row whose text cannot be read is there for good: [remove] reads it before
    it would delete it. *)
Lemma unreadable_row_stays i d text e :
  db_up d -> snd <$> db_rows d !! i = Some text -> record_from_string text = Err e ->
  (sql_remove i d).1 = Err (json_err e) /\ db_rows (sql_remove i d).2 = db_rows d.
Proof.
  intros Hup Hrow Htext. unfold sql_remove, sql_get.
  destruct (up_select i d Hup) as [Hok _]. pose proof (select_rows i d) as Hrows.
  pose proof (select_data i d) as Hdata. destruct (db_select i d) as [[row|e'] d']; cbn in *; [|done].
  rewrite (Hdata row eq_refl), Hrow. cbn. by rewrite Htext.
Qed.
End History.

(** ** A concrete database

    A table that never fails, and a codec that writes records by their flow
    name: the interfaces above can be implemented. *)

Module TableDb.
Definition rows : Type := gmap string (string * string).

Definition in_flow (nm : option string) (row : string * string) : bool :=
  match nm with None => true | Some n => bool_decide (row.1 = n) end.

Definition table : SqlDb rows := {|
  db_upsert i f x d := (Ok tt, <[i := (f, x)]> d);
  db_select i d := (Ok (snd <$> d !! i), d);
  db_ids nm d := (Ok (List.filter (fun e => in_flow nm e.2) (map_to_list d)).*1, d);
  db_delete i d := (Ok tt, delete i d)
|}.

Lemma elem_of_ids nm (d : rows) i :
  i ∈ (List.filter (fun e => in_flow nm e.2) (map_to_list d)).*1 <->
  exists row, d !! i = Some row /\ match nm with None => True | Some n => row.1 = n end.
Proof.
  rewrite list_elem_of_fmap. split.
  - intros ([k row] & -> & Hin%list_elem_of_In). apply filter_In in Hin as [Hin Hf].
    exists row. split; [by apply elem_of_map_to_list, list_elem_of_In|].
    destruct nm; [by apply bool_decide_eq_true in Hf|done].
  - intros (row & Hrow & Hf). exists (i, row). split; [done|].
    apply list_elem_of_In, filter_In. split; [by apply list_elem_of_In, elem_of_map_to_list|].
    destruct nm; [by apply bool_decide_eq_true|done].
Qed.

Lemma ids_once nm (d : rows) :
  NoDup (List.filter (fun e => in_flow nm e.2) (map_to_list d)).*1.
Proof.
  eapply sublist_NoDup; [apply (NoDup_fst_map_to_list d)|].
  apply (fmap_sublist fst), sublist_list_filter.
Qed.

Definition table_laws : SqlDbLaws rows (H := table).
Proof.
  refine (@Build_SqlDbLaws rows table (fun d => d) (fun _ => True) _ _ _ _ _ _ _ _ _ _ _);
    intros; cbn in *; simplify_eq; try done; [apply ids_once|apply elem_of_ids].
Defined.

Section Codec.
Context `{JN : JsonNumber}.
Definition blank (f : string) : ExecutionRecord :=
  {| execution_id := ""; record_flow := f; record_state := WorkflowState.Created;
     record_result := None; started_at := ""; finished_at := None |}.
Definition codec : RecordCodec := {|
  record_to_string r := Ok (record_flow r);
  record_from_string s := Ok (blank s)
|}.
Definition codec_laws : RecordCodecLaws (H := codec).
Proof.
  refine (@Build_RecordCodecLaws _ codec (fun _ => True) (fun r => r = blank (record_flow r)) _ _ _ _);
    cbn; [eauto|eauto|intros r d -> [= <-]; done|done].
Defined.
End Codec.
End TableDb.

(** ** Properties *)

(** However the calls of [save] and [remove] made by one task, of records
    that can be read back, interleave with the background writer, an up database follows the sink's mirror: the
    writes still queued, applied in the order they were submitted, turn the
    records of the table into the mirror, so once the queue is empty the row
    of every id is the serialised form of the record the sink returns for it.
    Pending writes always have a writer to apply them. *)
Theorem sink_durable `{JN : JsonNumber} `{RC : !RecordCodec} `{RL : !RecordCodecLaws}
    {D : Type} `{DB : !SqlDb D} `{DL : !SqlDbLaws D} (d0 d : D) (s : SpawnSink) :
  db_up d0 -> db_rows d0 = ∅ ->
  rtc (sink_step readable) (sink_new, d0) (s, d) ->
  (exists m, agrees m (db_rows d) /\ replay (queue s) m = mirror s) /\
  (queue s = [] -> forall i, option_Forall2 row_of (sink_get i s) (db_rows d !! i)) /\
  (queue s <> [] -> is_Some (writer_turn s d)).
Proof.
  intros Hup H0 Hsteps.
  assert (sink_inv (sink_new, d0)) as Hinv.
  { split; [done|]. split; [|done]. exists ∅. split; [|done].
    intros i. cbn. rewrite H0, !lookup_empty. constructor. }
  assert (sink_inv (s, d)) as (_ & (m & Ha & Hm) & _ & Hw).
  { revert Hinv. remember (sink_new, d0) as c. remember (s, d) as c'. clear -Hsteps RL DL.
    induction Hsteps; eauto using sink_inv_step. }
  cbn in *. split_and!.
  - by exists m.
  - intros Hq i. rewrite Hq in Hm. unfold replay in Hm. cbn in Hm. subst m. apply Ha.
  - unfold writer_turn. destruct (writer_started s).
    + rewrite Hw. by destruct (queue s).
    + by destruct Hw.
Qed.

(** The asynchronous store, on a database that is up, is a map from ids to
    records: after any sequence of [save]s of readable records and [remove]s,
    none of which fails, [get] finds a record under an id exactly when the last
    call that named the id saved one, and returns that very record when its text
    is exact; [list] answers each id that has a record (of the flow asked for)
    once.  [m] is what the table held before, after a restart for instance. *)
Theorem sql_history `{JN : JsonNumber} `{RC : !RecordCodec} `{RL : !RecordCodecLaws}
    {D : Type} `{DB : !SqlDb D} `{DL : !SqlDbLaws D} (d : D)
    (m : gmap string ExecutionRecord) (ops : list store_op) :
  db_up d -> agrees m (db_rows d) -> Forall saves_readable ops ->
  let d' := (sql_calls ops d).2 in
  (sql_calls ops d).1 = Ok tt /\
  (forall i, exists o, (sql_get i d').1 = Ok o /\
     (o = None <-> last_written i ops (m !! i) = None) /\
     (forall r, last_written i ops (m !! i) = Some r -> exact r -> o = Some r)) /\
  (forall nm, exists l, (sql_list nm d').1 = Ok l /\ NoDup l /\
     forall i, i ∈ l <->
       exists r, last_written i ops (m !! i) = Some r /\ flow_matches nm r = true).
Proof.
  intros Hup Ha Hops d'. destruct (sql_calls_agree ops m d Hup Ha Hops) as (Hok & Hup' & Ha').
  split; [done|]. split.
  - intros i. destruct (sql_get_agrees i _ _ Hup' Ha') as (_ & _ & o & Ho & Hn & He).
    exists o. rewrite <- recorded_lookup. done.
  - intros nm. destruct (sql_list_agrees nm _ _ Hup' Ha') as (l & Hl & Hnd & Hin).
    exists l. split; [done|]. split; [done|]. intros i. rewrite Hin.
    by setoid_rewrite recorded_lookup.
Qed.

Lemma sql_history_witness :
  let _ := SerdeModel.serde_number in
  let _ := TableDb.codec in
  let _ := TableDb.table in
  let r := TableDb.blank "deploy" in
  (sql_get "" (sql_calls [OpSave r; OpRemove "other"] (∅ : TableDb.rows)).2).1 = Ok (Some r).
Proof.
  intros ? ? ? r.
  destruct (@sql_history _ _ TableDb.codec_laws _ _ TableDb.table_laws ∅ ∅
    [OpSave r; OpRemove "other"]) as (_ & Hget & _).
  - exact I.
  - intros i. rewrite !lookup_empty. constructor.
  - by repeat constructor.
  - destruct (Hget "") as (o & Ho & _ & He). refine (eq_trans Ho _).
    by rewrite (He r eq_refl eq_refl).
Defined.

Lemma sink_durable_witness :
  let _ := SerdeModel.serde_number in
  let _ := TableDb.codec in
  let _ := TableDb.table in
  let r := TableDb.blank "deploy" in
  let s := sink_save r sink_new in
  rtc (sink_step (fun _ => True)) (sink_new, ∅ : TableDb.rows) (s, ∅ : TableDb.rows) /\
  is_Some (writer_turn s (∅ : TableDb.rows)).
Proof.
  intros ? ? ? r s.
  assert (rtc (sink_step (fun _ => True)) (sink_new, ∅ : TableDb.rows) (s, ∅ : TableDb.rows)) as H
    by (eapply rtc_l; [by apply step_save|apply rtc_refl]).
  split; [done|].
  apply (@sink_durable _ _ TableDb.codec_laws _ _ TableDb.table_laws ∅ ∅ s I eq_refl H).
  done.
Defined.

(** To a client, the sink behaves as an execution store from the moment a call
    returns: after any sequence of saves and removals it returns for an id the
    last record saved and not removed since, and lists exactly those ids. *)
Theorem sink_store_history `{JN : JsonNumber} `{HO : HashOrder} (ops : list store_op) :
  let s := store_run ops sink_new in
  (forall i, sink_get i s = last_written i ops None) /\
  (forall nm, NoDup (sink_list nm s)) /\
  (forall nm i, i ∈ sink_list nm s <->
     exists r, last_written i ops None = Some r /\ flow_matches nm r = true).
Proof.
  intros s. assert (store_ok s) as Hs by (apply store_run_ok, map_Forall_empty).
  assert (forall i, get i s = last_written i ops None) as Hg
    by (intros i; unfold s; by rewrite get_store_run).
  split_and!; [done|intros nm; exact (list_nodup nm s Hs)|].
  intros nm i. change (sink_list nm s) with (list_ids nm s).
  rewrite (list_contents nm s i) by done. by setoid_rewrite <- Hg.
Qed.

(** Two tasks that save the same id at once can leave the database with the
    record the mirror no longer has: the mirror and the channel are updated in
    two separate steps. *)
Lemma concurrent_saves_diverge :
  let _ := SerdeModel.serde_number in
  let _ := TableDb.codec in
  let _ := TableDb.table in
  let r1 := TableDb.blank "first" in
  let r2 := TableDb.blank "second" in
  let s := send (Save r1) (send (Save r2)
             (mirror_insert r2 (mirror_insert r1 (ensure_writer sink_new)))) in
  exists s1 d1 s2 d2,
    writer_turn s (∅ : TableDb.rows) = Some (s1, d1) /\
    writer_turn s1 d1 = Some (s2, d2) /\
    queue s2 = [] /\
    sink_get "" s2 = Some r2 /\
    d2 !! "" = Some ("first", "first").
Proof.
  intros ? ? ? r1 r2 s. do 4 eexists. split; [reflexivity|]. split; [reflexivity|].
  split; [reflexivity|]. split; reflexivity.
Qed.
