(* ===== verification/SqlBackend.v ===== *)
(** * The SQL backends

    The two stores [rust-old/src/sql_store.rs] generates with
    [sqlx_execution_store!], which differ in the text of their statements:
    [connect], [migrate], and the statements behind [save], [get], [list] and
    [remove].  [sqlx] and the database behind it are parameters; the laws say what
    the statements mean to a SQL database.  The stores implement [SqlDb], the
    interface [SqlStore] is proved against. *)

From Stdlib Require Import ZArith Lia.
From stdpp Require Import base tactics option list strings gmap.
From S2P Require Import Prelude Json State Error Step Flow EngineResult Storage SqlStore.

Open Scope Z_scope.

(** ** Statements *)

(** The arguments of the macro that are SQL text. *)
Record Dialect : Type := mkDialect {
  upsert : string;
  select : string;
  list_flow : string;
  delete_row : string
}.

Definition sqlite : Dialect := {|
  upsert := "INSERT INTO szal_executions (execution_id, flow_name, data) VALUES (?, ?, ?) " +:+
    "ON CONFLICT(execution_id) DO UPDATE SET flow_name = excluded.flow_name, data = excluded.data";
  select := "SELECT data FROM szal_executions WHERE execution_id = ?";
  list_flow := "SELECT execution_id FROM szal_executions WHERE flow_name = ?";
  delete_row := "DELETE FROM szal_executions WHERE execution_id = ?"
|}.

Definition postgres : Dialect := {|
  upsert := "INSERT INTO szal_executions (execution_id, flow_name, data) VALUES ($1, $2, $3) " +:+
    "ON CONFLICT(execution_id) DO UPDATE SET flow_name = excluded.flow_name, data = excluded.data";
  select := "SELECT data FROM szal_executions WHERE execution_id = $1";
  list_flow := "SELECT execution_id FROM szal_executions WHERE flow_name = $1";
  delete_row := "DELETE FROM szal_executions WHERE execution_id = $1"
|}.

Definition create_table : string :=
  "CREATE TABLE IF NOT EXISTS szal_executions (" +:+
  "execution_id TEXT PRIMARY KEY, " +:+ "flow_name TEXT NOT NULL, " +:+ "data TEXT NOT NULL)".

Definition list_all : string := "SELECT execution_id FROM szal_executions".

(** What the store calls of [sqlx], on a pool and the database behind it. *)
Class Sqlx (D : Type) := {
  Row : Type;
  pool_connect : string -> result D string;
  execute : string -> list string -> D -> result unit string * D;
  fetch_optional : string -> list string -> D -> result (option Row) string * D;
  fetch_all : string -> list string -> D -> result (list Row) string * D;
  try_get : Row -> string -> result string string
}.

(** [iter().map(f).collect::<Result<_, _>>()] *)
Fixpoint collect_results {A B E} (f : A -> result B E) (l : list A) : result (list B) E :=
  match l with
  | [] => Ok []
  | x :: l => let? y := f x in let? ys := collect_results f l in Ok (y :: ys)
  end.

Section Backend.
Context {D : Type} `{SX : !Sqlx D}.

Definition connect (url : string) : result D SzalError := map_err sqlx_err (pool_connect url).

Definition migrate (d : D) : result unit SzalError * D :=
  let '(res, d) := execute create_table [] d in (map_err sqlx_err res, d).

(** The statements of a dialect, as [save], [get], [list] and [remove] send them
    and read their rows. *)
Definition backend (dl : Dialect) : SqlDb D := {|
  db_upsert i f x d := execute (upsert dl) [i; f; x] d;
  db_select i d :=
    let '(row, d) := fetch_optional (select dl) [i] d in
    (let? row := row in
     match row with
     | Some row => let? data := try_get row "data" in Ok (Some data)
     | None => Ok None
     end, d);
  db_ids nm d :=
    let '(rows, d) := match nm with
                      | Some n => fetch_all (list_flow dl) [n] d
                      | None => fetch_all list_all [] d
                      end in
    (let? rows := rows in collect_results (fun r => try_get r "execution_id") rows, d);
  db_delete i d := execute (delete_row dl) [i] d
|}.
End Backend.

(** ** What the statements mean *)

Definition table : Type := gmap string (string * string).

Inductive change : Type := CreateTable | Upsert | DeleteRow.

Definition change_text (dl : Dialect) (c : change) : string :=
  match c with CreateTable => create_table | Upsert => upsert dl | DeleteRow => delete_row dl end.

(** The table after a statement, [None] before it was created; a statement on a
    table that is not there, or with other parameters, is an error. *)
Definition change_table (c : change) (binds : list string) (t : option table)
  : option (option table) :=
  match c, binds, t with
  | CreateTable, [], t => Some (Some (default ∅ t))
  | Upsert, [i; f; x], Some t => Some (Some (<[i := (f, x)]> t))
  | DeleteRow, [i], Some t => Some (Some (delete i t))
  | _, _, _ => None
  end.

Class SqlxLaws (D : Type) `{SX : !Sqlx D} (dl : Dialect) := {
  sql_table : D -> option table;
  (** the database answers and its statements do not fail for want of it *)
  sql_live : D -> Prop;
  execute_changes c binds d :
    let '(res, d') := execute (change_text dl c) binds d in
    match change_table c binds (sql_table d) with
    | Some t =>
        sql_table d' = (if is_ok res then t else sql_table d) /\
        (sql_live d -> is_ok res = true /\ sql_live d')
    | None => is_ok res = false /\ sql_table d' = sql_table d
    end;
  select_answers i d :
    let '(res, d') := fetch_optional (select dl) [i] d in
    sql_table d' = sql_table d /\
    match sql_table d, res with
    | Some t, Ok row =>
        match row, t !! i with
        | Some row, Some (_, x) => try_get row "data" = Ok x
        | None, None => True
        | _, _ => False
        end /\ (sql_live d -> sql_live d')
    | Some _, Err _ => ~ sql_live d
    | None, res => is_ok res = false
    end;
  list_answers nm d :
    let '(res, d') := match nm with
                      | Some n => fetch_all (list_flow dl) [n] d
                      | None => fetch_all list_all [] d
                      end in
    sql_table d' = sql_table d /\
    match sql_table d, res with
    | Some t, Ok rows =>
        (exists ids, collect_results (fun r => try_get r "execution_id") rows = Ok ids /\ NoDup ids /\
           forall i, i ∈ ids <-> exists row, t !! i = Some row /\
             match nm with None => True | Some n => row.1 = n end) /\
        (sql_live d -> sql_live d')
    | Some _, Err _ => ~ sql_live d
    | None, res => is_ok res = false
    end
}.

(** ** The backends are SQL databases in the sense of [SqlStore] *)

Section Laws.
Context {D : Type} `{SX : !Sqlx D} (dl : Dialect) `{SL : !SqlxLaws D dl}.

Definition rows (d : D) : table := default ∅ (sql_table d).
Definition up (d : D) : Prop := sql_live d /\ is_Some (sql_table d).

Lemma upsert_backend i f x d :
  let '(res, d') := execute (upsert dl) [i; f; x] d in
  rows d' = (if is_ok res then <[i := (f, x)]> (rows d) else rows d) /\
  (up d -> is_ok res = true /\ up d').
Proof.
  pose proof (execute_changes Upsert [i; f; x] d) as H. cbn in H.
  destruct (execute _ _ d) as [res d']. unfold rows, up. destruct (sql_table d) as [t|] eqn:Et.
  - destruct H as [Ht Hl]. split; [rewrite Ht; by destruct (is_ok res)|].
    intros [Hlive _]. destruct (Hl Hlive) as [Hok Hl']. rewrite Ht, Hok. eauto.
  - destruct H as [Hok Ht]. rewrite Hok, Ht. split; [done|]. by intros [_ []].
Qed.

Lemma delete_backend i d :
  let '(res, d') := execute (delete_row dl) [i] d in
  rows d' = (if is_ok res then delete i (rows d) else rows d) /\
  (up d -> is_ok res = true /\ up d').
Proof.
  pose proof (execute_changes DeleteRow [i] d) as H. cbn in H.
  destruct (execute _ _ d) as [res d']. unfold rows, up. destruct (sql_table d) as [t|] eqn:Et.
  - destruct H as [Ht Hl]. split; [rewrite Ht; by destruct (is_ok res)|].
    intros [Hlive _]. destruct (Hl Hlive) as [Hok Hl']. rewrite Ht, Hok. eauto.
  - destruct H as [Hok Ht]. rewrite Hok, Ht. split; [done|]. by intros [_ []].
Qed.

Lemma select_backend i d :
  let '(res, d') := db_select (SqlDb := backend dl) i d in
  rows d' = rows d /\ (forall o, res = Ok o -> o = snd <$> rows d !! i) /\
  (up d -> is_ok res = true /\ up d').
Proof.
  cbn. pose proof (select_answers i d) as H. unfold rows, up.
  destruct (fetch_optional _ _ d) as [res d']. destruct H as [Ht H]. rewrite Ht.
  destruct (sql_table d) as [t|].
  - destruct res as [row|e]; cbn; [|split_and!; [done|done|by intros []]].
    destruct H as [H Hl].
    destruct row as [row|], (t !! i) as [[f x]|]; cbn; try done; [rewrite H|]; cbn;
      (split_and!; [done|by intros o [= <-]|]); intros [Hlive ?]; eauto.
  - destruct res as [row|e]; [done|]. cbn. split_and!; [done|done|by intros [_ []]].
Qed.

Lemma ids_backend nm d :
  let '(res, d') := db_ids (SqlDb := backend dl) nm d in
  rows d' = rows d /\
  (forall l, res = Ok l -> NoDup l /\ forall i, i ∈ l <-> exists row, rows d !! i = Some row /\
     match nm with None => True | Some n => row.1 = n end) /\
  (up d -> is_ok res = true /\ up d').
Proof.
  cbn. pose proof (list_answers nm d) as H. unfold rows, up.
  destruct (match nm with Some n => _ | None => _ end) as [res d']. destruct H as [Ht H]. rewrite Ht.
  destruct (sql_table d) as [t|].
  - destruct res as [rs|e]; cbn; [|split_and!; [done|done|by intros []]].
    destruct H as [(ids & Hids & Hnd & Hin) Hl]. rewrite Hids.
    split_and!; [done|by intros l [= <-]|]. intros [Hlive ?]. eauto.
  - destruct res as [row|e]; [done|]. cbn. split_and!; [done|done|by intros [_ []]].
Qed.

Definition backend_laws : SqlDbLaws D (H := backend dl).
Proof.
  refine (@Build_SqlDbLaws D (backend dl) rows up _ _ _ _ _ _ _ _ _ _ _).
  - intros i f x d. pose proof (upsert_backend i f x d). cbn.
    destruct (execute _ _ d) as [res d']. by destruct H.
  - intros i d. pose proof (select_backend i d). destruct (db_select i d). by destruct H.
  - intros i d o Ho. pose proof (select_backend i d) as H. destruct (db_select i d) as [res d'].
    cbn in Ho. destruct H as (_ & H & _). by apply H.
  - intros i d. pose proof (delete_backend i d). cbn.
    destruct (execute _ _ d) as [res d']. by destruct H.
  - intros nm d. pose proof (ids_backend nm d). destruct (db_ids nm d). by destruct H.
  - intros nm d l Hl. pose proof (ids_backend nm d) as H. destruct (db_ids nm d) as [res d'].
    cbn in Hl. destruct H as (_ & H & _). by apply H.
  - intros nm d l i Hl. pose proof (ids_backend nm d) as H. destruct (db_ids nm d) as [res d'].
    cbn in Hl. destruct H as (_ & H & _). by apply H.
  - intros i f x d Hup. pose proof (upsert_backend i f x d) as H. cbn.
    destruct (execute _ _ d) as [res d']. by apply H.
  - intros i d Hup. pose proof (select_backend i d) as H. destruct (db_select i d). by apply H.
  - intros nm d Hup. pose proof (ids_backend nm d) as H. destruct (db_ids nm d). by apply H.
  - intros i d Hup. pose proof (delete_backend i d) as H. cbn.
    destruct (execute _ _ d) as [res d']. by apply H.
Defined.

Lemma migrate_ready d :
  sql_live d -> (migrate d).1 = Ok tt /\ up (migrate d).2 /\ rows (migrate d).2 = rows d.
Proof.
  intros Hl. unfold migrate. pose proof (execute_changes CreateTable [] d) as H.
  cbn [change_text] in H. destruct (execute create_table [] d) as [res d'].
  cbn in H. destruct H as [Ht H]. destruct (H Hl) as [Hok Hl']. rewrite Hok in Ht.
  destruct res as [[]|e]; [|done]. cbn. split; [done|]. unfold up, rows. rewrite Ht. eauto.
Qed.

(** Before the table was created every call is an error. *)
Lemma unmigrated_fails `{JN : JsonNumber} `{RC : !RecordCodec} d :
  sql_table d = None ->
  (forall r, is_ok (sql_save (DB := backend dl) r d).1 = false) /\
  (forall i, is_ok (sql_get (DB := backend dl) i d).1 = false) /\
  (forall nm, is_ok (sql_list (DB := backend dl) nm d).1 = false).
Proof.
  intros Ht. split_and!.
  - intros r. unfold sql_save. destruct (record_to_string r) as [data|e]; [|done]. cbn.
    pose proof (execute_changes Upsert [execution_id r; record_flow r; data] d) as H.
    cbn in H. destruct (execute _ _ d) as [res d']. rewrite Ht in H. destruct H as [Hok _].
    by destruct res.
  - intros i. unfold sql_get. cbn. pose proof (select_answers i d) as H.
    destruct (fetch_optional _ _ d) as [res d']. rewrite Ht in H. destruct H as [_ H].
    by destruct res.
  - intros nm. unfold sql_list. cbn. pose proof (list_answers nm d) as H.
    destruct (match nm with Some n => _ | None => _ end) as [res d']. rewrite Ht in H.
    destruct H as [_ H]. by destruct res.
Qed.
End Laws.

(** ** A concrete database that understands a dialect *)

Module SqlModel.
Section Model.
Context (dl : Dialect).

Definition db : Type := option table.

Definition change_of (text : string) (binds : list string) : option change :=
  match binds with
  | [] => if decide (text = create_table) then Some CreateTable else None
  | [_] => if decide (text = delete_row dl) then Some DeleteRow else None
  | [_; _; _] => if decide (text = upsert dl) then Some Upsert else None
  | _ => None
  end.

Definition no_such_table : string := "no such table: szal_executions".

Definition model_execute (text : string) (binds : list string) (d : db)
  : result unit string * db :=
  match change_of text binds ≫= fun c => change_table c binds d with
  | Some d' => (Ok tt, d')
  | None => (Err no_such_table, d)
  end.

Definition model_row : Type := list (string * string).

Definition in_flow (nm : option string) (row : string * string) : bool :=
  match nm with None => true | Some n => bool_decide (row.1 = n) end.

Definition model_ids (nm : option string) (t : table) : list model_row :=
  (fun i => [("execution_id", i)]) <$>
    (List.filter (fun e => in_flow nm e.2) (map_to_list t)).*1.

Definition sqlx : Sqlx db := {|
  Row := model_row;
  pool_connect url := Ok None;
  execute := model_execute;
  fetch_optional text binds d :=
    (match binds, d with
     | [i], Some t =>
         if decide (text = select dl)
         then Ok ((fun fx => [("data", fx.2)]) <$> t !! i) else Err "syntax error"
     | _, _ => Err no_such_table
     end, d);
  fetch_all text binds d :=
    (match binds, d with
     | [n], Some t => if decide (text = list_flow dl) then Ok (model_ids (Some n) t) else Err "syntax error"
     | [], Some t => if decide (text = list_all) then Ok (model_ids None t) else Err "syntax error"
     | _, _ => Err no_such_table
     end, d);
  try_get row col := ok_or (assoc col row) "column not found"
|}.

Lemma collect_ids l :
  collect_results (fun r => try_get (Sqlx := sqlx) r "execution_id")
    ((fun i => [("execution_id", i)] : model_row) <$> l) = Ok l.
Proof. induction l as [|i l IH]; [done|]. cbn in IH |- *. by rewrite IH. Qed.

Lemma listed_answer nm t :
  exists ids, collect_results (fun r => try_get (Sqlx := sqlx) r "execution_id") (model_ids nm t) = Ok ids /\
    NoDup ids /\ forall i, i ∈ ids <-> exists row, t !! i = Some row /\
      match nm with None => True | Some n => row.1 = n end.
Proof.
  eexists. split; [apply collect_ids|]. split; [apply (TableDb.ids_once nm t)|].
  intros i. apply (TableDb.elem_of_ids nm t).
Qed.

Definition distinct_texts : Prop :=
  upsert dl <> create_table /\ delete_row dl <> create_table /\ delete_row dl <> upsert dl.

Definition sqlx_laws (Htexts : distinct_texts) : SqlxLaws db (SX := sqlx) dl.
Proof.
  refine (@Build_SqlxLaws db sqlx dl (fun d => d) (fun _ => True) _ _ _).
  - destruct Htexts as (T1 & T2 & T3). intros c binds d. cbn [execute sqlx]. unfold model_execute.
    assert (forall t, change_table c binds d = Some t -> change_of (change_text dl c) binds = Some c) as Hc.
    { destruct c; cbn; destruct binds as [|? [|? [|? [|]]]]; try done;
        intros t _; cbn; by rewrite decide_True. }
    destruct (change_table c binds d) as [t|] eqn:E.
    + rewrite (Hc t eq_refl). cbn. by rewrite E.
    + destruct (change_of _ binds) as [c'|] eqn:E'; [|done]. cbn.
      destruct c, c', binds as [|? [|? [|? [|]]]], d; try done; cbn in E'; case_decide; congruence.
  - intros i d. cbn. destruct d as [t|]; [|done]. rewrite decide_True by done. split; [done|].
    by destruct (t !! i) as [[]|].
  - intros nm d. cbn [fetch_all sqlx].
    destruct nm as [n|], d as [t|]; try done; rewrite decide_True by done;
      (split; [done|]); (split; [|done]); apply listed_answer.
Defined.
End Model.
End SqlModel.

(** ** Properties *)


