(* ===== verification/Stream.v ===== *)
(** * Streaming step progress

    [rust-old/src/stream.rs]: Server-Sent-Events frames, and the progress
    reporter of [rust-old/src/engine/mod.rs] whose events they carry.  The
    specification is a reader of event streams, written from the processing
    model of the HTML standard the module cites. *)

From Stdlib Require Import ZArith Lia Ascii.
From stdpp Require Import base tactics option list strings.
From S2P Require Import Prelude RustStr Json Step.

Open Scope Z_scope.

Definition LF : ascii := ascii_of_nat 10.
Definition CR : ascii := ascii_of_nat 13.
Definition NUL : ascii := ascii_of_nat 0.

(** ** Frames *)

(** [writeln!(out, "{prefix}{line}")] *)
Definition frame_line (prefix : string) (line : list ascii) : list ascii :=
  as_bytes prefix ++ line ++ [LF].

Definition opt_line (prefix : string) (o : option string) : list ascii :=
  match o with Some s => frame_line prefix (as_bytes s) | None => [] end.

Definition sse_frame (event id : option string) (data : string) : string :=
  from_bytes
    (opt_line "event: " event ++ opt_line "id: " id ++
     concat (frame_line "data: " <$> split_bytes LF (as_bytes data)) ++ [LF]).

Definition SSE_EVENT_NAME : string := "step_progress".

Section Progress.
Context `{JN : JsonNumber}.

Record StepProgress : Type := mkProgress {
  progress_step : string;
  progress_id : string;
  progress_data : Value
}.

(** [sink] says whether the reporter has a callback. *)
Record ProgressReporter : Type := mkReporter {
  reporter_sink : bool;
  reporter_step : string;
  reporter_id : string
}.

(** [ProgressReporter::report]: the event handed to the callback, if any. *)
Definition report (p : ProgressReporter) (data : Value) : option StepProgress :=
  if reporter_sink p then Some (mkProgress (reporter_step p) (reporter_id p) data) else None.

(** The reporter [handler_fn_with_progress] gives to the handler. *)
Definition reporter_for `{UL : UuidLib} (s : StepDef) : ProgressReporter :=
  mkReporter true (name s) (uuid_to_string (id s)).

(** [to_json] is [serde_json::to_string]. *)
Definition progress_to_sse (to_json : StepProgress -> result string string)
    (p : StepProgress) : string :=
  let data := match to_json p with Ok d => d | Err _ => "{}" end in
  sse_frame (Some SSE_EVENT_NAME) (Some (progress_id p)) data.
End Progress.

(** ** Reading an event stream *)

(** Lines end with LF, CR or CR LF; what follows the last terminator is not a
    complete line yet. *)
Fixpoint stream_lines (cur l : list ascii) : list (list ascii) :=
  match l with
  | [] => []
  | c :: l =>
      if eqc c LF then rev cur :: stream_lines [] l
      else if eqc c CR then
        match l with
        | d :: l' => if eqc d LF then rev cur :: stream_lines [] l'
                     else rev cur :: stream_lines [] l
        | [] => [rev cur]
        end
      else stream_lines (c :: cur) l
  end.

Record reader : Type := mkReader {
  event_type : list ascii;
  data_buffer : list ascii;
  last_id : list ascii
}.

Definition reader_init : reader := mkReader [] [] [].

Record message : Type := mkMessage {
  msg_type : list ascii;
  msg_id : list ascii;
  msg_data : list ascii
}.

Definition drop_space (v : list ascii) : list ascii :=
  match v with c :: v' => if eqc c " " then v' else v | [] => [] end.

Definition read_field (st : reader) (field value : list ascii) : reader :=
  if bool_decide (field = as_bytes "event") then mkReader value (data_buffer st) (last_id st)
  else if bool_decide (field = as_bytes "data") then
    mkReader (event_type st) (data_buffer st ++ value ++ [LF]) (last_id st)
  else if bool_decide (field = as_bytes "id") then
    if forallb (fun c => negb (eqc c NUL)) value
    then mkReader (event_type st) (data_buffer st) value else st
  else st.

(** A blank line dispatches the event unless its data buffer is empty; the
    final LF of the buffer is dropped. *)
Definition dispatch (st : reader) : reader * list message :=
  (mkReader [] [] (last_id st),
   match data_buffer st with
   | [] => []
   | b => [mkMessage (event_type st) (last_id st) (removelast b)]
   end).

Definition read_line (st : reader) (line : list ascii) : reader * list message :=
  match line with
  | [] => dispatch st
  | _ =>
      match span (fun c => negb (eqc c ":")) line with
      | ([], _) => (st, [])
      | (field, []) => (read_field st field [], [])
      | (field, _ :: value) => (read_field st field (drop_space value), [])
      end
  end.

Fixpoint read_lines (st : reader) (ls : list (list ascii)) : list message :=
  match ls with
  | [] => []
  | l :: ls => let '(st, ms) := read_line st l in ms ++ read_lines st ls
  end.

Definition read_stream (body : string) : list message :=
  read_lines reader_init (stream_lines [] (as_bytes body)).

(** ** The reader on frames *)

Definition no_char (c : ascii) (l : list ascii) : Prop :=
  forallb (fun a => negb (eqc a c)) l = true.

Lemma no_char_cons c a l : no_char c (a :: l) <-> eqc a c = false /\ no_char c l.
Proof.
  unfold no_char. cbn. rewrite andb_true_iff, negb_true_iff. done.
Qed.

Lemma no_char_app c l k : no_char c (l ++ k) <-> no_char c l /\ no_char c k.
Proof. unfold no_char. by rewrite forallb_app, andb_true_iff. Qed.

Lemma stream_lines_line cur l r :
  no_char LF l -> no_char CR l ->
  stream_lines cur (l ++ LF :: r) = (rev cur ++ l) :: stream_lines [] r.
Proof.
  revert cur. induction l as [|a l IH]; intros cur; [by rewrite app_nil_r|].
  rewrite !no_char_cons. intros [Ea Hl] [Eb Hr]. cbn [app stream_lines].
  rewrite Ea, Eb, IH by done. cbn. by rewrite <- app_assoc.
Qed.

Lemma read_lines_cons st l ls :
  read_lines st (l :: ls) = (read_line st l).2 ++ read_lines (read_line st l).1 ls.
Proof. cbn. by destruct (read_line st l). Qed.

(** A line [prefix ++ value] whose prefix is a field name and ": ". *)
Lemma read_line_field st fld value :
  fld <> [] -> no_char ":" fld ->
  read_line st (fld ++ ":"%char :: " "%char :: value) = (read_field st fld value, []).
Proof.
  intros Hne Hf. unfold read_line.
  rewrite (span_all _ fld (":"%char :: " "%char :: value)) by done.
  destruct fld; [done|]. done.
Qed.

(** Reading a line written by [frame_line]. *)
Lemma read_frame_line st fld value rest :
  fld <> "" ->
  no_char ":" (as_bytes fld) -> no_char LF (as_bytes fld) -> no_char CR (as_bytes fld) ->
  no_char LF value -> no_char CR value ->
  read_lines st (stream_lines [] (frame_line (fld +:+ ": ") value ++ rest)) =
  read_lines (read_field st (as_bytes fld) value) (stream_lines [] rest).
Proof.
  intros Hne Hcolon Hlf Hcr Hvl Hvc. unfold frame_line.
  rewrite as_bytes_app, <- !app_assoc. cbn [app].
  change (as_bytes ": ") with [":"%char; " "%char]. cbn [app].
  change (":"%char :: " "%char :: value ++ LF :: rest)
    with ((":"%char :: " "%char :: value) ++ LF :: rest).
  rewrite (app_assoc (as_bytes fld)).
  rewrite stream_lines_line
    by (apply no_char_app; split; [done|]; by rewrite !no_char_cons).
  cbn [rev app]. rewrite read_lines_cons, read_line_field; [done| |done].
  by destruct fld.
Qed.

(** Pieces of a split carry no separator and no other excluded byte. *)
Lemma split_pieces_clean c sep l :
  no_char c l -> Forall (fun p => no_char c p /\ no_char sep p) (split_bytes sep l).
Proof.
  induction l as [|a l IH]; [by constructor|]. rewrite no_char_cons. intros [Ea Hl]. cbn.
  specialize (IH Hl). destruct (eqc a sep) eqn:Es.
  - by constructor.
  - destruct (split_bytes sep l) as [|p ps]; inversion IH as [|? ? [Hp Hq] Hps]; subst.
    + repeat constructor; by apply no_char_cons.
    + constructor; [|done]. split; by apply no_char_cons.
Qed.

(** The data lines of a frame add the data, with an LF, to the buffer. *)
Lemma read_data_lines pieces : forall ev buf lid rest,
  Forall (fun p => no_char CR p /\ no_char LF p) pieces ->
  read_lines (mkReader ev buf lid)
    (stream_lines [] (concat (frame_line "data: " <$> pieces) ++ rest)) =
  read_lines (mkReader ev (buf ++ concat ((fun p => p ++ [LF]) <$> pieces)) lid)
    (stream_lines [] rest).
Proof.
  induction pieces as [|p ps IH]; intros ev buf lid rest Hp; [by rewrite app_nil_r|].
  apply Forall_cons in Hp as [[Hc Hl] Hps]. cbn [fmap list_fmap concat].
  rewrite <- !app_assoc. change "data: " with ("data" +:+ ": ") at 1.
  rewrite read_frame_line by done.
  change (read_field (mkReader ev buf lid) (as_bytes "data") p)
    with (mkReader ev (buf ++ p ++ [LF]) lid).
  setoid_rewrite IH; [|done]. by rewrite <- !app_assoc.
Qed.

Lemma join_concat pieces :
  pieces <> [] -> concat ((fun p => p ++ [LF]) <$> pieces) = join_bytes LF pieces ++ [LF].
Proof.
  induction pieces as [|p ps IH]; [done|]. intros _. destruct ps as [|q ps]; cbn in *.
  - by rewrite app_nil_r.
  - rewrite IH by done. by rewrite <- !app_assoc.
Qed.

Lemma read_opt_event o : forall ev lid rest,
  (forall s, o = Some s -> no_char LF (as_bytes s) /\ no_char CR (as_bytes s)) ->
  read_lines (mkReader ev [] lid) (stream_lines [] (opt_line "event: " o ++ rest)) =
  read_lines (mkReader (default ev (as_bytes <$> o)) [] lid) (stream_lines [] rest).
Proof.
  destruct o as [s|]; intros ev lid rest Hs; [|done]. destruct (Hs s eq_refl) as [Hl Hc].
  cbn [opt_line]. change "event: " with ("event" +:+ ": ").
  by rewrite read_frame_line by done.
Qed.

Lemma read_opt_id o : forall ev lid rest,
  (forall s, o = Some s -> no_char LF (as_bytes s) /\ no_char CR (as_bytes s)
                           /\ no_char NUL (as_bytes s)) ->
  read_lines (mkReader ev [] lid) (stream_lines [] (opt_line "id: " o ++ rest)) =
  read_lines (mkReader ev [] (default lid (as_bytes <$> o))) (stream_lines [] rest).
Proof.
  destruct o as [s|]; intros ev lid rest Hs; [|done]. destruct (Hs s eq_refl) as (Hl & Hc & Hn).
  cbn [opt_line]. change "id: " with ("id" +:+ ": ").
  rewrite read_frame_line by done. unfold read_field. cbn -[forallb].
  unfold no_char in Hn. by rewrite Hn.
Qed.

(** ** Frames and the events they carry *)

Record frame : Type := mkFrame {
  frame_event : option string;
  frame_id : option string;
  frame_data : string
}.

Definition frame_text (f : frame) : string :=
  sse_frame (frame_event f) (frame_id f) (frame_data f).

(** The fields can be carried by a frame: no line break in the event name and
    the id, no NUL in the id, no carriage return in the data. *)
Record carries (f : frame) : Prop := {
  carries_event s : frame_event f = Some s -> no_char LF (as_bytes s) /\ no_char CR (as_bytes s);
  carries_id s : frame_id f = Some s ->
    no_char LF (as_bytes s) /\ no_char CR (as_bytes s) /\ no_char NUL (as_bytes s);
  carries_data : no_char CR (as_bytes (frame_data f))
}.

(** The messages of a sequence of frames; an id holds until the next one. *)
Fixpoint messages (lid : list ascii) (fs : list frame) : list message :=
  match fs with
  | [] => []
  | f :: fs =>
      let lid := default lid (as_bytes <$> frame_id f) in
      mkMessage (default [] (as_bytes <$> frame_event f)) lid (as_bytes (frame_data f))
        :: messages lid fs
  end.

Definition stream_body (fs : list frame) : list ascii :=
  concat ((fun f => as_bytes (frame_text f)) <$> fs).

Lemma read_frame f lid rest :
  carries f ->
  read_lines (mkReader [] [] lid) (stream_lines [] (as_bytes (frame_text f) ++ rest)) =
  messages lid [f] ++
  read_lines (mkReader [] [] (default lid (as_bytes <$> frame_id f))) (stream_lines [] rest).
Proof.
  intros [He Hi Hd]. unfold frame_text, sse_frame. rewrite as_from_bytes, <- !app_assoc.
  rewrite read_opt_event by done. rewrite read_opt_id by done.
  rewrite read_data_lines by (by apply split_pieces_clean).
  rewrite join_concat, join_split by (by destruct (split_bytes_cons LF (as_bytes (frame_data f))) as (? & ? & ->)).
  change ([LF] ++ rest) with ([] ++ LF :: rest). rewrite stream_lines_line by done.
  rewrite read_lines_cons. cbn [rev app read_line dispatch data_buffer fst snd].
  destruct (as_bytes (frame_data f) ++ [LF]) as [|c l] eqn:E; [by destruct (as_bytes (frame_data f))|].
  rewrite <- E, removelast_last. done.
Qed.

(** Frames can be written one after the other into an event stream: a reader
    that follows the processing model of the HTML standard gets back exactly
    the event name, id and data of each frame, in order, multi-line data
    included. *)
Theorem sse_roundtrip (fs : list frame) :
  Forall carries fs ->
  read_stream (from_bytes (stream_body fs)) = messages [] fs.
Proof.
  unfold read_stream, reader_init. rewrite as_from_bytes.
  generalize (@nil ascii) at 3 5 as lid. intros lid Hfs. revert lid.
  induction Hfs as [|f fs Hf _ IH]; intros lid; [done|].
  unfold stream_body. cbn [fmap list_fmap concat]. rewrite read_frame by done.
  fold (stream_body fs). rewrite IH. done.
Qed.

Lemma sse_roundtrip_witness :
  let f := mkFrame (Some "tick") (Some "7") ("line1" +:+ String LF "line2") in
  let g := mkFrame None None "" in
  carries f /\ carries g /\
  read_stream (from_bytes (stream_body [f; g])) =
    [mkMessage (as_bytes "tick") (as_bytes "7") (as_bytes ("line1" +:+ String LF "line2"));
     mkMessage [] (as_bytes "7") []].
Proof.
  intros f g.
  assert (carries f) as Hf by (split; [intros s [= <-]|intros s [= <-]|]; done).
  assert (carries g) as Hg by (split; [intros s [=]|intros s [=]|done]).
  split; [done|]. split; [done|].
  apply (sse_roundtrip [f; g]). constructor; [done|]. constructor; [done|constructor].
Defined.

(** The progress events a step's handler reports reach an SSE client: the
    frames of any sequence of reports decode to [step_progress] events that
    carry the step's id and the JSON text of each report, in order. *)
Theorem progress_stream `{JN : JsonNumber} `{UL : UuidLib}
    (to_json : StepProgress -> result string string) (s : StepDef) (reports : list Value) :
  no_char LF (as_bytes (uuid_to_string (id s))) ->
  no_char CR (as_bytes (uuid_to_string (id s))) ->
  no_char NUL (as_bytes (uuid_to_string (id s))) ->
  (forall p, exists text, to_json p = Ok text /\ no_char CR (as_bytes text)) ->
  read_stream (from_bytes (concat
    ((fun p => as_bytes (progress_to_sse to_json p)) <$>
       omap (report (reporter_for s)) reports))) =
  (fun v => mkMessage (as_bytes SSE_EVENT_NAME) (as_bytes (uuid_to_string (id s)))
              (as_bytes (match to_json (mkProgress (name s) (uuid_to_string (id s)) v) with
                         | Ok text => text | Err e => e end))) <$> reports.
Proof.
  intros Hlf Hcr Hnul Hjson.
  set (fr := fun p => mkFrame (Some SSE_EVENT_NAME) (Some (progress_id p))
    (match to_json p with Ok d => d | Err _ => "{}" end)).
  set (ps := omap (report (reporter_for s)) reports).
  assert (ps = mkProgress (name s) (uuid_to_string (id s)) <$> reports) as Hps
    by (unfold ps; clear; induction reports; cbn; congruence).
  transitivity (messages [] (fr <$> ps)).
  - rewrite <- sse_roundtrip; [unfold stream_body; by rewrite <- list_fmap_compose|].
    rewrite Hps, Forall_fmap, Forall_fmap. apply Forall_true. intros v.
    split; cbn; [by intros ? [= <-]|by intros ? [= <-]|].
    by destruct (Hjson (mkProgress (name s) (uuid_to_string (id s)) v)) as (t & -> & Ht).
  - rewrite Hps. generalize (@nil ascii). clear -Hjson.
    induction reports as [|v vs IH]; intros lid; cbn; [done|]. rewrite IH. do 2 f_equal.
    by destruct (Hjson (mkProgress (name s) (uuid_to_string (id s)) v)) as (t & -> & _).
Qed.

Lemma progress_stream_witness :
  let _ := SerdeModel.serde_number in
  let ids := {| uuid_to_string u := "42"; uuid_parse s := None |} in
  let json := fun p : StepProgress => Ok (E := string) "{}" in
  read_stream (from_bytes (concat
    ((fun p => as_bytes (progress_to_sse json p)) <$>
       omap (report (reporter_for (step_new 42%N "upload"))) [Null; VBool true]))) =
  [mkMessage (as_bytes "step_progress") (as_bytes "42") (as_bytes "{}");
   mkMessage (as_bytes "step_progress") (as_bytes "42") (as_bytes "{}")].
Proof.
  intros ? ids json.
  rewrite (progress_stream json (step_new 42%N "upload") [Null; VBool true]);
    try reflexivity.
  intros p. by exists "{}".
Defined.
