(* ===== verification/Prog.v ===== *)
(** * Effects of the engine

    The engine's [async] code calls out of itself: it reads clocks, hands events
    and metrics to callbacks, awaits the user's handlers, sleeps, asks a
    cancellation token, saves records, consults the condition cache, spawns and
    joins tasks, talks to a queue.  [act] lists these calls with the type of
    their answers; [prog] is the syntax of a computation that makes them, a
    finite tree; [exec] runs one against an oracle that answers every call from
    the history so far.  [wp] is the weakest precondition over all legal
    answers, in which the components are verified. *)

From Stdlib Require Import ZArith Lia.
From stdpp Require Import base tactics option list strings.
From S2P Require Import Prelude Json State Step CondLexer Condition Bus EngineResult.

Open Scope Z_scope.

Section Actions.
Context `{JN : JsonNumber}.

(** How a call of the step handler ends.  [HandlerTimeout] is the [Err] of
    [tokio::time::timeout]. *)
Inductive handler_outcome : Type :=
| HandlerOk (v : Value)
| HandlerErr (e : string)
| HandlerTimeout
| HandlerPanic.

Inductive rollback_outcome : Type :=
| RollbackOk
| RollbackErr (e : string)
| RollbackPanic.

(** The methods of [MajraMetrics] the engine calls. *)
Inductive metric : Type :=
| RunStarted (flow : string)
| RunCompleted (flow : string) (ms : Z)
| RunFailed (flow : string) (ms : Z)
| StepStarted (flow step : string)
| StepFinished (flow step status : string) (ms : Z).

(** [Result<StepResult, JoinError>]; the error with its text. *)
Inductive join_result : Type :=
| Joined (r : StepResult)
| JoinError (e : string).

Inductive act : Type :=
| UtcNow
| InstantNow
| Emit (e : Event.t)
| CallHandler (s : StepDef) (timeout : option Z)
| Sleep (ms : Z)
| CallRollback (s : StepDef)
| Metric (m : metric)
| StepTypeMetric (step_type status : string) (ms : Z)
| IsCancelled
| SaveRecord (r : ExecutionRecord)
| CondEval (expr : string) (ctx : Value)
| Spawn (s : StepDef)
| Await (task : nat)
| AbortTask (task : nat)
| Enqueue (s : StepDef)
| Dequeue
| QueuedCount
| RunningCount
| QueueComplete (task : Uuid)
| QueueFail (task : Uuid)
| YieldNow
| HeartbeatRegister (engine : string) (info : Value)
| HeartbeatStart (engine : string)
| HeartbeatAbort (engine : string)
| HeartbeatDeregister (engine : string)
| FleetNodes
| FleetHasQueue (node : string)
| StartWorker (node : string)
| FleetSubmit (s : StepDef)
| FleetReceive (token : bool) (ms : Z)
| FleetRebalance
| StopWorkers
| JoinWorker (n : nat).

(** [Instant]s are nanoseconds of the monotonic clock. *)
Definition res (a : act) : Type :=
  match a with
  | UtcNow => Timestamp
  | InstantNow => Z
  | CallHandler _ _ => handler_outcome
  | CallRollback _ => rollback_outcome
  | IsCancelled => bool
  | CondEval _ _ => result bool CondError
  | Spawn _ => nat
  | Await _ => join_result
  | Dequeue => option (Uuid * StepDef)
  | QueuedCount | RunningCount => Z
  | QueueComplete _ | QueueFail _ => result unit string
  | FleetNodes => list string
  | FleetHasQueue _ => bool
  | StartWorker _ => nat
  | FleetSubmit _ => option (string * Uuid)
  | FleetReceive _ _ => option StepResult
  | _ => unit
  end.

Inductive call : Type := Call (a : act) (r : res a).
Definition call_act (c : call) : act := let 'Call a _ := c in a.

Definition history : Type := list call.
End Actions.

(** ** Programs *)

(** How a computation ends: with a value, by unwinding, or, for a loop run with
    a bound on its turns, by reaching the bound. *)
Inductive outcome (A : Type) : Type :=
| Returned (x : A)
| Panicked
| OutOfFuel.
Arguments Returned {A} x.
Arguments Panicked {A}.
Arguments OutOfFuel {A}.

Inductive prog `{JN : JsonNumber} (A : Type) : Type :=
| Done (o : outcome A)
| Act (a : act) (k : res a -> prog A).
Arguments Done {JN A} o.
Arguments Act {JN A} a k.

Section Programs.
Context `{JN : JsonNumber}.

Definition ret {A} (x : A) : prog A := Done (Returned x).
Definition panic {A} : prog A := Done Panicked.
Definition perform (a : act) : prog (res a) := Act a ret.

Fixpoint bind {A B} (p : prog A) (k : A -> prog B) : prog B :=
  match p with
  | Done (Returned x) => k x
  | Done Panicked => Done Panicked
  | Done OutOfFuel => Done OutOfFuel
  | Act a f => Act a (fun r => bind (f r) k)
  end.

(** A value dropped at the end of its scope, unwinding included: [cleanup]
    runs whichever way [p] ends. *)
Fixpoint finally {A} (p : prog A) (cleanup : prog unit) : prog A :=
  match p with
  | Done o => bind cleanup (fun _ => Done o)
  | Act a f => Act a (fun r => finally (f r) cleanup)
  end.

Fixpoint exec {A} (o : history -> forall a, res a) (h : history) (p : prog A)
  : history * outcome A :=
  match p with
  | Done out => (h, out)
  | Act a k => let r := o h a in exec o (h ++ [Call a r]) (k r)
  end.

Lemma exec_bind {A B} o h (p : prog A) (k : A -> prog B) :
  exec o h (bind p k) =
    match exec o h p with
    | (h', Returned x) => exec o h' (k x)
    | (h', Panicked) => (h', Panicked)
    | (h', OutOfFuel) => (h', OutOfFuel)
    end.
Proof.
  revert h. induction p as [[x| |]|a f IH]; intros h; cbn; [done..|]. apply IH.
Qed.

(** The history only grows. *)
Lemma exec_extends {A} o h (p : prog A) : exists new, (exec o h p).1 = h ++ new.
Proof.
  revert h. induction p as [out|a f IH]; intros h; cbn; [exists []; by rewrite app_nil_r|].
  destruct (IH (o h a) (h ++ [Call a (o h a)])) as [new ->].
  eexists. by rewrite <- app_assoc.
Qed.
End Programs.

Notation "'let!' x ':=' c 'in' k" := (bind c (fun x => k))
  (at level 10, x pattern, c at level 100, k at level 200,
   format "'let!'  x  ':='  c  'in' '//' k") : szal_scope.

(** ** Legal answers and weakest preconditions *)

Section Logic.
Context `{JN : JsonNumber} `{JL : !JsonLib}.

(** The steps spawned so far, in order: task [n] runs the [n]-th. *)
Definition spawn_of (c : call) : option StepDef :=
  match c with Call (Spawn s) _ => Some s | _ => None end.
Definition spawned (h : history) : list StepDef := omap spawn_of h.

Definition aborts (n : nat) (c : call) : bool :=
  match c with Call (AbortTask m) _ => bool_decide (m = n) | _ => false end.
Definition aborted (h : history) (n : nat) : bool := existsb (aborts n) h.

(** The steps a fleet accepted, the ids of those whose results have not been
    received, and the nodes of the workers started. *)
Definition accepted_of (c : call) : option StepDef :=
  match c with Call (FleetSubmit s) (Some _) => Some s | _ => None end.
Definition accepted (h : history) : list StepDef := omap accepted_of h.

Fixpoint remove_first (i : StepId) (l : list StepId) : list StepId :=
  match l with
  | [] => []
  | j :: l => if decide (j = i) then l else j :: remove_first i l
  end.

Definition fly (l : list StepId) (c : call) : list StepId :=
  match c with
  | Call (FleetSubmit s) (Some _) => l ++ [id s]
  | Call (FleetReceive _ _) (Some r) => remove_first (step_id r) l
  | _ => l
  end.
Definition outstanding (h : history) : list StepId := foldl fly [] h.

Definition worker_of (c : call) : option string :=
  match c with Call (StartWorker n) _ => Some n | _ => None end.
Definition hired (h : history) : list string := omap worker_of h.

Definition stops (c : call) : bool :=
  match call_act c with StopWorkers => true | _ => false end.
Definition stopped (h : history) : bool := existsb stops h.

(** What the environment may answer.  A handler awaited without a time limit
    does not time out; the condition cache, in whatever state other users of
    the engine left it, evaluates the expression; the [n]-th spawned task has
    handle [n], and joining it gives an outcome of that step's task, [T], or an
    error if the task was aborted; what the workers of a fleet send is the
    result of a step that was submitted and whose result is missing. *)
Definition legal (T : StepDef -> join_result -> Prop) (h : history) (a : act) : res a -> Prop :=
  match a with
  | CallHandler _ None => fun r => r <> HandlerTimeout
  | CondEval expr ctx => fun r =>
      exists c, cache_reach cache_new c /\ r = (cache_evaluate c expr ctx).1
  | Spawn _ => fun r => r = length (spawned h)
  | Await n => fun r =>
      match spawned h !! n with
      | Some s => T s r \/ (aborted h n = true /\ exists e, r = JoinError e)
      | None => True
      end
  | StartWorker _ => fun r => r = length (hired h)
  | FleetReceive _ _ => fun r =>
      match r with
      | Some r => exists s, s ∈ accepted h /\ step_id r = id s /\ id s ∈ outstanding h /\
                    T s (Joined r)
      | None => True
      end
  | _ => fun _ => True
  end.

Definition legal_oracle (T : StepDef -> join_result -> Prop)
    (o : history -> forall a, res a) : Prop :=
  forall h a, legal T h a (o h a).

Lemma legal_cond T h expr ctx r :
  legal T h (CondEval expr ctx) r -> r = evaluate expr ctx.
Proof.
  intros (c & Hc & ->). apply cache_evaluate_correct.
  apply cache_reach_ok in Hc; [done|apply cache_new_ok].
Qed.

Lemma legal_any T h a r : legal T h a r -> legal (fun _ _ => True) h a r.
Proof.
  destruct a; try done; cbn; [destruct (spawned h !! _)|destruct r]; naive_solver.
Qed.

(** A task is joined through the handle of a task that was spawned, a worker
    through that of a worker that was started and once they were all told to
    stop. *)
Definition joinable (h : history) (a : act) : Prop :=
  match a with
  | Await n => (n < length (spawned h))%nat
  | JoinWorker n => (n < length (hired h))%nat /\ stopped h = true
  | _ => True
  end.

Section WP.
Context (T : StepDef -> join_result -> Prop).

(** Every handle joined is valid, and [Q] holds however the program ends. *)

Fixpoint wp {A} (h : history) (p : prog A) (Q : history -> outcome A -> Prop) : Prop :=
  match p with
  | Done o => Q h o
  | Act a k => joinable h a /\ forall r, legal T h a r -> wp (h ++ [Call a r]) (k r) Q
  end.

Lemma wp_mono {A} h (p : prog A) (Q Q' : history -> outcome A -> Prop) :
  (forall h o, Q h o -> Q' h o) -> wp h p Q -> wp h p Q'.
Proof.
  intros HQ. revert h. induction p as [o|a k IH]; intros h; cbn; [auto|].
  intros [Hj H]. split; eauto.
Qed.

(** Sequencing: the continuation starts where the first part returned. *)
Definition continue {A B} (k : A -> prog B) (Q : history -> outcome B -> Prop)
    (h : history) (o : outcome A) : Prop :=
  match o with
  | Returned x => wp h (k x) Q
  | Panicked => Q h Panicked
  | OutOfFuel => Q h OutOfFuel
  end.

Lemma wp_bind {A B} h (p : prog A) (k : A -> prog B) Q :
  wp h p (continue k Q) <-> wp h (bind p k) Q.
Proof.
  revert h. induction p as [[x| |]|a f IH]; intros h; cbn; [done..|].
  split; intros [Hj H]; (split; [done|]); intros r Hr; apply IH; by apply H.
Qed.

Lemma wp_call {B} h a (k : res a -> prog B) Q :
  joinable h a ->
  (forall r, legal T h a r -> wp (h ++ [Call a r]) (k r) Q) ->
  wp h (bind (perform a) k) Q.
Proof. by split. Qed.

Lemma wp_exec {A} o h (p : prog A) Q :
  legal_oracle T o -> wp h p Q -> Q (exec o h p).1 (exec o h p).2.
Proof.
  intros Ho. revert h. induction p as [out|a k IH]; intros h; cbn; [done|].
  intros [_ H]. apply IH, H, Ho.
Qed.

Lemma wp_conj {A} h (p : prog A) Q Q' :
  wp h p Q -> wp h p Q' -> wp h p (fun h o => Q h o /\ Q' h o).
Proof. revert h. induction p as [out|a k IH]; intros h; cbn; naive_solver. Qed.

Lemma wp_finally {A} h (p : prog A) (c : prog unit) Q :
  wp h p (fun h' o => wp h' c (continue (fun _ => Done o) Q)) -> wp h (finally p c) Q.
Proof.
  revert h. induction p as [out|a k IH]; intros h; cbn; [by rewrite <- wp_bind|].
  intros [Hj H]. auto.
Qed.
End WP.

(** A program is local when it does not spawn, join or abort tasks and leaves the
    fleet alone: what it may be answered does not depend on the history it
    starts from, nor on what tasks can do. *)
Definition local_act (a : act) : Prop :=
  match a with
  | Spawn _ | Await _ | AbortTask _
  | StartWorker _ | JoinWorker _ | FleetSubmit _ | FleetReceive _ _ => False
  | _ => True
  end.

Fixpoint local {A} (p : prog A) : Prop :=
  match p with
  | Done _ => True
  | Act a k => local_act a /\ forall r, local (k r)
  end.

Lemma legal_local T T' h h' a r : local_act a -> legal T h a r -> legal T' h' a r.
Proof. by destruct a. Qed.
Lemma joinable_local h a : local_act a -> joinable h a.
Proof. by destruct a. Qed.

Lemma wp_local {A} T T' h pre (p : prog A) (Q : history -> outcome A -> Prop) :
  local p ->
  wp T pre p (fun new o => Q (h ++ new) o) -> wp T' (h ++ pre) p Q.
Proof.
  revert pre. induction p as [out|a k IH]; intros pre; cbn; [done|].
  intros [Ha Hk] [_ H]. split; [by apply joinable_local|]. intros r Hr.
  rewrite <- app_assoc. apply IH; [done|]. apply H. by eapply legal_local.
Qed.

(** It leaves the tasks and the fleet alone: the history grows by calls that do
    not concern them. *)
Definition same_tasks (h h' : history) : Prop :=
  exists new, h' = h ++ new /\ Forall (fun c => local_act (call_act c)) new.

Lemma same_tasks_refl h : same_tasks h h.
Proof. exists []. by rewrite app_nil_r. Qed.

Lemma same_tasks_trans h h' h'' : same_tasks h h' -> same_tasks h' h'' -> same_tasks h h''.
Proof.
  intros (n & -> & H) (n' & -> & H'). exists (n ++ n'). rewrite app_assoc, Forall_app. done.
Qed.

Lemma same_tasks_call h a (r : res a) : local_act a -> same_tasks h (h ++ [Call a r]).
Proof. intros Ha. exists [Call a r]. by rewrite Forall_singleton. Qed.

Lemma omap_local {B} (g : call -> option B) new :
  (forall c, local_act (call_act c) -> g c = None) ->
  Forall (fun c => local_act (call_act c)) new -> omap g new = [].
Proof. intros Hg. induction 1 as [|c l Hc _ IH]; cbn; [done|]. by rewrite Hg, IH. Qed.

Lemma same_spawned h h' : same_tasks h h' -> spawned h' = spawned h.
Proof.
  intros (n & -> & H). unfold spawned. rewrite omap_app, (omap_local _ n), app_nil_r; [done| |done].
  by intros [[] ?].
Qed.
Lemma same_accepted h h' : same_tasks h h' -> accepted h' = accepted h.
Proof.
  intros (n & -> & H). unfold accepted. rewrite omap_app, (omap_local _ n), app_nil_r; [done| |done].
  by intros [[] ?].
Qed.
Lemma same_hired h h' : same_tasks h h' -> hired h' = hired h.
Proof.
  intros (n & -> & H). unfold hired. rewrite omap_app, (omap_local _ n), app_nil_r; [done| |done].
  by intros [[] ?].
Qed.
Lemma same_outstanding h h' : same_tasks h h' -> outstanding h' = outstanding h.
Proof.
  intros (n & -> & H). unfold outstanding. rewrite foldl_app. generalize (foldl fly [] h) as l.
  induction H as [|[a r] n Ha _ IH]; intros l; [done|]. cbn [foldl]. by destruct a; try done; apply IH.
Qed.
Lemma same_stopped h h' : same_tasks h h' -> stopped h = true -> stopped h' = true.
Proof. intros (n & -> & _) H. unfold stopped. rewrite existsb_app. by apply orb_true_iff; left. Qed.
Lemma same_aborted h h' n : same_tasks h h' -> aborted h' n = aborted h n.
Proof.
  intros (l & -> & H). unfold aborted. rewrite existsb_app.
  replace (existsb (aborts n) l) with false; [by rewrite orb_false_r|].
  induction H as [|[a r] l Ha _ IH]; [done|]. cbn. rewrite <- IH. by destruct a.
Qed.

Lemma wp_local_tasks {A} T h (p : prog A) :
  local p -> wp T h p (fun h' _ => same_tasks h h').
Proof.
  revert h. induction p as [out|a k IH]; intros h; cbn; [intros; apply same_tasks_refl|].
  intros [Ha Hk]. split; [by apply joinable_local|]. intros r _. eapply wp_mono; [|by apply IH].
  intros h' o. apply same_tasks_trans. by apply same_tasks_call.
Qed.

Lemma local_bind {A B} (p : prog A) (k : A -> prog B) :
  local p -> (forall x, local (k x)) -> local (bind p k).
Proof.
  intros Hp Hk. induction p as [[x| |]|a f IH]; cbn; [done..|].
  destruct Hp as [Ha Hf]. split; auto.
Qed.

Lemma local_perform a : local_act a -> local (perform a).
Proof. done. Qed.

(** Every call the program can make satisfies [P]. *)
Fixpoint only {A} (P : act -> Prop) (p : prog A) : Prop :=
  match p with
  | Done _ => True
  | Act a k => P a /\ forall r, only P (k r)
  end.

Lemma only_bind {A B} P (p : prog A) (k : A -> prog B) :
  only P p -> (forall x, only P (k x)) -> only P (bind p k).
Proof.
  intros Hp Hk. induction p as [[x| |]|a f IH]; cbn; [done..|].
  destruct Hp as [Ha Hf]. split; auto.
Qed.

Lemma only_mono {A} (P P' : act -> Prop) (p : prog A) :
  (forall a, P a -> P' a) -> only P p -> only P' p.
Proof.
  intros HP. induction p as [out|a f IH]; cbn; [done|]. intros [Ha Hf]. split; auto.
Qed.

(** Every value the program can return satisfies [P]. *)
Fixpoint leaves {A} (P : A -> Prop) (p : prog A) : Prop :=
  match p with
  | Done (Returned x) => P x
  | Done _ => True
  | Act a k => forall r, leaves P (k r)
  end.

Lemma leaves_bind {A B} P (p : prog A) (k : A -> prog B) :
  (forall x, leaves P (k x)) -> leaves P (bind p k).
Proof. intros Hk. induction p as [[x| |]|a f IH]; cbn; auto. Qed.

Lemma leaves_bind_with {A B} P Q (p : prog A) (k : A -> prog B) :
  leaves P p -> (forall x, P x -> leaves Q (k x)) -> leaves Q (bind p k).
Proof. intros Hp Hk. induction p as [[x| |]|a f IH]; cbn in *; auto. Qed.

(** The calls of a local program, from an empty history. *)
Definition post {A} (p : prog A) (Q : history -> outcome A -> Prop) : Prop :=
  wp (fun _ _ => True) [] p Q.

Lemma wp_post {A} T h (p : prog A) (Q : history -> outcome A -> Prop) :
  local p -> post p (fun new o => Q (h ++ new) o) -> wp T h p Q.
Proof.
  intros Hp H. rewrite <- (app_nil_r h). by apply (wp_local (fun _ _ => True) T h []).
Qed.

Lemma post_bind {A B} (p : prog A) (k : A -> prog B) Q :
  (forall x, local (k x)) ->
  post p (fun new o =>
    match o with
    | Returned x => post (k x) (fun new' o' => Q (new ++ new') o')
    | Panicked => Q new Panicked
    | OutOfFuel => Q new OutOfFuel
    end) ->
  post (bind p k) Q.
Proof.
  intros Hk H. apply wp_bind. eapply wp_mono; [|exact H].
  intros new [x| |]; cbn; [|done..]. intros Hx. by apply wp_post.
Qed.

Lemma post_act {A} a (k : res a -> prog A) Q :
  local_act a -> (forall r, local (k r)) ->
  (forall r, legal (fun _ _ => True) [] a r ->
     post (k r) (fun new o => Q (Call a r :: new) o)) ->
  post (Act a k) Q.
Proof. intros Ha Hk H. split; [by apply joinable_local|]. intros r Hr. by apply wp_post, H. Qed.

Lemma post_mono {A} (p : prog A) (Q Q' : history -> outcome A -> Prop) :
  (forall h o, Q h o -> Q' h o) -> post p Q -> post p Q'.
Proof. apply wp_mono. Qed.

Lemma post_ret {A} (x : A) (Q : history -> outcome A -> Prop) :
  Q [] (Returned x) -> post (ret x) Q.
Proof. done. Qed.
End Logic.

Arguments post : simpl never.

(** ** A concrete environment

    The handler answers as [f] says, joined tasks as [g] says, time stands still
    and nothing is cancelled.  The witnesses run programs against it. *)

Section Environment.
Context `{JN : JsonNumber} `{JL : !JsonLib}.
Context (f : history -> StepDef -> handler_outcome) (g : history -> nat -> join_result).

Definition answers (h : history) (a : act) : res a :=
  match a return res a with
  | UtcNow => 0
  | InstantNow => 0
  | CallHandler s _ => f h s
  | CallRollback _ => RollbackOk
  | IsCancelled => false
  | CondEval expr ctx => (cache_evaluate cache_new expr ctx).1
  | Spawn _ => length (spawned h)
  | Await n => g h n
  | Dequeue => None
  | QueuedCount => 0
  | RunningCount => 0
  | QueueComplete _ => Ok tt
  | QueueFail _ => Ok tt
  | Emit _ | Sleep _ | Metric _ | StepTypeMetric _ _ _ | SaveRecord _ | AbortTask _
  | Enqueue _ | YieldNow | HeartbeatRegister _ _ | HeartbeatStart _
  | HeartbeatAbort _ | HeartbeatDeregister _ => tt
  | FleetNodes => []
  | FleetHasQueue _ => false
  | StartWorker _ => length (hired h)
  | FleetSubmit _ => None
  | FleetReceive _ _ => None
  | FleetRebalance | StopWorkers | JoinWorker _ => tt
  end.

Lemma answers_legal (T : StepDef -> join_result -> Prop) :
  (forall h s, f h s <> HandlerTimeout) ->
  (forall h n s, spawned h !! n = Some s -> T s (g h n)) ->
  legal_oracle T answers.
Proof.
  intros Hf Hg h a.
  destruct a as [| | |s [ms|]| | | | | | | | |n| | | | | | | | | | | | | | | | | | | |];
    cbn; try done.
  - exists cache_new. split; [constructor|done].
  - destruct (spawned h !! n) eqn:E; [left; by apply Hg|done].
Qed.
End Environment.

(** ** Clocks *)

Section Clocks.
Context `{JN : JsonNumber}.

(** [start.elapsed().as_millis() as u64] *)
Definition millis (start now : Z) : Z := (Z.max 0 (now - start) / 1000000) mod 2 ^ 64.

Definition elapsed_ms (start : Z) : prog Z :=
  let! now := perform InstantNow in ret (millis start now).
End Clocks.

(** The text of an instant ([DateTime::to_rfc3339]). *)
Class ChronoLib := { rfc3339 : Timestamp -> string }.
