(* ===== verification/StepExec.v ===== *)
(** * Execution of a single step

    [rust-old/src/engine/step_exec.rs], with the execution context, the emission
    helpers and [check_condition] of [rust-old/src/engine/mod.rs] and the metric
    helpers of [rust-old/src/metrics.rs]. *)

From Stdlib Require Import ZArith Lia.
From stdpp Require Import base tactics option list strings.
From S2P Require Import Prelude Json State Error Step CondLexer Condition Bus EngineResult.
From S2P Require Import Prog.

Open Scope Z_scope.

(** Whether arithmetic overflow panics ([overflow-checks], on in debug builds)
    or wraps around. *)
Class BuildProfile := { overflow_checks : bool }.

Section StepExec.
Context `{JN : JsonNumber} `{JL : !JsonLib} `{UL : UuidLib} `{BP : BuildProfile}.

(** ** [ExecCtx]

    The callbacks are reached through the actions; the context says which are
    configured. *)
Record ExecCtx : Type := mkExecCtx {
  event_sink : bool;
  ctx_flow : string;
  ctx_flow_id : Uuid;
  metrics : bool;
  step_type_metrics : bool
}.

Definition emit (sink : bool) (e : Event.t) : prog unit :=
  if sink then perform (Emit e) else ret tt.

(** An event is stamped when it is built, whether or not a sink takes it. *)
Definition emit_now (sink : bool) (mk : Timestamp -> Event.t) : prog unit :=
  let! now := perform UtcNow in emit sink (mk now).

Definition emit_step_type_metric (sink : bool) (ty : option string) (st : string) (ms : Z)
  : prog unit :=
  if sink then perform (StepTypeMetric (default "default" ty) st ms) else ret tt.

Definition metric_run_started (sink : bool) (flow : string) : prog unit :=
  if sink then perform (Metric (RunStarted flow)) else ret tt.
Definition metric_run_completed (sink : bool) (flow : string) (ms : Z) : prog unit :=
  if sink then perform (Metric (RunCompleted flow ms)) else ret tt.
Definition metric_run_failed (sink : bool) (flow : string) (ms : Z) : prog unit :=
  if sink then perform (Metric (RunFailed flow ms)) else ret tt.
Definition metric_step_started (sink : bool) (flow step : string) : prog unit :=
  if sink then perform (Metric (StepStarted flow step)) else ret tt.
Definition metric_step_finished (sink : bool) (flow step st : string) (ms : Z) : prog unit :=
  if sink then perform (Metric (StepFinished flow step st ms)) else ret tt.

Definition check_condition (s : StepDef) (results : list StepResult) (all : list StepDef)
  : prog (result bool CondError) :=
  match condition s with
  | None => ret (Ok true)
  | Some expr => perform (CondEval expr (build_step_context results all))
  end.

(** [a + b] on [u32] *)
Definition add_u32 (a b : Z) : prog Z :=
  if a + b <=? u32_max then ret (a + b)
  else if overflow_checks then panic
  else ret ((a + b) mod 2 ^ 32).

Definition id_str (s : StepDef) : string := uuid_to_string (id s).

(** The [timeout] around the handler's future, when the step has one. *)
Definition call_handler (s : StepDef) : prog handler_outcome :=
  if timeout_ms s <? u64_max then perform (CallHandler s (Some (timeout_ms s)))
  else perform (CallHandler s None).

Definition timeout_error (s : StepDef) : string :=
  fmt_error (StepTimeout (name s) (timeout_ms s)).

(** The part of the loop body that awaits one attempt. *)
Definition attempt_once (cx : ExecCtx) (s : StepDef) (step_start attempt : Z)
  : prog (result Value string) :=
  let! out := call_handler s in
  match out with
  | HandlerOk v => ret (Ok v)
  | HandlerErr e => ret (Err e)
  | HandlerPanic => panic
  | HandlerTimeout =>
      let! now := perform UtcNow in
      let! ms := elapsed_ms step_start in
      let! _ := emit (event_sink cx)
        (Event.with_duration
           (Event.step_failed now (name s) (id_str s) (timeout_error s) attempt) ms) in
      ret (Err (timeout_error s))
  end.

(** The result and the reports of a successful attempt. *)
Definition succeed (cx : ExecCtx) (s : StepDef) (v : Value) (ms attempt : Z)
  : prog StepResult :=
  let! _ := emit_now (event_sink cx) (fun now =>
    Event.step_completed now (name s) (id_str s) ms attempt) in
  let! _ := metric_step_finished (metrics cx) (ctx_flow cx) (name s) "completed" ms in
  let! _ := emit_step_type_metric (step_type_metrics cx) (step_type s) "completed" ms in
  ret {| step_id := id s; status := StepStatus.Completed; output := v;
         duration_ms := ms; attempts := attempt; error := None |}.

(** [for attempt in 1..=max_attempts]: [n] attempts are left.  [inl] is the
    loop's [return], [inr] its last error. *)
Fixpoint attempt_loop (cx : ExecCtx) (s : StepDef) (max_attempts : Z) (n : nat)
    (attempt : Z) (last_error : option string) : prog (StepResult + option string) :=
  match n with
  | O => ret (inr last_error)
  | S n =>
      let! step_start := perform InstantNow in
      let! result := attempt_once cx s step_start attempt in
      let! ms := elapsed_ms step_start in
      match result with
      | Ok v => let! r := succeed cx s v ms attempt in ret (inl r)
      | Err e =>
          if attempt <? max_attempts then
            let! _ := emit_now (event_sink cx) (fun now =>
              Event.step_retry now (name s) (id_str s) attempt) in
            let! _ := perform (Sleep (BackoffStrategy.delay_ms (backoff s)
                                        (retry_delay_ms s) attempt)) in
            attempt_loop cx s max_attempts n (attempt + 1) (Some e)
          else attempt_loop cx s max_attempts n (attempt + 1) (Some e)
      end
  end.

Definition final_error (s : StepDef) (max_attempts : Z) (last_error : option string)
  : option string :=
  if 1 <? max_attempts then Some (fmt_error (RetryExhausted (name s) max_attempts))
  else last_error.

(** After the last failed attempt. *)
Definition give_up_step (cx : ExecCtx) (s : StepDef) (total_start max_attempts : Z)
    (last_error : option string) : prog StepResult :=
  let err := final_error s max_attempts last_error in
  let! ms := elapsed_ms total_start in
  let! _ := emit_now (event_sink cx) (fun now =>
    Event.step_failed now (name s) (id_str s) (default "unknown" err) max_attempts) in
  let! _ := metric_step_finished (metrics cx) (ctx_flow cx) (name s) "failed" ms in
  let! _ := emit_step_type_metric (step_type_metrics cx) (step_type s) "failed" ms in
  ret {| step_id := id s; status := StepStatus.Failed; output := Null;
         duration_ms := ms; attempts := max_attempts; error := err |}.

Definition execute_step_with_handler (cx : ExecCtx) (s : StepDef) : prog StepResult :=
  let! max_attempts := add_u32 (max_retries s) 1 in
  let! total_start := perform InstantNow in
  let! _ := emit_now (event_sink cx) (fun now =>
    Event.step_started now (name s) (id_str s)) in
  let! _ := metric_step_started (metrics cx) (ctx_flow cx) (name s) in
  let! ended := attempt_loop cx s max_attempts (Z.to_nat max_attempts) 1 None in
  match ended with
  | inl r => ret r
  | inr last_error => give_up_step cx s total_start max_attempts last_error
  end.

(** The result recorded for a step that is not run. *)
Definition skipped (i : StepId) (reason : string) : StepResult :=
  {| step_id := i; status := StepStatus.Skipped; output := Null;
     duration_ms := 0; attempts := 0; error := Some reason |}.
End StepExec.

(** ** Reading a history

    The marks of a history are the calls that matter to a user of the engine, in
    order: clocks and metrics are left out, and an event is seen without its
    timestamp and duration. *)

Record view : Type := mkView {
  view_type : EventType.t;
  view_flow : option string;
  view_step : option (string * string);
  view_attempt : option Z;
  view_error : option string
}.

Definition view_of (e : Event.t) : view := {|
  view_type := Event.event_type e;
  view_flow := Event.flow_name e;
  view_step := match Event.step_name e, Event.step_id e with
               | Some n, Some i => Some (n, i) | _, _ => None end;
  view_attempt := Event.attempt e;
  view_error := Event.error e
|}.

Section Marks.
Context `{JN : JsonNumber}.

Inductive mark : Type :=
| MHandler (s : StepDef) (out : handler_outcome)
| MSleep (ms : Z)
| MEvent (v : view)
| MRollback (s : StepDef) (out : rollback_outcome)
| MSave (i : string) (st : WorkflowState.t)
| MSpawn (s : StepDef)
| MJoin (task : nat) (r : join_result)
| MAbort (task : nat).

Definition mark_of (c : call) : option mark :=
  match c with
  | Call a r =>
      match a return res a -> option mark with
      | CallHandler s _ => fun r => Some (MHandler s r)
      | Sleep ms => fun _ => Some (MSleep ms)
      | Emit e => fun _ => Some (MEvent (view_of e))
      | CallRollback s => fun r => Some (MRollback s r)
      | SaveRecord x => fun _ => Some (MSave (execution_id x) (record_state x))
      | Spawn s => fun _ => Some (MSpawn s)
      | Await n => fun r => Some (MJoin n r)
      | AbortTask n => fun _ => Some (MAbort n)
      | _ => fun _ => None
      end r
  end.
Definition marks (h : history) : list mark := omap mark_of h.

Lemma marks_app h k : marks (h ++ k) = marks h ++ marks k.
Proof. apply omap_app. Qed.

(** Events reach the sink only if there is one. *)
Definition told (sink : bool) (v : view) : list mark := if sink then [MEvent v] else [].

(** The handler calls among the marks. *)
Definition handled (m : list mark) : list (StepDef * handler_outcome) :=
  omap (fun x => match x with MHandler s out => Some (s, out) | _ => None end) m.
Lemma handled_app m k : handled (m ++ k) = handled m ++ handled k.
Proof. apply omap_app. Qed.
Lemma handled_told b v : handled (told b v) = [].
Proof. by destruct b. Qed.
End Marks.

#[export] Hint Rewrite @marks_app @handled_app @handled_told : szal.

(** ** Locality *)

Ltac local_step :=
  lazymatch goal with
  | |- local (bind _ _) => apply local_bind; [|intro]
  | |- local (perform _) => exact (conj I (fun _ => I))
  | |- local (ret _) => exact I
  | |- local panic => exact I
  | |- local (if ?b then _ else _) => destruct b
  | |- local (match ?x with _ => _ end) => destruct x
  end.
Ltac local_solve := repeat (intros; first [local_step | solve [eauto with szal]]).

Section Locality.
Context `{JN : JsonNumber} `{JL : !JsonLib} `{UL : UuidLib} `{BP : BuildProfile}.

Lemma local_emit b e : local (emit b e).
Proof. unfold emit. local_solve. Qed.
Lemma local_emit_now b mk : local (emit_now b mk).
Proof. unfold emit_now, emit. local_solve. Qed.
Lemma local_elapsed s : local (elapsed_ms s).
Proof. unfold elapsed_ms. local_solve. Qed.
Lemma local_type_metric b t st ms : local (emit_step_type_metric b t st ms).
Proof. unfold emit_step_type_metric. local_solve. Qed.
Lemma local_step_started b f s : local (metric_step_started b f s).
Proof. unfold metric_step_started. local_solve. Qed.
Lemma local_step_finished b f s st ms : local (metric_step_finished b f s st ms).
Proof. unfold metric_step_finished. local_solve. Qed.
Lemma local_add_u32 a b : local (add_u32 a b).
Proof. unfold add_u32. local_solve. Qed.
Lemma local_call_handler s : local (call_handler s).
Proof. unfold call_handler. local_solve. Qed.
Lemma local_check_condition s rs all : local (check_condition s rs all).
Proof. unfold check_condition. local_solve. Qed.

#[local] Hint Resolve local_emit local_emit_now local_elapsed local_type_metric
  local_step_started local_step_finished local_add_u32 local_call_handler : szal.

Lemma local_attempt_once cx s st n : local (attempt_once cx s st n).
Proof. unfold attempt_once. local_solve. Qed.
Lemma local_succeed cx s v ms n : local (succeed cx s v ms n).
Proof. unfold succeed. local_solve. Qed.
Lemma local_give_up cx s st m e : local (give_up_step cx s st m e).
Proof. unfold give_up_step. local_solve. Qed.
#[local] Hint Resolve local_attempt_once local_succeed local_give_up : szal.

Lemma local_attempt_loop cx s m n : forall a e, local (attempt_loop cx s m n a e).
Proof. induction n as [|n IH]; intros a e; cbn [attempt_loop]; local_solve. Qed.
#[local] Hint Resolve local_attempt_loop : szal.

Lemma local_execute_step cx s : local (execute_step_with_handler cx s).
Proof. unfold execute_step_with_handler. local_solve. Qed.
End Locality.

#[export] Hint Resolve local_emit local_emit_now local_elapsed local_type_metric
  local_step_started local_step_finished local_add_u32 local_call_handler
  local_check_condition local_attempt_once local_succeed local_give_up local_attempt_loop
  local_execute_step : szal.

(** ** Reasoning with marks *)

Section Does.
Context `{JN : JsonNumber} `{JL : !JsonLib}.

Definition does {A} (p : prog A) (R : list mark -> outcome A -> Prop) : Prop :=
  post p (fun new o => R (marks new) o).

Lemma does_bind {A B} (p : prog A) (k : A -> prog B) R :
  (forall x, local (k x)) ->
  does p (fun m o =>
    match o with
    | Returned x => does (k x) (fun m' o' => R (m ++ m') o')
    | Panicked => R m Panicked
    | OutOfFuel => R m OutOfFuel
    end) ->
  does (bind p k) R.
Proof.
  intros Hk H. apply post_bind; [done|]. eapply post_mono; [|exact H].
  intros new [x| |]; cbn; [|done..]. intros Hx.
  eapply post_mono; [|exact Hx]. intros new' o'. cbn. by rewrite marks_app.
Qed.

Lemma does_mono {A} (p : prog A) (R R' : list mark -> outcome A -> Prop) :
  (forall m o, R m o -> R' m o) -> does p R -> does p R'.
Proof. intros H. apply post_mono. intros h o. apply H. Qed.

Lemma does_perform a (R : list mark -> outcome (res a) -> Prop) :
  local_act a ->
  (forall r, legal (fun _ _ => True) [] a r -> R (marks [Call a r]) (Returned r)) ->
  does (perform a) R.
Proof. intros Ha H. split; [by destruct a|]. intros r Hr. by apply H. Qed.

Lemma does_emit_now b mk (R : list mark -> outcome unit -> Prop) :
  (forall now, view_of (mk now) = view_of (mk 0)) ->
  R (told b (view_of (mk 0))) (Returned tt) -> does (emit_now b mk) R.
Proof.
  intros Hv H. apply does_bind; [intros; apply local_emit|]. apply does_perform; [done|]. intros now _.
  unfold emit. destruct b; [|done]. apply does_perform; [done|]. intros [] _.
  cbn. by rewrite Hv.
Qed.

Lemma does_elapsed st (R : list mark -> outcome Z -> Prop) :
  (forall ms, in_u64 ms -> R [] (Returned ms)) -> does (elapsed_ms st) R.
Proof.
  intros H. apply does_bind; [done|]. apply does_perform; [done|]. intros now _. apply H.
  unfold in_u64, u64_max, millis. pose proof (Z.mod_pos_bound (Z.max 0 (now - st) / 1000000) (2 ^ 64)). lia.
Qed.

(** Calls that leave no mark. *)
Lemma does_metric_started b f s (R : list mark -> outcome unit -> Prop) :
  R [] (Returned tt) -> does (metric_step_started b f s) R.
Proof. intros H. unfold metric_step_started. destruct b; [|done]. apply does_perform; [done|]. by intros []. Qed.
Lemma does_metric_finished b f s st ms (R : list mark -> outcome unit -> Prop) :
  R [] (Returned tt) -> does (metric_step_finished b f s st ms) R.
Proof. intros H. unfold metric_step_finished. destruct b; [|done]. apply does_perform; [done|]. by intros []. Qed.
Lemma does_type_metric b t st ms (R : list mark -> outcome unit -> Prop) :
  R [] (Returned tt) -> does (emit_step_type_metric b t st ms) R.
Proof. intros H. unfold emit_step_type_metric. destruct b; [|done]. apply does_perform; [done|]. by intros []. Qed.
End Does.

Arguments does : simpl never.

(** A local part of a program that works with tasks. *)
Lemma wp_returns `{JN : JsonNumber} `{JL : !JsonLib} {A} T h (p : prog A) (P : A -> Prop) Q :
  local p -> does p (fun _ o => exists x, o = Returned x /\ P x) ->
  (forall h' x, same_tasks h h' -> P x -> Q h' (Returned x)) ->
  wp T h p Q.
Proof.
  intros Hp Hd HQ.
  apply (wp_mono T h p (fun h' o => (exists new x, h' = h ++ new /\ o = Returned x /\ P x) /\
    same_tasks h h')).
  - intros h' o ((new & x & -> & -> & HP) & Hs). by apply HQ.
  - apply wp_conj; [|by apply wp_local_tasks]. apply wp_post; [done|].
    eapply post_mono; [|exact Hd]. cbn. naive_solver.
Qed.

(** One step of symbolic execution of the engine's helpers. *)
Ltac does_step :=
  lazymatch goal with
  | |- does (bind _ _) _ => apply does_bind; [local_solve|]
  | |- does (perform ?a) ?R => refine (does_perform a R I _); intros ? ?
  | |- does (emit_now _ _) _ => apply does_emit_now; [reflexivity|]
  | |- does (elapsed_ms _) _ => apply does_elapsed; intros ? ?
  | |- does (metric_step_started _ _ _) _ => apply does_metric_started
  | |- does (metric_step_finished _ _ _ _ _) _ => apply does_metric_finished
  | |- does (emit_step_type_metric _ _ _ _) _ => apply does_type_metric
  | |- does (ret _) _ => apply post_ret
  end; cbv beta iota; cbn [marks omap list_omap mark_of app].

(** ** The story of a step *)

Section Story.
Context `{JN : JsonNumber} `{JL : !JsonLib} `{UL : UuidLib} `{BP : BuildProfile}.

Definition step_view (ty : EventType.t) (s : StepDef) (n : option Z) (e : option string)
  : view :=
  {| view_type := ty; view_flow := None; view_step := Some (name s, id_str s);
     view_attempt := n; view_error := e |}.

(** The error a failed attempt leaves behind. *)
Definition attempt_error (s : StepDef) (out : handler_outcome) : option string :=
  match out with
  | HandlerErr e => Some e
  | HandlerTimeout => Some (timeout_error s)
  | _ => None
  end.
Definition failed_attempt (s : StepDef) (out : handler_outcome) : Prop :=
  is_Some (attempt_error s out).

(** The marks of failed attempts, the first of them number [a] of [max]. *)
Fixpoint failing_marks (sink : bool) (s : StepDef) (max a : Z) (outs : list handler_outcome)
  : list mark :=
  match outs with
  | [] => []
  | out :: outs =>
      MHandler s out ::
      (match out with
       | HandlerTimeout =>
           told sink (step_view EventType.StepFailed s (Some a) (Some (timeout_error s)))
       | _ => []
       end) ++
      (if a <? max then
         told sink (step_view EventType.StepRetry s (Some a) None) ++
         [MSleep (BackoffStrategy.delay_ms (backoff s) (retry_delay_ms s) a)]
       else []) ++
      failing_marks sink s max (a + 1) outs
  end.

Definition last_error_of (s : StepDef) (init : option string) (outs : list handler_outcome)
  : option string :=
  match last outs with Some out => attempt_error s out | None => init end.

(** What an attempt does. *)
Lemma does_attempt_once cx s st a :
  does (attempt_once cx s st a) (fun m o =>
    exists out,
      match o with
      | Returned (Ok v) => out = HandlerOk v /\ m = [MHandler s out]
      | Returned (Err e) =>
          attempt_error s out = Some e /\
          m = MHandler s out ::
              match out with
              | HandlerTimeout => told (event_sink cx)
                  (step_view EventType.StepFailed s (Some a) (Some (timeout_error s)))
              | _ => []
              end
      | Panicked => out = HandlerPanic /\ m = [MHandler s out]
      | OutOfFuel => False
      end).
Proof.
  unfold attempt_once. does_step.
  unfold call_handler. destruct (timeout_ms s <? u64_max); does_step;
    (destruct r as [v|e| |];
     [by exists (HandlerOk v)|by exists (HandlerErr e)| |by exists HandlerPanic]);
    repeat does_step; unfold emit; destruct (event_sink cx); repeat does_step;
    by exists HandlerTimeout.
Qed.

Lemma does_succeed cx s v ms a :
  does (succeed cx s v ms a) (fun m o =>
    m = told (event_sink cx) (step_view EventType.StepCompleted s (Some a) None) /\
    o = Returned {| step_id := id s; status := StepStatus.Completed; output := v;
                    duration_ms := ms; attempts := a; error := None |}).
Proof. unfold succeed. repeat does_step. by rewrite ?app_nil_r. Qed.

Lemma does_give_up cx s st max e :
  does (give_up_step cx s st max e) (fun m o =>
    m = told (event_sink cx) (step_view EventType.StepFailed s (Some max)
          (Some (default "unknown" (final_error s max e)))) /\
    exists ms, in_u64 ms /\
    o = Returned {| step_id := id s; status := StepStatus.Failed; output := Null;
                    duration_ms := ms; attempts := max; error := final_error s max e |}).
Proof. unfold give_up_step. repeat does_step. rewrite !app_nil_r. eauto. Qed.

Lemma last_error_cons s init out e outs :
  attempt_error s out = Some e ->
  last_error_of s init (out :: outs) = last_error_of s (Some e) outs.
Proof.
  intros He. unfold last_error_of. destruct outs as [|out' outs]; [done|].
  rewrite last_cons_cons. destruct (last (out' :: outs)) eqn:E; [done|].
  by apply last_None in E.
Qed.

(** The loop: some failed attempts, then success, a panic, or no attempt left. *)
Definition loop_story (cx : ExecCtx) (s : StepDef) (max a : Z) (n : nat) (init : option string)
    (m : list mark) (o : outcome (StepResult + option string)) : Prop :=
  exists outs, Forall (failed_attempt s) outs /\
  match o with
  | Returned (inl r) => exists v ms, in_u64 ms /\ (length outs < n)%nat /\
      m = failing_marks (event_sink cx) s max a outs ++ [MHandler s (HandlerOk v)] ++
          told (event_sink cx)
            (step_view EventType.StepCompleted s (Some (a + Z.of_nat (length outs))) None) /\
      r = {| step_id := id s; status := StepStatus.Completed; output := v;
             duration_ms := ms; attempts := a + Z.of_nat (length outs); error := None |}
  | Returned (inr e) => length outs = n /\
      m = failing_marks (event_sink cx) s max a outs /\
      e = last_error_of s init outs
  | Panicked => (length outs < n)%nat /\
      m = failing_marks (event_sink cx) s max a outs ++ [MHandler s HandlerPanic]
  | OutOfFuel => False
  end.

(** An attempt that fails, before the rest of the story. *)
Lemma loop_story_cons cx s max a n init out e m o :
  attempt_error s out = Some e ->
  loop_story cx s max (a + 1) n (Some e) m o ->
  loop_story cx s max a (S n) init (failing_marks (event_sink cx) s max a [out] ++ m) o.
Proof.
  intros He (outs & Hf & Ho). exists (out :: outs).
  split; [constructor; [by exists e|done]|].
  assert (failing_marks (event_sink cx) s max a [out] ++
          failing_marks (event_sink cx) s max (a + 1) outs =
          failing_marks (event_sink cx) s max a (out :: outs)) as Hm.
  { cbn. by rewrite app_nil_r, <- !app_assoc. }
  destruct o as [[r|e']| |]; [| | |done].
  - destruct Ho as (v & ms & Hms & Hl & -> & ->). exists v, ms.
    rewrite app_assoc, Hm. cbn [length].
    replace (a + 1 + Z.of_nat (length outs)) with (a + Z.of_nat (S (length outs))) by lia.
    split_and!; [done|lia|done|done].
  - destruct Ho as (Hl & -> & ->). rewrite Hm.
    split_and!; [cbn; lia|done|by rewrite (last_error_cons s init out e)].
  - destruct Ho as (Hl & ->). rewrite app_assoc, Hm. split; [cbn; lia|done].
Qed.

Lemma does_attempt_loop cx s max n : forall a init,
  does (attempt_loop cx s max n a init) (loop_story cx s max a n init).
Proof.
  induction n as [|n IH]; intros a init; cbn [attempt_loop].
  { apply post_ret. exists []. split; [constructor|]. done. }
  does_step. does_step. cbn [marks omap list_omap mark_of app].
  does_step. eapply does_mono; [|apply does_attempt_once].
  intros m [[v|e]| |]; cbv beta iota; intros [out Ho]; [| | |done].
  - destruct Ho as [-> ->]. do 2 does_step. does_step. eapply does_mono; [|apply does_succeed].
    intros m' o' [-> ->]. apply post_ret. exists []. split; [constructor|].
    exists v. eexists. split_and!; [eassumption|cbn; lia| |f_equal; cbn; lia].
    cbn. by rewrite Z.add_0_r, app_nil_r.
  - destruct Ho as [He ->]. do 2 does_step. destruct (a <? max) eqn:Hlt.
    + do 4 does_step. eapply does_mono; [|apply IH]. intros m' o' Hs.
      apply (loop_story_cons cx s max a n init out e) in Hs; [|done].
      cbn in Hs. rewrite Hlt, ?app_nil_r, <- ?app_assoc in Hs. exact Hs.
    + eapply does_mono; [|apply IH]. intros m' o' Hs.
      apply (loop_story_cons cx s max a n init out e) in Hs; [|done].
      cbn in Hs. rewrite Hlt, ?app_nil_r in Hs. done.
  - destruct Ho as [-> ->]. exists []. split; [constructor|]. split; [cbn; lia|done].
Qed.

(** The whole execution of a step of [max] attempts. *)
Definition step_story (cx : ExecCtx) (s : StepDef) (max : Z)
    (m : list mark) (o : outcome StepResult) : Prop :=
  let started := told (event_sink cx) (step_view EventType.StepStarted s None None) in
  exists outs, Forall (failed_attempt s) outs /\
  let failing := failing_marks (event_sink cx) s max 1 outs in
  let n := Z.of_nat (length outs) in
  match o with
  | Returned r =>
      step_id r = id s /\ in_u64 (duration_ms r) /\
      ((exists v, n < max /\
          m = started ++ failing ++ [MHandler s (HandlerOk v)] ++
              told (event_sink cx) (step_view EventType.StepCompleted s (Some (n + 1)) None) /\
          status r = StepStatus.Completed /\ output r = v /\
          attempts r = n + 1 /\ error r = None) \/
       (n = max /\
          m = started ++ failing ++
              told (event_sink cx) (step_view EventType.StepFailed s (Some max)
                (Some (default "unknown" (final_error s max (last_error_of s None outs))))) /\
          status r = StepStatus.Failed /\ output r = Null /\
          attempts r = max /\ error r = final_error s max (last_error_of s None outs)))
  | Panicked => n < max /\ m = started ++ failing ++ [MHandler s HandlerPanic]
  | OutOfFuel => False
  end.

(** The step's body once the number of attempts is known. *)
Lemma does_step_body cx s max :
  0 <= max ->
  does (let! total_start := perform InstantNow in
        let! _ := emit_now (event_sink cx) (fun now =>
          Event.step_started now (name s) (id_str s)) in
        let! _ := metric_step_started (metrics cx) (ctx_flow cx) (name s) in
        let! ended := attempt_loop cx s max (Z.to_nat max) 1 None in
        match ended with
        | inl r => ret r
        | inr last_error => give_up_step cx s total_start max last_error
        end)
    (step_story cx s max).
Proof.
  intros Hmax. do 7 does_step. eapply does_mono; [|apply does_attempt_loop].
  intros m [[r'|e]| |] (outs & Hf & Ho); [| | |done].
  - destruct Ho as (v & ms & Hms & Hl & -> & ->). apply post_ret.
    exists outs. split; [done|]. split; [done|]. split; [done|]. left. exists v.
    rewrite app_nil_r. replace (1 + Z.of_nat (length outs)) with (Z.of_nat (length outs) + 1) by lia.
    split; [lia|done].
  - destruct Ho as (Hl & -> & ->). eapply does_mono; [|apply does_give_up].
    intros m' o' (-> & ms & Hms & ->). exists outs. split; [done|]. split; [done|].
    split; [done|]. right. split; [lia|]. rewrite <- ?app_assoc. done.
  - destruct Ho as (Hl & ->). exists outs. split; [done|]. split; [lia|done].
Qed.

Lemma does_execute_step cx s :
  0 <= max_retries s <= u32_max ->
  does (execute_step_with_handler cx s) (fun m o =>
    (max_retries s < u32_max /\ step_story cx s (max_retries s + 1) m o) \/
    (max_retries s = u32_max /\
     if overflow_checks then m = [] /\ o = Panicked else step_story cx s 0 m o)).
Proof.
  intros Hr. unfold execute_step_with_handler. does_step. unfold add_u32.
  destruct (max_retries s + 1 <=? u32_max) eqn:E.
  - apply Z.leb_le in E. apply post_ret. cbv beta iota.
    eapply does_mono; [|apply does_step_body; lia]. intros m o H. left. split; [lia|done].
  - apply Z.leb_gt in E. assert (max_retries s = u32_max) as Em by lia.
    destruct overflow_checks; [by right|].
    apply post_ret. cbv beta iota. rewrite Em. change ((u32_max + 1) mod 2 ^ 32) with 0.
    eapply does_mono; [|by apply does_step_body]. intros m o H. right. done.
Qed.

(** What every caller needs to know of a step's execution. *)
Definition step_done (s : StepDef) (m : list mark) (o : outcome StepResult) : Prop :=
  Forall (fun c => c.1 = s) (handled m) /\
  match o with
  | Returned r =>
      step_id r = id s /\ in_u64 (duration_ms r) /\
      (status r = StepStatus.Completed \/ status r = StepStatus.Failed) /\
      (status r = StepStatus.Completed <-> exists v, last (handled m) = Some (s, HandlerOk v))
  | Panicked =>
      last (handled m) = Some (s, HandlerPanic) \/
      (overflow_checks = true /\ max_retries s = u32_max /\ m = [])
  | OutOfFuel => False
  end.

Lemma handled_failing sink s max a outs :
  handled (failing_marks sink s max a outs) = (fun out => (s, out)) <$> outs.
Proof.
  revert a. induction outs as [|out outs IH]; intros a; [done|]. cbn -[handled].
  change (handled (?x :: ?l)) with (handled ([x] ++ l)).
  autorewrite with szal. rewrite IH. cbn.
  destruct out, (a <? max); cbn; autorewrite with szal; done.
Qed.

Lemma step_story_done cx s max m o : step_story cx s max m o -> step_done s m o.
Proof.
  assert (forall outs, Forall (fun c : StepDef * handler_outcome => c.1 = s)
            ((fun out => (s, out)) <$> outs)) as Hall
    by (intros outs; apply Forall_fmap; by apply Forall_true).
  intros (outs & Hf & Ho). unfold step_done.
  destruct o as [r| |]; [| |done].
  - destruct Ho as (Hid & Hd & [(v & Hn & -> & Hs & _)|(Hn & -> & Hs & _)]);
      rewrite !handled_app, !handled_told, handled_failing; cbn [app]; rewrite ?app_nil_r.
    + change (handled [MHandler s (HandlerOk v)]) with [(s, HandlerOk v)].
      split; [apply Forall_app; split; [done|by repeat constructor]|].
      split_and!; [done|done|by left|]. split; [|done]. intros _. exists v. by rewrite last_snoc.
    + split; [done|]. split_and!; [done|done|by right|]. rewrite Hs. split; [done|].
      rewrite fmap_last. intros (v & Hv). apply fmap_Some in Hv as (out & Hl & [= <-]).
      apply last_Some in Hl as [l ->]. apply Forall_app in Hf as [_ Hf].
      inversion Hf as [|? ? Hbad]. by destruct Hbad.
  - destruct Ho as (_ & ->). rewrite !handled_app, !handled_told, handled_failing. cbn [app].
    change (handled [MHandler s HandlerPanic]) with [(s, HandlerPanic)].
    split; [apply Forall_app; split; [done|by repeat constructor]|].
    left. by rewrite last_snoc.
Qed.

Lemma does_execute_step_done cx s :
  0 <= max_retries s <= u32_max ->
  does (execute_step_with_handler cx s) (step_done s).
Proof.
  intros Hr. eapply does_mono; [|by apply does_execute_step].
  intros m o [[_ H]|[Hm H]]; [by eapply step_story_done|].
  destruct overflow_checks eqn:E; [|by eapply step_story_done].
  destruct H as [-> ->]. split; [done|]. by right.
Qed.
End Story.

(** ** Runs, and the delays slept in them *)

Section Runs.
Context `{JN : JsonNumber} `{JL : !JsonLib} `{UL : UuidLib}.

(** From a local specification to every run. *)
Lemma does_exec {A} T o (p : prog A) R :
  legal_oracle T o -> local p -> does p R ->
  R (marks (exec o [] p).1) (exec o [] p).2.
Proof.
  intros Ho Hp H. apply (wp_exec T o [] p (fun h out => R (marks h) out)); [done|].
  by apply wp_post.
Qed.

Definition delay (s : StepDef) (i : nat) : Z :=
  BackoffStrategy.delay_ms (backoff s) (retry_delay_ms s) (Z.of_nat i).

Definition slept (m : list mark) : list Z :=
  omap (fun x => match x with MSleep ms => Some ms | _ => None end) m.

Lemma slept_app m k : slept (m ++ k) = slept m ++ slept k.
Proof. apply omap_app. Qed.
Lemma slept_told b v : slept (told b v) = [].
Proof. by destruct b. Qed.

(** Every attempt but number [max] is followed by its delay. *)
Lemma slept_failing sink s (max : nat) outs : forall a : nat,
  slept (failing_marks sink s (Z.of_nat max) (Z.of_nat a) outs) =
  delay s <$> seq a (Nat.min (length outs) (max - a)).
Proof.
  induction outs as [|out outs IH]; intros a; [done|]. cbn [failing_marks length].
  change (slept (?x :: ?l)) with (slept ([x] ++ l)).
  rewrite !slept_app. replace (Z.of_nat a + 1) with (Z.of_nat (S a)) by lia. rewrite IH.
  assert (slept match out with
          | HandlerTimeout => told sink (step_view EventType.StepFailed s
                                (Some (Z.of_nat a)) (Some (timeout_error s)))
          | _ => [] end = []) as -> by (destruct out; [done..|apply slept_told|done]).
  destruct (Z.of_nat a <? Z.of_nat max) eqn:E.
  - apply Z.ltb_lt in E. rewrite slept_app, slept_told.
    replace (Nat.min (S (length outs)) (max - a))
      with (S (Nat.min (length outs) (max - S a))) by lia. done.
  - apply Z.ltb_ge in E. replace (max - S a)%nat with O by lia.
    replace (max - a)%nat with O by lia. by rewrite !Nat.min_0_r.
Qed.
End Runs.

#[export] Hint Rewrite @slept_app @slept_told : szal.

(** ** Properties *)

(** C6. A step runs as its retry policy says, whatever the handler does: after
    the start event, failed attempts (errors or timeouts) each followed, unless
    they were the last, by a retry event and the backoff delay; then either an
    attempt that succeeds, a completion event and a [Completed] result that
    carries the handler's output and the attempt's number; or, after exactly
    [max_retries + 1] failures, a failure event and a [Failed] result whose
    error is [RetryExhausted], or the attempt's own error when there was only
    one; or a handler panic, which unwinds.  Nothing else is called. *)
Theorem execute_step_story `{JN : JsonNumber} `{JL : !JsonLib} `{UL : UuidLib}
    `{BP : BuildProfile} T o cx s :
  legal_oracle T o -> 0 <= max_retries s < u32_max ->
  step_story cx s (max_retries s + 1)
    (marks (exec o [] (execute_step_with_handler cx s)).1)
    (exec o [] (execute_step_with_handler cx s)).2.
Proof.
  intros Ho Hr.
  assert (Hd := does_exec T o _ _ Ho (local_execute_step cx s)
            (does_execute_step cx s ltac:(lia))).
  destruct Hd as [[_ H]|[H _]]; [done|lia].
Qed.

(** The handler of a step is called at least once and at most
    [max_retries + 1] times, always with that step; a result that comes back
    counts those calls in [attempts], is [Completed] exactly when the last call
    succeeded, and the engine slept the backoff delays of attempts
    [1, ..., attempts - 1] in order. *)
Theorem execute_step_attempts `{JN : JsonNumber} `{JL : !JsonLib} `{UL : UuidLib}
    `{BP : BuildProfile} T o cx s r :
  legal_oracle T o -> 0 <= max_retries s < u32_max ->
  (exec o [] (execute_step_with_handler cx s)).2 = Returned r ->
  let m := marks (exec o [] (execute_step_with_handler cx s)).1 in
  attempts r = Z.of_nat (length (handled m)) /\
  1 <= attempts r <= max_retries s + 1 /\
  Forall (fun c => c.1 = s) (handled m) /\
  (status r = StepStatus.Completed <-> exists v, last (handled m) = Some (s, HandlerOk v)) /\
  slept m = delay s <$> seq 1 (Z.to_nat (attempts r) - 1).
Proof.
  intros Ho Hr Hret m.
  assert (Hd := does_exec T o _ _ Ho (local_execute_step cx s)
            (does_execute_step cx s ltac:(lia))).
  destruct Hd as [[_ Hd]|[Hd _]]; [|lia]. rewrite Hret in Hd. fold m in Hd.
  destruct (step_story_done _ _ _ _ _ Hd) as (Hall & _ & _ & _ & Hc).
  destruct Hd as (outs & Hf & _ & _ & Hd).
  replace (max_retries s + 1) with (Z.of_nat (Z.to_nat (max_retries s + 1))) in * by lia.
  assert (length (handled m) = Z.to_nat (attempts r) /\ 1 <= attempts r <= max_retries s + 1 /\
          slept m = delay s <$> seq 1 (Z.to_nat (attempts r) - 1)) as (Hl & Hb & Hs).
  { destruct Hd as [(v & Hn & -> & _ & _ & -> & _)|(Hn & -> & _ & _ & -> & _)];
      autorewrite with szal; rewrite handled_failing; cbn [app];
      rewrite ?length_app, length_fmap, (slept_failing _ s _ outs 1).
    - cbn [length handled slept omap list_omap app]. rewrite !app_nil_r.
      split_and!; [lia|lia|lia|]. repeat f_equal. lia.
    - cbn [length app]. rewrite !app_nil_r. split_and!; [lia|lia|lia|]. repeat f_equal. lia. }
  split; [lia|]. split; [lia|]. split; [done|]. by split.
Qed.

(** A step whose [max_retries] is [u32::MAX] never runs: [max_retries + 1]
    overflows, so with overflow checks the engine panics before any call, and
    without them the attempt count wraps to zero and the step is reported
    [Failed] after no attempt and with no error. *)
Theorem execute_step_overflow `{JN : JsonNumber} `{JL : !JsonLib} `{UL : UuidLib}
    `{BP : BuildProfile} T o cx s :
  legal_oracle T o -> max_retries s = u32_max ->
  let '(h, out) := exec o [] (execute_step_with_handler cx s) in
  handled (marks h) = [] /\
  if overflow_checks then out = Panicked
  else exists r, out = Returned r /\ status r = StepStatus.Failed /\
                 attempts r = 0 /\ error r = None.
Proof.
  intros Ho Hr.
  assert (Hd := does_exec T o _ _ Ho (local_execute_step cx s)
            (does_execute_step cx s ltac:(unfold u32_max in *; lia))).
  destruct (exec o [] _) as [h out]. cbn [fst snd] in Hd.
  destruct Hd as [[H _]|[_ H]]; [lia|].
  destruct overflow_checks; [by destruct H as [-> ->]|].
  destruct H as (outs & Hf & Hout). destruct out as [r| |]; [|destruct Hout; lia|done].
  destruct Hout as (_ & _ & [(v & Hn & _)|(Hn & -> & Hs & _ & Ha & He)]); [lia|].
  destruct outs; [|cbn in Hn; lia].
  split; [by autorewrite with szal|]. exists r. done.
Qed.

(** ** Witnesses *)

Module StepExamples.
Export SerdeModel.
#[export] Existing Instances serde_number serde_lib.

Definition ids : UuidLib := {| uuid_to_string u := "id"; uuid_parse s := None |}.
Definition release : BuildProfile := {| overflow_checks := false |}.
#[export] Existing Instances ids release.

Definition cx : ExecCtx :=
  {| event_sink := true; ctx_flow := "deploy"; ctx_flow_id := 1%N;
     metrics := true; step_type_metrics := false |}.

(** Two retries with linear backoff. *)
Definition flaky : StepDef :=
  with_backoff (with_retries (step_new 7%N "build") 2 100) BackoffStrategy.Linear.

(** The first call of a handler fails, the later ones succeed. *)
Definition fails_once (h : history) (s : StepDef) : handler_outcome :=
  match handled (marks h) with [] => HandlerErr "busy" | _ => HandlerOk (VBool true) end.

Definition env : history -> forall a, res a :=
  answers fails_once (fun _ _ => JoinError "cancelled").

Lemma env_legal : legal_oracle (fun _ _ => True) env.
Proof.
  apply answers_legal; [|done]. intros h s. unfold fails_once. by destruct (handled (marks h)).
Qed.

Definition flaky_result : StepResult :=
  {| step_id := 7%N; status := StepStatus.Completed; output := VBool true;
     duration_ms := 0; attempts := 2; error := None |}.

Example flaky_runs :
  (exec env [] (execute_step_with_handler cx flaky)).2 = Returned flaky_result.
Proof. reflexivity. Qed.
End StepExamples.

#[local] Existing Instances SerdeModel.serde_number SerdeModel.serde_lib
  StepExamples.ids StepExamples.release.

Lemma execute_step_story_witness :
  let run := exec StepExamples.env [] (execute_step_with_handler StepExamples.cx StepExamples.flaky) in
  run.2 = Returned StepExamples.flaky_result /\
  step_story StepExamples.cx StepExamples.flaky 3 (marks run.1) run.2.
Proof.
  split; [reflexivity|].
  apply (execute_step_story (fun _ _ => True) StepExamples.env);
    [apply StepExamples.env_legal|cbn; unfold u32_max; lia].
Defined.

Lemma execute_step_attempts_witness :
  let m := marks (exec StepExamples.env []
             (execute_step_with_handler StepExamples.cx StepExamples.flaky)).1 in
  slept m = [100] /\ length (handled m) = 2%nat.
Proof.
  destruct (execute_step_attempts (fun _ _ => True) StepExamples.env StepExamples.cx
    StepExamples.flaky StepExamples.flaky_result StepExamples.env_legal)
    as (H1 & _ & _ & _ & H2); [cbn; unfold u32_max; lia|reflexivity|].
  split; [exact H2|]. cbn [attempts StepExamples.flaky_result] in H1. lia.
Defined.

Lemma execute_step_overflow_witness :
  let s := with_retries (step_new 7%N "build") u32_max 100 in
  let out := (exec StepExamples.env [] (execute_step_with_handler StepExamples.cx s)).2 in
  exists r, out = Returned r /\ status r = StepStatus.Failed /\ attempts r = 0.
Proof.
  intros s out.
  assert (H := execute_step_overflow (fun _ _ => True) StepExamples.env StepExamples.cx s
                 StepExamples.env_legal eq_refl).
  unfold out. destruct (exec _ _ _) as [h o].
  destruct H as (_ & r & H1 & H2 & H3 & _). eauto.
Defined.
