(* ===== verification/Sequential.v ===== *)
(** * Sequential execution

    [rust-old/src/engine/sequential.rs]: the steps of a flow one after the
    other, skipping everything after a failure, a cancellation or the flow's
    timeout, and the steps whose condition is not met. *)

From Stdlib Require Import ZArith Lia.
From stdpp Require Import base tactics option list strings sets.
From S2P Require Import Prelude Json State Error Step CondLexer Condition Bus EngineResult.
From S2P Require Import Prog StepExec.

Open Scope Z_scope.

Section Sequential.
Context `{JN : JsonNumber} `{JL : !JsonLib} `{UL : UuidLib} `{BP : BuildProfile}.

(** [token.is_some_and(|t| t.is_cancelled())] *)
Definition is_cancelled (token : bool) : prog bool :=
  if token then perform IsCancelled else ret false.

(** [cancelled || start.elapsed().as_millis() as u64 > timeout_ms] *)
Definition is_late (cancelled : bool) (timeout start : Z) : prog bool :=
  if cancelled then ret true
  else let! ms := elapsed_ms start in ret (timeout <? ms).

Definition emit_skip (cx : ExecCtx) (s : StepDef) (reason : string) : prog unit :=
  emit_now (event_sink cx) (fun now => Event.step_skipped now (name s) (id_str s) reason).

(** The condition check of the executors: [Ok(false)] blocks the step, an error
    is logged and lets it run. *)
Definition condition_blocks (s : StepDef) (results : list StepResult) (all : list StepDef)
  : prog bool :=
  match condition s with
  | None => ret false
  | Some _ =>
      let! c := check_condition s results all in
      ret (match c with Ok false => true | _ => false end)
  end.

Fixpoint sequential_loop (all : list StepDef) (timeout start : Z) (token : bool) (cx : ExecCtx)
    (steps : list StepDef) (results : list StepResult) (failed : bool)
  : prog (list StepResult) :=
  match steps with
  | [] => ret results
  | s :: rest =>
      let! cancelled := is_cancelled token in
      if cancelled || failed then
        let reason := if cancelled then "cancelled" else "prior step failed" in
        let! _ := emit_skip cx s reason in
        sequential_loop all timeout start token cx rest (results ++ [skipped (id s) reason]) failed
      else
      let! ms := elapsed_ms start in
      if timeout <? ms then
        let! _ := emit_skip cx s "flow timeout exceeded" in
        sequential_loop all timeout start token cx rest
          (results ++ [skipped (id s) "flow timeout exceeded"]) failed
      else
      let! blocked := condition_blocks s results all in
      if blocked then
        let! _ := emit_skip cx s "condition not met" in
        sequential_loop all timeout start token cx rest
          (results ++ [skipped (id s) "condition not met"]) failed
      else
      let! r := execute_step_with_handler cx s in
      sequential_loop all timeout start token cx rest (results ++ [r])
        (bool_decide (status r = StepStatus.Failed) || failed)
  end.

Definition run_sequential (steps : list StepDef) (timeout start : Z) (token : bool)
    (cx : ExecCtx) : prog (list StepResult) :=
  sequential_loop steps timeout start token cx steps [] false.

(** ** Locality *)

Lemma local_is_cancelled t : local (is_cancelled t).
Proof. unfold is_cancelled. local_solve. Qed.
Lemma local_emit_skip cx s r : local (emit_skip cx s r).
Proof. unfold emit_skip. local_solve. Qed.
Lemma local_condition_blocks s rs all : local (condition_blocks s rs all).
Proof. unfold condition_blocks. local_solve. Qed.
#[local] Hint Resolve local_is_cancelled local_emit_skip local_condition_blocks : szal.

Lemma local_sequential_loop all t st tok cx steps : forall rs f,
  local (sequential_loop all t st tok cx steps rs f).
Proof.
  induction steps as [|s steps IH]; intros rs f; cbn [sequential_loop]; cbv zeta; local_solve.
Qed.

Lemma local_run_sequential steps t st tok cx : local (run_sequential steps t st tok cx).
Proof. apply local_sequential_loop. Qed.

(** ** Effects of the helpers *)

Definition skip_view (s : StepDef) (reason : string) : view :=
  step_view EventType.StepSkipped s None (Some reason).

Lemma does_emit_skip cx s reason (R : list mark -> outcome unit -> Prop) :
  R (told (event_sink cx) (skip_view s reason)) (Returned tt) -> does (emit_skip cx s reason) R.
Proof. intros H. unfold emit_skip. by does_step. Qed.

Lemma does_is_cancelled t (R : list mark -> outcome bool -> Prop) :
  (forall b, (b = true -> t = true) -> R [] (Returned b)) -> does (is_cancelled t) R.
Proof.
  intros H. unfold is_cancelled. destruct t; [|by apply H].
  refine (does_perform IsCancelled R I _). intros b _. by apply H.
Qed.

(** The condition of a step evaluates to false on the results so far. *)
Definition blocked_by (s : StepDef) (results : list StepResult) (all : list StepDef) : Prop :=
  exists e, condition s = Some e /\ evaluate e (build_step_context results all) = Ok false.

Lemma does_condition_blocks s rs all (R : list mark -> outcome bool -> Prop) :
  (forall b, (b = true <-> blocked_by s rs all) -> R [] (Returned b)) ->
  does (condition_blocks s rs all) R.
Proof.
  intros H. unfold condition_blocks, check_condition, blocked_by in *.
  destruct (condition s) as [e|].
  - does_step. refine (does_perform (CondEval _ _) _ I _). intros c Hc%legal_cond.
    does_step. apply H. subst c. destruct (evaluate _ _) as [[]|] eqn:E;
      (split; [intros ?; try done; by exists e|intros (e' & [= <-] & He); congruence]).
  - does_step. apply H. naive_solver.
Qed.
End Sequential.

#[export] Hint Resolve local_is_cancelled local_emit_skip local_condition_blocks
  local_sequential_loop local_run_sequential : szal.

Ltac exec_step :=
  lazymatch goal with
  | |- does (is_cancelled _) _ => apply does_is_cancelled; intros ? ?
  | |- does (emit_skip _ _ _) _ => apply does_emit_skip
  | |- does (condition_blocks _ _ _) _ => apply does_condition_blocks; intros ? ?
  | _ => does_step
  end; cbv beta iota; cbn [marks omap list_omap mark_of app].

Section Blocks.
Context `{JN : JsonNumber} `{JL : !JsonLib}.

(** Whether the condition of a step blocks it, computed. *)
Definition blocks (all : list StepDef) (pre : list StepResult) (s : StepDef) : bool :=
  match condition s with
  | None => false
  | Some e => match evaluate e (build_step_context pre all) with Ok false => true | _ => false end
  end.

Lemma blocks_blocked_by all pre s : blocks all pre s = true <-> blocked_by s pre all.
Proof.
  unfold blocks, blocked_by. destruct (condition s) as [e|]; [|naive_solver].
  destruct (evaluate e _) as [[]|] eqn:E;
    (split; [intros ?; try done; by exists e|intros (e' & [= <-] & He); congruence]).
Qed.
End Blocks.

(** ** The helpers inside programs that work with tasks *)

Section TaskHelpers.
Context `{JN : JsonNumber} `{JL : !JsonLib} `{UL : UuidLib} `{BP : BuildProfile}.
Context (T : StepDef -> join_result -> Prop).

Lemma wp_is_cancelled h t Q :
  (forall h' b, same_tasks h h' -> (b = true -> t = true) -> Q h' (Returned b)) ->
  wp T h (is_cancelled t) Q.
Proof.
  intros HQ. apply (wp_returns _ _ _ (fun b => b = true -> t = true)); [auto with szal| |done].
  apply does_is_cancelled. eauto.
Qed.

Lemma wp_elapsed h st Q :
  (forall h' ms, same_tasks h h' -> in_u64 ms -> Q h' (Returned ms)) ->
  wp T h (elapsed_ms st) Q.
Proof.
  intros HQ. apply (wp_returns _ _ _ in_u64); [auto with szal| |done].
  apply does_elapsed. eauto.
Qed.

Lemma wp_is_late h cancelled timeout st Q :
  (forall h' late, same_tasks h h' ->
     (late = true -> cancelled = true \/ timeout < u64_max) -> Q h' (Returned late)) ->
  wp T h (is_late cancelled timeout st) Q.
Proof.
  intros HQ. unfold is_late. destruct cancelled.
  - apply HQ; [apply same_tasks_refl|by left].
  - apply wp_bind, wp_elapsed. intros h' ms Hh' Hms. apply HQ; [done|].
    intros Hlt%Z.ltb_lt. right. unfold in_u64 in Hms. lia.
Qed.

Lemma wp_emit_now h b mk Q :
  (forall h', same_tasks h h' -> Q h' (Returned tt)) -> wp T h (emit_now b mk) Q.
Proof.
  intros HQ. apply (wp_returns _ _ _ (fun _ => True)); [auto with szal| |by intros h' [] ? _; auto].
  unfold emit_now, emit. do 2 does_step. destruct b; does_step; eauto.
Qed.

Lemma wp_emit_skip h cx s reason Q :
  (forall h', same_tasks h h' -> Q h' (Returned tt)) -> wp T h (emit_skip cx s reason) Q.
Proof. apply wp_emit_now. Qed.

Lemma wp_condition_blocks h s rs all Q :
  (forall h', same_tasks h h' -> Q h' (Returned (blocks all rs s))) ->
  wp T h (condition_blocks s rs all) Q.
Proof.
  intros HQ. apply (wp_returns _ _ _ (fun b => b = blocks all rs s)); [auto with szal| |].
  - apply does_condition_blocks. intros b Hb. exists b. split; [done|].
    rewrite <- blocks_blocked_by in Hb. destruct b, (blocks all rs s); naive_solver.
  - intros h' ? Hh ->. auto.
Qed.
End TaskHelpers.

(** ** The story of a list of steps

    [story P prior steps m rs]: the steps leave the marks [m] and the results
    [rs], each step and its result related by [P], which sees the results
    recorded before it. *)

Section Stories.
Context `{JN : JsonNumber}.
Context (P : list StepResult -> StepDef -> list mark -> StepResult -> Prop).

Inductive story : list StepResult -> list StepDef -> list mark -> list StepResult -> Prop :=
| story_nil prior : story prior [] [] []
| story_cons prior s steps m m' r rs :
    P prior s m r -> story (prior ++ [r]) steps m' rs ->
    story prior (s :: steps) (m ++ m') (r :: rs).

Lemma story_forall2 prior steps m rs :
  story prior steps m rs ->
  Forall2 (fun s r => exists prior m, P prior s m r) steps rs.
Proof. induction 1; constructor; eauto. Qed.

Lemma story_lookup prior steps m rs i r :
  story prior steps m rs -> rs !! i = Some r ->
  exists s m', steps !! i = Some s /\ P (prior ++ take i rs) s m' r /\ incl m' m.
Proof.
  intros H. revert i. induction H as [|prior s steps m m' r' rs HP _ IH]; intros i Hi; [done|].
  destruct i as [|i]; cbn in *.
  - injection Hi as ->. exists s, m. rewrite app_nil_r. split_and!; [done|done|].
    intros x Hx. apply in_or_app. by left.
  - destruct (IH i Hi) as (s' & m0 & Hs & HP' & Hin). exists s', m0.
    rewrite <- app_assoc in HP'. split_and!; [done|done|].
    intros x Hx. apply in_or_app. right. by apply Hin.
Qed.

Lemma story_split prior steps m rs1 r rs2 :
  story prior steps m (rs1 ++ r :: rs2) ->
  exists steps1 s steps2 m1 m2 m3,
    steps = steps1 ++ s :: steps2 /\ m = m1 ++ m2 ++ m3 /\
    story prior steps1 m1 rs1 /\ P (prior ++ rs1) s m2 r /\
    story (prior ++ rs1 ++ [r]) steps2 m3 rs2.
Proof.
  revert prior steps m. induction rs1 as [|r1 rs1 IH]; intros prior steps m H;
    inversion H as [|? s ? m2 m3 ? ? HP Hs]; subst; cbn.
  - exists [], s, steps0, [], m2, m3. rewrite app_nil_r. split_and!; [done|done|constructor|done|done].
  - destruct (IH _ _ _ Hs) as (st1 & s' & st2 & n1 & n2 & n3 & -> & -> & H1 & H2 & H3).
    exists (s :: st1), s', st2, (m2 ++ n1), n2, n3.
    rewrite <- !app_assoc in *. split_and!; [done|done|by constructor|done|done].
Qed.
End Stories.

(** ** What sequential execution does *)

Section SequentialStory.
Context `{JN : JsonNumber} `{JL : !JsonLib} `{UL : UuidLib} `{BP : BuildProfile}.
Context (all : list StepDef) (timeout start : Z) (token : bool) (cx : ExecCtx).

(** A step not run: why, and what is recorded. *)
Inductive skip_reason (prior : list StepResult) (s : StepDef) : string -> Prop :=
| skip_cancelled : token = true -> skip_reason prior s "cancelled"
| skip_failed : has_failures prior = true -> skip_reason prior s "prior step failed"
| skip_timeout : has_failures prior = false -> timeout < u64_max ->
    skip_reason prior s "flow timeout exceeded"
| skip_condition : has_failures prior = false -> blocked_by s prior all ->
    skip_reason prior s "condition not met".

Definition seq_fact (prior : list StepResult) (s : StepDef) (m : list mark) (r : StepResult)
  : Prop :=
  (exists reason, skip_reason prior s reason /\ r = skipped (id s) reason /\
     m = told (event_sink cx) (skip_view s reason)) \/
  (has_failures prior = false /\ ~ blocked_by s prior all /\ step_done s m (Returned r)).

(** A run that panics: the steps before are as usual. *)
Definition seq_panic (prior : list StepResult) (steps : list StepDef) (m : list mark) : Prop :=
  exists pre s post m1 m2 rs,
    steps = pre ++ s :: post /\ story seq_fact prior pre m1 rs /\ m = m1 ++ m2 /\
    step_done s m2 Panicked.

Definition seq_story (prior : list StepResult) (steps : list StepDef)
    (m : list mark) (o : outcome (list StepResult)) : Prop :=
  match o with
  | Returned rs => exists new, rs = prior ++ new /\ story seq_fact prior steps m new
  | Panicked => seq_panic prior steps m
  | OutOfFuel => False
  end.

Lemma seq_story_cons prior s steps m m' r o :
  seq_fact prior s m r -> seq_story (prior ++ [r]) steps m' o ->
  seq_story prior (s :: steps) (m ++ m') o.
Proof.
  intros Hf. destruct o as [rs| |]; cbn; [| |done].
  - intros (new & -> & Hs). exists (r :: new). rewrite <- app_assoc. split; [done|].
    by constructor.
  - intros (pre & s' & post & m1 & m2 & rs & -> & Hs & -> & Hp).
    exists (s :: pre), s', post, (m ++ m1), m2, (r :: rs).
    split_and!; [done|by constructor|by rewrite app_assoc|done].
Qed.

Lemma has_failures_snoc_skip prior i reason :
  has_failures (prior ++ [skipped i reason]) = has_failures prior.
Proof. rewrite has_failures_app. cbn. by rewrite orb_false_r. Qed.

Lemma seq_skip prior s steps reason m' o :
  skip_reason prior s reason ->
  seq_story (prior ++ [skipped (id s) reason]) steps m' o ->
  seq_story prior (s :: steps) (told (event_sink cx) (skip_view s reason) ++ m') o.
Proof. intros Hr. apply seq_story_cons. left. by exists reason. Qed.

Lemma does_sequential_loop steps : forall prior failed,
  Forall (fun s => 0 <= max_retries s <= u32_max) steps ->
  failed = has_failures prior ->
  does (sequential_loop all timeout start token cx steps prior failed) (seq_story prior steps).
Proof.
  induction steps as [|s steps IH]; intros prior failed Hr Hf; cbn [sequential_loop]; cbv zeta.
  { apply post_ret. exists []. rewrite app_nil_r. split; [done|constructor]. }
  apply Forall_cons in Hr as [Hs Hr]. exec_step. exec_step.
  destruct b; [|destruct failed]; cbn [orb].
  - do 2 exec_step. eapply does_mono; [|apply IH; [done|by rewrite has_failures_snoc_skip]].
    intros m o. apply seq_skip. by constructor; auto.
  - do 2 exec_step. eapply does_mono; [|apply IH; [done|by rewrite has_failures_snoc_skip]].
    intros m o. apply seq_skip. by constructor.
  - do 2 exec_step. destruct (timeout <? ms) eqn:Et.
    { do 2 exec_step. eapply does_mono; [|apply IH; [done|by rewrite has_failures_snoc_skip]].
      intros m o. apply seq_skip. constructor; [done|]. apply Z.ltb_lt in Et.
      unfold in_u64 in *. lia. }
    do 2 exec_step. destruct b.
    { do 2 exec_step. eapply does_mono; [|apply IH; [done|by rewrite has_failures_snoc_skip]].
      intros m o. apply seq_skip. constructor; [done|]. naive_solver. }
    exec_step. eapply does_mono; [|by apply does_execute_step_done].
    intros m [r| |] Hd; [| |by destruct Hd].
    + eapply does_mono; [|apply IH; [done|]].
      * intros m' o. apply seq_story_cons. right. naive_solver.
      * rewrite has_failures_app, <- Hf. cbn. by rewrite !orb_false_r.
    + exists [], s, steps, [], m, []. split_and!; [done|constructor|done|done].
Qed.
End SequentialStory.

(** ** Consequences of the story *)

Section SequentialFacts.
Context `{JN : JsonNumber} `{JL : !JsonLib} `{UL : UuidLib} `{BP : BuildProfile}.
Context (all : list StepDef) (timeout : Z) (token : bool) (cx : ExecCtx).
#[local] Definition fact := seq_fact all timeout token cx.

Lemma seq_fact_id prior s m r : fact prior s m r -> step_id r = id s.
Proof. by intros [(? & _ & -> & _)|(_ & _ & _ & H & _)]. Qed.

(** Handlers are only called with steps of the list. *)
Lemma seq_story_handled prior steps m rs :
  story fact prior steps m rs -> Forall (fun c => c.1 ∈ steps) (handled m).
Proof.
  induction 1 as [|prior s steps m m' r rs Hf _ IH]; [constructor|].
  rewrite handled_app. apply Forall_app. split.
  - destruct Hf as [(? & _ & _ & ->)|(_ & _ & Hd & _)]; [by rewrite handled_told|].
    eapply Forall_impl; [exact Hd|]. cbn. intros c ->. apply list_elem_of_here.
  - eapply Forall_impl; [exact IH|]. cbn. intros c Hc. by right.
Qed.

Lemma seq_story_ids prior steps m rs :
  story fact prior steps m rs -> step_id <$> rs = id <$> steps.
Proof.
  induction 1 as [|prior s steps m m' r rs Hf _ IH]; [done|]. cbn.
  by rewrite IH, (seq_fact_id _ _ _ _ Hf).
Qed.

(** After a failure: no handler call, and the skipped results. *)
Lemma seq_after_failure prior steps m rs :
  story fact prior steps m rs -> has_failures prior = true ->
  handled m = [] /\
  Forall (fun r => exists i reason, r = skipped i reason /\
            (reason = "prior step failed" \/ token = true /\ reason = "cancelled")) rs.
Proof.
  induction 1 as [|prior s steps m m' r rs Hf _ IH]; intros Hp; [by split|].
  destruct Hf as [(reason & Hr & -> & ->)|(Hn & _)]; [|congruence].
  destruct IH as [Hm Hrs]; [by rewrite has_failures_app, Hp|].
  rewrite handled_app, handled_told, Hm. split; [done|]. constructor; [|done].
  exists (id s), reason. split; [done|].
  inversion Hr; subst; [by right|by left|congruence|congruence].
Qed.
End SequentialFacts.

(** ** Properties *)

(** C12. Sequential execution follows its rules step by step, whatever handlers,
    clock and token do: each step is either recorded as skipped with its event
    (for a cancellation, only if a token was given; for a failure among the
    results before it; for the flow's timeout, only if there is one; for a
    condition that evaluates to false on the results before it) or, when no
    earlier step failed and its condition does not evaluate to false, executed.
    The run panics only in a step's execution, and never gets stuck. *)
Theorem sequential_run `{JN : JsonNumber} `{JL : !JsonLib} `{UL : UuidLib}
    `{BP : BuildProfile} T o steps timeout start token cx :
  legal_oracle T o -> Forall (fun s => 0 <= max_retries s <= u32_max) steps ->
  seq_story steps timeout token cx [] steps
    (marks (exec o [] (run_sequential steps timeout start token cx)).1)
    (exec o [] (run_sequential steps timeout start token cx)).2.
Proof.
  intros Ho Hr. apply (does_exec T o); [done|apply local_run_sequential|].
  by apply does_sequential_loop.
Qed.

(** A sequential run returns one result per step, in the order of the steps.
    If a step fails, every step before it did not, handlers were only called
    for the steps up to it, and all later steps are recorded as skipped because of it (or because
    of a cancellation). *)
Theorem sequential_stops_at_failure `{JN : JsonNumber} `{JL : !JsonLib} `{UL : UuidLib}
    `{BP : BuildProfile} T o steps timeout start token cx rs :
  legal_oracle T o -> Forall (fun s => 0 <= max_retries s <= u32_max) steps ->
  (exec o [] (run_sequential steps timeout start token cx)).2 = Returned rs ->
  step_id <$> rs = id <$> steps /\
  forall before r after,
    rs = before ++ r :: after -> status r = StepStatus.Failed ->
    has_failures before = false /\
    Forall (fun c => c.1 ∈ take (S (length before)) steps)
      (handled (marks (exec o [] (run_sequential steps timeout start token cx)).1)) /\
    Forall (fun r => exists i reason, r = skipped i reason /\
              (reason = "prior step failed" \/ token = true /\ reason = "cancelled")) after.
Proof.
  intros Ho Hr Hret.
  assert (H := does_exec T o _ _ Ho (local_run_sequential steps timeout start token cx)
                 (does_sequential_loop steps timeout start token cx steps [] false Hr eq_refl)).
  rewrite Hret in H. destruct H as (new & -> & H). cbn [app] in *.
  split; [by eapply seq_story_ids|]. intros before r after -> Hs.
  destruct (story_split _ _ _ _ _ _ _ H) as (s1 & s & s2 & m1 & m2 & m3 & Hst & Hm & Hbef & Hf & Haft).
  destruct (seq_after_failure _ _ _ _ _ _ _ _ Haft) as [Hm3 Hskip].
  { rewrite !has_failures_app. cbn. rewrite Hs. by rewrite !orb_true_r. }
  split_and!; [by destruct Hf as [(reason & _ & -> & _)|(Hn & _)]| |done].
  assert (Hs1 := seq_story_ids _ _ _ _ _ _ _ _ Hbef). apply (f_equal length) in Hs1.
  rewrite !length_fmap in Hs1.
  rewrite Hm, !handled_app, Hm3, app_nil_r, Hst, take_app_ge, Hs1 by lia.
  replace (S (length s1) - length s1)%nat with 1%nat by lia. cbn [take].
  apply Forall_app. split.
  - eapply Forall_impl; [by eapply seq_story_handled|]. cbn. set_solver.
  - destruct Hf as [(? & _ & _ & ->)|(_ & _ & Hd & _)]; [by rewrite handled_told|].
    eapply Forall_impl; [exact Hd|]. cbn. set_solver.
Qed.

(** ** Witnesses *)

Module SequentialExamples.
Export StepExamples.

(** A build that fails, and a step behind it. *)
Definition build : StepDef := step_new 1%N "build".
Definition test : StepDef := step_new 2%N "test".
Definition steps : list StepDef := [build; test].

Definition failing_env : history -> forall a, res a :=
  answers (fun _ _ => HandlerErr "broken") (fun _ _ => JoinError "cancelled").

Lemma failing_env_legal : legal_oracle (fun _ _ => True) failing_env.
Proof. by apply answers_legal. Qed.

Lemma steps_bounded : Forall (fun s => 0 <= max_retries s <= u32_max) steps.
Proof. repeat constructor; cbn; unfold u32_max; lia. Qed.

Definition build_failed : StepResult :=
  {| step_id := 1%N; status := StepStatus.Failed; output := Null;
     duration_ms := 0; attempts := 1; error := Some "broken" |}.
End SequentialExamples.

#[local] Existing Instances SerdeModel.serde_number SerdeModel.serde_lib
  StepExamples.ids StepExamples.release.

Lemma sequential_run_witness :
  let run := exec SequentialExamples.failing_env []
    (run_sequential SequentialExamples.steps u64_max 0 false StepExamples.cx) in
  run.2 = Returned [SequentialExamples.build_failed; skipped 2%N "prior step failed"] /\
  seq_story SequentialExamples.steps u64_max false StepExamples.cx []
    SequentialExamples.steps (marks run.1) run.2.
Proof.
  split; [reflexivity|].
  apply (sequential_run (fun _ _ => True) SequentialExamples.failing_env);
    [apply SequentialExamples.failing_env_legal|apply SequentialExamples.steps_bounded].
Defined.

Lemma sequential_stops_at_failure_witness :
  Forall (fun c => c.1 ∈ [SequentialExamples.build])
    (handled (marks (exec SequentialExamples.failing_env []
       (run_sequential SequentialExamples.steps u64_max 0 false StepExamples.cx)).1)).
Proof.
  destruct (sequential_stops_at_failure (fun _ _ => True) SequentialExamples.failing_env
    SequentialExamples.steps u64_max 0 false StepExamples.cx
    [SequentialExamples.build_failed; skipped 2%N "prior step failed"])
    as [_ H]; [apply SequentialExamples.failing_env_legal|apply SequentialExamples.steps_bounded
              |reflexivity|].
  apply (H [] SequentialExamples.build_failed [skipped 2%N "prior step failed"]); reflexivity.
Defined.
