(* ===== verification/Hierarchical.v ===== *)
(** * Hierarchical execution

    [rust-old/src/engine/hierarchical.rs]: a forest of steps, parents before
    their sub-steps; the sub-steps of a step that did not complete are skipped
    with all their descendants. *)

From Stdlib Require Import ZArith Lia.
From stdpp Require Import base tactics option list strings sets.
From S2P Require Import Prelude Json State Error Step CondLexer Condition Bus EngineResult.
From S2P Require Import Prog StepExec Sequential.

Open Scope Z_scope.

(** A [for] loop over sibling steps whose body [f] threads the results and the
    [failed] flag. *)
Definition tree_loop `{JN : JsonNumber}
    (f : StepDef -> list StepResult -> bool -> prog (list StepResult * bool))
  : list StepDef -> list StepResult -> bool -> prog (list StepResult) :=
  fix go l results failed :=
    match l with
    | [] => ret results
    | s :: l => let! (results, failed) := f s results failed in go l results failed
    end.

(** The [for] loop of [skip_children]. *)
Definition skip_loop `{JN : JsonNumber}
    (f : StepDef -> list StepResult -> prog (list StepResult))
  : list StepDef -> list StepResult -> prog (list StepResult) :=
  fix go l results :=
    match l with
    | [] => ret results
    | s :: l => let! results := f s results in go l results
    end.

Section Hierarchical.
Context `{JN : JsonNumber} `{JL : !JsonLib} `{UL : UuidLib} `{BP : BuildProfile}.

Fixpoint skip_step_and_children (cx : ExecCtx) (reason : string) (s : StepDef)
    (results : list StepResult) : prog (list StepResult) :=
  let! _ := emit_skip cx s reason in
  skip_loop (skip_step_and_children cx reason) (sub_steps s) (results ++ [skipped (id s) reason]).

Definition skip_children (cx : ExecCtx) (reason : string) (s : StepDef)
    (results : list StepResult) : prog (list StepResult) :=
  skip_loop (skip_step_and_children cx reason) (sub_steps s) results.

(** The loop body of [execute_tree] for one of the [siblings]; the recursive
    call of [execute_tree] is the loop over the sub-steps. *)
Fixpoint execute_node (timeout start : Z) (token : bool) (cx : ExecCtx)
    (siblings : list StepDef) (s : StepDef) (results : list StepResult) (failed : bool)
  : prog (list StepResult * bool) :=
  let! cancelled := is_cancelled token in
  if cancelled || failed then
    let reason := if cancelled then "cancelled" else "prior step failed" in
    let! results := skip_step_and_children cx reason s results in ret (results, failed)
  else
  let! ms := elapsed_ms start in
  if timeout <? ms then
    let! results := skip_step_and_children cx "flow timeout exceeded" s results in
    ret (results, failed)
  else
  let! blocked := condition_blocks s results siblings in
  if blocked then
    let! results := skip_step_and_children cx "condition not met" s results in
    ret (results, failed)
  else
  let! r := execute_step_with_handler cx s in
  let results := results ++ [r] in
  if bool_decide (status r = StepStatus.Completed) then
    let! results := tree_loop (execute_node timeout start token cx (sub_steps s))
                      (sub_steps s) results false in
    ret (results, failed)
  else
    let! results := skip_children cx "parent step failed" s results in
    ret (results, true).

Definition execute_tree (steps : list StepDef) (timeout start : Z) (token : bool)
    (cx : ExecCtx) (results : list StepResult) : prog (list StepResult) :=
  tree_loop (execute_node timeout start token cx steps) steps results false.

Definition run_hierarchical (steps : list StepDef) (timeout start : Z) (token : bool)
    (cx : ExecCtx) : prog (list StepResult) :=
  execute_tree steps timeout start token cx [].

(** ** Unfolding the recursion over the tree *)

Lemma skip_step_unfold cx reason s results :
  skip_step_and_children cx reason s results =
    let! _ := emit_skip cx s reason in
    skip_children cx reason s (results ++ [skipped (id s) reason]).
Proof. by destruct s. Qed.

Lemma execute_node_unfold timeout start token cx siblings s results failed :
  execute_node timeout start token cx siblings s results failed =
    let! cancelled := is_cancelled token in
    if cancelled || failed then
      let reason := if cancelled then "cancelled" else "prior step failed" in
      let! results := skip_step_and_children cx reason s results in ret (results, failed)
    else
    let! ms := elapsed_ms start in
    if timeout <? ms then
      let! results := skip_step_and_children cx "flow timeout exceeded" s results in
      ret (results, failed)
    else
    let! blocked := condition_blocks s results siblings in
    if blocked then
      let! results := skip_step_and_children cx "condition not met" s results in
      ret (results, failed)
    else
    let! r := execute_step_with_handler cx s in
    let results := results ++ [r] in
    if bool_decide (status r = StepStatus.Completed) then
      let! results := execute_tree (sub_steps s) timeout start token cx results in
      ret (results, failed)
    else
      let! results := skip_children cx "parent step failed" s results in
      ret (results, true).
Proof. by destruct s. Qed.

(** ** Locality *)

Lemma local_skip_loop f l : (forall s rs, s ∈ l -> local (f s rs)) ->
  forall rs, local (skip_loop f l rs).
Proof.
  induction l as [|s l IH]; intros Hf rs; cbn; [done|].
  apply local_bind; [apply Hf, list_elem_of_here|]. intros. apply IH. set_solver.
Qed.

Lemma local_skip_step cx reason s : forall rs, local (skip_step_and_children cx reason s rs).
Proof.
  induction s as [s IH] using StepDef_tree_ind. intros rs. rewrite skip_step_unfold.
  apply local_bind; [apply local_emit_skip|]. intros _. apply local_skip_loop.
  rewrite Forall_forall in IH. auto.
Qed.

Lemma local_tree_loop f l : (forall s rs b, s ∈ l -> local (f s rs b)) ->
  forall rs b, local (tree_loop f l rs b).
Proof.
  induction l as [|s l IH]; intros Hf rs b; cbn; [done|].
  apply local_bind; [apply Hf, list_elem_of_here|]. intros []. apply IH. set_solver.
Qed.
#[local] Hint Resolve local_skip_step : szal.

Lemma local_skip_children cx reason s rs : local (skip_children cx reason s rs).
Proof. apply local_skip_loop. eauto with szal. Qed.
#[local] Hint Resolve local_skip_children : szal.

Lemma local_execute_node t st tok cx s : forall sib rs b,
  local (execute_node t st tok cx sib s rs b).
Proof.
  induction s as [s IH] using StepDef_tree_ind. intros sib rs b.
  rewrite execute_node_unfold. cbv zeta. rewrite Forall_forall in IH.
  assert (forall rs, local (execute_tree (sub_steps s) t st tok cx rs))
    by (intros; apply local_tree_loop; eauto).
  local_solve.
Qed.

Lemma local_execute_tree steps t st tok cx rs : local (execute_tree steps t st tok cx rs).
Proof. apply local_tree_loop. intros. apply local_execute_node. Qed.
Lemma local_run_hierarchical steps t st tok cx : local (run_hierarchical steps t st tok cx).
Proof. apply local_execute_tree. Qed.
End Hierarchical.

#[export] Hint Resolve local_skip_step local_skip_children local_execute_node
  local_execute_tree local_run_hierarchical : szal.

(** ** The story of a forest *)

Section HierStory.
Context `{JN : JsonNumber} `{JL : !JsonLib} `{UL : UuidLib} `{BP : BuildProfile}.
Context (timeout start : Z) (token : bool) (cx : ExecCtx).

(** A skipped list of trees: one event and one result per node, parents
    first. *)
Definition skip_marks (reason : string) (l : list StepDef) : list mark :=
  flat_map (fun s => told (event_sink cx) (skip_view s reason)) (forest l).
Definition skip_results (reason : string) (l : list StepDef) : list StepResult :=
  (fun s => skipped (id s) reason) <$> forest l.

Lemma skip_marks_cons reason s l :
  skip_marks reason (s :: l) =
    told (event_sink cx) (skip_view s reason) ++ skip_marks reason (sub_steps s)
      ++ skip_marks reason l.
Proof.
  unfold skip_marks. rewrite forest_cons, flat_map_app, subtree_unfold.
  cbn [flat_map]. by rewrite <- app_assoc.
Qed.
Lemma skip_results_cons reason s l :
  skip_results reason (s :: l) =
    skipped (id s) reason :: skip_results reason (sub_steps s) ++ skip_results reason l.
Proof. unfold skip_results. by rewrite forest_cons, fmap_app, subtree_unfold. Qed.

Lemma handled_skip_marks reason l : handled (skip_marks reason l) = [].
Proof.
  unfold skip_marks. induction (forest l) as [|s k IH]; [done|]. cbn [flat_map].
  by rewrite handled_app, handled_told, IH.
Qed.

Definition skips (reason : string) (rs : list StepResult) (l : list StepDef)
    (m : list mark) (o : outcome (list StepResult)) : Prop :=
  m = skip_marks reason l /\ o = Returned (rs ++ skip_results reason l).

Lemma does_skip_loop reason l :
  Forall (fun s => forall rs, does (skip_step_and_children cx reason s rs) (skips reason rs [s])) l ->
  forall rs, does (skip_loop (skip_step_and_children cx reason) l rs) (skips reason rs l).
Proof.
  induction 1 as [|s l Hs _ IH]; intros rs; cbn [skip_loop].
  { apply post_ret. split; [done|]. by rewrite app_nil_r. }
  apply does_bind; [intros; apply local_skip_loop; eauto with szal|].
  eapply does_mono; [|apply Hs]. intros m o [-> ->].
  eapply does_mono; [|apply IH]. intros m' o' [-> ->].
  unfold skips, skip_marks, skip_results. change (s :: l) with ([s] ++ l).
  by rewrite forest_app, flat_map_app, fmap_app, <- app_assoc.
Qed.

Lemma does_skip_step reason s : forall rs,
  does (skip_step_and_children cx reason s rs) (skips reason rs [s]).
Proof.
  induction s as [s IH] using StepDef_tree_ind. intros rs. rewrite skip_step_unfold.
  do 2 exec_step. eapply does_mono; [|by apply does_skip_loop].
  intros m o [-> ->]. unfold skips. rewrite skip_marks_cons, skip_results_cons, <- app_assoc.
  unfold skip_marks at 3, skip_results at 3. cbn [forest flat_map fmap list_fmap].
  by rewrite !app_nil_r.
Qed.

Lemma does_skip_children reason s rs :
  does (skip_children cx reason s rs) (skips reason rs (sub_steps s)).
Proof. apply does_skip_loop, Forall_true. intros. apply does_skip_step. Qed.

(** Why a tree is not run: as in sequential execution, the failure being one of
    a sibling. *)
Inductive tree_skip (siblings : list StepDef) (prior : list StepResult) (failed : bool)
    (s : StepDef) : string -> Prop :=
| tree_cancelled : token = true -> tree_skip siblings prior failed s "cancelled"
| tree_failed : failed = true -> tree_skip siblings prior failed s "prior step failed"
| tree_timeout : failed = false -> timeout < u64_max ->
    tree_skip siblings prior failed s "flow timeout exceeded"
| tree_condition : failed = false -> blocked_by s prior siblings ->
    tree_skip siblings prior failed s "condition not met".

(** [tree_story siblings prior failed l m rs]: the siblings [l] still to do
    leave the marks [m] and the results [rs] after [prior]. *)
Inductive tree_story (siblings : list StepDef) :
  list StepResult -> bool -> list StepDef -> list mark -> list StepResult -> Prop :=
| tree_nil prior failed : tree_story siblings prior failed [] [] []
| tree_skipped prior failed s l reason m rs :
    tree_skip siblings prior failed s reason ->
    tree_story siblings (prior ++ skip_results reason [s]) failed l m rs ->
    tree_story siblings prior failed (s :: l)
      (skip_marks reason [s] ++ m) (skip_results reason [s] ++ rs)
| tree_completed prior s l m1 m2 m3 r rs2 rs3 :
    ~ blocked_by s prior siblings ->
    step_done s m1 (Returned r) -> status r = StepStatus.Completed ->
    tree_story (sub_steps s) (prior ++ [r]) false (sub_steps s) m2 rs2 ->
    tree_story siblings ((prior ++ [r]) ++ rs2) false l m3 rs3 ->
    tree_story siblings prior false (s :: l) (m1 ++ m2 ++ m3) (r :: rs2 ++ rs3)
| tree_run_failed prior s l m1 m3 r rs3 :
    ~ blocked_by s prior siblings ->
    step_done s m1 (Returned r) -> status r = StepStatus.Failed ->
    tree_story siblings ((prior ++ [r]) ++ skip_results "parent step failed" (sub_steps s))
      true l m3 rs3 ->
    tree_story siblings prior false (s :: l)
      (m1 ++ skip_marks "parent step failed" (sub_steps s) ++ m3)
      (r :: skip_results "parent step failed" (sub_steps s) ++ rs3).

(** A panic comes from the execution of some step of the forest, the last one
    whose handler was called. *)
Definition tree_panic (l : list StepDef) (m : list mark) : Prop :=
  exists s m1 m2, s ∈ forest l /\ m = m1 ++ m2 /\ step_done s m2 Panicked.

Definition tree_outcome (siblings : list StepDef) (prior : list StepResult) (failed : bool)
    (l : list StepDef) (m : list mark) (o : outcome (list StepResult)) : Prop :=
  match o with
  | Returned rs => exists new, rs = prior ++ new /\ tree_story siblings prior failed l m new
  | Panicked => tree_panic l m
  | OutOfFuel => False
  end.

Lemma tree_panic_cons s l m m' : tree_panic l m' -> tree_panic (s :: l) (m ++ m').
Proof.
  intros (s' & m1 & m2 & Hs & -> & Hd). exists s', (m ++ m1), m2.
  split_and!; [|by rewrite app_assoc|done]. rewrite forest_cons. set_solver.
Qed.

(** The loop of the siblings, given what each node does. *)
Definition node_ok (s : StepDef) : Prop :=
  forall siblings prior failed l,
    does (execute_node timeout start token cx siblings s prior failed) (fun m o =>
      match o with
      | Returned (rs, failed') =>
          forall m' o',
            tree_outcome siblings rs failed' l m' o' ->
            tree_outcome siblings prior failed (s :: l) (m ++ m') o'
      | Panicked => tree_panic [s] m
      | OutOfFuel => False
      end).

Lemma does_tree_loop siblings l :
  Forall node_ok l -> forall prior failed,
  does (tree_loop (execute_node timeout start token cx siblings) l prior failed)
    (tree_outcome siblings prior failed l).
Proof.
  induction 1 as [|s l Hs _ IH]; intros prior failed; cbn [tree_loop].
  { apply post_ret. exists []. rewrite app_nil_r. split; [done|constructor]. }
  apply does_bind; [intros []; apply local_tree_loop; eauto with szal|].
  eapply does_mono; [|apply (Hs siblings prior failed l)].
  intros m [[rs failed']| |]; [| |done].
  - intros Hk. eapply does_mono; [|apply IH]. intros m' o'. apply Hk.
  - intros (s' & m1 & m2 & Hin & -> & Hd). exists s', m1, m2. split_and!; [|done|done].
    rewrite forest_cons. cbn in Hin. rewrite app_nil_r in Hin. set_solver.
Qed.

(** A skipped tree, before the rest of the siblings. *)
Lemma tree_outcome_skip siblings prior failed s l reason m' o' :
  tree_skip siblings prior failed s reason ->
  tree_outcome siblings (prior ++ skip_results reason [s]) failed l m' o' ->
  tree_outcome siblings prior failed (s :: l) (skip_marks reason [s] ++ m') o'.
Proof.
  intros Hr. destruct o' as [rs| |]; cbn; [|apply tree_panic_cons|done].
  intros (new & -> & Hs). exists (skip_results reason [s] ++ new).
  rewrite app_assoc. split; [done|]. by constructor.
Qed.

Lemma does_skip_node siblings prior failed s l reason :
  tree_skip siblings prior failed s reason ->
  does (let! results := skip_step_and_children cx reason s prior in ret (results, failed))
    (fun m o =>
      match o with
      | Returned (rs, failed') =>
          forall m' o',
            tree_outcome siblings rs failed' l m' o' ->
            tree_outcome siblings prior failed (s :: l) (m ++ m') o'
      | Panicked => tree_panic [s] m
      | OutOfFuel => False
      end).
Proof.
  intros Hr. does_step. eapply does_mono; [|apply does_skip_step]. intros m o [-> ->].
  apply post_ret. intros m' o'. rewrite app_nil_r. by apply tree_outcome_skip.
Qed.

Lemma does_execute_node s : Forall (fun s => 0 <= max_retries s <= u32_max) (subtree s) ->
  node_ok s.
Proof.
  induction s as [s IH] using StepDef_tree_ind. rewrite subtree_unfold.
  intros [Hs Hsub]%Forall_cons siblings prior failed l.
  assert (Forall node_ok (sub_steps s)) as Hkids.
  { rewrite Forall_forall in IH |- *. intros c Hc. apply IH; [done|].
    rewrite Forall_forall in Hsub |- *. intros x Hx. apply Hsub.
    apply list_elem_of_In, in_flat_map. exists c. by rewrite <- !list_elem_of_In. }
  rewrite execute_node_unfold. cbv zeta. do 2 exec_step.
  destruct b; [apply does_skip_node; by constructor; auto|].
  destruct failed; cbn [orb]; [apply does_skip_node; by constructor|].
  do 2 exec_step. destruct (timeout <? ms) eqn:Et.
  { apply does_skip_node. constructor; [done|]. apply Z.ltb_lt in Et.
    unfold in_u64 in *. lia. }
  do 2 exec_step. destruct b; [apply does_skip_node; constructor; naive_solver|].
  exec_step. eapply does_mono; [|by apply does_execute_step_done].
  intros m [r| |] Hd; [| |by destruct Hd].
  - assert (~ blocked_by s prior siblings) by naive_solver.
    case_bool_decide as Hst.
    + does_step. eapply does_mono; [|by apply does_tree_loop].
      intros m2 [rs2| |] Ht; [| |done].
      * destruct Ht as (new & -> & Ht). apply post_ret. intros m' [rs3| |]; [| |done].
        { intros (new3 & -> & H3). exists (r :: new ++ new3). rewrite <- !app_assoc.
          split; [done|]. cbn. by apply tree_completed. }
        by apply tree_panic_cons.
      * destruct Ht as (s' & m1 & m3 & Hin & -> & Hd'). exists s', (m ++ m1), m3.
        split_and!; [|by rewrite app_assoc|done].
        rewrite forest_cons, subtree_unfold. set_solver.
    + does_step. eapply does_mono; [|apply does_skip_children]. intros m2 o2 [-> ->].
      apply post_ret. intros m' [rs3| |]; [| |done].
      * intros (new3 & -> & H3).
        exists (r :: skip_results "parent step failed" (sub_steps s) ++ new3).
        rewrite <- !app_assoc. split; [done|]. cbn. apply tree_run_failed; [done|done| |done].
        destruct Hd as (_ & _ & _ & [|] & _); done.
      * by apply tree_panic_cons.
  - exists s, [], m. split_and!; [|done|done]. rewrite forest_cons, subtree_unfold. set_solver.
Qed.

Lemma does_execute_tree siblings prior :
  Forall (fun s => 0 <= max_retries s <= u32_max) (forest siblings) ->
  does (execute_tree siblings timeout start token cx prior)
    (tree_outcome siblings prior false siblings).
Proof.
  intros Hf. apply does_tree_loop. rewrite Forall_forall in Hf |- *. intros s Hs.
  apply does_execute_node. rewrite Forall_forall. intros x Hx. apply Hf.
  apply list_elem_of_In, in_flat_map. exists s. by rewrite <- !list_elem_of_In.
Qed.
End HierStory.

(** ** Consequences of the story *)

Section HierFacts.
Context `{JN : JsonNumber} `{JL : !JsonLib} `{UL : UuidLib} `{BP : BuildProfile}.
Context (timeout : Z) (token : bool) (cx : ExecCtx).

Lemma skip_results_ids reason l : step_id <$> skip_results reason l = id <$> forest l.
Proof. unfold skip_results. by rewrite <- list_fmap_compose. Qed.

Lemma skip_results_status reason l r : r ∈ skip_results reason l -> status r = StepStatus.Skipped.
Proof. intros (s & -> & _)%list_elem_of_fmap. done. Qed.

Lemma tree_story_ids siblings prior failed l m rs :
  tree_story timeout token cx siblings prior failed l m rs ->
  step_id <$> rs = id <$> forest l.
Proof.
  induction 1 as [|? ? ? s l reason m rs _ _ IH|? ? s l m1 m2 m3 r rs2 rs3 _ Hd _ _ IH2 _ IH3
                 |? ? s l m1 m3 r rs3 _ Hd _ _ IH3]; [done| | |].
  - change (s :: l) with ([s] ++ l). by rewrite forest_app, !fmap_app, skip_results_ids, IH.
  - rewrite forest_cons, subtree_unfold. destruct Hd as (_ & Hd & _). cbn.
    by rewrite !fmap_app, IH2, IH3, Hd.
  - rewrite forest_cons, subtree_unfold. destruct Hd as (_ & Hd & _). cbn.
    by rewrite !fmap_app, skip_results_ids, IH3, Hd.
Qed.

(** A result of the list belongs to one of its nodes. *)
Lemma result_of_node rs l r :
  step_id <$> rs = id <$> forest l -> r ∈ rs -> step_id r ∈ id <$> forest l.
Proof. intros <- Hr. by apply list_elem_of_fmap_2. Qed.

Lemma child_in_forest (p c : StepDef) l : p ∈ forest l -> c ∈ sub_steps p -> c ∈ forest l.
Proof.
  induction l as [|s l IH]; [set_solver|]. rewrite forest_cons.
  intros [Hp|Hp]%elem_of_app Hc; apply elem_of_app; [left|right; auto]. clear IH.
  revert Hp. induction s as [s IH] using StepDef_tree_ind. rewrite subtree_unfold.
  intros [->|Hp]%elem_of_cons.
  - right. apply list_elem_of_In, in_flat_map. exists c. rewrite <- !list_elem_of_In.
    split; [done|]. rewrite subtree_unfold. left.
  - right. apply list_elem_of_In, in_flat_map in Hp as (k & Hk & Hp).
    rewrite <- list_elem_of_In in Hk, Hp. rewrite Forall_forall in IH.
    apply list_elem_of_In, in_flat_map. exists k. rewrite <- !list_elem_of_In. eauto.
Qed.

(** The results of a node that ran. *)
Definition ran (rs : list StepResult) (c : StepDef) : Prop :=
  exists r, r ∈ rs /\ step_id r = id c /\ status r <> StepStatus.Skipped.
Definition completed (rs : list StepResult) (p : StepDef) : Prop :=
  exists r, r ∈ rs /\ step_id r = id p /\ status r = StepStatus.Completed.

Lemma completed_app_l rs rs' p : completed rs p -> completed (rs ++ rs') p.
Proof. intros (r & Hr & H). exists r. split; [set_solver|done]. Qed.
Lemma completed_app_r rs rs' p : completed rs p -> completed (rs' ++ rs) p.
Proof. intros (r & Hr & H). exists r. split; [set_solver|done]. Qed.

(** Distinct ids tell in which part of a list a result lies. *)
Lemma ran_app rs rs' l l' c :
  NoDup (id <$> (l ++ l')) ->
  step_id <$> rs = id <$> l -> step_id <$> rs' = id <$> l' ->
  ran (rs ++ rs') c ->
  (c ∈ l -> ran rs c) /\ (c ∈ l' -> ran rs' c).
Proof.
  rewrite fmap_app. intros (_ & Hdis & _)%NoDup_app H1 H2 (r & Hr & Hid & Hst).
  apply elem_of_app in Hr as [Hr|Hr]; split; intros Hc; try (by exists r); exfalso.
  - apply (Hdis (id c)); [|by apply list_elem_of_fmap_2].
    rewrite <- H1, <- Hid. by apply list_elem_of_fmap_2.
  - apply (Hdis (id c)); [by apply list_elem_of_fmap_2|].
    rewrite <- H2, <- Hid. by apply list_elem_of_fmap_2.
Qed.

Lemma skipped_not_ran reason l c : ~ ran (skip_results reason l) c.
Proof. intros (r & Hr & _ & Hs). by apply Hs, (skip_results_status reason l). Qed.

Definition parents_completed (rs : list StepResult) (l : list StepDef) : Prop :=
  forall p c, p ∈ forest l -> c ∈ sub_steps p -> ran rs c -> completed rs p.

(** A node, its sub-steps and its later siblings. *)
Lemma parents_completed_cons s l r rs2 rs3 :
  NoDup (id <$> forest (s :: l)) ->
  step_id r = id s ->
  step_id <$> rs2 = id <$> forest (sub_steps s) -> step_id <$> rs3 = id <$> forest l ->
  (status r = StepStatus.Completed \/ forall c, ~ ran rs2 c) ->
  (NoDup (id <$> forest (sub_steps s)) -> parents_completed rs2 (sub_steps s)) ->
  (NoDup (id <$> forest l) -> parents_completed rs3 l) ->
  parents_completed (r :: rs2 ++ rs3) (s :: l).
Proof.
  rewrite forest_cons, subtree_unfold. intros Hnd Hr Hids2 Hids3 Hst H2 H3 p c.
  rewrite forest_cons, subtree_unfold. intros Hp Hc Hran.
  destruct (ran_app [r] (rs2 ++ rs3) [s] (forest (sub_steps s) ++ forest l) c Hnd)
    as [_ H23]; [cbn; by rewrite Hr|by rewrite !fmap_app, Hids2, Hids3|done|].
  cbn in Hnd. apply NoDup_cons in Hnd as [_ Hnd].
  assert (c ∈ forest (sub_steps s) ++ forest l) as Hin.
  { apply elem_of_cons in Hp as [->|Hp]; [|apply elem_of_app in Hp as [Hp|Hp]];
      apply elem_of_app; [left|left|right; by eapply child_in_forest|..].
    - apply list_elem_of_In, in_flat_map. exists c. rewrite <- !list_elem_of_In.
      split; [done|]. rewrite subtree_unfold. left.
    - by eapply child_in_forest. }
  destruct (ran_app rs2 rs3 (forest (sub_steps s)) (forest l) c Hnd Hids2 Hids3 (H23 Hin))
    as [Hr2 Hr3].
  rewrite fmap_app in Hnd. apply NoDup_app in Hnd as (Hnd2 & _ & Hnd3).
  apply elem_of_cons in Hp as [->|Hp].
  - destruct Hst as [Hst|Hst]; [exists r; split; [left|done]|].
    destruct (Hst c). apply Hr2, list_elem_of_In, in_flat_map. exists c.
    rewrite <- !list_elem_of_In. split; [done|]. rewrite subtree_unfold. left.
  - apply (completed_app_r _ [r]). apply elem_of_app in Hp as [Hp|Hp].
    + apply completed_app_l, (H2 Hnd2 p c); [done|done|]. apply Hr2. by eapply child_in_forest.
    + apply completed_app_r, (H3 Hnd3 p c); [done|done|]. apply Hr3. by eapply child_in_forest.
Qed.

(** A sub-step that ran has a parent that completed. *)
Lemma tree_story_parents siblings prior failed l m rs :
  tree_story timeout token cx siblings prior failed l m rs ->
  NoDup (id <$> forest l) -> parents_completed rs l.
Proof.
  induction 1 as [|? ? ? s l reason m rs _ Hs IH|? ? s l m1 m2 m3 r rs2 rs3 _ Hd Hok Hs2 IH2 Hs3 IH3
                 |? ? s l m1 m3 r rs3 _ Hd Hst Hs3 IH3]; intros Hnd.
  - intros p c Hp. by apply not_elem_of_nil in Hp.
  - rewrite skip_results_cons, app_nil_r. apply parents_completed_cons; eauto using skip_results_ids,
      tree_story_ids, skipped_not_ran.
    intros _ p c _ _ Hran. by destruct (skipped_not_ran _ _ _ Hran).
  - apply parents_completed_cons; eauto using tree_story_ids. apply Hd.
  - apply parents_completed_cons; eauto using skip_results_ids, tree_story_ids, skipped_not_ran;
      [apply Hd|].
    intros _ p c _ _ Hran. by destruct (skipped_not_ran _ _ _ Hran).
Qed.
End HierFacts.

(** ** Properties *)

(** C13. Hierarchical execution follows its rules at every node, whatever
    handlers, clock and token do: a node is skipped with its whole subtree (for
    a cancellation, a failed sibling before it, the flow's timeout, or its
    condition); or it runs, and then its sub-steps are executed if it completed
    and skipped as "parent step failed" if it failed, in which case its later
    siblings are skipped too.  A panic comes from the execution of a step. *)
Theorem hierarchical_run `{JN : JsonNumber} `{JL : !JsonLib} `{UL : UuidLib}
    `{BP : BuildProfile} T o steps timeout start token cx :
  legal_oracle T o -> Forall (fun s => 0 <= max_retries s <= u32_max) (forest steps) ->
  tree_outcome timeout token cx steps [] false steps
    (marks (exec o [] (run_hierarchical steps timeout start token cx)).1)
    (exec o [] (run_hierarchical steps timeout start token cx)).2.
Proof.
  intros Ho Hr. apply (does_exec T o); [done|apply local_run_hierarchical|].
  by apply does_execute_tree.
Qed.

(** A hierarchical run returns one result per step of the forest, in
    pre-order, and a sub-step only runs under a parent that completed: the
    descendants of a step that failed or was skipped are all skipped. *)
Theorem hierarchical_parents_first `{JN : JsonNumber} `{JL : !JsonLib} `{UL : UuidLib}
    `{BP : BuildProfile} T o steps timeout start token cx rs :
  legal_oracle T o -> Forall (fun s => 0 <= max_retries s <= u32_max) (forest steps) ->
  NoDup (id <$> forest steps) ->
  (exec o [] (run_hierarchical steps timeout start token cx)).2 = Returned rs ->
  step_id <$> rs = id <$> forest steps /\
  forall p c rc, p ∈ forest steps -> c ∈ sub_steps p ->
    rc ∈ rs -> step_id rc = id c -> status rc <> StepStatus.Skipped ->
    exists rp, rp ∈ rs /\ step_id rp = id p /\ status rp = StepStatus.Completed.
Proof.
  intros Ho Hr Hnd Hret.
  assert (H := does_exec T o _ _ Ho (local_run_hierarchical steps timeout start token cx)
                 (does_execute_tree timeout start token cx steps [] Hr)).
  rewrite Hret in H. destruct H as (new & -> & H). cbn [app].
  split; [by eapply tree_story_ids|]. intros p c rc Hp Hc Hrc Hid Hst.
  apply (tree_story_parents _ _ _ _ _ _ _ _ _ H Hnd p c Hp Hc). by exists rc.
Qed.

(** ** Witnesses *)

Module HierarchicalExamples.
Export SequentialExamples.

Definition smoke : StepDef := step_new 3%N "smoke".
Definition deploy : StepDef := with_sub_step (step_new 1%N "deploy") smoke.
Definition tree : list StepDef := [deploy; test].

Lemma tree_bounded : Forall (fun s => 0 <= max_retries s <= u32_max) (forest tree).
Proof. repeat constructor; cbn; unfold u32_max; lia. Qed.

Lemma tree_distinct : NoDup (id <$> forest tree).
Proof. apply (bool_decide_eq_true_1 _). reflexivity. Qed.

Definition tree_results : list StepResult :=
  [build_failed; skipped 3%N "parent step failed"; skipped 2%N "prior step failed"].

Definition ok_env : history -> forall a, res a :=
  answers (fun _ _ => HandlerOk Null) (fun _ _ => JoinError "cancelled").
Lemma ok_env_legal : legal_oracle (fun _ _ => True) ok_env.
Proof. by apply answers_legal. Qed.

Definition ok_result (i : StepId) : StepResult :=
  {| step_id := i; status := StepStatus.Completed; output := Null;
     duration_ms := 0; attempts := 1; error := None |}.
End HierarchicalExamples.

#[local] Existing Instances SerdeModel.serde_number SerdeModel.serde_lib
  StepExamples.ids StepExamples.release.

Lemma hierarchical_run_witness :
  let run := exec SequentialExamples.failing_env []
    (run_hierarchical HierarchicalExamples.tree u64_max 0 false StepExamples.cx) in
  run.2 = Returned HierarchicalExamples.tree_results /\
  tree_outcome u64_max false StepExamples.cx HierarchicalExamples.tree [] false
    HierarchicalExamples.tree (marks run.1) run.2.
Proof.
  split; [reflexivity|].
  apply (hierarchical_run (fun _ _ => True) SequentialExamples.failing_env);
    [apply SequentialExamples.failing_env_legal|apply HierarchicalExamples.tree_bounded].
Defined.

Lemma hierarchical_parents_first_witness :
  exists rp, rp ∈ HierarchicalExamples.ok_result <$> [1%N; 3%N; 2%N] /\
    step_id rp = 1%N /\ status rp = StepStatus.Completed.
Proof.
  destruct (hierarchical_parents_first (fun _ _ => True) HierarchicalExamples.ok_env
    HierarchicalExamples.tree u64_max 0 false StepExamples.cx
    (HierarchicalExamples.ok_result <$> [1%N; 3%N; 2%N])) as [_ H];
    [apply HierarchicalExamples.ok_env_legal|apply HierarchicalExamples.tree_bounded
    |apply HierarchicalExamples.tree_distinct|reflexivity|].
  apply (H HierarchicalExamples.deploy HierarchicalExamples.smoke
           (HierarchicalExamples.ok_result 3%N)); [left|left|right; left|done|done].
Defined.
