(* ===== verification/Pool.v ===== *)
(** * Spawned tasks and the semaphore

    The concurrency of [rust-old/src/engine/parallel.rs] and [dag.rs]: a
    coordinator spawns one task per step; a task acquires a permit of a shared
    semaphore, executes its step and drops the permit when it ends, unwinds or
    is aborted.  A configuration holds the coordinator, the tasks and the
    permits; [step] lets any of them move, so that reachable configurations are
    those of every schedule.

    [adequacy] carries what [wp] proves of a coordinator to every schedule;
    [progress] and [step_acc] give deadlock freedom and termination. *)

From Stdlib Require Import ZArith Lia.
From stdpp Require Import base tactics option list strings relations.
From S2P Require Import Prelude Json State Step Condition EngineResult Prog StepExec.

Open Scope Z_scope.

(** ** Complete runs of a program *)

Section Runs.
Context `{JN : JsonNumber} `{JL : !JsonLib}.

(** [runs p h h' o]: from history [h], [p] can end with history [h'] and
    outcome [o]. *)
Fixpoint runs {A} (p : prog A) (h h' : history) (o : outcome A) : Prop :=
  match p with
  | Done out => h' = h /\ o = out
  | Act a k =>
      exists r, legal (fun _ _ => True) h a r /\ runs (k r) (h ++ [Call a r]) h' o
  end.

Lemma wp_runs {A} h (p : prog A) Q h' o :
  wp (fun _ _ => True) h p Q -> runs p h h' o -> Q h' o.
Proof.
  revert h. induction p as [out|a k IH]; intros h; cbn.
  - by intros ? [-> ->].
  - intros [_ H] (r & Hr & Hruns). by eapply IH; [apply H|].
Qed.

(** A run of a sequence is a run of its first part, then, if that returned, of
    the continuation. *)
Lemma runs_bind {A B} (p : prog A) (k : A -> prog B) h h' o :
  runs (bind p k) h h' o ->
  (exists h1 x, runs p h h1 (Returned x) /\ runs (k x) h1 h' o) \/
  (runs p h h' Panicked /\ o = Panicked) \/ (runs p h h' OutOfFuel /\ o = OutOfFuel).
Proof.
  revert h. induction p as [[x| |]|a f IH]; intros h; cbn.
  - intros H. left. by exists h, x.
  - intros [-> ->]. auto.
  - intros [-> ->]. auto.
  - intros (r & Hr & H). destruct (IH r _ H) as [(h1 & x & H1 & H2)|[[H1 ->]|[H1 ->]]];
      [left; exists h1, x|right; left|right; right]; eauto.
Qed.

Lemma runs_perform {B} a (k : res a -> prog B) h h' o :
  runs (bind (perform a) k) h h' o ->
  exists r, legal (fun _ _ => True) h a r /\ runs (k r) (h ++ [Call a r]) h' o.
Proof. done. Qed.

Lemma runs_finally {A} (p : prog A) (c : prog unit) h h' o :
  runs (finally p c) h h' o ->
  exists h1 o1, runs p h h1 o1 /\ runs (bind c (fun _ => Done o1)) h1 h' o.
Proof.
  revert h. induction p as [out|a k IH]; intros h; cbn [finally runs].
  - intros H. by exists h, out.
  - intros (r & Hr & H). destruct (IH r _ H) as (h1 & o1 & H1 & H2).
    exists h1, o1. split; [by exists r|done].
Qed.

Lemma runs_only {A} P (p : prog A) h h' o :
  only P p -> runs p h h' o ->
  exists new, h' = h ++ new /\ Forall (fun c => P (call_act c)) new.
Proof.
  revert h. induction p as [out|a k IH]; intros h; cbn [only runs].
  - intros _ [-> _]. exists []. by rewrite app_nil_r.
  - intros [Ha Hk] (r & Hr & H). destruct (IH r _ (Hk r) H) as (new & -> & Hnew).
    exists (Call a r :: new). rewrite <- app_assoc. split; [done|]. by constructor.
Qed.

Lemma runs_leaves {A} P (p : prog A) h h' x :
  leaves P p -> runs p h h' (Returned x) -> P x.
Proof.
  revert h. induction p as [out|a k IH]; intros h; cbn [leaves runs].
  - intros Hp [_ <-]. exact Hp.
  - intros Hp (r & _ & H). by eapply IH.
Qed.

(** What a local program does does not depend on where it starts. *)
Lemma runs_local {A} (p : prog A) h pre h' o :
  local p -> runs p (h ++ pre) h' o -> exists new, h' = h ++ new /\ runs p pre new o.
Proof.
  revert pre. induction p as [out|a k IH]; intros pre; cbn [local runs].
  - intros _ [-> ->]. by exists pre.
  - intros [Ha Hk] (r & Hr & H). rewrite <- app_assoc in H.
    destruct (IH r (pre ++ [Call a r]) (Hk r) H) as (new & -> & Hnew).
    exists new. split; [done|]. exists r. split; [by eapply legal_local|done].
Qed.

Lemma runs_bind_local {A B} (p : prog A) (k : A -> prog B) new o :
  (forall x, local (k x)) -> runs (bind p k) [] new o ->
  (exists n1 n2 x, new = n1 ++ n2 /\ runs p [] n1 (Returned x) /\ runs (k x) [] n2 o) \/
  (runs p [] new Panicked /\ o = Panicked) \/ (runs p [] new OutOfFuel /\ o = OutOfFuel).
Proof.
  intros Hk [(h1 & x & H1 & H2)|H]%runs_bind; [left|by right].
  rewrite <- (app_nil_r h1) in H2. destruct (runs_local _ _ _ _ _ (Hk x) H2) as (n2 & -> & H3).
  by exists h1, n2, x.
Qed.

Lemma runs_perform_local {B} a (k : res a -> prog B) new o :
  (forall r, local (k r)) -> runs (bind (perform a) k) [] new o ->
  exists r n, new = Call a r :: n /\ legal (fun _ _ => True) [] a r /\ runs (k r) [] n o.
Proof.
  intros Hk (r & Hr & H)%runs_perform. cbn [app] in H.
  rewrite <- (app_nil_r [Call a r]) in H.
  destruct (runs_local _ _ _ _ _ (Hk r) H) as (n & -> & H3). by exists r, n.
Qed.

(** A local program is verified by its runs. *)
Lemma wp_local_story {A} T h (p : prog A) (Q : history -> outcome A -> Prop) :
  local p -> (forall h' o, runs p h h' o -> same_tasks h h' -> Q h' o) -> wp T h p Q.
Proof.
  intros Hp HQ.
  assert (wp T h p (fun h' o => runs p h h' o)) as Hw.
  { clear HQ. revert h. induction p as [out|a k IH]; intros h; cbn [wp runs]; [done|].
    destruct Hp as [Ha Hk]. split; [by apply joinable_local|]. intros r Hr.
    eapply wp_mono; [|by apply IH]. intros h' o H. exists r. split; [by eapply legal_local|done]. }
  eapply wp_mono; [|apply (wp_conj _ _ _ _ _ Hw (wp_local_tasks T h p Hp))].
  cbn. intros h' o [H1 H2]. by apply HQ.
Qed.

Lemma wp_local_runs {A} T h (p : prog A) (Q : history -> outcome A -> Prop) :
  local p ->
  (forall h' o, runs p h h' o -> (forall n, aborted h' n = aborted h n) -> Q h' o) ->
  wp T h p Q.
Proof.
  intros Hp HQ. apply wp_local_story; [done|]. intros h' o H1 H2. apply HQ; [done|].
  intros n. by apply same_aborted.
Qed.

(** Runs against an oracle are runs. *)
Lemma exec_runs {A} T o h (p : prog A) :
  legal_oracle T o -> runs p h (exec o h p).1 (exec o h p).2.
Proof.
  intros Ho. revert h. induction p as [out|a k IH]; intros h; cbn; [done|].
  exists (o h a). split; [|apply IH]. by eapply legal_any.
Qed.
End Runs.

(** ** Configurations *)

Section Pool.
Context `{JN : JsonNumber} `{JL : !JsonLib} `{UL : UuidLib} `{BP : BuildProfile}.
Context (cx : ExecCtx) {A : Type}.

(** The future a task runs once it has its permit. *)
Definition task_body (s : StepDef) : prog StepResult := execute_step_with_handler cx s.

(** The result of a task that finds the semaphore closed. *)
Definition semaphore_closed (i : StepId) : StepResult :=
  {| step_id := i; status := StepStatus.Failed; output := Null;
     duration_ms := 0; attempts := 0; error := Some "semaphore closed" |}.

Inductive task : Type :=
| Waiting (s : StepDef)
| Running (s : StepDef) (p : prog StepResult) (h : history)
| Finished (s : StepDef) (r : join_result).

Definition task_step_def (t : task) : StepDef :=
  match t with Waiting s | Running s _ _ | Finished s _ => s end.
Definition is_running (t : task) : bool :=
  match t with Running _ _ _ => true | _ => false end.

Record config : Type := mkConfig {
  permits : nat;
  closed : bool;
  tasks : list task;
  coord : prog A;
  coord_history : history
}.

(** [Semaphore::new(max_concurrency.max(1))], nothing spawned. *)
Definition start_config (max_concurrency : nat) (p : prog A) : config :=
  {| permits := Nat.max max_concurrency 1; closed := false; tasks := [];
     coord := p; coord_history := [] |}.

Definition set_task (c : config) (n : nat) (t : task) (free : nat) : config :=
  {| permits := free; closed := closed c; tasks := <[n := t]> (tasks c);
     coord := coord c; coord_history := coord_history c |}.

(** ** Moves *)

Definition new_task (a : act) : list task :=
  match a with Spawn s => [Waiting s] | _ => [] end.

(** A call of the coordinator can be answered: [spawn] returns the handle of
    the new task, a join waits for the task to be finished; there is no fleet. *)
Definition answered (c : config) (a : act) : res a -> Prop :=
  match a with
  | Spawn _ => fun n => n = length (tasks c)
  | Await n => fun r => exists s, tasks c !! n = Some (Finished s r)
  | FleetReceive _ _ => fun r => r = None
  | a => legal (fun _ _ => True) (coord_history c) a
  end.

Definition coord_step (c c' : config) : Prop :=
  match coord c with
  | Done _ => False
  | Act a k => exists r, answered c a r /\
      c' = {| permits := permits c; closed := closed c; tasks := tasks c ++ new_task a;
              coord := k r; coord_history := coord_history c ++ [Call a r] |}
  end.

(** What joining a task that ended with [o] returns. *)
Definition join_of (o : outcome StepResult) (r : join_result) : Prop :=
  match o with
  | Returned x => r = Joined x
  | Panicked | OutOfFuel => exists e, r = JoinError e
  end.

Definition task_step (n : nat) (c c' : config) : Prop :=
  match tasks c !! n with
  | Some (Waiting s) =>
      (closed c = true /\
         c' = set_task c n (Finished s (Joined (semaphore_closed (id s)))) (permits c)) \/
      (closed c = false /\ exists free, permits c = S free /\
         c' = set_task c n (Running s (task_body s) []) free) \/
      (aborted (coord_history c) n = true /\ exists e,
         c' = set_task c n (Finished s (JoinError e)) (permits c))
  | Some (Running s (Done o) h) =>
      exists r, join_of o r /\ c' = set_task c n (Finished s r) (S (permits c))
  | Some (Running s (Act a k) h) =>
      (exists r, legal (fun _ _ => True) h a r /\
         c' = set_task c n (Running s (k r) (h ++ [Call a r])) (permits c)) \/
      (aborted (coord_history c) n = true /\ exists e,
         c' = set_task c n (Finished s (JoinError e)) (S (permits c)))
  | _ => False
  end.

Definition step (c c' : config) : Prop := coord_step c c' \/ exists n, task_step n c c'.

(** ** The invariant *)

Definition running (c : config) : nat := length (List.filter is_running (tasks c)).

(** The outcomes a task of step [s] can be joined with. *)
Definition task_result (s : StepDef) (r : join_result) : Prop :=
  exists h o, runs (task_body s) [] h o /\ join_of o r.

Definition task_ok (h : history) (n : nat) (t : task) : Prop :=
  match t with
  | Waiting _ => True
  | Running s p hs =>
      local p /\ forall h' o, runs p hs h' o -> runs (task_body s) [] h' o
  | Finished s r => task_result s r \/ (aborted h n = true /\ exists e, r = JoinError e)
  end.

Record pool_inv (limit : nat) (c : config) : Prop := {
  inv_permits : (permits c + running c)%nat = limit;
  inv_closed : closed c = false;
  inv_spawned : spawned (coord_history c) = task_step_def <$> tasks c;
  inv_tasks n t : tasks c !! n = Some t -> task_ok (coord_history c) n t
}.

Lemma running_insert c n t t' free :
  tasks c !! n = Some t ->
  (running (set_task c n t' free) + (if is_running t then 1 else 0)
    = running c + (if is_running t' then 1 else 0))%nat.
Proof.
  unfold running, set_task. cbn. generalize (tasks c) as l. intros l Hn. revert n Hn.
  induction l as [|x l IH]; intros [|n] Hn; simpl in *; [done..| |].
  - simplify_eq/=. destruct (is_running t), (is_running t'); cbn; lia.
  - specialize (IH n Hn). destruct (is_running x); cbn [length]; lia.
Qed.

Lemma pool_inv_start n p : pool_inv (Nat.max n 1) (start_config n p).
Proof.
  split; cbn; [unfold running; cbn; lia|done|done|]. intros k t Hk. by rewrite lookup_nil in Hk.
Qed.

Lemma aborted_snoc h x n : aborted h n = true -> aborted (h ++ [x]) n = true.
Proof. unfold aborted. rewrite existsb_app. by intros ->. Qed.

Lemma task_ok_snoc h x n t : task_ok h n t -> task_ok (h ++ [x]) n t.
Proof. destruct t; cbn; [done..|]. intros [H|[H He]]; [by left|right; auto using aborted_snoc]. Qed.

Lemma spawned_snoc a (r : res a) h :
  spawned (h ++ [Call a r]) = spawned h ++ (task_step_def <$> new_task a).
Proof. unfold spawned. rewrite omap_app. by destruct a. Qed.

Lemma filter_new_task a : List.filter is_running (new_task a) = [].
Proof. by destruct a. Qed.

Lemma coord_step_inv limit c c' : pool_inv limit c -> coord_step c c' -> pool_inv limit c'.
Proof.
  intros [Hp Hc Hs Ht]. unfold coord_step. destruct (coord c) as [|a k]; [done|].
  intros (r & Hr & ->). split; cbn [permits closed tasks coord_history].
  - unfold running in *. cbn [tasks]. by rewrite List.filter_app, filter_new_task, app_nil_r.
  - done.
  - by rewrite spawned_snoc, Hs, fmap_app.
  - intros n t [Hn|[Hge Hn]]%lookup_app_Some; [by apply task_ok_snoc, Ht|].
    apply list_elem_of_lookup_2 in Hn. by destruct a; cbn in Hn; (apply list_elem_of_singleton in Hn as -> || apply not_elem_of_nil in Hn).
Qed.

(** Replacing one task by a correct one. *)
Lemma set_task_inv limit c n t t' free :
  pool_inv limit c -> tasks c !! n = Some t ->
  task_step_def t' = task_step_def t -> task_ok (coord_history c) n t' ->
  (free + (if is_running t' then 1 else 0) = permits c + (if is_running t then 1 else 0))%nat ->
  pool_inv limit (set_task c n t' free).
Proof.
  intros [Hp Hc Hs Ht] Hn Hd Hok Hfree. pose proof (running_insert c n t t' free Hn) as Hrun.
  split; cbn [set_task permits closed tasks coord_history].
  - unfold set_task in Hrun |- *. cbn in *. destruct (is_running t), (is_running t'); lia.
  - done.
  - rewrite Hs, list_fmap_insert, list_insert_id; [done|]. by rewrite list_lookup_fmap, Hn, Hd.
  - intros k u [(-> & <- & _)|[_ Hk]]%list_lookup_insert_Some; [done|by apply Ht].
Qed.

Lemma task_step_inv limit n c c' : pool_inv limit c -> task_step n c c' -> pool_inv limit c'.
Proof.
  intros Hinv. unfold task_step. destruct (tasks c !! n) as [[s|s p h|s r]|] eqn:Hn; [| |done..].
  - intros [[Hc _]|[(_ & free & Hf & ->)|(Hab & e & ->)]];
      [by rewrite (inv_closed _ _ Hinv) in Hc| |];
      eapply (set_task_inv _ _ _ _ _ _ Hinv Hn); cbn; eauto with szal; lia.
  - pose proof (inv_tasks _ _ Hinv _ _ Hn) as [Hl Hok]. destruct p as [o|a k].
    + intros (r & Hr & ->). eapply (set_task_inv _ _ _ _ _ _ Hinv Hn); cbn; [done| |lia].
      left. exists h, o. split; [by apply Hok|done].
    + intros [(r & Hr & ->)|(Hab & e & ->)];
        eapply (set_task_inv _ _ _ _ _ _ Hinv Hn); cbn; eauto; try lia.
      split; [apply Hl|]. intros h' o Hruns. apply Hok. by exists r.
Qed.

Lemma pool_inv_step limit c c' : step c c' -> pool_inv limit c -> pool_inv limit c'.
Proof. intros [H|[n H]] Hi; [by eapply coord_step_inv|by eapply task_step_inv]. Qed.

Lemma pool_inv_reachable n p c : rtc step (start_config n p) c -> pool_inv (Nat.max n 1) c.
Proof.
  remember (start_config n p) as c0 eqn:E. intros H.
  assert (pool_inv (Nat.max n 1) c0) as Hi by (subst; apply pool_inv_start).
  clear E. induction H; eauto using pool_inv_step.
Qed.

(** ** Adequacy *)

Lemma answered_legal limit c a r :
  pool_inv limit c -> answered c a r -> legal task_result (coord_history c) a r.
Proof.
  intros Hi Hr. pose proof (inv_spawned _ _ Hi) as Hs.
  destruct a; try done; cbn in Hr |- *.
  - by rewrite Hs, length_fmap.
  - destruct Hr as [s Hn]. rewrite Hs, list_lookup_fmap, Hn. cbn.
    exact (inv_tasks _ _ Hi _ _ Hn).
  - by subst.
Qed.

(** The coordinator's part of a reachable configuration is a legal run. *)
Lemma coord_wp limit c c' Q :
  rtc step c c' -> pool_inv limit c ->
  wp task_result (coord_history c) (coord c) Q ->
  wp task_result (coord_history c') (coord c') Q.
Proof.
  induction 1 as [|c c1 c' Hstep _ IH]; [done|]. intros Hi Hwp.
  apply IH; [by eapply pool_inv_step|]. clear IH. destruct Hstep as [Hc|[n Hn]].
  - unfold coord_step in Hc. destruct (coord c) as [|a k]; [done|].
    destruct Hc as (r & Hr & ->). apply Hwp. by eapply answered_legal.
  - unfold task_step in Hn. destruct (tasks c !! n) as [[s|s [o|a k] h|s r]|]; [| | |done..];
      naive_solver.
Qed.

(** ... and so is a complete run of it. *)
Lemma coord_runs limit c c' o :
  rtc step c c' -> pool_inv limit c -> coord c' = Done o ->
  runs (coord c) (coord_history c) (coord_history c') o.
Proof.
  induction 1 as [c|c c1 c' Hstep _ IH]; intros Hi Hdone; [by rewrite Hdone|].
  specialize (IH (pool_inv_step _ _ _ Hstep Hi) Hdone). destruct Hstep as [Hc|[n Hn]].
  - unfold coord_step in Hc. destruct (coord c) as [|a k]; [done|].
    destruct Hc as (r & Hr & ->). exists r. split; [|done].
    by eapply legal_any, answered_legal.
  - unfold task_step in Hn. destruct (tasks c !! n) as [[s|s [o'|a k] h|s r]|]; [| | |done..];
      naive_solver.
Qed.

(** ** Progress *)

Lemma legal_answer a h : exists r, legal (fun _ _ => True) h a r.
Proof.
  exists (answers (fun _ _ => HandlerPanic) (fun _ _ => JoinError "") h a).
  apply answers_legal; done.
Qed.

Lemma running_progress limit c n s p h :
  pool_inv limit c -> tasks c !! n = Some (Running s p h) -> exists c', step c c'.
Proof.
  intros Hi Hn. pose proof (inv_tasks _ _ Hi _ _ Hn) as [Hl _].
  destruct p as [o|a k].
  - assert (exists r, join_of o r) as [r Hr].
    { destruct o as [x| |]; [by exists (Joined x)|..]; exists (JoinError ""); by exists "". }
    exists (set_task c n (Finished s r) (S (permits c))). right. exists n.
    unfold task_step. rewrite Hn. eauto.
  - destruct (legal_answer a h) as [r Hr].
    exists (set_task c n (Running s (k r) (h ++ [Call a r])) (permits c)). right. exists n.
    unfold task_step. rewrite Hn. eauto.
Qed.

Lemma some_running c : (0 < running c)%nat -> exists n s p h, tasks c !! n = Some (Running s p h).
Proof.
  unfold running. intros H.
  destruct (List.filter is_running (tasks c)) as [|t l] eqn:E; [cbn in H; lia|].
  assert (In t (List.filter is_running (tasks c))) as Ht by (rewrite E; by left).
  apply filter_In in Ht as [Ht Hr]. apply list_elem_of_In, list_elem_of_lookup in Ht as [n Hn].
  destruct t as [|s p h|]; [done| |done]. by exists n, s, p, h.
Qed.

(** No deadlock: while the coordinator has not ended, something can move. *)
Lemma progress limit c Q :
  (0 < limit)%nat -> pool_inv limit c -> wp task_result (coord_history c) (coord c) Q ->
  (exists o, coord c = Done o) \/ exists c', step c c'.
Proof.
  intros Hlim Hi Hwp. destruct (coord c) as [o|a k] eqn:Ec; [by left; exists o|right].
  destruct Hwp as [Hj _].
  assert ((exists r, answered c a r) -> exists c', step c c') as Hgo.
  { intros [r Hr]. eexists. left. unfold coord_step. rewrite Ec. by exists r. }
  destruct a as [| | | | | | | | | | | |n| | | | | | | | | | | | | | | | | | | |];
    try apply Hgo, legal_answer.
  - apply Hgo. by exists (length (tasks c)).
  - cbn in Hj. rewrite (inv_spawned _ _ Hi), length_fmap in Hj.
    apply lookup_lt_is_Some in Hj as [t Hn]. destruct t as [s|s p h|s r].
    + destruct (permits c) as [|free] eqn:Ep.
      * destruct (some_running c) as (n' & s' & p & h & Hn').
        { pose proof (inv_permits _ _ Hi). lia. }
        by eapply running_progress.
      * exists (set_task c n (Running s (task_body s) []) free). right. exists n.
        unfold task_step. rewrite Hn. right. left. split; [apply Hi|]. eauto.
    + by eapply running_progress.
    + apply Hgo. by exists r, s.
  - apply Hgo. by exists None.
Qed.

(** ** Termination *)

(** A move of one task. *)
Definition task_lt (t' t : task) : Prop :=
  match t, t' with
  | Waiting s, Running s' p _ => s' = s /\ p = task_body s
  | Waiting _, Finished _ _ => True
  | Running s (Act a k) h, Running s' p h' => exists r, p = k r
  | Running _ _ _, Finished _ _ => True
  | _, _ => False
  end.

Lemma finished_acc s r : Acc task_lt (Finished s r).
Proof. constructor. by intros []. Qed.

Lemma running_acc p : forall s h, Acc task_lt (Running s p h).
Proof.
  induction p as [o|a k IH]; intros s h; constructor; intros [s'|s' p' h'|s' r] Hlt; cbn in Hlt.
  - destruct Hlt.
  - destruct Hlt.
  - apply finished_acc.
  - destruct Hlt.
  - destruct Hlt as (r & ->). apply IH.
  - apply finished_acc.
Qed.

Lemma task_acc t : Acc task_lt t.
Proof.
  destruct t as [s|s p h|s r]; [|apply running_acc|apply finished_acc].
  constructor. intros [|s' p h|s' r]; cbn; [done|intros; apply running_acc|].
  intros _. apply finished_acc.
Qed.

(** One element of a list replaced by a smaller one. *)
Definition list_lt (l' l : list task) : Prop :=
  exists n t t', l !! n = Some t /\ task_lt t' t /\ l' = <[n := t']> l.

Lemma list_lt_acc l : Acc list_lt l.
Proof.
  induction l as [|t l IH].
  { constructor. intros l' (n & t & t' & Hn & _). by rewrite lookup_nil in Hn. }
  revert l IH. induction (task_acc t) as [t _ IHt]. intros l Hl.
  induction Hl as [l Hl IHl]. constructor. intros l' ([|n] & u & u' & Hn & Hu & ->); simpl in *.
  - injection Hn as ->. apply IHt; [done|]. by constructor.
  - apply IHl. by exists n, u, u'.
Qed.

Lemma task_step_lt n c c' :
  task_step n c c' -> list_lt (tasks c') (tasks c) /\ coord c' = coord c.
Proof.
  unfold task_step, list_lt. intros H.
  destruct (tasks c !! n) as [t|] eqn:Hn; [|done].
  destruct t as [s|s [o|a k] h|s r]; [| | |done].
  - destruct H as [(_ & ->)|[(_ & free & _ & ->)|(_ & e & ->)]];
      (split; [|done]); eexists n, _, _; (split; [exact Hn|]); (split; [|reflexivity]); done.
  - destruct H as (r & _ & ->). split; [|done]. eexists n, _, _.
    split; [exact Hn|]. by split; [|reflexivity].
  - destruct H as [(r & _ & ->)|(_ & e & ->)]; (split; [|done]); eexists n, _, _;
      (split; [exact Hn|]); (split; [|reflexivity]); [by exists r|done].
Qed.

(** Every schedule ends: no configuration starts an infinite execution. *)
Lemma step_acc c : Acc (fun c' c => step c c') c.
Proof.
  remember (coord c) as p eqn:Ep. revert c Ep.
  induction p as [o|a k IH]; intros c; remember (tasks c) as l eqn:El; revert c El;
    induction (list_lt_acc l) as [l _ IHl]; intros c -> Ep; constructor;
    intros c' [Hc|[n Hn]].
  - unfold coord_step in Hc. by rewrite <- Ep in Hc.
  - apply task_step_lt in Hn as [Hlt Hco]. eapply IHl; [exact Hlt|done|congruence].
  - unfold coord_step in Hc. rewrite <- Ep in Hc. destruct Hc as (r & _ & ->).
    by eapply (IH r).
  - apply task_step_lt in Hn as [Hlt Hco]. eapply IHl; [exact Hlt|done|congruence].
Qed.

(** Hence a coordinator that joins only its own tasks ends under every
    schedule, and from every configuration it can still end. *)
Lemma reaches_end limit c Q :
  (0 < limit)%nat -> pool_inv limit c -> wp task_result (coord_history c) (coord c) Q ->
  exists c' o, rtc step c c' /\ coord c' = Done o /\ Q (coord_history c') o.
Proof.
  intros Hlim. induction (step_acc c) as [c _ IH]. intros Hi Hwp.
  destruct (progress limit c Q Hlim Hi Hwp) as [[o Ho]|[c1 Hs]].
  - exists c, o. rewrite Ho in Hwp. split_and!; [apply rtc_refl|done|done].
  - destruct (IH c1 Hs) as (c' & o & Hr & Ho & HQ).
    + by eapply pool_inv_step.
    + eapply coord_wp; [by apply rtc_once|done|done].
    + exists c', o. split_and!; [by eapply rtc_l|done|done].
Qed.

(** ** A scheduler

    One schedule, computed: the coordinator moves when it can, else the first
    task that can.  Outside answers come from an oracle. *)

Definition answer (c : config) (a : act) : res a -> option (res a) :=
  match a return res a -> option (res a) with
  | Spawn _ => fun _ => Some (length (tasks c))
  | Await n => fun _ =>
      match tasks c !! n with Some (Finished _ r) => Some r | _ => None end
  | FleetReceive _ _ => fun _ => Some None
  | _ => Some
  end.

Definition coord_move (o : history -> forall a, res a) (c : config) : option config :=
  match coord c with
  | Done _ => None
  | Act a k =>
      match answer c a (o (coord_history c) a) with
      | None => None
      | Some r => Some
          {| permits := permits c; closed := closed c; tasks := tasks c ++ new_task a;
             coord := k r; coord_history := coord_history c ++ [Call a r] |}
      end
  end.

Definition join_value (o : outcome StepResult) : join_result :=
  match o with Returned x => Joined x | _ => JoinError "panic" end.

Definition task_move (o : history -> forall a, res a) (c : config) (n : nat) : option config :=
  match tasks c !! n with
  | Some (Waiting s) =>
      if closed c then Some (set_task c n (Finished s (Joined (semaphore_closed (id s)))) (permits c))
      else match permits c with
           | O => None
           | S free => Some (set_task c n (Running s (task_body s) []) free)
           end
  | Some (Running s (Done out) h) => Some (set_task c n (Finished s (join_value out)) (S (permits c)))
  | Some (Running s (Act a k) h) =>
      Some (set_task c n (Running s (k (o h a)) (h ++ [Call a (o h a)])) (permits c))
  | _ => None
  end.

Fixpoint first_move (o : history -> forall a, res a) (c : config) (ns : list nat)
  : option config :=
  match ns with
  | [] => None
  | n :: ns => match task_move o c n with Some c' => Some c' | None => first_move o c ns end
  end.

Fixpoint drive (fuel : nat) (o : history -> forall a, res a) (c : config) : config :=
  match fuel with
  | O => c
  | S fuel =>
      match coord_move o c with
      | Some c' => drive fuel o c'
      | None =>
          match first_move o c (seq 0 (length (tasks c))) with
          | Some c' => drive fuel o c'
          | None => c
          end
      end
  end.

Lemma coord_move_step o c c' :
  legal_oracle (fun _ _ => True) o -> coord_move o c = Some c' -> step c c'.
Proof.
  intros Ho. unfold coord_move. intros H. left. unfold coord_step.
  destruct (coord c) as [|a k]; [done|].
  destruct (answer c a (o (coord_history c) a)) as [r|] eqn:Ea; [|done].
  injection H as <-. exists r. split; [|done]. clear k.
  pose proof (Ho (coord_history c) a) as Hlegal.
  destruct a as [| | | | | | | | | | | |n| | | | | | | | | | | | | | | | | | | |]; cbn in Ea |- *;
    try (injection Ea as <-; exact Hlegal); try done.
  - by injection Ea as <-.
  - destruct (tasks c !! n) as [[]|]; [done|done| |done]. injection Ea as <-. eauto.
  - by injection Ea as <-.
Qed.

Lemma task_move_step o c c' n :
  legal_oracle (fun _ _ => True) o -> task_move o c n = Some c' -> step c c'.
Proof.
  intros Ho H. right. exists n. unfold task_move, task_step in *.
  destruct (tasks c !! n) as [[s|s [out|a k] h|]|]; [| | |done..].
  - destruct (closed c); [injection H as <-; auto|].
    destruct (permits c) as [|free]; [done|]. injection H as <-. right. left. eauto.
  - injection H as <-. eexists. split; [|done]. destruct out; cbn; eauto.
  - injection H as <-. left. exists (o h a). split; [apply Ho|done].
Qed.

Lemma drive_reaches fuel o : legal_oracle (fun _ _ => True) o -> forall c, rtc step c (drive fuel o c).
Proof.
  intros Ho. assert (forall ns c c', first_move o c ns = Some c' -> step c c') as Hf.
  { induction ns as [|n ns IH]; intros c c'; cbn; [done|].
    destruct (task_move o c n) eqn:E; [intros [= <-]; by eapply task_move_step|apply IH]. }
  induction fuel as [|fuel IH]; intros c; cbn; [apply rtc_refl|].
  destruct (coord_move o c) as [c1|] eqn:E1; [eapply rtc_l; [by eapply coord_move_step|apply IH]|].
  destruct (first_move o c _) as [c1|] eqn:E2; [|apply rtc_refl].
  eapply rtc_l; [by eapply Hf|apply IH].
Qed.
End Pool.

(** ** Property *)

(** At most [max(max_concurrency, 1)] steps execute at the same time, under
    every schedule and whatever the coordinator and the handlers do: every
    executing task holds a permit of the semaphore, and every permit is either
    free or held by one. *)
Theorem concurrency_bounded `{JN : JsonNumber} `{JL : !JsonLib} `{UL : UuidLib}
    `{BP : BuildProfile} (cx : ExecCtx) {A} (p : prog A) (max_concurrency : nat) c :
  rtc (step cx) (start_config max_concurrency p) c ->
  (running c <= Nat.max max_concurrency 1)%nat /\
  (permits c + running c = Nat.max max_concurrency 1)%nat.
Proof.
  intros H. pose proof (inv_permits _ _ _ (pool_inv_reachable cx _ _ _ H)). lia.
Qed.

Lemma concurrency_bounded_witness :
  let _ := SerdeModel.serde_number in
  let _ := SerdeModel.serde_lib in
  let _ := StepExamples.ids in
  let _ := StepExamples.release in
  let s := step_new 1%N "build" in
  let c := {| permits := 0; closed := false;
              tasks := [Running s (task_body StepExamples.cx s) []; Waiting s];
              coord := ret tt;
              coord_history := [Call (Spawn s) 0%nat; Call (Spawn s) 1%nat] |} in
  rtc (step StepExamples.cx)
    (start_config 1 (let! _ := perform (Spawn s) in let! _ := perform (Spawn s) in ret tt)) c /\
  (running c <= 1)%nat.
Proof.
  intros ? ? ? ? s c.
  assert (rtc (step StepExamples.cx)
    (start_config 1 (let! _ := perform (Spawn s) in let! _ := perform (Spawn s) in ret tt)) c) as H.
  { eapply rtc_l; [left; exists 0%nat; by split|].
    eapply rtc_l; [left; exists 1%nat; by split|].
    eapply rtc_l; [right; exists 0%nat; right; left; split; [done|]; exists 0%nat; by split|].
    apply rtc_refl. }
  split; [done|].
  apply (concurrency_bounded StepExamples.cx
           (let! _ := perform (Spawn s) in let! _ := perform (Spawn s) in ret tt) 1 c H).
Defined.
