(* ===== verification/Parallel.v ===== *)
(** * Parallel execution

    [rust-old/src/engine/parallel.rs]: the coordinator of a parallel flow, which
    spawns a task per step and joins them in order.  The tasks and the semaphore
    are those of [Pool]. *)

From Stdlib Require Import ZArith Lia.
From stdpp Require Import base tactics option list strings relations.
From S2P Require Import Prelude Json State Error Step CondLexer Condition Bus EngineResult.
From S2P Require Import Prog StepExec Sequential Pool.

Open Scope Z_scope.

Section Parallel.
Context `{JN : JsonNumber} `{JL : !JsonLib} `{UL : UuidLib} `{BP : BuildProfile}.

(** A spawned task: its handle, and the id and name of its step (the vectors
    [handles], [step_ids] and [step_names], which grow together). *)
Record handle : Type := mkHandle {
  task_no : nat;
  original_id : StepId;
  step_name : string
}.

(** Conditions are checked before spawning, on the results of the steps
    skipped so far. *)
Fixpoint spawn_loop (all : list StepDef) (cx : ExecCtx) (steps : list StepDef)
    (pre_skipped : list StepResult) (handles : list handle)
  : prog (list StepResult * list handle) :=
  match steps with
  | [] => ret (pre_skipped, handles)
  | s :: rest =>
      let! blocked := condition_blocks s pre_skipped all in
      if blocked then
        let! _ := emit_skip cx s "condition not met" in
        spawn_loop all cx rest (pre_skipped ++ [skipped (id s) "condition not met"]) handles
      else
        let! n := perform (Spawn s) in
        spawn_loop all cx rest pre_skipped (handles ++ [mkHandle n (id s) (name s)])
  end.

Definition panicked_result (i : StepId) (e : string) : StepResult :=
  {| step_id := i; status := StepStatus.Failed; output := Null;
     duration_ms := 0; attempts := 0; error := Some ("task panicked: " +:+ e) |}.

Fixpoint join_loop (timeout start : Z) (token : bool) (cx : ExecCtx) (handles : list handle)
    (results : list StepResult) : prog (list StepResult) :=
  match handles with
  | [] => ret results
  | hd :: rest =>
      let! cancelled := is_cancelled token in
      let! late := is_late cancelled timeout start in
      if late then
        let! _ := perform (AbortTask (task_no hd)) in
        let reason := if cancelled then "cancelled" else "flow timeout exceeded" in
        let! _ := emit_now (event_sink cx) (fun now =>
          Event.step_skipped now (step_name hd) (uuid_to_string (original_id hd)) reason) in
        join_loop timeout start token cx rest (results ++ [skipped (original_id hd) reason])
      else
        let! joined := perform (Await (task_no hd)) in
        match joined with
        | Joined r => join_loop timeout start token cx rest (results ++ [r])
        | JoinError e =>
            join_loop timeout start token cx rest
              (results ++ [panicked_result (original_id hd) e])
        end
  end.

Definition run_parallel (steps : list StepDef) (timeout start : Z) (token : bool)
    (cx : ExecCtx) : prog (list StepResult) :=
  let! (pre_skipped, handles) := spawn_loop steps cx steps [] [] in
  let! results := join_loop timeout start token cx handles [] in
  ret (pre_skipped ++ results).

(** ** What it does *)

(** The steps whose condition is false, and the steps that are spawned. *)
Fixpoint triage (all : list StepDef) (pre : list StepResult) (steps : list StepDef)
  : list StepDef * list StepDef :=
  match steps with
  | [] => ([], [])
  | s :: rest =>
      if blocks all pre s then
        let '(b, r) := triage all (pre ++ [skipped (id s) "condition not met"]) rest in (s :: b, r)
      else let '(b, r) := triage all pre rest in (b, s :: r)
  end.

Lemma triage_perm all steps : forall pre,
  (triage all pre steps).1 ++ (triage all pre steps).2 ≡ₚ steps.
Proof.
  induction steps as [|s steps IH]; intros pre; cbn; [done|]. destruct (blocks all pre s).
  - specialize (IH (pre ++ [skipped (id s) "condition not met"])).
    destruct (triage _ _ _) as [b r]. cbn in *. by rewrite IH.
  - specialize (IH pre). destruct (triage _ _ _) as [b r]. cbn in *.
    by rewrite <- Permutation_middle, IH.
Qed.

Definition condition_skipped (l : list StepDef) : list StepResult :=
  (fun s => skipped (id s) "condition not met") <$> l.

(** The handle of a task that was spawned for [s] and not aborted. *)
Definition handle_ok (h : history) (s : StepDef) (hd : handle) : Prop :=
  spawned h !! task_no hd = Some s /\ aborted h (task_no hd) = false /\
  original_id hd = id s /\ step_name hd = name s.

Lemma handle_ok_same h h' s hd : same_tasks h h' -> handle_ok h s hd -> handle_ok h' s hd.
Proof. intros Hh. unfold handle_ok. by rewrite (same_spawned _ _ Hh), (same_aborted _ _ _ Hh). Qed.

Lemma handles_ok_same h h' l hs :
  same_tasks h h' -> Forall2 (handle_ok h) l hs -> Forall2 (handle_ok h') l hs.
Proof. intros Hh H. eapply Forall2_impl; eauto using handle_ok_same. Qed.

Lemma spawned_spawn h s n : spawned (h ++ [Call (Spawn s) n]) = spawned h ++ [s].
Proof. unfold spawned. by rewrite omap_app. Qed.
Lemma aborted_spawn h s (r : res (Spawn s)) n : aborted (h ++ [Call (Spawn s) r]) n = aborted h n.
Proof. unfold aborted. rewrite existsb_app. cbn. by rewrite !orb_false_r. Qed.

(** Nothing is aborted yet, and handles are those of spawned tasks. *)
Record spawning (h : history) (l : list StepDef) (hs : list handle) : Prop := {
  spawning_ok : Forall2 (handle_ok h) l hs;
  spawning_nodup : NoDup (task_no <$> hs);
  spawning_calm n : aborted h n = false
}.

Lemma spawning_same h h' l hs : same_tasks h h' -> spawning h l hs -> spawning h' l hs.
Proof.
  intros Hh [Hok Hnd Hab]. split; [by eapply handles_ok_same|done|].
  intros n. by rewrite (same_aborted _ _ _ Hh).
Qed.

Lemma spawning_spawn h l hs s :
  spawning h l hs ->
  spawning (h ++ [Call (Spawn s) (length (spawned h))]) (l ++ [s])
    (hs ++ [mkHandle (length (spawned h)) (id s) (name s)]).
Proof.
  intros [Hok Hnd Hab]. split.
  - apply Forall2_app; [|constructor; [|constructor]].
    + eapply Forall2_impl; [exact Hok|]. intros s' hd (H1 & H2 & H3). split; [|by rewrite aborted_spawn].
      rewrite spawned_spawn. by apply lookup_app_l_Some.
    + split; [|split; [by rewrite aborted_spawn|done]]. cbn.
      by rewrite spawned_spawn, list_lookup_middle.
  - rewrite fmap_app. apply NoDup_app. split_and!; [done| |apply NoDup_singleton].
    intros n (hd & -> & Hhd)%list_elem_of_fmap [= E]%list_elem_of_singleton.
    apply list_elem_of_lookup in Hhd as [i Hi].
    destruct (Forall2_lookup_r _ _ _ _ _ Hok Hi) as (s' & _ & Hs' & _).
    apply lookup_lt_Some in Hs'. rewrite E in Hs'. cbn in Hs'. lia.
  - intros n. by rewrite aborted_spawn.
Qed.

Lemma wp_spawn_loop T all cx steps : forall pre h l hs,
  spawning h l hs ->
  wp T h (spawn_loop all cx steps pre hs) (fun h' o =>
    exists hs', o = Returned (pre ++ condition_skipped (triage all pre steps).1, hs') /\
      spawning h' (l ++ (triage all pre steps).2) hs').
Proof.
  induction steps as [|s steps IH]; intros pre h l hs Hsp; cbn [spawn_loop].
  { cbn. exists hs. by rewrite !app_nil_r. }
  apply wp_bind, wp_condition_blocks. intros h1 Hh1. cbn [continue triage].
  apply (spawning_same _ _ _ _ Hh1) in Hsp. destruct (blocks all pre s).
  - apply wp_bind, wp_emit_skip. intros h2 Hh2. cbn [continue].
    apply (spawning_same _ _ _ _ Hh2) in Hsp.
    eapply wp_mono; [|by apply IH]. intros h' o (hs' & -> & H). exists hs'.
    destruct (triage _ _ _) as [b r]. cbn in *. by rewrite <- app_assoc.
  - apply wp_call; [done|]. intros n Hn. cbn in Hn. subst n. eapply wp_mono; [|by apply IH, spawning_spawn].
    intros h' o (hs' & -> & H). exists hs'. rewrite <- app_assoc in H.
    by destruct (triage _ _ _) as [b r].
Qed.

(** ** Joining *)

(** What becomes of a spawned step. *)
Inductive join_fact (T : StepDef -> join_result -> Prop) (timeout : Z) (token : bool)
    (s : StepDef) : StepResult -> Prop :=
| join_cancelled : token = true -> join_fact T timeout token s (skipped (id s) "cancelled")
| join_late : timeout < u64_max ->
    join_fact T timeout token s (skipped (id s) "flow timeout exceeded")
| join_returned r : T s (Joined r) -> join_fact T timeout token s r
| join_panicked e : T s (JoinError e) ->
    join_fact T timeout token s (panicked_result (id s) e).

Lemma spawned_await h n (r : res (Await n)) : spawned (h ++ [Call (Await n) r]) = spawned h.
Proof. unfold spawned. rewrite omap_app. cbn. by rewrite app_nil_r. Qed.
Lemma aborted_await h n (r : res (Await n)) k : aborted (h ++ [Call (Await n) r]) k = aborted h k.
Proof. unfold aborted. rewrite existsb_app. cbn. by rewrite !orb_false_r. Qed.
Lemma spawned_abort h n (r : res (AbortTask n)) :
  spawned (h ++ [Call (AbortTask n) r]) = spawned h.
Proof. unfold spawned. rewrite omap_app. cbn. by rewrite app_nil_r. Qed.
Lemma aborted_abort h n (r : res (AbortTask n)) k :
  k <> n -> aborted (h ++ [Call (AbortTask n) r]) k = aborted h k.
Proof.
  intros Hk. unfold aborted. rewrite existsb_app. cbn.
  rewrite bool_decide_eq_false_2 by done. by rewrite !orb_false_r.
Qed.

(** Aborting or joining one task leaves the other handles valid. *)
Lemma handles_ok_abort h n (r : res (AbortTask n)) l hs :
  Forall2 (handle_ok h) l hs -> n ∉ task_no <$> hs ->
  Forall2 (handle_ok (h ++ [Call (AbortTask n) r])) l hs.
Proof.
  intros Hok Hn. induction Hok as [|s hd l hs (H1 & H2 & H3) _ IH]; [constructor|].
  cbn in Hn. apply not_elem_of_cons in Hn as [Hne Hn]. constructor; [|by apply IH].
  split; [by rewrite spawned_abort|]. split; [by rewrite aborted_abort|done].
Qed.
Lemma handles_ok_await h n (r : res (Await n)) l hs :
  Forall2 (handle_ok h) l hs -> Forall2 (handle_ok (h ++ [Call (Await n) r])) l hs.
Proof.
  intros Hok. eapply Forall2_impl; [exact Hok|]. intros s hd (H1 & H2 & H3).
  split; [by rewrite spawned_await|]. split; [by rewrite aborted_await|done].
Qed.

Lemma wp_join_loop T timeout start token cx hs : forall h l results,
  Forall2 (handle_ok h) l hs -> NoDup (task_no <$> hs) ->
  wp T h (join_loop timeout start token cx hs results) (fun h' o =>
    exists new, o = Returned (results ++ new) /\ Forall2 (join_fact T timeout token) l new).
Proof.
  induction hs as [|hd hs IH]; intros h l results Hok Hnd; cbn [join_loop].
  { inversion Hok; subst. exists []. rewrite app_nil_r. split; [done|constructor]. }
  inversion Hok as [|s ? l' ? Hhd Hrest]; subst. cbn in Hnd. apply NoDup_cons in Hnd as [Hn Hnd].
  (* The rest of the loop, once this step has its result. *)
  assert (forall h' r, join_fact T timeout token s r -> Forall2 (handle_ok h') l' hs ->
    wp T h' (join_loop timeout start token cx hs (results ++ [r])) (fun h' o =>
      exists new, o = Returned (results ++ new) /\
        Forall2 (join_fact T timeout token) (s :: l') new)) as Hgo.
  { intros h' r Hr Hh'. eapply wp_mono; [|by apply IH].
    intros h'' o (new & -> & Hf). exists (r :: new). rewrite <- app_assoc.
    split; [done|by constructor]. }
  apply wp_bind, wp_is_cancelled. intros h1 cancelled Hh1 Hc. cbn [continue].
  apply wp_bind, wp_is_late. intros h2 late Hh2 Hlate. cbn [continue].
  pose proof (same_tasks_trans _ _ _ Hh1 Hh2) as Hh.
  apply (handle_ok_same _ _ _ _ Hh) in Hhd as (Hs & Ha & Hid & Hnm).
  apply (handles_ok_same _ _ _ _ Hh) in Hrest.
  destruct late.
  - apply wp_call; [done|]. intros r _. cbv zeta. apply wp_bind, wp_emit_now. intros h3 Hh3.
    cbn [continue]. rewrite Hid.
    apply Hgo.
    + destruct cancelled; [apply join_cancelled; auto|]. apply join_late. naive_solver.
    + eapply handles_ok_same; [exact Hh3|]. by apply handles_ok_abort.
  - apply wp_call; [by eapply lookup_lt_Some|]. intros r Hr. cbn in Hr. rewrite Hs in Hr.
    destruct Hr as [Hr|[Hab _]]; [|congruence]. destruct r as [r|e].
    + apply Hgo; [by apply join_returned|by apply handles_ok_await].
    + rewrite Hid. apply Hgo; [by apply join_panicked|by apply handles_ok_await].
Qed.

Lemma wp_run_parallel T steps timeout start token cx h0 :
  (forall n, aborted h0 n = false) ->
  wp T h0 (run_parallel steps timeout start token cx) (fun h o =>
    exists joined,
      o = Returned (condition_skipped (triage steps [] steps).1 ++ joined) /\
      Forall2 (join_fact T timeout token) (triage steps [] steps).2 joined).
Proof.
  intros Hcalm. unfold run_parallel. apply wp_bind. eapply wp_mono; [|apply wp_spawn_loop].
  2: { split; [constructor|constructor|done]. }
  intros h o (hs & -> & [Hok Hnd _]). cbn [continue app].
  apply wp_bind. eapply wp_mono; [|by apply wp_join_loop].
  intros h' o (new & -> & Hf). exists new. done.
Qed.
End Parallel.

(** ** Results under every schedule *)

Section ParallelFacts.
Context `{JN : JsonNumber} `{JL : !JsonLib} `{UL : UuidLib} `{BP : BuildProfile}.
Context (cx : ExecCtx).

(** A task that was joined normally executed its step. *)
Lemma task_result_done s r :
  0 <= max_retries s <= u32_max -> task_result cx s (Joined r) ->
  exists m, step_done s m (Returned r).
Proof.
  intros Hr (h & o & Hruns & Hj).
  pose proof (wp_runs _ _ _ _ _ (does_execute_step_done cx s Hr) Hruns) as Hd.
  destruct o as [x| |]; cbn in Hj; [|by destruct Hj..]. injection Hj as <-. eauto.
Qed.

(** A task whose join failed panicked in its step. *)
Lemma task_result_panic s e :
  0 <= max_retries s <= u32_max -> task_result cx s (JoinError e) ->
  exists m, step_done s m Panicked.
Proof.
  intros Hr (h & o & Hruns & Hj).
  pose proof (wp_runs _ _ _ _ _ (does_execute_step_done cx s Hr) Hruns) as Hd.
  destruct o as [x| |]; cbn in Hj; [done|eauto|by destruct Hd].
Qed.

Lemma join_fact_id timeout token s r :
  0 <= max_retries s <= u32_max ->
  join_fact (task_result cx) timeout token s r -> step_id r = id s.
Proof.
  intros Hr [| |r' HT|e _]; [done..| |done].
  destruct (task_result_done s r' Hr HT) as (m & _ & H & _). done.
Qed.

(** The final results of a parallel flow. *)
Definition parallel_results (timeout : Z) (token : bool) (steps : list StepDef)
    (rs : list StepResult) : Prop :=
  exists joined,
    rs = condition_skipped (triage steps [] steps).1 ++ joined /\
    Forall2 (join_fact (task_result cx) timeout token) (triage steps [] steps).2 joined.

Lemma parallel_results_ids timeout token steps rs :
  Forall (fun s => 0 <= max_retries s <= u32_max) steps ->
  parallel_results timeout token steps rs -> step_id <$> rs ≡ₚ id <$> steps.
Proof.
  intros Hr (joined & -> & Hj). rewrite <- (triage_perm steps steps []) at 3.
  pose proof (triage_perm steps steps []) as Hp. rewrite !fmap_app. f_equiv.
  - unfold condition_skipped. by rewrite <- list_fmap_compose.
  - assert (Forall (fun s => 0 <= max_retries s <= u32_max) (triage steps [] steps).2) as Hr2.
    { rewrite <- Hp in Hr. by apply Forall_app in Hr as [_ Hr]. }
    clear Hp. induction Hj as [|s r l rs Hf _ IH]; [done|].
    apply Forall_cons in Hr2 as [Hs Hr2]. cbn. f_equiv; [by eapply join_fact_id|auto].
Qed.
End ParallelFacts.

(** From every configuration it reaches, a parallel run can still end. *)
Lemma parallel_ends `{JN : JsonNumber} `{JL : !JsonLib} `{UL : UuidLib}
    `{BP : BuildProfile} cx steps max_concurrency timeout start token c :
  rtc (step cx) (start_config max_concurrency (run_parallel steps timeout start token cx)) c ->
  exists c' rs, rtc (step cx) c c' /\ coord c' = Done (Returned rs) /\
    parallel_results cx timeout token steps rs.
Proof.
  intros Hreach. assert (0 < Nat.max max_concurrency 1)%nat as Hpos by lia.
  destruct (reaches_end cx _ c _ Hpos (pool_inv_reachable cx _ _ _ Hreach)
    (coord_wp cx _ _ _ _ Hreach (pool_inv_start cx _ _)
       (wp_run_parallel (task_result cx) steps timeout start token cx [] (fun _ => eq_refl))))
    as (c' & o & Hr & Ho & joined & -> & Hj).
  eexists c', _. split_and!; [done|done|by exists joined].
Qed.

(** ** Properties *)

(** C11. Under every schedule, a parallel run that ends returns exactly one result
    per step: first, in order, the steps whose condition evaluated to false;
    then, in order, one result for each spawned step, which is the result of
    that step's own execution, a failure if its task panicked, or a skip if the
    run was cancelled or its timeout passed before the task was joined. *)
Theorem parallel_correct `{JN : JsonNumber} `{JL : !JsonLib} `{UL : UuidLib}
    `{BP : BuildProfile} cx steps max_concurrency timeout start token c o :
  Forall (fun s => 0 <= max_retries s <= u32_max) steps ->
  rtc (step cx) (start_config max_concurrency (run_parallel steps timeout start token cx)) c ->
  coord c = Done o ->
  exists rs, o = Returned rs /\ parallel_results cx timeout token steps rs /\
    step_id <$> rs ≡ₚ id <$> steps.
Proof.
  intros Hr Hreach Hdone.
  pose proof (coord_wp cx _ _ _ _ Hreach (pool_inv_start cx _ _)
    (wp_run_parallel (task_result cx) steps timeout start token cx [] (fun _ => eq_refl))) as H.
  rewrite Hdone in H. destruct H as (joined & -> & Hj). eexists. split; [done|].
  assert (parallel_results cx timeout token steps
    (condition_skipped (triage steps [] steps).1 ++ joined)) as Hres by (by exists joined).
  split; [done|]. by eapply parallel_results_ids.
Qed.

(** A parallel run never deadlocks and always ends: no schedule is infinite,
    and from every configuration it can reach, the coordinator can still
    return its results. *)
Lemma parallel_terminates `{JN : JsonNumber} `{JL : !JsonLib} `{UL : UuidLib}
    `{BP : BuildProfile} cx steps max_concurrency timeout start token c :
  rtc (step cx) (start_config max_concurrency (run_parallel steps timeout start token cx)) c ->
  Acc (fun c' c => step cx c c') c /\
  exists c' rs, rtc (step cx) c c' /\ coord c' = Done (Returned rs) /\
    parallel_results cx timeout token steps rs.
Proof.
  intros Hreach. split; [apply step_acc|by eapply parallel_ends].
Qed.

(** ** Witnesses *)

#[local] Existing Instances SerdeModel.serde_number SerdeModel.serde_lib
  StepExamples.ids StepExamples.release.

Lemma parallel_correct_witness :
  let s := step_new 1%N "build" in
  exists c rs,
    rtc (step StepExamples.cx)
      (start_config 4 (run_parallel [s] u64_max 0 false StepExamples.cx)) c /\
    coord c = Done (Returned rs) /\ step_id <$> rs ≡ₚ [1%N].
Proof.
  intros s.
  destruct (parallel_ends StepExamples.cx [s] 4 u64_max 0 false _ (rtc_refl _ _))
    as (c & rs & Hc & Hd & _).
  destruct (parallel_correct StepExamples.cx [s] 4 u64_max 0 false c (Returned rs))
    as (rs' & [= <-] & _ & Hids); [|done|done|].
  { repeat constructor; cbn; unfold u32_max; lia. }
  by exists c, rs.
Defined.
