(* ===== verification/Dag.v ===== *)
(** * DAG execution

    [rust-old/src/engine/dag.rs]: the coordinator of a DAG flow runs the ready
    steps in batches, joins the tasks of a batch in order and releases the steps
    whose dependencies have been dealt with.  The tasks and the semaphore are
    those of [Pool]. *)

From Stdlib Require Import ZArith Lia.
From stdpp Require Import base tactics option list strings gmap sets relations.
From S2P Require Import Prelude Json State Error Step CondLexer Condition Flow Bus.
From S2P Require Import EngineResult Prog StepExec Sequential Pool Parallel.

Open Scope Z_scope.

(** ** In-degrees *)

Definition degrees : Type := gmap StepId Z.

(** The loop body of [unlock_dependents]: one dependency of [d] is dealt with. *)
Definition unlock_one (st : gmap StepId Z * list StepId) (d : StepId)
  : gmap StepId Z * list StepId :=
  let '(in_degree, ready) := st in
  match in_degree !! d with
  | None => (in_degree, ready)
  | Some deg =>
      let deg := sat_sub deg 1 in
      if deg =? 0 then (<[d := usize_max]> in_degree, ready ++ [d])
      else (<[d := deg]> in_degree, ready)
  end.

Definition unlock_dependents (i : StepId) (dependents : gmap StepId (list StepId))
    (in_degree : gmap StepId Z) (ready : list StepId) : gmap StepId Z * list StepId :=
  match dependents !! i with
  | None => (in_degree, ready)
  | Some ds => foldl unlock_one (in_degree, ready) ds
  end.

Section Dag.
Context `{JN : JsonNumber} `{JL : !JsonLib} `{UL : UuidLib} `{BP : BuildProfile}.

(** [step_map]: a later step with the same id replaces an earlier one. *)
Definition step_map (steps : list StepDef) : gmap StepId StepDef :=
  foldl (fun m s => <[id s := s]> m) ∅ steps.

Definition degree (s : StepDef) : Z :=
  match trigger_mode s with
  | TriggerMode.All => Z.of_nat (length (depends_on s))
  | TriggerMode.Any =>
      match depends_on s with [] => Z.of_nat (length (depends_on s)) | _ => 1 end
  end.

(** [dependents.entry(dep).or_default().push(step.id)] *)
Definition add_dependent (i : StepId) (m : gmap StepId (list StepId)) (d : StepId)
  : gmap StepId (list StepId) :=
  <[d := default [] (m !! d) ++ [i]]> m.

(** The loop that fills both maps. *)
Definition dag_maps (steps : list StepDef) : gmap StepId Z * gmap StepId (list StepId) :=
  foldl (fun '(in_degree, dependents) s =>
           (<[id s := degree s]> in_degree,
            foldl (add_dependent (id s)) dependents (depends_on s)))
    (∅, ∅) steps.

Definition initially_ready (steps : list StepDef) : list StepId :=
  id <$> List.filter (fun s => negb (nonempty (depends_on s))) steps.

(** The variables of the main loop. *)
Record dag_state : Type := mkDag {
  results : list StepResult;
  failed : gset StepId;
  in_degree : gmap StepId Z;
  ready : list StepId
}.

Definition unlock (dependents : gmap StepId (list StepId)) (i : StepId) (st : dag_state)
  : dag_state :=
  let '(deg, rd) := unlock_dependents i dependents (in_degree st) (ready st) in
  mkDag (results st) (failed st) deg rd.

Definition push (r : StepResult) (st : dag_state) : dag_state :=
  mkDag (results st ++ [r]) (failed st) (in_degree st) (ready st).
Definition mark_failed (i : StepId) (st : dag_state) : dag_state :=
  mkDag (results st) ({[i]} ∪ failed st) (in_degree st) (ready st).
Definition pop (st : dag_state) (rest : list StepId) : dag_state :=
  mkDag (results st) (failed st) (in_degree st) rest.

(** The steps that are ready when the flow is cancelled or out of time. *)
Fixpoint skip_ready (m : gmap StepId StepDef) (cx : ExecCtx) (reason : string)
    (l : list StepId) (rs : list StepResult) : prog (list StepResult) :=
  match l with
  | [] => ret rs
  | i :: l =>
      match m !! i with
      | None => skip_ready m cx reason l rs
      | Some s =>
          let! _ := emit_skip cx s reason in
          skip_ready m cx reason l (rs ++ [skipped (id s) reason])
      end
  end.

Definition dep_failed (s : StepDef) (st : dag_state) : bool :=
  existsb (fun d => bool_decide (d ∈ failed st)) (depends_on s).

(** [for _ in 0..batch_len]; a spawned task goes with its step's id. *)
Fixpoint batch_loop (n : nat) (steps : list StepDef) (m : gmap StepId StepDef)
    (dependents : gmap StepId (list StepId)) (cx : ExecCtx)
    (st : dag_state) (handles : list (nat * StepId))
  : prog (dag_state * list (nat * StepId)) :=
  match n with
  | O => ret (st, handles)
  | S n =>
      match ready st with
      | [] => ret (st, handles)
      | i :: rest =>
          let st := pop st rest in
          match m !! i with
          | None => batch_loop n steps m dependents cx st handles
          | Some s =>
              if dep_failed s st then
                let! _ := emit_skip cx s "dependency failed" in
                let st := push (skipped (id s) "dependency failed") st in
                let st := mark_failed (id s) st in
                let st := unlock dependents (id s) st in
                batch_loop n steps m dependents cx st handles
              else
              let! blocked := condition_blocks s (results st) steps in
              if blocked then
                let! _ := emit_skip cx s "condition not met" in
                let st := push (skipped (id s) "condition not met") st in
                let st := unlock dependents (id s) st in
                batch_loop n steps m dependents cx st handles
              else
              let! t := perform (Spawn s) in
              batch_loop n steps m dependents cx st (handles ++ [(t, id s)])
          end
      end
  end.

Fixpoint join_batch (dependents : gmap StepId (list StepId)) (handles : list (nat * StepId))
    (st : dag_state) : prog dag_state :=
  match handles with
  | [] => ret st
  | (t, original_id) :: handles =>
      let! joined := perform (Await t) in
      match joined with
      | Joined r =>
          let st := if bool_decide (status r = StepStatus.Completed) then st
                    else mark_failed original_id st in
          let st := unlock dependents original_id st in
          join_batch dependents handles (push r st)
      | JoinError e =>
          let st := mark_failed original_id st in
          let st := unlock dependents original_id st in
          join_batch dependents handles (push (panicked_result original_id e) st)
      end
  end.

(** [while !ready.is_empty()]: [fuel] bounds the number of batches. *)
Fixpoint dag_loop (fuel : nat) (steps : list StepDef) (m : gmap StepId StepDef)
    (dependents : gmap StepId (list StepId)) (timeout start : Z) (token : bool) (cx : ExecCtx)
    (st : dag_state) : prog (list StepResult) :=
  match ready st with
  | [] => ret (results st)
  | _ :: _ =>
      match fuel with
      | O => Done OutOfFuel
      | S fuel =>
          let! cancelled := is_cancelled token in
          let! late := is_late cancelled timeout start in
          if late then
            skip_ready m cx (if cancelled then "cancelled" else "flow timeout exceeded")
              (ready st) (results st)
          else
            let! (st, handles) := batch_loop (length (ready st)) steps m dependents cx st [] in
            let! st := join_batch dependents handles st in
            dag_loop fuel steps m dependents timeout start token cx st
      end
  end.

(** A batch deals with at least one step, so as many batches as steps are
    enough. *)
Definition run_dag (steps : list StepDef) (timeout start : Z) (token : bool) (cx : ExecCtx)
  : prog (list StepResult) :=
  let '(deg, dependents) := dag_maps steps in
  dag_loop (length steps) steps (step_map steps) dependents timeout start token cx
    (mkDag [] ∅ deg (initially_ready steps)).
End Dag.

(** ** Counting *)

(** How often [x] occurs in a list of ids. *)
Definition count (x : StepId) (l : list StepId) : nat := length (filter (fun y => y = x) l).

Arguments count : simpl never.

Lemma count_app x l k : count x (l ++ k) = (count x l + count x k)%nat.
Proof. unfold count. by rewrite filter_app, length_app. Qed.
Lemma count_cons x y l : count x (y :: l) = ((if decide (y = x) then 1 else 0) + count x l)%nat.
Proof. unfold count. rewrite filter_cons. by case_decide. Qed.
Lemma count_replicate x y n : count x (replicate n y) = if decide (y = x) then n else O.
Proof.
  induction n as [|n IH]; cbn [replicate]; [by case_decide|]. rewrite count_cons, IH.
  case_decide; lia.
Qed.
Lemma count_zero x l : x ∉ l -> count x l = O.
Proof.
  induction l as [|y l IH]; [done|]. rewrite not_elem_of_cons, count_cons. intros [Hy Hl].
  rewrite decide_False by done. by apply IH.
Qed.
Lemma count_pos x l : (0 < count x l)%nat <-> x ∈ l.
Proof.
  induction l as [|y l IH]; [unfold count; cbn; split; [lia|set_solver]|].
  rewrite count_cons, elem_of_cons, <- IH. case_decide as E; [subst; split; [auto|lia]|].
  split; [intros; right; lia|]. intros [->|?]; [done|lia].
Qed.
Lemma count_le x l : (count x l <= length l)%nat.
Proof. induction l as [|y l IH]; [done|]. rewrite count_cons. cbn. case_decide; lia. Qed.

(** ** The in-degree of a released or waiting id *)

(** The value of a counter [v] after [k] decrements: it counts down to zero, is
    set to the maximum when it gets there, and counts down again. *)
Definition dec (k v : Z) : Z := if k <? v then v - k else usize_max - (k - v).

Lemma dec_zero v : 0 < v -> dec 0 v = v.
Proof. intros Hv. unfold dec. rewrite (proj2 (Z.ltb_lt 0 v) Hv). lia. Qed.

Lemma dec_step k v :
  0 < v -> 0 <= k -> k + 1 < usize_max ->
  0 < dec k v /\ (dec k v = 1 <-> k + 1 = v) /\
  dec (k + 1) v = if dec k v =? 1 then usize_max else dec k v - 1.
Proof.
  intros Hv Hk Hm. unfold dec.
  destruct (Z.ltb_spec k v), (Z.ltb_spec (k + 1) v); split_and!; try lia;
    match goal with |- context [?x =? 1] => destruct (Z.eqb_spec x 1); lia end.
Qed.

(** What decrementing the ids [ds] one by one does to the counters [deg]: an id
    is released when its counter reaches zero, which happens once if it occurs
    less often than the maximal counter value. *)
Definition counted (deg deg' : gmap StepId Z) (ds : list StepId) : Prop :=
  forall x, deg' !! x =
    if decide (x ∈ ds) then dec (Z.of_nat (count x ds)) <$> deg !! x else deg !! x.

Definition runs_out (deg : gmap StepId Z) (ds : list StepId) (x : StepId) : Prop :=
  exists v, deg !! x = Some v /\ x ∈ ds /\ v <= Z.of_nat (count x ds).

Lemma count_snoc x d ds :
  count x (ds ++ [d]) = (count x ds + if decide (d = x) then 1 else 0)%nat.
Proof. rewrite count_app. by rewrite (count_cons x d []), Nat.add_0_r. Qed.

(** Ids other than the last one are not concerned by it. *)
Lemma count_snoc_ne x d ds :
  x <> d -> (x ∈ ds ++ [d] <-> x ∈ ds) /\ count x (ds ++ [d]) = count x ds.
Proof. intros Hx. split; [set_solver|]. rewrite count_snoc, decide_False by congruence. lia. Qed.

Lemma counted_snoc deg deg1 ds d v :
  counted deg deg1 ds -> deg !! d = Some v ->
  counted deg (<[d := dec (Z.of_nat (count d ds) + 1) v]> deg1) (ds ++ [d]).
Proof.
  intros H Ed x. destruct (decide (x = d)) as [->|Hx].
  - rewrite lookup_insert_eq, decide_True, Ed, count_snoc, decide_True by set_solver.
    cbn. do 2 f_equal. lia.
  - rewrite lookup_insert_ne by done. destruct (count_snoc_ne x d ds Hx) as [Hin ->].
    rewrite H. apply decide_ext. by rewrite Hin.
Qed.

Lemma runs_out_snoc_ne deg ds d x :
  x <> d -> runs_out deg (ds ++ [d]) x <-> runs_out deg ds x.
Proof.
  intros Hx. unfold runs_out. destruct (count_snoc_ne x d ds Hx) as [Hin ->].
  by setoid_rewrite Hin.
Qed.

Lemma runs_out_last deg ds d v :
  deg !! d = Some v -> 0 < v ->
  (runs_out deg (ds ++ [d]) d <-> v <= Z.of_nat (count d ds) + 1) /\
  (runs_out deg ds d <-> v <= Z.of_nat (count d ds)).
Proof.
  intros Ed Hv. unfold runs_out. rewrite count_snoc, decide_True by done.
  split; (split; [intros (v' & Hv' & _ & Hle); rewrite Ed in Hv'; injection Hv' as <-; lia|]);
    intros Hle; exists v; (split; [done|]); (split; [|lia]); [set_solver|].
  apply count_pos. lia.
Qed.

Lemma unlock_list ds : forall deg rd,
  (forall x v, deg !! x = Some v -> x ∈ ds -> 0 < v /\ Z.of_nat (count x ds) < usize_max) ->
  let '(deg', rd') := foldl unlock_one (deg, rd) ds in
  counted deg deg' ds /\
  exists new, rd' = rd ++ new /\ NoDup new /\ forall x, x ∈ new <-> runs_out deg ds x.
Proof.
  induction ds as [|d ds IH] using rev_ind; intros deg rd Hpre.
  { cbn. split; [intros x; by rewrite decide_False by set_solver|].
    exists []. rewrite app_nil_r. unfold runs_out. split_and!; [done|constructor|set_solver]. }
  rewrite foldl_snoc. specialize (IH deg rd).
  destruct (foldl unlock_one (deg, rd) ds) as [deg1 rd1].
  destruct IH as (Hdeg & new & -> & Hnd & Hnew).
  { intros x v Hx Hin. destruct (Hpre x v Hx) as [? Hc]; [set_solver|].
    rewrite count_snoc in Hc. lia. }
  unfold unlock_one. destruct (deg !! d) as [v|] eqn:Ed.
  - destruct (Hpre d v Ed) as [Hv Hc]; [set_solver|]. rewrite count_snoc, decide_True in Hc by done.
    assert (deg1 !! d = Some (dec (Z.of_nat (count d ds)) v)) as ->.
    { rewrite Hdeg, Ed. case_decide as Hin; [done|]. by rewrite count_zero, dec_zero by done. }
    destruct (dec_step (Z.of_nat (count d ds)) v) as (Hpos & Hone & Hnext); [lia..|].
    replace (sat_sub (dec (Z.of_nat (count d ds)) v) 1)
      with (dec (Z.of_nat (count d ds)) v - 1) by (unfold sat_sub; lia).
    pose proof (counted_snoc deg deg1 ds d v Hdeg Ed) as Hmap. rewrite Hnext in Hmap.
    destruct (runs_out_last deg ds d v Ed Hv) as [Hlast Hbefore].
    set (w := dec (Z.of_nat (count d ds)) v) in *. destruct (Z.eqb_spec (w - 1) 0) as [Ew|Ew].
    + rewrite (proj2 (Z.eqb_eq w 1)) in Hmap by lia.
      split; [done|]. exists (new ++ [d]). rewrite app_assoc. split_and!; [done| |].
      * apply NoDup_app. split_and!; [done| |apply NoDup_singleton].
        intros x Hx%Hnew ->%list_elem_of_singleton. apply Hbefore in Hx. lia.
      * intros x. rewrite elem_of_app, Hnew, list_elem_of_singleton.
        destruct (decide (x = d)) as [->|Hx]; [rewrite Hlast; split; [lia|by right]|].
        rewrite runs_out_snoc_ne by done. naive_solver.
    + rewrite (proj2 (Z.eqb_neq w 1)) in Hmap by lia.
      split; [done|]. exists new. split_and!; [done|done|]. intros x. rewrite Hnew.
      destruct (decide (x = d)) as [->|Hx]; [rewrite Hlast, Hbefore; lia|].
      by rewrite runs_out_snoc_ne.
  - assert (deg1 !! d = None) as Hd1 by (rewrite Hdeg, Ed; by case_decide).
    rewrite Hd1. split.
    + intros x. destruct (decide (x = d)) as [->|Hx]; [by rewrite Hd1, Ed; case_decide|].
      destruct (count_snoc_ne x d ds Hx) as [Hin ->]. rewrite Hdeg. apply decide_ext. by rewrite Hin.
    + exists new. split_and!; [done|done|]. intros x. rewrite Hnew.
      destruct (decide (x = d)) as [->|Hx]; [unfold runs_out; rewrite Ed; naive_solver|].
      by rewrite runs_out_snoc_ne.
Qed.

Lemma unlock_list_ready ds : forall deg rd, exists new, (foldl unlock_one (deg, rd) ds).2 = rd ++ new.
Proof.
  induction ds as [|d ds IH]; intros deg rd; cbn [foldl]; [exists []; by rewrite app_nil_r|].
  unfold unlock_one at 2. destruct (deg !! d) as [v|]; [|apply IH].
  destruct (sat_sub v 1 =? 0); [|apply IH].
  destruct (IH (<[d := usize_max]> deg) (rd ++ [d])) as [new ->].
  eexists. by rewrite <- app_assoc.
Qed.

Lemma dec_dec k1 k2 v :
  0 <= k1 -> 0 <= k2 -> 0 < v -> k1 + k2 < usize_max -> dec k2 (dec k1 v) = dec (k1 + k2) v.
Proof.
  intros H1 H2 Hv Hm. unfold dec.
  destruct (Z.ltb_spec k1 v), (Z.ltb_spec (k1 + k2) v);
    repeat match goal with |- context [?a <? ?b] => destruct (Z.ltb_spec a b) end; lia.
Qed.

Lemma dec_pos k v : 0 <= k -> 0 < v -> k < usize_max -> 0 < dec k v.
Proof. intros Hk Hv Hm. unfold dec. destruct (Z.ltb_spec k v); lia. Qed.

(** ** The maps the coordinator builds *)

Section Maps.
Context `{JN : JsonNumber}.

Lemma find_by_id (l : list StepDef) x :
  x ∈ id <$> l -> exists s, s ∈ l /\ id s = x.
Proof. intros (s & -> & Hs)%list_elem_of_fmap. eauto. Qed.

Lemma same_id l (s s' : StepDef) :
  NoDup (id <$> l) -> s ∈ l -> s' ∈ l -> id s = id s' -> s = s'.
Proof.
  induction l as [|x l IH]; cbn; [set_solver|]. intros [Hx Hnd]%NoDup_cons Hs Hs' E.
  apply elem_of_cons in Hs as [->|Hs], Hs' as [->|Hs']; [done| | |by apply IH].
  - destruct Hx. rewrite E. by apply list_elem_of_fmap_2.
  - destruct Hx. rewrite <- E. by apply list_elem_of_fmap_2.
Qed.

Lemma NoDup_ids_filter (p : StepDef -> bool) l :
  NoDup (id <$> l) -> NoDup (id <$> List.filter p l).
Proof.
  induction l as [|s l IH]; [done|]. cbn. intros [Hs Hnd]%NoDup_cons.
  destruct (p s); [|by apply IH]. cbn. constructor; [|by apply IH].
  intros (s' & E & Hin%list_elem_of_In)%list_elem_of_fmap. apply filter_In in Hin as [Hin _].
  apply Hs. rewrite E. apply list_elem_of_fmap_2. by apply list_elem_of_In.
Qed.

Lemma step_map_lookup l x s :
  NoDup (id <$> l) -> step_map l !! x = Some s <-> s ∈ l /\ id s = x.
Proof.
  induction l as [|y l IH] using rev_ind; unfold step_map; cbn.
  { rewrite lookup_empty. set_solver. }
  rewrite foldl_snoc, fmap_app, NoDup_app. intros (Hnd & Hdis & _). cbn in Hdis.
  fold (step_map l). destruct (decide (x = id y)) as [->|Hx].
  - rewrite lookup_insert_eq. split; [intros [= ->]; set_solver|]. intros [Hs E].
    apply elem_of_app in Hs as [Hs|Hs]; [|set_solver].
    destruct (Hdis (id y)); [|set_solver]. rewrite <- E. by apply list_elem_of_fmap_2.
  - rewrite lookup_insert_ne, IH by done. set_solver.
Qed.

Lemma degrees_lookup l x v :
  NoDup (id <$> l) -> (dag_maps l).1 !! x = Some v <-> exists s, s ∈ l /\ id s = x /\ v = degree s.
Proof.
  induction l as [|y l IH] using rev_ind; unfold dag_maps; cbn.
  { rewrite lookup_empty. set_solver. }
  rewrite foldl_snoc, fmap_app, NoDup_app. intros (Hnd & Hdis & _). cbn in Hdis.
  fold (dag_maps l). destruct (dag_maps l) as [deg dn]. cbn in *.
  destruct (decide (x = id y)) as [->|Hx].
  - rewrite lookup_insert_eq. split; [intros [= <-]; exists y; set_solver|].
    intros (s & Hs & E & ->). apply elem_of_app in Hs as [Hs|Hs]; [|set_solver].
    destruct (Hdis (id y)); [|set_solver]. rewrite <- E. by apply list_elem_of_fmap_2.
  - rewrite lookup_insert_ne, IH by done. split; intros (s & Hs & E & ->); exists s; [set_solver|].
    apply elem_of_app in Hs as [Hs|Hs]; [done|]. set_solver.
Qed.

Lemma add_dependents_lookup i ds u : forall m,
  default [] (foldl (add_dependent i) m ds !! u) =
  default [] (m !! u) ++ replicate (count u ds) i.
Proof.
  induction ds as [|d ds IH]; intros m; cbn [foldl]; [by rewrite app_nil_r|].
  rewrite IH, count_cons. unfold add_dependent at 1. destruct (decide (d = u)) as [->|Hd].
  - rewrite lookup_insert_eq. cbn. by rewrite <- app_assoc.
  - by rewrite lookup_insert_ne.
Qed.

Lemma dependents_lookup l u :
  default [] ((dag_maps l).2 !! u) =
  flat_map (fun s => replicate (count u (depends_on s)) (id s)) l.
Proof.
  induction l as [|y l IH] using rev_ind; [done|]. unfold dag_maps. rewrite foldl_snoc.
  fold (dag_maps l). destruct (dag_maps l) as [deg dn]. cbn in *.
  rewrite add_dependents_lookup, IH, flat_map_app. cbn. by rewrite app_nil_r.
Qed.

(** [id s] occurs among the dependents of [u] as often as [u] among the
    dependencies of [s]. *)
Lemma count_dependents l u s :
  NoDup (id <$> l) -> s ∈ l ->
  count (id s) (default [] ((dag_maps l).2 !! u)) = count u (depends_on s).
Proof.
  rewrite dependents_lookup. induction l as [|y l IH]; [set_solver|]. cbn.
  intros [Hy Hnd]%NoDup_cons [->|Hs]%elem_of_cons; rewrite count_app, count_replicate.
  - rewrite decide_True by done. rewrite (count_zero (id y)); [lia|]. intros Hin.
    apply list_elem_of_In, in_flat_map in Hin as (s' & Hs' & Hin).
    apply list_elem_of_In, elem_of_replicate in Hin as [Hin _]. destruct Hy. rewrite Hin.
    apply list_elem_of_fmap_2. by apply list_elem_of_In.
  - rewrite decide_False; [by apply IH|]. intros E. destruct Hy. rewrite E.
    by apply list_elem_of_fmap_2.
Qed.

Lemma elem_of_dependents l u x :
  x ∈ default [] ((dag_maps l).2 !! u) -> exists s, s ∈ l /\ id s = x /\ u ∈ depends_on s.
Proof.
  rewrite dependents_lookup. intros Hin.
  apply list_elem_of_In, in_flat_map in Hin as (s & Hs & Hin).
  exists s. split; [by apply list_elem_of_In|].
  apply list_elem_of_In, elem_of_replicate in Hin as [-> Hc]. split; [done|].
  apply count_pos. lia.
Qed.
End Maps.

(** ** When a step is released *)

Section Released.
Context `{JN : JsonNumber}.

(** How many of the dependencies of [s] have been dealt with. *)
Definition settled (s : StepDef) (dn : list StepId) : nat :=
  length (filter (fun d => d ∈ dn) (depends_on s)).

(** Enough of them to release [s]: all, or one for a step triggered by any. *)
Definition released (dn : list StepId) (s : StepDef) : Prop :=
  degree s <= Z.of_nat (settled s dn).

Lemma settled_le s dn : (settled s dn <= length (depends_on s))%nat.
Proof. apply length_filter. Qed.

Lemma settled_nil s : settled s [] = O.
Proof.
  unfold settled. induction (depends_on s) as [|d l IH]; [done|].
  by rewrite filter_cons, decide_False by set_solver.
Qed.

Lemma settled_snoc s dn i :
  i ∉ dn -> settled s (dn ++ [i]) = (settled s dn + count i (depends_on s))%nat.
Proof.
  intros Hi. unfold settled. induction (depends_on s) as [|d l IH]; [done|].
  rewrite count_cons, !filter_cons. destruct (decide (d = i)) as [->|Hd].
  - rewrite decide_True by set_solver. rewrite decide_False by done. cbn. lia.
  - destruct (decide (d ∈ dn)); [rewrite decide_True by set_solver; cbn; lia|].
    rewrite decide_False by set_solver. lia.
Qed.

Lemma settled_all s dn :
  settled s dn = length (depends_on s) <-> forall d, d ∈ depends_on s -> d ∈ dn.
Proof.
  unfold settled. induction (depends_on s) as [|d l IH]; [cbn; split; [set_solver|done]|].
  rewrite filter_cons. pose proof (length_filter (fun d => d ∈ dn) l) as Hle.
  case_decide as Hd; cbn.
  - split; [intros [= E] x [->|Hx]%elem_of_cons; [done|by apply IH]|].
    intros H. f_equal. apply IH. set_solver.
  - split; [lia|]. intros H. destruct Hd. apply H. set_solver.
Qed.

Lemma degree_zero s : degree s = 0 <-> depends_on s = [].
Proof.
  unfold degree. destruct (trigger_mode s), (depends_on s); cbn; split; (done || lia).
Qed.
Lemma degree_nonneg s : 0 <= degree s.
Proof. unfold degree. destruct (trigger_mode s), (depends_on s); cbn; lia. Qed.
Lemma degree_le s : degree s <= Z.of_nat (length (depends_on s)).
Proof. unfold degree. destruct (trigger_mode s), (depends_on s); cbn; lia. Qed.
End Released.

(** ** The invariant of the coordinator *)

Section DagInv.
Context `{JN : JsonNumber} `{JL : !JsonLib} `{UL : UuidLib} `{BP : BuildProfile}.
Context (steps : list StepDef).
Hypothesis distinct : NoDup (id <$> steps).
Hypothesis short : forall s, s ∈ steps -> Z.of_nat (length (depends_on s)) < usize_max.

(** The counters, given the ids dealt with. *)
Definition counters_ok (deg : gmap StepId Z) (dn : list StepId) : Prop :=
  (forall s, s ∈ steps -> deg !! id s =
     Some (if decide (depends_on s = []) then 0 else dec (Z.of_nat (settled s dn)) (degree s))) /\
  (forall x v, deg !! x = Some v -> x ∈ id <$> steps).

Lemma counters_init : counters_ok (dag_maps steps).1 [].
Proof.
  split.
  - intros s Hs. apply degrees_lookup; [done|]. exists s. split_and!; [done|done|].
    pose proof (degree_zero s). pose proof (degree_nonneg s). case_decide; [naive_solver|].
    rewrite settled_nil, dec_zero; [done|]. destruct (decide (degree s = 0)); [naive_solver|lia].
  - intros x v (s & Hs & <- & _)%degrees_lookup; [|done]. by apply list_elem_of_fmap_2.
Qed.

(** The counter of a dependent of [i] has not run out. *)
Lemma dependent_bounds s dn i :
  i ∉ dn -> s ∈ steps -> id s ∈ default [] ((dag_maps steps).2 !! i) ->
  depends_on s <> [] /\ 0 < degree s /\
  (settled s dn + count i (depends_on s) <= length (depends_on s))%nat /\
  Z.of_nat (length (depends_on s)) < usize_max.
Proof.
  intros Hi Hs Hin%count_pos. rewrite count_dependents in Hin by done. apply count_pos in Hin.
  pose proof (settled_le s (dn ++ [i])) as Hle. rewrite settled_snoc in Hle by done.
  pose proof (degree_nonneg s). pose proof (degree_zero s).
  assert (depends_on s <> []) as Hne by (intros E; rewrite E in Hin; set_solver).
  split_and!; [done| |done|auto]. destruct (decide (degree s = 0)); [naive_solver|lia].
Qed.

(** Dealing with one more id: its dependents' counters move, and exactly the
    steps it was the missing dependency of become ready. *)
Lemma unlock_counters deg rd dn i :
  counters_ok deg dn -> i ∉ dn ->
  exists deg' new,
    unlock_dependents i (dag_maps steps).2 deg rd = (deg', rd ++ new) /\
    counters_ok deg' (dn ++ [i]) /\ NoDup new /\
    (forall x, x ∈ new -> x ∈ id <$> steps) /\
    forall s, s ∈ steps ->
      id s ∈ new <-> ~ released dn s /\ released (dn ++ [i]) s.
Proof.
  intros [Hdeg Hdom] Hi. set (ds := default [] ((dag_maps steps).2 !! i)).
  assert (unlock_dependents i (dag_maps steps).2 deg rd = foldl unlock_one (deg, rd) ds) as ->
    by (unfold unlock_dependents, ds; by destruct ((dag_maps steps).2 !! i)).
  assert (forall s, s ∈ steps -> id s ∈ ds -> depends_on s <> [] /\
    0 < degree s /\ (settled s dn + count i (depends_on s) <= length (depends_on s))%nat /\
    Z.of_nat (length (depends_on s)) < usize_max) as Hdep by (intros; by apply dependent_bounds).
  pose proof (unlock_list ds deg rd) as Hul.
  destruct (foldl unlock_one (deg, rd) ds) as [deg' rd'].
  destruct Hul as (Hdeg' & new & -> & Hnd & Hnew).
  { intros x v Hx Hin. destruct (find_by_id steps x (Hdom x v Hx)) as (s & Hs & <-).
    destruct (Hdep s Hs Hin) as (Hne & Hpos & Hle & Hmax). rewrite Hdeg in Hx by done.
    rewrite decide_False in Hx by done. injection Hx as <-.
    split; [apply dec_pos; lia|]. unfold ds. rewrite count_dependents by done. lia. }
  exists deg', new. split; [done|].
  split; [|split; [done|split; [intros x (v & Hv & _)%Hnew; by eapply Hdom|]]].
  - split.
    + intros s Hs. rewrite Hdeg', Hdeg, settled_snoc by done. case_decide as Hin.
      * destruct (Hdep s Hs Hin) as (Hne & Hpos & Hle & Hmax).
        rewrite !(decide_False (P := depends_on s = [])) by done. cbn. unfold ds.
        rewrite count_dependents by done. rewrite dec_dec by lia. do 2 f_equal. lia.
      * assert (count i (depends_on s) = O) as ->.
        { rewrite <- (count_dependents steps) by done. by apply count_zero. }
        by rewrite Nat.add_0_r.
    + intros x v. rewrite Hdeg'. case_decide; [|eauto].
      destruct (deg !! x) as [w|] eqn:E; [|done]. intros _. by eapply Hdom.
  - intros s Hs. rewrite Hnew. unfold released. rewrite settled_snoc by done. split.
    + intros (v & Hv & Hin & Hle). destruct (Hdep s Hs Hin) as (Hne & Hpos & Hle' & Hmax).
      rewrite Hdeg, decide_False in Hv by done. injection Hv as <-.
      unfold ds in Hle. rewrite count_dependents in Hle by done. unfold dec in Hle.
      destruct (Z.ltb_spec (Z.of_nat (settled s dn)) (degree s)); lia.
    + intros [Hn Hr]. assert (0 < count i (depends_on s))%nat as Hc by lia.
      assert (id s ∈ ds) as Hin by (apply count_pos; unfold ds; by rewrite count_dependents).
      destruct (Hdep s Hs Hin) as (Hne & Hpos & Hle' & Hmax).
      eexists. rewrite Hdeg, decide_False by done. split; [done|]. split; [done|].
      unfold ds. rewrite count_dependents by done. unfold dec.
      destruct (Z.ltb_spec (Z.of_nat (settled s dn)) (degree s)); lia.
Qed.

(** ** Results and their reasons *)

(** A result that makes the dependents of its step fail. *)
Definition bad (r : StepResult) : Prop :=
  status r = StepStatus.Failed \/
  (status r = StepStatus.Skipped /\ error r = Some "dependency failed").

(** A dependency of [s] has a bad result. *)
Definition has_bad (rs : list StepResult) (s : StepDef) : Prop :=
  exists d r, d ∈ depends_on s /\ r ∈ rs /\ step_id r = d /\ bad r.

(** [s] can be started on the results [rs]. *)
Record startable (rs : list StepResult) (s : StepDef) : Prop := {
  start_released : released (step_id <$> rs) s;
  start_no_bad : ~ has_bad rs s;
  start_condition : ~ blocked_by s rs steps
}.

Context (T : StepDef -> join_result -> Prop) (timeout : Z) (token : bool).

(** Why a result is what it is, given the results before it. *)
Inductive dag_fact (rs : list StepResult) (s : StepDef) : StepResult -> Prop :=
| dag_dependency :
    released (step_id <$> rs) s -> has_bad rs s ->
    dag_fact rs s (skipped (id s) "dependency failed")
| dag_condition :
    released (step_id <$> rs) s -> ~ has_bad rs s -> blocked_by s rs steps ->
    dag_fact rs s (skipped (id s) "condition not met")
| dag_joined rs0 r :
    rs0 `prefix_of` rs -> startable rs0 s -> T s (Joined r) -> dag_fact rs s r
| dag_panicked rs0 e :
    rs0 `prefix_of` rs -> startable rs0 s -> T s (JoinError e) ->
    dag_fact rs s (panicked_result (id s) e).

Inductive dag_results : list StepResult -> Prop :=
| dag_results_nil : dag_results []
| dag_results_snoc rs s r :
    dag_results rs -> s ∈ steps -> step_id r = id s -> dag_fact rs s r ->
    dag_results (rs ++ [r]).

(** ** The invariant *)

(** The ids dealt with, being executed, or ready. *)
Definition tracked (st : dag_state) (inflight : list StepId) : list StepId :=
  (step_id <$> results st) ++ inflight ++ ready st.

Record dag_inv (st : dag_state) (inflight : list StepId) : Prop := {
  inv_counters : counters_ok (in_degree st) (step_id <$> results st);
  inv_nodup : NoDup (tracked st inflight);
  inv_tracked s : s ∈ steps ->
    id s ∈ tracked st inflight <-> released (step_id <$> results st) s;
  inv_known x : x ∈ tracked st inflight -> x ∈ id <$> steps;
  inv_failed d : d ∈ failed st <-> exists r, r ∈ results st /\ step_id r = d /\ bad r;
  inv_results : dag_results (results st)
}.

Lemma dag_inv_perm st l l' : l ≡ₚ l' -> dag_inv st l -> dag_inv st l'.
Proof.
  intros Hl [H1 H2 H3 H4 H5 H6].
  assert (tracked st l ≡ₚ tracked st l') as Ht by (unfold tracked; by rewrite Hl).
  split; [done|by rewrite <- Ht|by intros s Hs; rewrite <- Ht; apply H3
         |by intros x; rewrite <- Ht; apply H4|done|done].
Qed.

Lemma dag_inv_pop st l i rest :
  ready st = i :: rest -> dag_inv st l -> dag_inv (pop st rest) (i :: l).
Proof.
  intros Hr [H1 H2 H3 H4 H5 H6].
  assert (tracked st l ≡ₚ tracked (pop st rest) (i :: l)) as Ht.
  { unfold tracked, pop. rewrite Hr. cbn. by rewrite <- !Permutation_middle. }
  split; [done|by rewrite <- Ht|by intros s Hs; rewrite <- Ht; apply H3
         |by intros x; rewrite <- Ht; apply H4|done|done].
Qed.

(** Recording the result of a step: the three updates together. *)
Definition settle (r : StepResult) (fails : bool) (st : dag_state) : dag_state :=
  push r (unlock (dag_maps steps).2 (step_id r)
    (if fails then mark_failed (step_id r) st else st)).

Lemma settle_eq r fails st deg new :
  unlock_dependents (step_id r) (dag_maps steps).2 (in_degree st) (ready st) = (deg, ready st ++ new) ->
  settle r fails st = mkDag (results st ++ [r])
    (if fails then {[step_id r]} ∪ failed st else failed st) deg (ready st ++ new).
Proof. intros Hul. unfold settle, unlock. destruct fails; cbn; by rewrite Hul. Qed.

Lemma settled_tracked st l r f deg new :
  tracked (mkDag (results st ++ [r]) f deg (ready st ++ new)) l
  ≡ₚ tracked st (step_id r :: l) ++ new.
Proof.
  unfold tracked. cbn [results ready]. rewrite fmap_app. cbn [fmap list_fmap].
  by rewrite <- !app_assoc.
Qed.

(** The set of failed ids after one more result. *)
Lemma failed_snoc (f : gset StepId) rs r (fails : bool) :
  (fails = true <-> bad r) ->
  (forall d, d ∈ f <-> exists r', r' ∈ rs /\ step_id r' = d /\ bad r') ->
  forall d, d ∈ (if fails then {[step_id r]} ∪ f else f) <->
    exists r', r' ∈ rs ++ [r] /\ step_id r' = d /\ bad r'.
Proof.
  intros Hbad Hf d. setoid_rewrite elem_of_app. setoid_rewrite list_elem_of_singleton.
  destruct fails.
  - rewrite elem_of_union, elem_of_singleton, Hf. naive_solver.
  - rewrite Hf. split; [naive_solver|]. intros (r' & [Hr'| ->] & Hd & Hb); [by exists r'|].
    by apply Hbad in Hb.
Qed.

Lemma settle_inv st l s r fails :
  dag_inv st (id s :: l) -> s ∈ steps -> step_id r = id s ->
  (fails = true <-> bad r) -> dag_fact (results st) s r ->
  dag_inv (settle r fails st) l.
Proof.
  intros [H1 H2 H3 H4 H5 H6] Hs Hid Hbad Hfact. rewrite <- Hid in H2, H3, H4.
  assert (step_id r ∉ step_id <$> results st) as Hnew.
  { intros Hin. unfold tracked in H2. apply NoDup_app in H2 as (_ & Hdis & _).
    apply (Hdis _ Hin). set_solver. }
  destruct (unlock_counters (in_degree st) (ready st) _ (step_id r) H1 Hnew)
    as (deg' & new & Hul & Hc & Hnd & Hknown & Hrel).
  rewrite (settle_eq _ _ _ _ _ Hul).
  assert (forall x, x ∈ new -> exists s', s' ∈ steps /\ x = id s' /\
    ~ released (step_id <$> results st) s') as Hnew_known.
  { intros x Hx. destruct (find_by_id steps x (Hknown x Hx)) as (s' & Hs' & <-).
    exists s'. split_and!; [done|done|]. by apply Hrel. }
  split; cbn [results failed in_degree ready].
  - by rewrite fmap_app.
  - rewrite settled_tracked. apply NoDup_app. split_and!; [done| |done].
    intros x Hx Hin. destruct (Hnew_known x Hin) as (s' & Hs' & -> & Hr). by apply Hr, H3.
  - intros s' Hs'. rewrite settled_tracked, elem_of_app, (H3 s' Hs'), (Hrel s' Hs'), fmap_app. cbn.
    unfold released. rewrite settled_snoc by done. split; [lia|].
    intros Hr. destruct (decide (degree s' <= Z.of_nat (settled s' (step_id <$> results st)))); [by left|].
    right. split; [lia|done].
  - intros x. rewrite settled_tracked, elem_of_app. intros [Hx|Hx]; [by apply H4|].
    destruct (Hnew_known x Hx) as (s' & Hs' & -> & _). by apply list_elem_of_fmap_2.
  - by apply failed_snoc.
  - by econstructor.
Qed.

Lemma dag_inv_init :
  dag_inv (mkDag [] ∅ (dag_maps steps).1 (initially_ready steps)) [].
Proof.
  assert (forall s, s ∈ steps -> id s ∈ initially_ready steps <-> released [] s) as Hr.
  { intros s Hs. unfold initially_ready, released. rewrite settled_nil.
    pose proof (degree_nonneg s). pose proof (degree_zero s) as Hz.
    rewrite list_elem_of_fmap. split.
    - intros (s' & E & Hin%list_elem_of_In). apply filter_In in Hin as [Hin%list_elem_of_In Hf].
      rewrite (same_id steps s s') in * by done.
      apply negb_true_iff, nonempty_false in Hf. rewrite (proj2 (degree_zero s')); [lia|done].
    - intros Hle. exists s. split; [done|]. apply list_elem_of_In, filter_In.
      split; [by apply list_elem_of_In|]. apply negb_true_iff, nonempty_false, Hz. lia. }
  split; unfold tracked; cbn [results ready failed in_degree fmap list_fmap app].
  - apply counters_init.
  - by apply NoDup_ids_filter.
  - done.
  - intros x (s & -> & Hs%list_elem_of_In)%list_elem_of_fmap.
    apply filter_In in Hs as [Hs _]. apply list_elem_of_fmap_2. by apply list_elem_of_In.
  - intros d. split; [set_solver|]. intros (r & Hr' & _). set_solver.
  - constructor.
Qed.

(** ** The batch *)

Hypothesis T_ok : forall s r, s ∈ steps -> T s (Joined r) ->
  step_id r = id s /\ (status r = StepStatus.Completed \/ status r = StepStatus.Failed).

(** The handle of a running step. *)
Definition dag_handle_ok (h : history) (rs : list StepResult) (hd : nat * StepId) : Prop :=
  exists s rs0, spawned h !! hd.1 = Some s /\ s ∈ steps /\ id s = hd.2 /\
    rs0 `prefix_of` rs /\ startable rs0 s.

Lemma dag_handle_mono h h' rs rs' hd :
  spawned h `prefix_of` spawned h' -> rs `prefix_of` rs' ->
  dag_handle_ok h rs hd -> dag_handle_ok h' rs' hd.
Proof.
  intros [k Hk] Hrs (s & rs0 & Hs & Hin & Hid & Hpre & Hst). exists s, rs0.
  split_and!; [|done|done|by etrans|done]. rewrite Hk. by apply lookup_app_l_Some.
Qed.

Definition calm (h : history) : Prop := forall n, aborted h n = false.

Lemma calm_same h h' : same_tasks h h' -> calm h -> calm h'.
Proof. intros Hh Hc n. by rewrite (same_aborted _ _ _ Hh). Qed.

Lemma results_settle r fails st : results (settle r fails st) = results st ++ [r].
Proof.
  unfold settle, unlock. destruct fails; cbn; by destruct (unlock_dependents _ _ _ _).
Qed.

Lemma ready_settle r fails st : (length (ready st) <= length (ready (settle r fails st)))%nat.
Proof.
  unfold settle, unlock, unlock_dependents.
  destruct fails; cbn; destruct ((dag_maps steps).2 !! step_id r) as [ds|]; cbn; try done;
    destruct (unlock_list_ready ds (in_degree st) (ready st)) as [new Hn];
    destruct (foldl unlock_one (in_degree st, ready st) ds) as [deg rd]; cbn in *;
    rewrite Hn, length_app; lia.
Qed.

(** The skip sequences of the code, which push first. *)
Lemma settle_skip_failed i st :
  unlock (dag_maps steps).2 i (mark_failed i (push (skipped i "dependency failed") st)) =
  settle (skipped i "dependency failed") true st.
Proof. unfold settle, unlock. cbn. by destruct (unlock_dependents _ _ _ _). Qed.
Lemma settle_skip_condition i st :
  unlock (dag_maps steps).2 i (push (skipped i "condition not met") st) =
  settle (skipped i "condition not met") false st.
Proof. unfold settle, unlock. cbn. by destruct (unlock_dependents _ _ _ _). Qed.

Lemma dep_failed_spec st l s : dag_inv st l -> dep_failed s st = true <-> has_bad (results st) s.
Proof.
  intros Hi. unfold dep_failed, has_bad. rewrite existsb_exists. split.
  - intros (d & Hd%list_elem_of_In & Hf%bool_decide_eq_true).
    apply (inv_failed _ _ Hi) in Hf as (r & Hr & Hid & Hb). by exists d, r.
  - intros (d & r & Hd & Hr & Hid & Hb). exists d. split; [by apply list_elem_of_In|].
    apply bool_decide_eq_true, (inv_failed _ _ Hi). by exists r.
Qed.

(** What holds between two iterations of the batch. *)
Record batch_ok (h : history) (st : dag_state) (handles : list (nat * StepId)) : Prop := {
  batch_inv : dag_inv st handles.*2;
  batch_handles : Forall (dag_handle_ok h (results st)) handles;
  batch_calm : calm h
}.

Lemma handles_same h h' rs handles :
  same_tasks h h' -> Forall (dag_handle_ok h rs) handles -> Forall (dag_handle_ok h' rs) handles.
Proof.
  intros Hh H. eapply Forall_impl; [exact H|]. intros hd. apply dag_handle_mono; [|done].
  by rewrite (same_spawned _ _ Hh).
Qed.

Lemma batch_ok_same h h' st handles :
  same_tasks h h' -> batch_ok h st handles -> batch_ok h' st handles.
Proof.
  intros Hh [H1 H2 H3]. split; [done|by eapply handles_same|by eapply calm_same].
Qed.

Lemma batch_ok_settle h st handles s r fails :
  dag_inv st (id s :: handles.*2) -> Forall (dag_handle_ok h (results st)) handles -> calm h ->
  s ∈ steps -> step_id r = id s -> (fails = true <-> bad r) -> dag_fact (results st) s r ->
  batch_ok h (settle r fails st) handles.
Proof.
  intros Hi Hh Hc Hs Hid Hb Hf. split; [by eapply settle_inv| |done].
  eapply Forall_impl; [exact Hh|]. intros hd. apply dag_handle_mono; [done|].
  rewrite results_settle. by apply prefix_app_r.
Qed.

(** What the loop leaves after [n] more iterations. *)
Definition batched (st : dag_state) (handles : list (nat * StepId)) (n : nat) (h' : history)
    (o : outcome (dag_state * list (nat * StepId))) : Prop :=
  exists st' handles', o = Returned (st', handles') /\ batch_ok h' st' handles' /\
    (length (results st') + length handles' = length (results st) + length handles + n)%nat.

Lemma batched_settle r fails st rest handles n h o :
  batched (settle r fails (pop st rest)) handles n h o -> batched st handles (S n) h o.
Proof.
  intros (st' & hs' & -> & Hok & Hlen). exists st', hs'. split_and!; [done|done|].
  rewrite results_settle, length_app in Hlen. cbn in Hlen. lia.
Qed.

Lemma batched_spawn st rest handles hd n h o :
  batched (pop st rest) (handles ++ [hd]) n h o -> batched st handles (S n) h o.
Proof.
  intros (st' & hs' & -> & Hok & Hlen). exists st', hs'. split_and!; [done|done|].
  rewrite length_app in Hlen. cbn in Hlen. lia.
Qed.

Lemma batch_ok_spawn h st handles s :
  dag_inv st (id s :: handles.*2) -> Forall (dag_handle_ok h (results st)) handles -> calm h ->
  s ∈ steps -> startable (results st) s ->
  let t := length (spawned h) in
  batch_ok (h ++ [Call (Spawn s) t]) st (handles ++ [(t, id s)]).
Proof.
  intros Hi Hh Hc Hs Hst t. split.
  - rewrite fmap_app. cbn. eapply dag_inv_perm; [|exact Hi]. by rewrite <- Permutation_cons_append.
  - apply Forall_app. split; [|constructor; [|constructor]].
    + eapply Forall_impl; [exact Hh|]. intros hd. apply dag_handle_mono; [|done].
      rewrite spawned_spawn. by apply prefix_app_r.
    + exists s, (results st). rewrite spawned_spawn. cbn.
      by split_and!; [rewrite list_lookup_middle| | | |].
  - intros k. rewrite aborted_spawn. apply Hc.
Qed.

(** Popping a ready id: a known step that was released. *)
Lemma pop_ready st l i rest :
  ready st = i :: rest -> dag_inv st l ->
  exists s, i = id s /\ s ∈ steps /\ step_map steps !! i = Some s /\
    dag_inv (pop st rest) (id s :: l) /\ released (step_id <$> results st) s.
Proof.
  intros Er Hi. pose proof (dag_inv_pop _ _ _ _ Er Hi) as Hi'.
  assert (i ∈ id <$> steps) as Hknown
    by (apply (inv_known _ _ Hi'); unfold tracked; cbn; set_solver).
  destruct (find_by_id steps i Hknown) as (s & Hs & <-). exists s.
  split_and!; [done|done|by apply step_map_lookup|done|].
  apply (inv_tracked _ _ Hi' s Hs). unfold tracked. cbn. set_solver.
Qed.

Lemma wp_batch_loop cx n : forall st handles h,
  batch_ok h st handles -> (n <= length (ready st))%nat ->
  wp T h (batch_loop n steps (step_map steps) (dag_maps steps).2 cx st handles)
    (batched st handles n).
Proof.
  induction n as [|n IH]; intros st handles h Hok Hn; cbn [batch_loop].
  { exists st, handles. split_and!; [done|done|lia]. }
  destruct (ready st) as [|i rest] eqn:Er; [cbn in Hn; lia|]. cbv zeta.
  destruct Hok as [Hi Hh Hc].
  destruct (pop_ready _ _ _ _ Er Hi) as (s & -> & Hs & -> & Hi' & Hrel).
  assert (forall h' r fails, Forall (dag_handle_ok h' (results st)) handles -> calm h' ->
    step_id r = id s -> (fails = true <-> bad r) -> dag_fact (results st) s r ->
    wp T h' (batch_loop n steps (step_map steps) (dag_maps steps).2 cx
      (settle r fails (pop st rest)) handles) (batched st handles (S n))) as Hskip.
  { intros h' r fails Hh' Hc' Hid Hb Hf. eapply wp_mono; [apply batched_settle|apply IH].
    - by eapply batch_ok_settle.
    - etrans; [|apply ready_settle]. cbn in Hn |- *. lia. }
  destruct (dep_failed s (pop st rest)) eqn:Edep.
  - apply (dep_failed_spec _ _ _ Hi') in Edep.
    apply wp_bind, wp_emit_skip. intros h1 Hh1. cbn [continue]. rewrite settle_skip_failed.
    apply Hskip; [by eapply handles_same|by eapply calm_same|done| |by constructor].
    split; [|done]. intros _. by right.
  - assert (~ has_bad (results st) s) as Hnb.
    { intros Hb. apply (dep_failed_spec _ _ _ Hi') in Hb. congruence. }
    apply wp_bind, wp_condition_blocks. intros h1 Hh1. cbn [continue results pop].
    apply (handles_same _ _ _ _ Hh1) in Hh. apply (calm_same _ _ Hh1) in Hc.
    destruct (blocks steps (results st) s) eqn:Eb.
    + apply blocks_blocked_by in Eb. apply wp_bind, wp_emit_skip. intros h2 Hh2. cbn [continue].
      rewrite settle_skip_condition.
      apply Hskip; [by eapply handles_same|by eapply calm_same|done| |by constructor].
      split; [done|]. intros [H|[_ H]]; done.
    + apply wp_call; [done|]. intros t Ht. cbn in Ht. subst t.
      eapply wp_mono; [apply batched_spawn|apply IH; [|cbn in Hn |- *; lia]].
      apply batch_ok_spawn; [done..|]. split; [done|done|].
      intros Hbl%blocks_blocked_by. cbn [results pop] in Hbl. congruence.
Qed.

(** ** Joining the batch *)

Lemma settle_joined r st :
  push r (unlock (dag_maps steps).2 (step_id r)
    (if bool_decide (status r = StepStatus.Completed) then st else mark_failed (step_id r) st)) =
  settle r (negb (bool_decide (status r = StepStatus.Completed))) st.
Proof. unfold settle. by case_bool_decide. Qed.

Lemma wp_join_batch handles : forall st h,
  batch_ok h st handles ->
  wp T h (join_batch (dag_maps steps).2 handles st) (fun h' o =>
    exists st', o = Returned st' /\ batch_ok h' st' [] /\
      length (results st') = (length (results st) + length handles)%nat).
Proof.
  induction handles as [|[t i] handles IH]; intros st h [Hi Hh Hc]; cbn [join_batch].
  { exists st. split_and!; [done|done|cbn; lia]. }
  cbn in Hi. apply Forall_cons in Hh as [(s & rs0 & Hs & Hin & Hid & Hpre & Hst) Hh].
  cbn in Hs, Hid. subst i. apply wp_call; [by eapply lookup_lt_Some|]. intros joined Hj.
  cbn in Hj. rewrite Hs in Hj. destruct Hj as [Hj|[Hab _]]; [|by rewrite Hc in Hab].
  set (h1 := h ++ [Call (Await t) joined]).
  assert (Forall (dag_handle_ok h1 (results st)) handles) as Hh1.
  { eapply Forall_impl; [exact Hh|]. intros hd. apply dag_handle_mono; [|done].
    unfold h1. by rewrite spawned_await. }
  assert (calm h1) as Hc1 by (intros k; unfold h1; rewrite aborted_await; apply Hc).
  (* The rest of the joins, once this result is recorded. *)
  assert (forall r fails, step_id r = id s -> (fails = true <-> bad r) ->
    dag_fact (results st) s r ->
    wp T h1 (join_batch (dag_maps steps).2 handles (settle r fails st)) (fun h' o =>
      exists st', o = Returned st' /\ batch_ok h' st' [] /\
        length (results st') = (length (results st) + S (length handles))%nat)) as Hgo.
  { intros r fails Hr Hb Hf. eapply wp_mono; [|by apply IH; eapply batch_ok_settle].
    intros h' o (st' & -> & Hok & Hlen). exists st'. split_and!; [done|done|].
    rewrite results_settle, length_app in Hlen. cbn in Hlen. lia. }
  destruct joined as [r|e].
  - destruct (T_ok s r Hin Hj) as [Hr Hstatus]. cbv zeta. rewrite <- Hr.
    rewrite settle_joined. apply Hgo; [done| |by eapply dag_joined].
    unfold bad. case_bool_decide as Hst'; destruct Hstatus as [E|E]; rewrite E in *; naive_solver.
  - cbv zeta. apply (Hgo (panicked_result (id s) e) true); [done| |by eapply dag_panicked].
    split; [|done]. intros _. by left.
Qed.

(** ** The end of a run *)

(** Nothing ready and nothing running: every step has been dealt with. *)
Lemma dag_complete st :
  (forall s d, s ∈ steps -> d ∈ depends_on s -> d ∈ id <$> steps) ->
  (forall u, ~ tc (flow_edge steps) u u) ->
  dag_inv st [] -> ready st = [] -> step_id <$> results st ≡ₚ id <$> steps.
Proof.
  intros Hrefs Hac Hi Hready.
  pose proof (inv_nodup _ _ Hi) as Hnd. pose proof (inv_known _ _ Hi) as Hknown.
  pose proof (inv_tracked _ _ Hi) as Htr.
  unfold tracked in *. rewrite Hready, !app_nil_r in *.
  apply NoDup_Permutation; [done|done|]. intros x. split; [apply Hknown|].
  intros Hx. pose proof (acyclic_grounded steps x Hac Hx) as Hg.
  revert Hx. induction Hg as [x _ IH]. intros Hx.
  destruct (find_by_id steps x Hx) as (s & Hs & <-). apply Htr; [done|].
  assert (forall d, d ∈ depends_on s -> d ∈ step_id <$> results st) as Hall.
  { intros d Hd. apply IH; [|by eapply Hrefs]. apply flow_edge_unique; [done|]. eauto. }
  apply settled_all in Hall. unfold released. rewrite Hall. apply degree_le.
Qed.

(** The skip of a step that was ready when the run was stopped. *)
Inductive stop_skip : StepResult -> Prop :=
| stop_cancelled i : token = true -> stop_skip (skipped i "cancelled")
| stop_late i : timeout < u64_max -> stop_skip (skipped i "flow timeout exceeded").

(** What a run of the coordinator returns: the results of the steps dealt with,
    then the skips of a cancellation or timeout, if there was one. *)
Record dag_final (rs : list StepResult) : Prop := {
  final_results : exists dealt stops,
    rs = dealt ++ stops /\ dag_results dealt /\ Forall stop_skip stops;
  final_nodup : NoDup (step_id <$> rs);
  final_known : forall i, i ∈ step_id <$> rs -> i ∈ id <$> steps;
  final_complete :
    (forall s d, s ∈ steps -> d ∈ depends_on s -> d ∈ id <$> steps) ->
    (forall u, ~ tc (flow_edge steps) u u) ->
    token = false -> u64_max <= timeout -> step_id <$> rs ≡ₚ id <$> steps
}.

Lemma wp_skip_ready cx (reason : string) : (forall i, stop_skip (skipped i reason)) ->
  forall l rs h,
  (forall i, i ∈ l -> i ∈ id <$> steps) ->
  wp T h (skip_ready (step_map steps) cx reason l rs) (fun _ o =>
    exists stops, o = Returned (rs ++ stops) /\ Forall stop_skip stops /\ step_id <$> stops = l).
Proof.
  intros Hstop. induction l as [|i l IH]; intros rs h Hl; cbn [skip_ready].
  { exists []. rewrite app_nil_r. split_and!; [done|constructor|done]. }
  destruct (find_by_id steps i (Hl i (list_elem_of_here _ _))) as (s & Hs & <-).
  assert (step_map steps !! id s = Some s) as -> by (by apply step_map_lookup).
  apply wp_bind, wp_emit_skip. intros h1 _. cbn [continue].
  eapply wp_mono; [|apply IH; set_solver]. intros h2 o (stops & -> & Hf & <-).
  exists (skipped (id s) reason :: stops). rewrite <- app_assoc.
  split_and!; [done|by constructor|done].
Qed.

Lemma length_results st l : dag_inv st l -> (length (results st) + length l + length (ready st) <= length steps)%nat.
Proof.
  intros Hi. rewrite <- (length_fmap step_id), <- (length_fmap id steps).
  rewrite <- Nat.add_assoc, <- !length_app.
  apply NoDup_incl_length; [by apply NoDup_ListNoDup, (inv_nodup _ _ Hi)|].
  intros x Hx. apply list_elem_of_In, (inv_known _ _ Hi). by apply list_elem_of_In.
Qed.

Lemma dag_final_ready st : dag_inv st [] -> ready st = [] -> dag_final (results st).
Proof.
  intros Hi Hr. split.
  - exists (results st), []. rewrite app_nil_r. split_and!; [done|apply Hi|constructor].
  - pose proof (inv_nodup _ _ Hi) as Hnd. by apply NoDup_app in Hnd as [Hnd _].
  - intros i Hin. apply (inv_known _ _ Hi). unfold tracked. set_solver.
  - intros. by apply dag_complete.
Qed.

Lemma dag_final_stop st stops :
  dag_inv st [] -> Forall stop_skip stops -> step_id <$> stops = ready st ->
  token = true \/ timeout < u64_max -> dag_final (results st ++ stops).
Proof.
  intros Hi Hf Hids Hstop. split.
  - exists (results st), stops. split_and!; [done|apply Hi|done].
  - rewrite fmap_app, Hids. apply (inv_nodup _ _ Hi).
  - intros i. rewrite fmap_app, Hids. apply (inv_known _ _ Hi).
  - intros _ _ Ht Hu. destruct Hstop; [congruence|lia].
Qed.

Lemma wp_dag_loop cx start fuel : forall st h,
  batch_ok h st [] -> (length steps <= length (results st) + fuel)%nat ->
  wp T h (dag_loop fuel steps (step_map steps) (dag_maps steps).2 timeout start token cx st)
    (fun _ o => exists rs, o = Returned rs /\ dag_final rs).
Proof.
  induction fuel as [|fuel IH]; intros st h Hok Hfuel; cbn [dag_loop];
    pose proof (batch_inv _ _ _ Hok) as Hi; pose proof (length_results _ _ Hi) as Hlen;
    destruct (ready st) as [|i rest] eqn:Er.
  1, 3: exists (results st); split; [done|]; by apply dag_final_ready.
  { cbn in Hlen. lia. }
  rewrite <- Er in *. apply wp_bind, wp_is_cancelled. intros h1 cancelled Hh1 Hcan. cbn [continue].
  apply wp_bind, wp_is_late. intros h2 late Hh2 Hlate. cbn [continue].
  pose proof (same_tasks_trans _ _ _ Hh1 Hh2) as Hh. destruct late.
  - eapply wp_mono; [|apply wp_skip_ready].
    + intros h3 o (stops & -> & Hf & Hids). eexists. split; [done|].
      eapply dag_final_stop; [done|done|done|]. destruct (Hlate eq_refl); [left; auto|by right].
    + destruct cancelled; intros j; constructor; [auto|]. by destruct (Hlate eq_refl).
    + intros j Hj. apply (inv_known _ _ Hi). unfold tracked. set_solver.
  - apply wp_bind. eapply wp_mono; [|apply wp_batch_loop; [by eapply batch_ok_same|done]].
    intros h3 o (st' & hs & -> & Hok' & Hl). cbn [continue].
    apply wp_bind. eapply wp_mono; [|by apply wp_join_batch].
    intros h4 o (st'' & -> & Hok'' & Hl'). cbn [continue]. apply IH; [done|].
    rewrite Er in Hl. cbn in Hl. lia.
Qed.

Lemma wp_run_dag cx start h :
  calm h ->
  wp T h (run_dag steps timeout start token cx)
    (fun _ o => exists rs, o = Returned rs /\ dag_final rs).
Proof.
  intros Hcalm. unfold run_dag. pose proof dag_inv_init as Hinit. pose proof wp_dag_loop as Hloop.
  destruct (dag_maps steps) as [deg dependents]. cbn [fst snd] in *.
  apply Hloop; [|cbn; lia]. split; [done|constructor|done].
Qed.

(** ** Consequences *)

Lemma dag_results_at pre r post :
  dag_results (pre ++ r :: post) -> exists s, s ∈ steps /\ step_id r = id s /\ dag_fact pre s r.
Proof.
  induction post as [|x post IH] using rev_ind; intros H.
  - inversion H as [E|rs s r' Hrs Hs Hid Hf E]; [by destruct pre|].
    apply app_inj_tail in E as [-> ->]. by exists s.
  - rewrite app_comm_cons, app_assoc in H.
    inversion H as [E|rs s r' Hrs Hs Hid Hf E]; [by destruct pre|].
    apply app_inj_tail in E as [-> ->]. by apply IH.
Qed.

(** Every result has one of four reasons. *)
Lemma dag_results_reasons rs r :
  dag_results rs -> r ∈ rs ->
  status r = StepStatus.Completed \/ status r = StepStatus.Failed \/
  r = skipped (step_id r) "dependency failed" \/ r = skipped (step_id r) "condition not met".
Proof.
  intros Hrs Hr. apply list_elem_of_split in Hr as (pre & post & ->).
  destruct (dag_results_at _ _ _ Hrs) as (s & Hs & Hid & Hf).
  destruct Hf as [| |rs0 r _ _ HT|]; [auto..| |auto].
  destruct (T_ok s r Hs HT) as [_ [?|?]]; auto.
Qed.

(** A step that ran came after its dependencies, none of which failed. *)
Lemma dag_ran_after pre r post s :
  dag_results (pre ++ r :: post) -> status r <> StepStatus.Skipped ->
  s ∈ steps -> id s = step_id r ->
  exists rs0, rs0 `prefix_of` pre /\ startable rs0 s.
Proof.
  intros Hrs Hst Hs Hid. destruct (dag_results_at _ _ _ Hrs) as (s' & Hs' & Hid' & Hf).
  assert (s' = s) as -> by (apply (same_id steps); [done|done|done|congruence]).
  destruct Hf as [| |rs0 r Hpre Hstart _|rs0 e Hpre Hstart _]; [done|done|eauto|eauto].
Qed.
End DagInv.

(** ** Properties *)

Section DagProperties.
Context `{JN : JsonNumber} `{JL : !JsonLib} `{UL : UuidLib} `{BP : BuildProfile}.

(** A list of steps a DAG run is meant for: distinct ids, counters within their
    types. *)
Record dag_steps (l : list StepDef) : Prop := {
  dag_distinct : NoDup (id <$> l);
  dag_short s : s ∈ l -> Z.of_nat (length (depends_on s)) < usize_max;
  dag_retries s : s ∈ l -> 0 <= max_retries s <= u32_max
}.

Lemma task_result_ok cx l s r :
  dag_steps l -> s ∈ l -> task_result cx s (Joined r) ->
  step_id r = id s /\ (status r = StepStatus.Completed \/ status r = StepStatus.Failed).
Proof.
  intros Hl Hs HT. destruct (task_result_done cx s r) as (m & _ & H1 & _ & H2 & _);
    [by apply (dag_retries _ Hl)|done|done].
Qed.

(** The final results of a reachable configuration whose coordinator ended. *)
Lemma dag_end cx steps n timeout start token c o :
  dag_steps steps ->
  rtc (step cx) (start_config n (run_dag steps timeout start token cx)) c ->
  coord c = Done o ->
  exists rs, o = Returned rs /\ dag_final steps (task_result cx) timeout token rs.
Proof.
  intros Hl Hreach Hdone.
  pose proof (coord_wp cx _ _ _ _ Hreach (pool_inv_start cx _ _)
    (wp_run_dag steps (dag_distinct _ Hl) (dag_short _ Hl) (task_result cx) timeout token
       (fun s r => task_result_ok cx steps s r Hl) cx start [] (fun _ => eq_refl))) as H.
  by rewrite Hdone in H.
Qed.

(** From every configuration it reaches, the run can still end. *)
Lemma dag_ends cx l n timeout start token c :
  dag_steps l ->
  rtc (step cx) (start_config n (run_dag l timeout start token cx)) c ->
  exists c' rs, rtc (step cx) c c' /\ coord c' = Done (Returned rs) /\
    dag_final l (task_result cx) timeout token rs.
Proof.
  intros Hl Hreach. assert (0 < Nat.max n 1)%nat as Hpos by lia.
  destruct (reaches_end cx _ c _ Hpos (pool_inv_reachable cx _ _ _ Hreach)
    (coord_wp cx _ _ _ _ Hreach (pool_inv_start cx _ _)
      (wp_run_dag l (dag_distinct _ Hl) (dag_short _ Hl) (task_result cx) timeout token
         (fun s r => task_result_ok cx l s r Hl) cx start [] (fun _ => eq_refl))))
    as (c' & o & Hr & Ho & rs & -> & Hfin). eauto.
Qed.

(** A result that is not a skip is among those dealt with. *)
Lemma dealt_with timeout token pre r post dealt stops :
  pre ++ r :: post = dealt ++ stops -> Forall (stop_skip timeout token) stops ->
  status r <> StepStatus.Skipped -> exists post', dealt = pre ++ r :: post'.
Proof.
  intros Heq Hstops Hst.
  assert (r ∉ stops) as Hr.
  { intros Hr. rewrite Forall_forall in Hstops. by destruct (Hstops r Hr). }
  destruct (app_eq_inv _ _ _ _ Heq) as [(k & -> & E2)|(k & -> & E2)].
  - destruct Hr. rewrite E2. set_solver.
  - destruct k as [|x k]; cbn in E2; [destruct Hr; rewrite <- E2; set_solver|].
    injection E2 as <- _. by exists k.
Qed.
End DagProperties.

(** C3. Under every schedule, a DAG run that ends returns results that each have
    their reason.  A step is recorded as skipped for a failed dependency when it
    was released and a dependency has a bad result before it; as skipped for its
    condition when no dependency has and the condition evaluates to false; and
    its task ran only from a state in which it was released (all dependencies
    dealt with, or one for a step triggered by any), no dependency had a bad
    result and the condition did not evaluate to false.  No step has two
    results, and skips for a cancellation or a timeout come last.  When the run
    cannot be stopped by a token or a timeout, and the flow's dependencies
    exist and are acyclic, every step has its result. *)
Theorem dag_correct `{JN : JsonNumber} `{JL : !JsonLib} `{UL : UuidLib} `{BP : BuildProfile}
    cx f n timeout start token c o :
  dag_steps (steps f) -> flow_mode f = FlowMode.Dag -> validate f = Ok tt ->
  rtc (step cx) (start_config n (run_dag (steps f) timeout start token cx)) c ->
  coord c = Done o ->
  exists dealt stops,
    o = Returned (dealt ++ stops) /\
    dag_results (steps f) (task_result cx) dealt /\
    Forall (stop_skip timeout token) stops /\
    NoDup (step_id <$> (dealt ++ stops)) /\
    (token = false -> u64_max <= timeout ->
     stops = [] /\ step_id <$> dealt ≡ₚ id <$> steps f).
Proof.
  intros Hl Hmode Hval Hreach Hdone. apply validate_ok_spec in Hval.
  destruct (dag_end _ _ _ _ _ _ _ _ Hl Hreach Hdone) as (rs & -> & Hfin).
  destruct (final_results _ _ _ _ _ Hfin) as (dealt & stops & -> & Hd & Hs).
  exists dealt, stops. split_and!; [done|done|done|apply (final_nodup _ _ _ _ _ Hfin)|].
  intros Ht Hu. assert (stops = []) as ->.
  { destruct Hs as [|r stops Hr _]; [done|]. destruct Hr; [congruence|lia]. }
  split; [done|]. rewrite <- (app_nil_r dealt).
  apply (final_complete _ _ _ _ _ Hfin); [by apply vs_refs|by apply vs_acyclic|done|done].
Qed.

(** C4. Dependencies come first: if a step that waits for all its dependencies
    ran (completed, failed or panicked), each of its dependencies has a result
    before it, which is a completion or a skip because of its condition. *)
Theorem dag_dependencies_first `{JN : JsonNumber} `{JL : !JsonLib} `{UL : UuidLib}
    `{BP : BuildProfile} cx f n timeout start token c rs pre r post s d :
  dag_steps (steps f) -> flow_mode f = FlowMode.Dag -> validate f = Ok tt ->
  rtc (step cx) (start_config n (run_dag (steps f) timeout start token cx)) c ->
  coord c = Done (Returned rs) ->
  rs = pre ++ r :: post -> status r <> StepStatus.Skipped ->
  s ∈ steps f -> id s = step_id r -> trigger_mode s = TriggerMode.All -> d ∈ depends_on s ->
  exists r', r' ∈ pre /\ step_id r' = d /\
    (status r' = StepStatus.Completed \/ r' = skipped d "condition not met").
Proof.
  intros Hl Hmode Hval Hreach Hdone -> Hst Hs Hid Htrig Hd.
  destruct (dag_end _ _ _ _ _ _ _ _ Hl Hreach Hdone) as (rs & [= <-] & Hfin).
  destruct (final_results _ _ _ _ _ Hfin) as (dealt & stops & Hrs & Hdealt & Hstops).
  destruct (dealt_with _ _ _ _ _ _ _ Hrs Hstops Hst) as [post' ->].
  destruct (dag_ran_after _ (dag_distinct _ Hl) _ _ _ _ _ Hdealt Hst Hs Hid)
    as (rs0 & Hpre & [Hrel Hnb _]).
  unfold released, degree in Hrel. rewrite Htrig in Hrel.
  assert (d ∈ step_id <$> rs0) as (r' & -> & Hr')%list_elem_of_fmap.
  { apply (proj1 (settled_all s (step_id <$> rs0))); [|done].
    pose proof (settled_le s (step_id <$> rs0)). lia. }
  assert (r' ∈ pre) as Hin by (destruct Hpre as [k ->]; set_solver).
  exists r'. split_and!; [done|done|].
  destruct (dag_results_reasons _ (task_result cx) (fun s r => task_result_ok cx _ s r Hl) _ r' Hdealt)
    as [Hc|[Hf|[Hf|Hf]]]; [set_solver|by left| | |by right];
    destruct Hnb; exists (step_id r'), r'; (split_and!; [done|done|done|]);
    [by left|right; rewrite Hf; done].
Qed.

(** A DAG run never deadlocks and always ends, within one batch per step: no
    schedule is infinite, and from every configuration it can reach the
    coordinator can still return its results. *)
Lemma dag_terminates `{JN : JsonNumber} `{JL : !JsonLib} `{UL : UuidLib} `{BP : BuildProfile}
    cx l n timeout start token c :
  dag_steps l ->
  rtc (step cx) (start_config n (run_dag l timeout start token cx)) c ->
  Acc (fun c' c => step cx c c') c /\
  exists c' rs, rtc (step cx) c c' /\ coord c' = Done (Returned rs).
Proof.
  intros Hl Hreach. split; [apply step_acc|].
  destruct (dag_ends cx l n timeout start token c Hl Hreach) as (c' & rs & H1 & H2 & _). eauto.
Qed.

(** ** Witnesses *)

Module DagExamples.
Export StepExamples.

(** [test] depends on [build]. *)
Definition build : StepDef := step_new 1%N "build".
Definition test : StepDef := with_dependency (step_new 2%N "test") 1%N.
Definition flow : FlowDef :=
  add_step (add_step (flow_new 9%N "ci" FlowMode.Dag) test) build.

Definition env : history -> forall a, res a :=
  answers (fun _ _ => HandlerOk Null) (fun _ _ => JoinError "cancelled").
Lemma dag_env_legal : legal_oracle (fun _ _ => True) env.
Proof. by apply answers_legal. Qed.

Definition run : prog (list StepResult) := run_dag (steps flow) u64_max 0 false cx.
Definition final : config := drive cx 200 env (start_config 4 run).

Definition ok_result (i : StepId) : StepResult :=
  {| step_id := i; status := StepStatus.Completed; output := Null;
     duration_ms := 0; attempts := 1; error := None |}.

Lemma flow_ok : dag_steps (steps flow).
Proof.
  split.
  - apply (bool_decide_eq_true_1 _). reflexivity.
  - intros s Hs. repeat (apply elem_of_cons in Hs as [->|Hs]; [cbn; unfold usize_max; lia|]).
    by apply not_elem_of_nil in Hs.
  - intros s Hs. repeat (apply elem_of_cons in Hs as [->|Hs]; [cbn; unfold u32_max; lia|]).
    by apply not_elem_of_nil in Hs.
Qed.

Lemma dag_final_reached : rtc (step cx) (start_config 4 run) final.
Proof. apply drive_reaches, dag_env_legal. Qed.

Lemma dag_final_done : coord final = Done (Returned [ok_result 1%N; ok_result 2%N]).
Proof. reflexivity. Qed.
End DagExamples.

#[local] Existing Instances SerdeModel.serde_number SerdeModel.serde_lib
  StepExamples.ids StepExamples.release.

Lemma dag_correct_witness :
  exists dealt stops,
    [DagExamples.ok_result 1%N; DagExamples.ok_result 2%N] = dealt ++ stops /\
    stops = [] /\ step_id <$> dealt ≡ₚ [2%N; 1%N].
Proof.
  destruct (dag_correct StepExamples.cx DagExamples.flow 4 u64_max 0 false DagExamples.final
    (Returned [DagExamples.ok_result 1%N; DagExamples.ok_result 2%N])
    DagExamples.flow_ok eq_refl eq_refl DagExamples.dag_final_reached DagExamples.dag_final_done)
    as (dealt & stops & [= E] & _ & _ & _ & H).
  exists dealt, stops. destruct (H eq_refl ltac:(done)) as [H1 H2]. done.
Defined.

Lemma dag_dependencies_first_witness :
  exists r', r' ∈ [DagExamples.ok_result 1%N] /\ step_id r' = 1%N /\
    (status r' = StepStatus.Completed \/ r' = skipped 1%N "condition not met").
Proof.
  apply (dag_dependencies_first StepExamples.cx DagExamples.flow 4 u64_max 0 false
    DagExamples.final _ [DagExamples.ok_result 1%N] (DagExamples.ok_result 2%N) []
    DagExamples.test 1%N DagExamples.flow_ok eq_refl eq_refl DagExamples.dag_final_reached
    DagExamples.dag_final_done eq_refl); [done|left|done|done|left].
Defined.

