(* ===== verification/Distributed.v ===== *)
(** * Distributed DAG execution

    [rust-old/src/engine/distributed.rs]: a coordinator submits the ready steps
    of a DAG flow to the nodes of a fleet; a worker per node takes steps from
    its queue, executes them and sends the results back over a channel; the
    coordinator releases dependents as results arrive.

    [majra::fleet] is not part of the program.  Its queues are the set of items
    submitted and not yet taken: any worker may find any of them, or none, which
    covers every placement and every rebalancing, and an item is taken once.  A
    configuration holds the queues, the channel, the workers and the
    coordinator; [fleet_step] lets any of them move. *)

From Stdlib Require Import ZArith Lia.
From stdpp Require Import base tactics option list strings gmap sets relations.
From S2P Require Import Prelude Json State Error Step CondLexer Condition Flow Bus.
From S2P Require Import EngineResult Prog StepExec Sequential Pool Parallel Dag.

Open Scope Z_scope.

(** ** The coordinator *)

Section Coordinator.
Context `{JN : JsonNumber} `{JL : !JsonLib} `{UL : UuidLib} `{BP : BuildProfile}.

(** The result of a step no node accepts. *)
Definition no_node (i : StepId) : StepResult :=
  {| step_id := i; status := StepStatus.Failed; output := Null;
     duration_ms := 0; attempts := 0; error := Some "no fleet node available" |}.

Definition remaining (timeout start : Z) : prog Z :=
  let! ms := elapsed_ms start in ret (Z.max (sat_sub timeout ms) 1).

(** A worker for each node that has a queue. *)
Fixpoint start_workers (nodes : list string) (workers : list nat) : prog (list nat) :=
  match nodes with
  | [] => ret workers
  | n :: nodes =>
      let! queue := perform (FleetHasQueue n) in
      if queue then
        let! w := perform (StartWorker n) in start_workers nodes (workers ++ [w])
      else start_workers nodes workers
  end.

(** [while let Some(id) = ready.pop_front()]: [fuel] bounds the turns. *)
Fixpoint submit_ready (fuel : nat) (steps : list StepDef) (m : gmap StepId StepDef)
    (dependents : gmap StepId (list StepId)) (cx : ExecCtx) (st : dag_state) (in_flight : nat)
  : prog (dag_state * nat) :=
  match ready st with
  | [] => ret (st, in_flight)
  | i :: rest =>
      match fuel with
      | O => Done OutOfFuel
      | S fuel =>
          let st := pop st rest in
          match m !! i with
          | None => submit_ready fuel steps m dependents cx st in_flight
          | Some s =>
              if dep_failed s st then
                let! _ := emit_skip cx s "dependency failed" in
                let st := push (skipped i "dependency failed") st in
                let st := mark_failed i st in
                submit_ready fuel steps m dependents cx (unlock dependents i st) in_flight
              else
              let! blocked := condition_blocks s (results st) steps in
              if blocked then
                let! _ := emit_skip cx s "condition not met" in
                let st := push (skipped i "condition not met") st in
                submit_ready fuel steps m dependents cx (unlock dependents i st) in_flight
              else
              let! submitted := perform (FleetSubmit s) in
              match submitted with
              | Some (node, task_id) =>
                  submit_ready fuel steps m dependents cx st (S in_flight)
              | None =>
                  let st := push (no_node i) st in
                  let st := mark_failed i st in
                  submit_ready fuel steps m dependents cx (unlock dependents i st) in_flight
              end
          end
      end
  end.

(** What a received result changes. *)
Definition receive_result (dependents : gmap StepId (list StepId)) (r : StepResult)
    (st : dag_state) : dag_state :=
  let st := if bool_decide (status r = StepStatus.Completed) then st
            else mark_failed (step_id r) st in
  unlock dependents (step_id r) (push r st).

(** The main loop: [fuel] bounds the results received. *)
Fixpoint coordinate (fuel : nat) (steps : list StepDef) (m : gmap StepId StepDef)
    (dependents : gmap StepId (list StepId)) (timeout start : Z) (token : bool) (cx : ExecCtx)
    (st : dag_state) (in_flight : nat) : prog dag_state :=
  match fuel with
  | O => Done OutOfFuel
  | S fuel =>
      let! (st, in_flight) := submit_ready (length steps) steps m dependents cx st in_flight in
      if (length steps <=? length (results st))%nat || (in_flight =? 0)%nat then ret st
      else
      let! cancelled := is_cancelled token in
      let! ms := elapsed_ms start in
      if cancelled || (timeout <? ms) then ret st
      else
      let! wait := remaining timeout start in
      let! received := perform (FleetReceive token wait) in
      match received with
      | None => ret st
      | Some r =>
          let! _ := perform FleetRebalance in
          coordinate fuel steps m dependents timeout start token cx
            (receive_result dependents r st) (pred in_flight)
      end
  end.

(** The reason of the steps that are left. *)
Definition left_reason (timeout start : Z) (token : bool) : prog string :=
  let! cancelled := is_cancelled token in
  if cancelled then ret "cancelled"
  else
    let! ms := elapsed_ms start in
    ret (if timeout <? ms then "flow timeout exceeded" else "not scheduled").

Fixpoint skip_left (seen : gset StepId) (cx : ExecCtx) (reason : string) (l : list StepDef)
    (rs : list StepResult) : prog (list StepResult) :=
  match l with
  | [] => ret rs
  | s :: l =>
      if bool_decide (id s ∈ seen) then skip_left seen cx reason l rs
      else
        let! _ := emit_skip cx s reason in
        skip_left seen cx reason l (rs ++ [skipped (id s) reason])
  end.

Fixpoint join_workers (workers : list nat) : prog unit :=
  match workers with
  | [] => ret tt
  | w :: workers => let! _ := perform (JoinWorker w) in join_workers workers
  end.

(** A received result settles a step, so that one turn per step, and one to
    leave, are enough. *)
Definition run_distributed_dag (steps : list StepDef) (timeout start : Z) (token : bool)
    (cx : ExecCtx) : prog (list StepResult) :=
  let '(deg, dependents) := dag_maps steps in
  let! nodes := perform FleetNodes in
  let! workers := start_workers nodes [] in
  let! st := coordinate (S (length steps)) steps (step_map steps) dependents timeout start token cx
    (mkDag [] ∅ deg (initially_ready steps)) 0 in
  let! rs :=
    (if (length (results st) <? length steps)%nat then
       let! reason := left_reason timeout start token in
       skip_left (list_to_set (step_id <$> results st)) cx reason steps (results st)
     else ret (results st)) in
  let! _ := perform StopWorkers in
  let! _ := join_workers workers in
  ret rs.
End Coordinator.

(** ** Verification of the coordinator *)

Lemma remove_first_perm i l : i ∈ l -> l ≡ₚ i :: remove_first i l.
Proof.
  induction l as [|j l IH]; cbn; [set_solver|]. case_decide as E; [by subst|].
  intros [->|Hi]%elem_of_cons; [done|]. rewrite Permutation_swap. by rewrite <- IH.
Qed.

Section Fleet.
Context `{JN : JsonNumber}.

Lemma accepted_snoc h s x : accepted (h ++ [Call (FleetSubmit s) (Some x)]) = accepted h ++ [s].
Proof. unfold accepted. by rewrite omap_app. Qed.
Lemma outstanding_snoc h c : outstanding (h ++ [c]) = fly (outstanding h) c.
Proof. unfold outstanding. by rewrite foldl_app. Qed.
(** Calls that leave the fleet as it is. *)
Record same_fleet (h h' : history) : Prop := {
  fleet_outstanding : outstanding h' = outstanding h;
  fleet_accepted : accepted h' = accepted h;
  fleet_hired : hired h' = hired h
}.

Lemma same_tasks_fleet h h' : same_tasks h h' -> same_fleet h h'.
Proof. intros H. split; [by apply same_outstanding|by apply same_accepted|by apply same_hired]. Qed.

Lemma same_fleet_trans h h' h'' : same_fleet h h' -> same_fleet h' h'' -> same_fleet h h''.
Proof. intros [] []. split; congruence. Qed.

Lemma same_fleet_refused h s : same_fleet h (h ++ [Call (FleetSubmit s) None]).
Proof.
  split; [by rewrite outstanding_snoc| |];
    unfold accepted, hired; by rewrite omap_app, app_nil_r.
Qed.

Lemma hired_snoc h n w : hired (h ++ [Call (StartWorker n) w]) = hired h ++ [n].
Proof. unfold hired. by rewrite omap_app. Qed.
End Fleet.

Section DistWp.
Context `{JN : JsonNumber} `{JL : !JsonLib} `{UL : UuidLib} `{BP : BuildProfile}.
Context (steps : list StepDef).
Hypothesis distinct : NoDup (id <$> steps).
Hypothesis short : forall s, s ∈ steps -> Z.of_nat (length (depends_on s)) < usize_max.
Context (T : StepDef -> join_result -> Prop) (timeout : Z) (token : bool).
Hypothesis T_ok : forall s r, s ∈ steps -> T s (Joined r) ->
  step_id r = id s /\ (status r = StepStatus.Completed \/ status r = StepStatus.Failed).

(** The result recorded for a step that was handed to the fleet: what a worker
    made of it, or the refusal of every node. *)
Definition fleet_result (s : StepDef) (r : join_result) : Prop :=
  match r with Joined r => T s (Joined r) \/ r = no_node (id s) | JoinError _ => False end.

Lemma fleet_result_ok s r : s ∈ steps -> fleet_result s (Joined r) ->
  step_id r = id s /\ (status r = StepStatus.Completed \/ status r = StepStatus.Failed).
Proof. intros Hs [H| ->]; [by apply T_ok|]. by split; [|right]. Qed.

(** The coordinator's accounts between its calls: [n] steps are in flight, those
    whose results are missing; each step was handed over at most once, at a time
    it could be started. *)
Record accounts (h : history) (rs : list StepResult) (n : nat) : Prop := {
  acc_count : n = length (outstanding h);
  acc_startable s : s ∈ accepted h ->
    s ∈ steps /\ exists rs0, rs0 `prefix_of` rs /\ startable steps rs0 s;
  acc_once : NoDup (id <$> accepted h);
  acc_known s : s ∈ accepted h -> id s ∈ (step_id <$> rs) ++ outstanding h
}.

Definition dist_ok (h : history) (st : dag_state) (n : nat) : Prop :=
  dag_inv steps fleet_result st (outstanding h) /\ accounts h (results st) n.

Lemma accounts_same h h' rs n : same_fleet h h' -> accounts h rs n -> accounts h' rs n.
Proof. intros [Ho Hacc _] [H1 H2 H3 H4]. split; rewrite ?Ho, ?Hacc; auto. Qed.

Lemma dist_ok_same h h' st n : same_fleet h h' -> dist_ok h st n -> dist_ok h' st n.
Proof.
  intros Hh [H1 H2]. split; [by rewrite (fleet_outstanding _ _ Hh)|by eapply accounts_same].
Qed.

Lemma accounts_more h rs r n : accounts h rs n -> accounts h (rs ++ [r]) n.
Proof.
  intros [H1 H2 H3 H4]. split; [done| |done|].
  - intros s Hs. destruct (H2 s Hs) as (Hin & rs0 & Hpre & Hst). split; [done|].
    exists rs0. split; [by apply prefix_app_r|done].
  - intros s Hs. rewrite fmap_app. specialize (H4 s Hs). set_solver.
Qed.

Lemma dist_settle h st n s r fails :
  dag_inv steps fleet_result st (id s :: outstanding h) -> accounts h (results st) n ->
  s ∈ steps -> step_id r = id s -> (fails = true <-> bad r) ->
  dag_fact steps fleet_result (results st) s r ->
  dist_ok h (settle steps r fails st) n.
Proof.
  intros Hi Ha Hs Hid Hb Hf. split; [by eapply settle_inv|].
  rewrite results_settle. by apply accounts_more.
Qed.

Lemma dist_submit h st n s x :
  dag_inv steps fleet_result st (id s :: outstanding h) -> accounts h (results st) n ->
  s ∈ steps -> startable steps (results st) s ->
  dist_ok (h ++ [Call (FleetSubmit s) (Some x)]) st (S n).
Proof.
  intros Hi [H1 H2 H3 H4] Hs Hst.
  assert (id s ∉ id <$> accepted h) as Hnew.
  { intros (s' & E & Hs')%list_elem_of_fmap. specialize (H4 s' Hs'). rewrite <- E in H4.
    pose proof (inv_nodup _ _ _ _ Hi) as Hnd. unfold tracked in Hnd. cbn in Hnd.
    rewrite <- Permutation_middle in Hnd.
    apply NoDup_cons in Hnd as [Hnd _]. set_solver. }
  split; [|split]; rewrite ?outstanding_snoc, ?accepted_snoc; cbn [fly].
  - eapply dag_inv_perm; [|exact Hi]. by rewrite <- Permutation_cons_append.
  - rewrite length_app, H1. cbn. lia.
  - intros s' [Hs'| ->%list_elem_of_singleton]%elem_of_app; [by apply H2|].
    split; [done|]. by exists (results st).
  - rewrite fmap_app. apply NoDup_app. split_and!; [done| |apply NoDup_singleton].
    intros i Hi' ->%list_elem_of_singleton. done.
  - intros s' [Hs'| ->%list_elem_of_singleton]%elem_of_app; [|set_solver].
    specialize (H4 s' Hs'). set_solver.
Qed.

(** A received result is that of a step in flight. *)
Lemma dist_receive h st n tok ms r s :
  dist_ok h st n -> s ∈ accepted h -> step_id r = id s -> id s ∈ outstanding h ->
  T s (Joined r) ->
  dist_ok (h ++ [Call (FleetReceive tok ms) (Some r)])
    (settle steps r (negb (bool_decide (status r = StepStatus.Completed))) st) (pred n).
Proof.
  intros [Hi [H1 H2 H3 H4]] Hs Hid Hout HT. destruct (H2 s Hs) as (Hin & rs0 & Hpre & Hst).
  destruct (T_ok s r Hin HT) as [_ Hstatus].
  pose proof (remove_first_perm _ _ Hout) as Hperm. split; [|split];
    rewrite ?outstanding_snoc, ?results_settle; cbn [fly]; rewrite ?Hid;
    try (unfold accepted; rewrite omap_app; cbn [omap list_omap accepted_of]; rewrite app_nil_r).
  - eapply settle_inv; [done..|by eapply dag_inv_perm|done|done| |].
    + unfold bad. case_bool_decide as Hst'; destruct Hstatus as [E|E]; rewrite E in *; naive_solver.
    + by apply (dag_joined _ _ _ _ rs0); [| |left].
  - rewrite H1. by rewrite Hperm at 1.
  - intros s' Hs'. destruct (H2 s' Hs') as (Hin' & rs1 & Hpre' & Hst'). split; [done|].
    exists rs1. split; [by apply prefix_app_r|done].
  - done.
  - intros s' Hs'. specialize (H4 s' Hs'). rewrite fmap_app. cbn. rewrite Hid.
    rewrite Hperm in H4. set_solver.
Qed.
(** *** Submitting *)

Lemma hired_submit h s r : hired (h ++ [Call (FleetSubmit s) r]) = hired h.
Proof. unfold hired. by rewrite omap_app, app_nil_r. Qed.

(** What a drained queue of ready steps leaves. *)
Definition drained (h : history) (m : nat) (h' : history) (o : outcome (dag_state * nat)) : Prop :=
  exists st' n', o = Returned (st', n') /\ dist_ok h' st' n' /\ ready st' = [] /\
    hired h' = hired h /\ (m <= length (results st'))%nat.

Lemma drained_from h h1 m m1 h' o :
  hired h1 = hired h -> (m <= m1)%nat -> drained h1 m1 h' o -> drained h m h' o.
Proof.
  intros Hh Hm (st' & n' & -> & Hok & Hr & Hh' & Hm'). exists st', n'.
  split_and!; [done|done|done|congruence|lia].
Qed.

Lemma settle_failed r st :
  unlock (dag_maps steps).2 (step_id r) (mark_failed (step_id r) (push r st)) =
  settle steps r true st.
Proof. unfold settle, unlock. cbn. by destruct (unlock_dependents _ _ _ _). Qed.

Lemma wp_submit_ready cx fuel : forall st n h,
  dist_ok h st n -> (length steps <= length (results st) + n + fuel)%nat ->
  wp T h (submit_ready fuel steps (step_map steps) (dag_maps steps).2 cx st n)
    (drained h (length (results st))).
Proof.
  induction fuel as [|fuel IH]; intros st n h Hok Hfuel; cbn [submit_ready];
    destruct (ready st) as [|i rest] eqn:Er; try (by exists st, n); destruct Hok as [Hi Ha].
  { pose proof (length_results _ _ _ _ Hi) as Hlen. rewrite Er in Hlen. cbn in Hlen.
    pose proof (acc_count _ _ _ Ha). lia. }
  destruct (pop_ready _ distinct short _ fleet_result_ok _ _ _ _ Er Hi)
    as (s & -> & Hs & -> & Hi' & Hrel).
  change (results st) with (results (pop st rest)) in Ha, Hrel, Hfuel.
  (* Going on once the popped step is settled. *)
  assert (forall h' r fails, same_fleet h h' ->
    step_id r = id s -> (fails = true <-> bad r) ->
    dag_fact steps fleet_result (results (pop st rest)) s r ->
    wp T h' (submit_ready fuel steps (step_map steps) (dag_maps steps).2 cx
      (settle steps r fails (pop st rest)) n) (drained h (length (results st)))) as Hgo.
  { intros h' r fails Hh' Hid Hb Hf.
    eapply wp_mono; [|apply IH; [eapply dist_settle; [|by eapply accounts_same|done..]|]].
    - intros h'' o. apply drained_from; [apply Hh'|]. rewrite results_settle, length_app. cbn. lia.
    - by rewrite (fleet_outstanding _ _ Hh').
    - rewrite results_settle, length_app. cbn in *. lia. }
  destruct (dep_failed s (pop st rest)) eqn:Edep.
  - apply (dep_failed_spec _ _ _ _ _ Hi') in Edep.
    apply wp_bind, wp_emit_skip. intros h1 Hh1%same_tasks_fleet. cbn [continue].
    rewrite settle_skip_failed.
    apply Hgo; [done|done| |by constructor]. split; [|done]. intros _. by right.
  - assert (~ has_bad (results (pop st rest)) s) as Hnb.
    { intros Hb. apply (dep_failed_spec _ _ _ _ _ Hi') in Hb. congruence. }
    apply wp_bind, wp_condition_blocks. intros h1 Hh1%same_tasks_fleet. cbn [continue].
    destruct (blocks steps (results (pop st rest)) s) eqn:Eb.
    + apply blocks_blocked_by in Eb. apply wp_bind, wp_emit_skip.
      intros h2 Hh2%same_tasks_fleet. cbn [continue]. rewrite settle_skip_condition.
      apply Hgo; [by eapply same_fleet_trans|done| |by constructor].
      split; [done|]. intros [H|[_ H]]; done.
    + assert (startable steps (results (pop st rest)) s) as Hst.
      { split; [done|done|]. intros H%blocks_blocked_by. congruence. }
      apply wp_call; [done|]. intros [[node task]|] _.
      * eapply wp_mono; [|apply IH].
        { intros h' o. apply drained_from; [|done]. rewrite hired_submit. apply Hh1. }
        { apply dist_submit; [by rewrite (fleet_outstanding _ _ Hh1)|by eapply accounts_same|done..]. }
        { cbn in *. lia. }
      * change (id s) with (step_id (no_node (id s))). rewrite settle_failed.
        apply (Hgo _ (no_node (id s)) true);
          [eapply same_fleet_trans; [done|apply same_fleet_refused]|done| |].
        { split; [|done]. intros _. by left. }
        { apply (dag_joined _ _ _ _ (results (pop st rest))); [done|done|by right]. }
Qed.
(** *** The main loop *)

(** The wait for a result ended without one: the channel is closed, the timer
    went off or the token was cancelled. *)
Definition gave_up (h : history) : Prop :=
  exists tok ms, Call (FleetReceive tok ms) None ∈ h.

(** Why steps may be left when the loop ends. *)
Definition cut_short (h : history) : Prop := token = true \/ timeout < u64_max \/ gave_up h.

Definition coordinated (h h' : history) (o : outcome dag_state) : Prop :=
  exists st n, o = Returned st /\ dist_ok h' st n /\ ready st = [] /\ hired h' = hired h /\
    (n = O \/ (length steps <= length (results st))%nat \/ cut_short h').

Lemma coordinated_from h h1 h' o : hired h1 = hired h -> coordinated h1 h' o -> coordinated h h' o.
Proof.
  intros Hh (st & n & -> & Hok & Hr & Hh' & Hend). exists st, n.
  split_and!; [done|done|done|congruence|done].
Qed.

Lemma receive_result_settle r st :
  receive_result (dag_maps steps).2 r st =
  settle steps r (negb (bool_decide (status r = StepStatus.Completed))) st.
Proof.
  unfold receive_result, settle, unlock.
  case_bool_decide; cbn; by destruct (unlock_dependents _ _ _ _).
Qed.

Lemma hired_receive h tok ms r : hired (h ++ [Call (FleetReceive tok ms) r]) = hired h.
Proof. unfold hired. by rewrite omap_app, app_nil_r. Qed.

Lemma wp_remaining h start Q :
  (forall h' wait, same_tasks h h' -> Q h' (Returned wait)) ->
  wp T h (remaining timeout start) Q.
Proof.
  intros HQ. unfold remaining. apply wp_bind, wp_elapsed. intros h' ms Hh' _. by apply HQ.
Qed.

Lemma wp_coordinate cx start fuel : forall st n h,
  dist_ok h st n -> (length steps < length (results st) + fuel)%nat ->
  wp T h (coordinate fuel steps (step_map steps) (dag_maps steps).2 timeout start token cx st n)
    (coordinated h).
Proof.
  induction fuel as [|fuel IH]; intros st n h Hok Hfuel; cbn [coordinate].
  { pose proof (length_results _ _ _ _ (proj1 Hok)). lia. }
  apply wp_bind. eapply wp_mono; [|apply wp_submit_ready; [done|lia]].
  intros h1 o (st1 & n1 & -> & Hok1 & Hr1 & Hh1 & Hm). cbn [continue].
  destruct (length steps <=? length (results st1))%nat eqn:Elen; cbn [orb].
  { apply Nat.leb_le in Elen. exists st1, n1. split_and!; [done|done|done|done|auto]. }
  destruct (n1 =? 0)%nat eqn:En.
  { apply Nat.eqb_eq in En. exists st1, n1. split_and!; [done|done|done|done|auto]. }
  apply wp_bind, wp_is_cancelled. intros h2 cancelled Hh2 Hcan. cbn [continue].
  apply wp_bind, wp_elapsed. intros h3 ms Hh3 Hms. cbn [continue].
  pose proof (same_tasks_fleet _ _ (same_tasks_trans _ _ _ Hh2 Hh3)) as Hh13.
  pose proof (dist_ok_same _ _ _ _ Hh13 Hok1) as Hok3.
  destruct (cancelled || (timeout <? ms)) eqn:Estop.
  { exists st1, n1. split_and!; [done|done|done|rewrite (fleet_hired _ _ Hh13); done|].
    right. right. apply orb_true_iff in Estop as [->|Hlt%Z.ltb_lt]; [by left; auto|].
    right. left. unfold in_u64 in Hms. lia. }
  apply wp_bind, wp_remaining. intros h4 wait Hh4. cbn [continue].
  pose proof (same_fleet_trans _ _ _ Hh13 (same_tasks_fleet _ _ Hh4)) as Hh14.
  pose proof (dist_ok_same _ _ _ _ Hh14 Hok1) as Hok4. apply wp_call; [done|].
  intros [r|] Hr; cbn in Hr.
  - destruct Hr as (s & Hs & Hid & Hout & HT). apply wp_call; [done|]. intros [] _.
    rewrite receive_result_settle.
    assert (dist_ok ((h4 ++ [Call (FleetReceive token wait) (Some r)])
        ++ [Call FleetRebalance tt])
      (settle steps r (negb (bool_decide (status r = StepStatus.Completed))) st1) (pred n1)) as Hok5.
    { eapply dist_ok_same; [by apply same_tasks_fleet, same_tasks_call|]. by eapply dist_receive. }
    eapply wp_mono; [|apply IH; [exact Hok5|rewrite results_settle, length_app; cbn; lia]].
    intros h' o. apply coordinated_from.
    rewrite (same_hired _ _ (same_tasks_call _ FleetRebalance tt I)), hired_receive.
    rewrite (fleet_hired _ _ Hh14). done.
  - exists st1, n1. split_and!; [done| |done| |].
    + destruct Hok4 as [H1 [H2 H3 H4 H5]]. split; [by rewrite outstanding_snoc|].
      by split; rewrite ?outstanding_snoc; unfold accepted; rewrite ?omap_app, ?app_nil_r.
    + rewrite hired_receive, (fleet_hired _ _ Hh14). done.
    + right. right. right. right. eexists _, _. apply elem_of_app. right. by left.
Qed.
(** *** The whole run *)

Definition left_skips (reason : string) (l : list StepDef) : list StepResult :=
  (fun s => skipped (id s) reason) <$> l.

Definition reason_ok (reason : string) : Prop :=
  reason = "cancelled" /\ token = true \/
  reason = "flow timeout exceeded" /\ timeout < u64_max \/
  reason = "not scheduled".

(** What a distributed run returns: the results of the steps dealt with, each
    with its reason, then a skip for each step that is left, which can only be
    when the run was cut short.  No step was handed over twice. *)
Definition dist_final (h : history) (rs : list StepResult) : Prop :=
  exists dealt lft reason,
    rs = dealt ++ left_skips reason lft /\ dag_results steps fleet_result dealt /\
    reason_ok reason /\ step_id <$> rs ≡ₚ id <$> steps /\ NoDup (id <$> accepted h) /\
    ((forall s d, s ∈ steps -> d ∈ depends_on s -> d ∈ id <$> steps) ->
     (forall u, ~ tc (flow_edge steps) u u) -> lft <> [] -> cut_short h).

Lemma wp_left_reason h start Q :
  (forall h' reason, same_tasks h h' -> reason_ok reason -> Q h' (Returned reason)) ->
  wp T h (left_reason timeout start token) Q.
Proof.
  intros HQ. unfold left_reason. apply wp_bind, wp_is_cancelled. intros h1 c Hh1 Hc. cbn [continue].
  destruct c; [apply HQ; [done|left; auto]|].
  apply wp_bind, wp_elapsed. intros h2 ms Hh2 Hms. apply HQ; [by eapply same_tasks_trans|].
  right. destruct (Z.ltb_spec timeout ms); [left|by right]. unfold in_u64 in Hms. split; [done|lia].
Qed.

Definition unseen (seen : gset StepId) (l : list StepDef) : list StepDef :=
  List.filter (fun s => negb (bool_decide (id s ∈ seen))) l.

Lemma wp_skip_left seen cx reason l : forall rs h Q,
  (forall h', same_tasks h h' -> Q h' (Returned (rs ++ left_skips reason (unseen seen l)))) ->
  wp T h (skip_left seen cx reason l rs) Q.
Proof.
  induction l as [|s l IH]; intros rs h Q HQ; cbn [skip_left].
  { specialize (HQ h (same_tasks_refl h)). cbn in HQ. by rewrite app_nil_r in HQ. }
  unfold unseen in *. cbn [List.filter] in HQ. destruct (bool_decide (id s ∈ seen)); [by apply IH|].
  apply wp_bind, wp_emit_skip. intros h1 Hh1. cbn [continue]. apply IH. intros h2 Hh2.
  rewrite <- app_assoc. apply HQ. by eapply same_tasks_trans.
Qed.

Lemma left_skips_ids reason l : step_id <$> left_skips reason l = id <$> l.
Proof. unfold left_skips. by rewrite <- list_fmap_compose. Qed.

(** Every step has its result, once the ones that are left are added. *)
Lemma left_complete rs reason :
  NoDup (step_id <$> rs) -> (forall i, i ∈ step_id <$> rs -> i ∈ id <$> steps) ->
  step_id <$> (rs ++ left_skips reason (unseen (list_to_set (step_id <$> rs)) steps))
    ≡ₚ id <$> steps.
Proof.
  intros Hnd Hknown. rewrite fmap_app, left_skips_ids.
  assert (forall i, i ∈ id <$> unseen (list_to_set (step_id <$> rs)) steps <->
                    i ∈ id <$> steps /\ i ∉ step_id <$> rs) as Hun.
  { intros i. unfold unseen. rewrite !list_elem_of_fmap. split.
    - intros (s & -> & Hs%list_elem_of_In). apply filter_In in Hs as [Hs%list_elem_of_In Hn].
      apply negb_true_iff, bool_decide_eq_false in Hn. rewrite elem_of_list_to_set in Hn.
      split; [by exists s|]. by rewrite <- list_elem_of_fmap.
    - intros [(s & -> & Hs) Hn]. exists s. split; [done|].
      apply list_elem_of_In, filter_In. split; [by apply list_elem_of_In|].
      apply negb_true_iff, bool_decide_eq_false. rewrite elem_of_list_to_set.
      by rewrite list_elem_of_fmap. }
  apply NoDup_Permutation; [|done|].
  - apply NoDup_app. split_and!; [done| |by apply NoDup_ids_filter].
    intros i Hi Hin%Hun. by destruct Hin.
  - intros i. rewrite elem_of_app, Hun. split; [naive_solver|].
    intros Hi. destruct (decide (i ∈ step_id <$> rs)); [by left|by right].
Qed.

Lemma dist_ids h st n : dist_ok h st n ->
  NoDup (step_id <$> results st) /\ forall i, i ∈ step_id <$> results st -> i ∈ id <$> steps.
Proof.
  intros [Hi _]. pose proof (inv_nodup _ _ _ _ Hi) as Hnd. unfold tracked in Hnd.
  split; [by apply NoDup_app in Hnd as [Hnd _]|].
  intros i Hin. apply (inv_known _ _ _ _ Hi). unfold tracked. set_solver.
Qed.

Lemma cut_short_more h h' : h `prefix_of` h' -> cut_short h -> cut_short h'.
Proof.
  intros [k ->] [H|[H|(tok & ms & H)]]; [by left|by right; left|].
  right. right. exists tok, ms. apply elem_of_app. by left.
Qed.

(** The results the loop leaves, completed by the skips. *)
Lemma dist_final_left h h' st n reason :
  dist_ok h st n -> ready st = [] ->
  n = O \/ (length steps <= length (results st))%nat \/ cut_short h ->
  h `prefix_of` h' -> accepted h' = accepted h ->
  (length (results st) < length steps)%nat -> reason_ok reason ->
  dist_final h' (results st ++
    left_skips reason (unseen (list_to_set (step_id <$> results st)) steps)).
Proof.
  intros Hok Hr Hend Hpre Hacc Hlen Hreason. pose proof (dist_ids _ _ _ Hok) as [Hnd Hknown].
  eexists (results st), _, reason.
  split_and!; [done|apply (proj1 Hok)|done|by apply left_complete| |].
  { rewrite Hacc. apply (acc_once _ _ _ (proj2 Hok)). }
  intros Hrefs Hac _. destruct Hend as [->|[Hge|Hcut]]; [|lia|by eapply cut_short_more].
  destruct Hok as [Hi Ha]. pose proof (acc_count _ _ _ Ha) as Hcount.
  destruct (outstanding h) as [|? ?]; [|done].
  pose proof (dag_complete _ distinct _ _ Hrefs Hac Hi Hr) as Hall.
  apply Permutation_length in Hall. rewrite !length_fmap in Hall. lia.
Qed.

Lemma dist_final_all h st n :
  dist_ok h st n -> (length steps <= length (results st))%nat ->
  forall h', accepted h' = accepted h -> dist_final h' (results st).
Proof.
  intros Hok Hlen h' Hacc. pose proof (dist_ids _ _ _ Hok) as [Hnd Hknown].
  exists (results st), [], "not scheduled". cbn [left_skips fmap list_fmap].
  rewrite app_nil_r. split_and!; [done|apply (proj1 Hok)|right; by right| | |done].
  - apply submseteq_length_Permutation; [by apply NoDup_submseteq|by rewrite !length_fmap].
  - rewrite Hacc. apply (acc_once _ _ _ (proj2 Hok)).
Qed.
(** Starting and joining the workers. *)
Definition all_hired (h : history) (ws : list nat) : Prop :=
  Forall (fun w => (w < length (hired h))%nat) ws.

Lemma wp_start_workers nodes : forall ws h Q,
  all_hired h ws ->
  (forall h' ws', outstanding h' = outstanding h -> accepted h' = accepted h ->
     all_hired h' ws' -> Q h' (Returned ws')) ->
  wp T h (start_workers nodes ws) Q.
Proof.
  induction nodes as [|n nodes IH]; intros ws h Q Hws HQ; cbn [start_workers]; [by apply HQ|].
  apply wp_call; [done|]. intros q _.
  pose proof (same_tasks_fleet _ _ (same_tasks_call h (FleetHasQueue n) q I)) as [Ho Hacc Hhi].
  destruct q.
  - apply wp_call; [done|]. intros w Hw. cbn in Hw. apply IH.
    + unfold all_hired in *. rewrite hired_snoc, length_app, Hw. cbn. apply Forall_app. split.
      * eapply Forall_impl; [exact Hws|]. rewrite Hhi. cbn. lia.
      * apply Forall_singleton. lia.
    + intros h' ws'. rewrite outstanding_snoc. cbn [fly]. rewrite Ho. unfold accepted at 2.
      rewrite omap_app. cbn [omap list_omap accepted_of]. rewrite app_nil_r.
      fold (accepted (h ++ [Call (FleetHasQueue n) true])). rewrite Hacc. apply HQ.
  - apply IH; [unfold all_hired; by rewrite Hhi|]. rewrite Ho, Hacc. apply HQ.
Qed.

Lemma wp_join_workers ws : forall h Q,
  all_hired h ws -> stopped h = true ->
  (forall h', h `prefix_of` h' -> accepted h' = accepted h -> Q h' (Returned tt)) ->
  wp T h (join_workers ws) Q.
Proof.
  induction ws as [|w ws IH]; intros h Q Hws Hst HQ; cbn [join_workers]; [by apply HQ|].
  apply Forall_cons in Hws as [Hw Hws]. apply wp_call; [done|]. intros [] _. apply IH.
  - unfold all_hired, hired in *. by rewrite omap_app, app_nil_r.
  - unfold stopped in *. rewrite existsb_app. by rewrite Hst.
  - intros h' Hh' Hacc. apply HQ; [etrans; [|exact Hh']; by apply prefix_app_r|].
    rewrite Hacc. unfold accepted. by rewrite omap_app, app_nil_r.
Qed.

(** The end of a run: the workers are stopped and joined. *)
Lemma wp_close ws h rs :
  all_hired h ws ->
  (forall h', h `prefix_of` h' -> accepted h' = accepted h -> dist_final h' rs) ->
  wp T h (let! _ := perform StopWorkers in let! _ := join_workers ws in ret rs)
    (fun h' o => exists rs, o = Returned rs /\ dist_final h' rs).
Proof.
  intros Hws Hrs. apply wp_call; [done|]. intros [] _.
  pose proof (same_tasks_call h StopWorkers tt I) as Hst. apply wp_bind, wp_join_workers.
  - unfold all_hired in *. by rewrite (same_hired _ _ Hst).
  - unfold stopped. rewrite existsb_app. cbn. by rewrite orb_true_r.
  - intros h' Hh' Hacc. exists rs. split; [done|]. rewrite (same_accepted _ _ Hst) in Hacc.
    apply Hrs; [|done]. etrans; [|exact Hh']. by apply prefix_app_r.
Qed.

Lemma wp_run_distributed cx start h :
  outstanding h = [] -> accepted h = [] ->
  wp T h (run_distributed_dag steps timeout start token cx)
    (fun h' o => exists rs, o = Returned rs /\ dist_final h' rs).
Proof.
  intros Hout Hacc. unfold run_distributed_dag. pose proof (dag_inv_init steps distinct short fleet_result) as Hinit.
  pose proof wp_coordinate as Hloop.
  destruct (dag_maps steps) as [deg dependents]. cbn [fst snd] in *.
  apply wp_call; [done|]. intros nodes _.
  apply wp_bind, wp_start_workers; [constructor|]. intros h1 ws Ho1 Ha1 Hws. cbn [continue].
  rewrite (same_outstanding _ _ (same_tasks_call h FleetNodes nodes I)), Hout in Ho1.
  rewrite (same_accepted _ _ (same_tasks_call h FleetNodes nodes I)), Hacc in Ha1.
  apply wp_bind. eapply wp_mono; [|apply Hloop; [|cbn; lia]].
  2: { split; [by rewrite Ho1|]. split; rewrite ?Ho1, ?Ha1; [done|set_solver|constructor|set_solver]. }
  intros h2 o (st & n & -> & Hok & Hr & Hh2 & Hend). cbn [continue].
  assert (all_hired h2 ws) as Hws2 by (unfold all_hired in *; by rewrite Hh2).
  apply wp_bind. destruct (length (results st) <? length steps)%nat eqn:Elen.
  - apply Nat.ltb_lt in Elen. apply (proj1 (wp_bind _ _ _ _ _)), wp_left_reason. intros h3 reason Hh3 Hreason.
    cbn [continue]. apply wp_skip_left. intros h4 Hh4. cbn [continue].
    pose proof (same_tasks_trans _ _ _ Hh3 Hh4) as Hh24. apply wp_close.
    { unfold all_hired in *. by rewrite (same_hired _ _ Hh24). }
    intros h' Hh' Hacc'. rewrite (same_accepted _ _ Hh24) in Hacc'.
    eapply dist_final_left; [done..| |done|done|done].
    etrans; [|exact Hh']. destruct Hh24 as (k & -> & _). by apply prefix_app_r.
  - apply Nat.ltb_ge in Elen. cbn [wp ret continue]. apply wp_close; [done|].
    intros h' _. by eapply dist_final_all.
Qed.
End DistWp.
