(* ===== verification/Footprint.v ===== *)
(** * Footprints

    Which calls a part of the engine can make: the execution of a step talks to
    its handler, the clocks, the sinks and nothing else; an executor adds the
    token, the conditions and the tasks, the queue or the fleet.  In particular
    neither saves records, rolls back, reports flow events or touches the
    heartbeat, which is the business of [Engine] alone. *)

From Stdlib Require Import ZArith Lia.
From stdpp Require Import base tactics option list strings gmap.
From S2P Require Import Prelude Json State Error Step Condition Flow Bus EngineResult.
From S2P Require Import Prog StepExec Sequential Hierarchical Pool Parallel Dag Distributed.

Open Scope Z_scope.

Section Acts.
Context `{JN : JsonNumber}.

(** The events [Engine] reports itself. *)
Definition engine_event (ty : EventType.t) : bool :=
  Event.is_flow_event ty || bool_decide (ty = EventType.StepRollback).

Definition step_metric (m : metric) : Prop :=
  match m with StepStarted _ _ | StepFinished _ _ _ _ => True | _ => False end.

(** The calls of a step's execution. *)
Definition step_act (a : act) : Prop :=
  match a with
  | UtcNow | InstantNow | CallHandler _ _ | Sleep _ | StepTypeMetric _ _ _ => True
  | Emit e => engine_event (Event.event_type e) = false
  | Metric m => step_metric m
  | _ => False
  end.

(** The calls of the code executors share. *)
Definition base_act (a : act) : Prop :=
  match a with IsCancelled | CondEval _ _ => True | a => step_act a end.

(** The calls of the coordinator of a fleet. *)
Definition fleet_act (a : act) : Prop :=
  match a with
  | FleetNodes | FleetHasQueue _ | StartWorker _ | FleetSubmit _ | FleetReceive _ _
  | FleetRebalance | StopWorkers | JoinWorker _ => True
  | a => base_act a
  end.

(** The calls of an executor. *)
Definition executor_act (a : act) : Prop :=
  match a with
  | Spawn _ | Await _ | AbortTask _
  | Enqueue _ | Dequeue | QueuedCount | RunningCount | QueueComplete _ | QueueFail _
  | YieldNow => True
  | a => fleet_act a
  end.

Lemma step_executor a : step_act a -> executor_act a.
Proof. by destruct a. Qed.

Lemma base_executor {A} (p : prog A) : only base_act p -> only executor_act p.
Proof. apply only_mono. by intros []. Qed.
Lemma base_fleet {A} (p : prog A) : only base_act p -> only fleet_act p.
Proof. apply only_mono. by intros []. Qed.
Lemma fleet_executor {A} (p : prog A) : only fleet_act p -> only executor_act p.
Proof. apply only_mono. by intros []. Qed.
End Acts.

(** Symbolic computation of a footprint. *)
Ltac only_step :=
  lazymatch goal with
  | |- only _ (bind _ _) => apply only_bind; [|intro]
  | |- only _ (perform _) => split; [try exact I; try reflexivity|intros ?; exact I]
  | |- only _ (ret _) => exact I
  | |- only _ panic => exact I
  | |- only _ (Done _) => exact I
  | |- only _ (if ?b then _ else _) => destruct b
  | |- only _ (match ?x with _ => _ end) => destruct x
  end.
Ltac only_solve := repeat (intros; first [only_step | solve [eauto with szal]]).

Section StepFootprint.
Context `{JN : JsonNumber} `{JL : !JsonLib} `{UL : UuidLib} `{BP : BuildProfile}.

Lemma only_emit (P : act -> Prop) b e : P (Emit e) -> only P (emit b e).
Proof. intros. unfold emit. destruct b; [by split|done]. Qed.
Lemma only_emit_now (P : act -> Prop) b mk :
  P UtcNow -> (forall now, P (Emit (mk now))) -> only P (emit_now b mk).
Proof. intros. split; [done|]. intros now. by apply only_emit. Qed.
Lemma only_elapsed (P : act -> Prop) s : P InstantNow -> only P (elapsed_ms s).
Proof. intros. by split. Qed.

Lemma only_call_handler s : only step_act (call_handler s).
Proof. unfold call_handler. only_solve. Qed.

#[local] Hint Extern 1 (only _ (emit _ _)) => apply only_emit; reflexivity : szal.
#[local] Hint Extern 1 (only _ (emit_now _ _)) =>
  apply only_emit_now; [exact I|reflexivity] : szal.
#[local] Hint Extern 1 (only _ (elapsed_ms _)) => apply only_elapsed; exact I : szal.
#[local] Hint Resolve only_call_handler : szal.

Lemma only_attempt_once cx s st n : only step_act (attempt_once cx s st n).
Proof. unfold attempt_once. only_solve. Qed.
Lemma only_succeed cx s v ms n : only step_act (succeed cx s v ms n).
Proof. unfold succeed, metric_step_finished, emit_step_type_metric. only_solve. Qed.
Lemma only_give_up cx s st m e : only step_act (give_up_step cx s st m e).
Proof. unfold give_up_step, metric_step_finished, emit_step_type_metric. cbv zeta. only_solve. Qed.
#[local] Hint Resolve only_attempt_once only_succeed only_give_up : szal.

Lemma only_attempt_loop cx s m n : forall a e, only step_act (attempt_loop cx s m n a e).
Proof. induction n as [|n IH]; intros a e; cbn [attempt_loop]; only_solve. Qed.
#[local] Hint Resolve only_attempt_loop : szal.

Lemma only_execute_step cx s : only step_act (execute_step_with_handler cx s).
Proof. unfold execute_step_with_handler, add_u32, metric_step_started. only_solve. Qed.

Lemma executor_execute_step cx s : only executor_act (execute_step_with_handler cx s).
Proof. eapply only_mono; [apply step_executor|apply only_execute_step]. Qed.
#[local] Hint Resolve executor_execute_step : szal.

(** ** The executors *)

Lemma only_is_cancelled t : only base_act (is_cancelled t).
Proof. unfold is_cancelled. only_solve. Qed.
Lemma only_is_late b t st : only base_act (is_late b t st).
Proof. unfold is_late. only_solve. Qed.
Lemma only_emit_skip cx s r : only base_act (emit_skip cx s r).
Proof. unfold emit_skip. only_solve. Qed.
Lemma only_condition_blocks s rs all : only base_act (condition_blocks s rs all).
Proof. unfold condition_blocks, check_condition. only_solve. Qed.
#[local] Hint Resolve base_executor base_fleet
  only_is_cancelled only_is_late only_emit_skip only_condition_blocks : szal.

Lemma only_run_sequential steps t st tok cx :
  only executor_act (run_sequential steps t st tok cx).
Proof.
  unfold run_sequential. generalize steps at 2, (@nil StepResult), false. intros l.
  induction l as [|s l IH]; intros rs f; cbn [sequential_loop]; cbv zeta; only_solve.
Qed.

Lemma only_skip_loop f l : (forall s rs, s ∈ l -> only executor_act (f s rs)) ->
  forall rs, only executor_act (skip_loop f l rs).
Proof.
  induction l as [|s l IH]; intros Hf rs; cbn; [done|].
  apply only_bind; [apply Hf, list_elem_of_here|]. intros. apply IH. set_solver.
Qed.

Lemma only_tree_loop f l : (forall s rs b, s ∈ l -> only executor_act (f s rs b)) ->
  forall rs b, only executor_act (tree_loop f l rs b).
Proof.
  induction l as [|s l IH]; intros Hf rs b; cbn; [done|].
  apply only_bind; [apply Hf, list_elem_of_here|]. intros []. apply IH. set_solver.
Qed.

Lemma only_skip_step cx reason s : forall rs,
  only executor_act (skip_step_and_children cx reason s rs).
Proof.
  induction s as [s IH] using StepDef_tree_ind. intros rs. rewrite skip_step_unfold.
  apply only_bind; [auto with szal|]. intros _. apply only_skip_loop.
  rewrite Forall_forall in IH. auto.
Qed.
Lemma only_skip_children cx reason s rs : only executor_act (skip_children cx reason s rs).
Proof. apply only_skip_loop. intros. apply only_skip_step. Qed.
#[local] Hint Resolve only_skip_step only_skip_children : szal.

Lemma only_execute_node t st tok cx s : forall sib rs b,
  only executor_act (execute_node t st tok cx sib s rs b).
Proof.
  induction s as [s IH] using StepDef_tree_ind. intros sib rs b.
  rewrite execute_node_unfold. cbv zeta. rewrite Forall_forall in IH.
  assert (forall rs, only executor_act (execute_tree (sub_steps s) t st tok cx rs))
    by (intros; apply only_tree_loop; eauto).
  only_solve.
Qed.

Lemma only_run_hierarchical steps t st tok cx :
  only executor_act (run_hierarchical steps t st tok cx).
Proof. apply only_tree_loop. intros. apply only_execute_node. Qed.

Lemma only_spawn_loop all cx l : forall pre hs, only executor_act (spawn_loop all cx l pre hs).
Proof. induction l as [|s l IH]; intros pre hs; cbn [spawn_loop]; only_solve. Qed.
Lemma only_join_loop t st tok cx l : forall rs, only executor_act (join_loop t st tok cx l rs).
Proof. induction l as [|s l IH]; intros rs; cbn [join_loop]; cbv zeta; only_solve. Qed.
#[local] Hint Resolve only_spawn_loop only_join_loop : szal.

Lemma only_run_parallel steps t st tok cx : only executor_act (run_parallel steps t st tok cx).
Proof. unfold run_parallel. only_solve. Qed.

Lemma only_skip_ready m cx reason l : forall rs, only executor_act (skip_ready m cx reason l rs).
Proof. induction l as [|i l IH]; intros rs; cbn [skip_ready]; only_solve. Qed.
Lemma only_batch_loop n steps m d cx : forall st hs,
  only executor_act (batch_loop n steps m d cx st hs).
Proof. induction n as [|n IH]; intros st hs; cbn [batch_loop]; cbv zeta; only_solve. Qed.
Lemma only_join_batch d hs : forall st, only executor_act (join_batch d hs st).
Proof. induction hs as [|[t i] hs IH]; intros st; cbn [join_batch]; cbv zeta; only_solve. Qed.
#[local] Hint Resolve only_skip_ready only_batch_loop only_join_batch : szal.

Lemma only_dag_loop fuel steps m d t start tok cx : forall st,
  only executor_act (dag_loop fuel steps m d t start tok cx st).
Proof. induction fuel as [|fuel IH]; intros st; cbn [dag_loop]; only_solve. Qed.
#[local] Hint Resolve only_dag_loop : szal.

Lemma only_run_dag steps t st tok cx : only executor_act (run_dag steps t st tok cx).
Proof. unfold run_dag. only_solve. Qed.

(** ** The fleet's coordinator *)

Lemma only_start_workers nodes : forall ws, only fleet_act (start_workers nodes ws).
Proof. induction nodes as [|n nodes IH]; intros ws; cbn [start_workers]; only_solve. Qed.

Lemma only_submit_ready steps m d cx fuel : forall st n,
  only fleet_act (submit_ready fuel steps m d cx st n).
Proof. induction fuel as [|fuel IH]; intros st n; cbn [submit_ready]; cbv zeta; only_solve. Qed.

Lemma only_remaining t st : only fleet_act (remaining t st).
Proof. unfold remaining. only_solve. Qed.
#[local] Hint Resolve only_start_workers only_submit_ready only_remaining : szal.

Lemma only_coordinate steps m d t start tok cx fuel : forall st n,
  only fleet_act (coordinate fuel steps m d t start tok cx st n).
Proof. induction fuel as [|fuel IH]; intros st n; cbn [coordinate]; only_solve. Qed.

Lemma only_skip_left seen cx reason l : forall rs,
  only fleet_act (skip_left seen cx reason l rs).
Proof. induction l as [|s l IH]; intros rs; cbn [skip_left]; only_solve. Qed.

Lemma only_join_workers ws : only fleet_act (join_workers ws).
Proof. induction ws as [|w ws IH]; cbn [join_workers]; only_solve. Qed.
#[local] Hint Resolve only_coordinate only_skip_left only_join_workers : szal.

Lemma only_run_distributed steps t start tok cx :
  only fleet_act (run_distributed_dag steps t start tok cx).
Proof. unfold run_distributed_dag, left_reason. only_solve. Qed.
End StepFootprint.

#[export] Hint Resolve executor_execute_step only_run_sequential only_run_hierarchical
  only_run_parallel only_run_dag : szal.
