(* ===== verification/Fleet.v ===== *)
(** * The fleet's workers

    The tasks [run_distributed_dag] of [rust-old/src/engine/distributed.rs]
    spawns, one per node, and the configurations they form with the coordinator
    of [Distributed].  [fleet_step] is the relation of all schedules;
    [fleet_wp] carries what is proved of the coordinator to each of them. *)

From Stdlib Require Import ZArith Lia.
From stdpp Require Import base tactics option list strings gmap sets relations.
From S2P Require Import Prelude Json State Error Step CondLexer Condition Flow Bus.
From S2P Require Import EngineResult Prog StepExec Sequential Pool Parallel Dag Distributed.
From S2P Require Import Footprint.

Open Scope Z_scope.

Section Fleet.
Context `{JN : JsonNumber} `{JL : !JsonLib} `{UL : UuidLib} `{BP : BuildProfile}.
Context (cx : ExecCtx) {A : Type}.

(** ** Workers *)

(** What the workers and the coordinator share: the items of the fleet's
    queues, the channel of results, the reports made to the queues and the
    [done] token. *)
Record shared : Type := mkShared {
  pending : list (Uuid * StepDef);
  channel : list StepResult;
  reports : list (Uuid * bool);
  shutdown : bool
}.

(** Where a worker is in its loop: at the head, in the [select!] over the queue,
    in the one that waits for work, in the execution of an item, before the
    report of its result, before sending it, or past the loop. *)
Inductive worker : Type :=
| Polling
| Selecting
| NoWork
| Executing (task : Uuid) (s : StepDef) (p : prog StepResult) (h : history)
| Reporting (task : Uuid) (s : StepDef) (r : StepResult)
| Sending (s : StepDef) (r : StepResult)
| Stopped
| Crashed (s : StepDef).

Definition ended (w : worker) : bool :=
  match w with Stopped | Crashed _ => true | _ => false end.

Definition completes (r : StepResult) : bool := bool_decide (status r = StepStatus.Completed).

(** One move of a worker.  [receiver] says whether the coordinator still holds
    the receiving end of the channel. *)
Inductive worker_step (receiver : bool) (sh : shared) : worker -> shared -> worker -> Prop :=
| ws_cancelled : shutdown sh = true -> worker_step receiver sh Polling sh Stopped
| ws_poll : shutdown sh = false -> worker_step receiver sh Polling sh Selecting
| ws_select_done : shutdown sh = true -> worker_step receiver sh Selecting sh Stopped
| ws_empty : worker_step receiver sh Selecting sh NoWork
| ws_item l task s k :
    pending sh = l ++ (task, s) :: k ->
    worker_step receiver sh Selecting
      (mkShared (l ++ k) (channel sh) (reports sh) (shutdown sh))
      (Executing task s (execute_step_with_handler cx s) [])
| ws_wait_done : shutdown sh = true -> worker_step receiver sh NoWork sh Stopped
| ws_wait : worker_step receiver sh NoWork sh Polling
| ws_exec task s a k h r :
    legal (fun _ _ => True) h a r ->
    worker_step receiver sh (Executing task s (Act a k) h) sh
      (Executing task s (k r) (h ++ [Call a r]))
| ws_executed task s r h :
    worker_step receiver sh (Executing task s (Done (Returned r)) h) sh (Reporting task s r)
| ws_unwound task s o h :
    (forall r, o <> Returned r) ->
    worker_step receiver sh (Executing task s (Done o) h) sh (Crashed s)
| ws_report task s r :
    worker_step receiver sh (Reporting task s r)
      (mkShared (pending sh) (channel sh) (reports sh ++ [(task, completes r)]) (shutdown sh))
      (Sending s r)
| ws_send s r :
    receiver = true ->
    worker_step receiver sh (Sending s r)
      (mkShared (pending sh) (channel sh ++ [r]) (reports sh) (shutdown sh)) Polling
| ws_gone s r : receiver = false -> worker_step receiver sh (Sending s r) sh Stopped.

(** ** Configurations *)

Record fleet : Type := mkFleet {
  fleet_shared : shared;
  workers : list worker;
  fleet_coord : prog A;
  fleet_history : history
}.

Definition start_fleet (p : prog A) : fleet :=
  mkFleet (mkShared [] [] [] false) [] p [].

(** The coordinator's calls: what they answer and what they do to the rest.
    The biased [select!] gives up on the channel only when it is empty. *)
Definition coord_effect (c : fleet) (a : act) : res a -> shared -> list worker -> Prop :=
  let sh := fleet_shared c in
  match a with
  | StartWorker _ => fun r sh' ws =>
      r = length (workers c) /\ sh' = sh /\ ws = workers c ++ [Polling]
  | FleetSubmit s => fun r sh' ws =>
      ws = workers c /\
      match r with
      | Some (_, task) =>
          sh' = mkShared (pending sh ++ [(task, s)]) (channel sh) (reports sh) (shutdown sh)
      | None => sh' = sh
      end
  | FleetReceive _ _ => fun r sh' ws =>
      ws = workers c /\
      match r with
      | Some r => exists rest, channel sh = r :: rest /\
          sh' = mkShared (pending sh) rest (reports sh) (shutdown sh)
      | None => channel sh = [] /\ sh' = sh
      end
  | StopWorkers => fun _ sh' ws =>
      ws = workers c /\ sh' = mkShared (pending sh) (channel sh) (reports sh) true
  | JoinWorker n => fun _ sh' ws =>
      ws = workers c /\ sh' = sh /\ exists w, workers c !! n = Some w /\ ended w = true
  | Spawn _ | Await _ | AbortTask _ => fun _ _ _ => False
  | a => fun r sh' ws =>
      legal (fun _ _ => True) (fleet_history c) a r /\ sh' = sh /\ ws = workers c
  end.

Definition coord_move (c c' : fleet) : Prop :=
  match fleet_coord c with
  | Done _ => False
  | Act a k => exists r sh ws, coord_effect c a r sh ws /\
      c' = mkFleet sh ws (k r) (fleet_history c ++ [Call a r])
  end.

Definition receiving (c : fleet) : bool :=
  match fleet_coord c with Done _ => false | Act _ _ => true end.

Definition worker_move (n : nat) (c c' : fleet) : Prop :=
  exists w sh w', workers c !! n = Some w /\
    worker_step (receiving c) (fleet_shared c) w sh w' /\
    c' = mkFleet sh (<[n := w']> (workers c)) (fleet_coord c) (fleet_history c).

Definition fleet_step (c c' : fleet) : Prop := coord_move c c' \/ exists n, worker_move n c c'.
(** ** The invariant *)

(** The step a worker has in hand. *)
Definition holding (w : worker) : option StepDef :=
  match w with
  | Executing _ s _ _ | Reporting _ s _ | Sending s _ => Some s
  | _ => None
  end.

Definition worker_ok (h : history) (w : worker) : Prop :=
  match w with
  | Executing _ s p hs =>
      s ∈ accepted h /\ forall h' o, runs p hs h' o -> runs (task_body cx s) [] h' o
  | Reporting _ s r | Sending s r => s ∈ accepted h /\ task_result cx s (Joined r)
  | _ => True
  end.

(** The ids of the steps on their way through the fleet. *)
Definition travelling (sh : shared) (ws : list worker) : list StepId :=
  (id <$> (pending sh).*2) ++ (id <$> omap holding ws) ++ (step_id <$> channel sh).

Record fleet_inv (c : fleet) : Prop := {
  fi_hired : length (workers c) = length (hired (fleet_history c));
  fi_stopped : shutdown (fleet_shared c) = stopped (fleet_history c);
  fi_pending s : s ∈ (pending (fleet_shared c)).*2 -> s ∈ accepted (fleet_history c);
  fi_workers : Forall (worker_ok (fleet_history c)) (workers c);
  fi_channel r : r ∈ channel (fleet_shared c) ->
    exists s, s ∈ accepted (fleet_history c) /\ step_id r = id s /\ task_result cx s (Joined r);
  fi_flight : travelling (fleet_shared c) (workers c) ⊆+ outstanding (fleet_history c)
}.

Lemma fleet_inv_start p : fleet_inv (start_fleet p).
Proof. split; cbn; try done; set_solver. Qed.

(** The result of an executed step is that step's. *)
Lemma leaves_attempt_loop s m n : forall attempt e,
  leaves (fun x => match x with inl r => step_id r = id s | inr _ => True end)
    (attempt_loop cx s m n attempt e).
Proof.
  induction n as [|n IH]; intros attempt e; cbn [attempt_loop]; [done|].
  do 3 (apply leaves_bind; intros ?). case_match.
  - eapply leaves_bind_with; [|intros r Hr; exact Hr]. unfold succeed.
    by do 3 (apply leaves_bind; intros ?).
  - case_match; [do 2 (apply leaves_bind; intros ?)|]; apply IH.
Qed.

Lemma leaves_execute_step s :
  leaves (fun r => step_id r = id s) (execute_step_with_handler cx s).
Proof.
  unfold execute_step_with_handler. do 4 (apply leaves_bind; intros ?).
  eapply leaves_bind_with; [apply leaves_attempt_loop|]. intros [r|e] Hr; [done|].
  unfold give_up_step. by do 4 (apply leaves_bind; intros ?).
Qed.

Lemma task_result_id s r : task_result cx s (Joined r) -> step_id r = id s.
Proof.
  intros (h & [x| |] & Hruns & Hj); cbn in Hj; [|by destruct Hj..]. injection Hj as <-.
  exact (runs_leaves _ _ _ _ _ (leaves_execute_step s) Hruns).
Qed.

(** *** The coordinator's moves *)

Lemma accepted_more h c s : s ∈ accepted h -> s ∈ accepted (h ++ [c]).
Proof. intros Hs. unfold accepted in *. rewrite omap_app. set_solver. Qed.

Lemma worker_ok_more h c w : worker_ok h w -> worker_ok (h ++ [c]) w.
Proof. destruct w; cbn; naive_solver eauto using accepted_more. Qed.

Lemma workers_ok_more h c ws : Forall (worker_ok h) ws -> Forall (worker_ok (h ++ [c])) ws.
Proof. intros H. eapply Forall_impl; [exact H|]. intros w. apply worker_ok_more. Qed.

(** A call that concerns neither the queues nor the workers. *)
Lemma fleet_inv_call c a (r : res a) k :
  fleet_inv c -> same_fleet (fleet_history c) (fleet_history c ++ [Call a r]) ->
  stopped (fleet_history c ++ [Call a r]) = stopped (fleet_history c) ->
  fleet_inv (mkFleet (fleet_shared c) (workers c) k (fleet_history c ++ [Call a r])).
Proof.
  intros [H1 H2 H3 H4 H5 H6] [Ho Ha Hh] Hs.
  split; cbn [fleet_shared workers fleet_history]; rewrite ?Ho, ?Ha, ?Hh, ?Hs; auto.
  by apply workers_ok_more.
Qed.

Lemma stopped_snoc h a (r : res a) : a <> StopWorkers -> stopped (h ++ [Call a r]) = stopped h.
Proof.
  intros Ha. unfold stopped. rewrite existsb_app. destruct a; cbn; by rewrite ?orb_false_r.
Qed.

Lemma same_fleet_other h a (r : res a) :
  accepted_of (Call a r) = None -> worker_of (Call a r) = None ->
  (forall l, fly l (Call a r) = l) -> same_fleet h (h ++ [Call a r]).
Proof.
  intros H1 H2 H3. split; [by rewrite outstanding_snoc, H3|unfold accepted|unfold hired];
    rewrite omap_app; cbn [omap list_omap]; rewrite ?H1, ?H2; by rewrite app_nil_r.
Qed.

Lemma fleet_inv_hire c node k :
  fleet_inv c ->
  fleet_inv (mkFleet (fleet_shared c) (workers c ++ [Polling]) k
    (fleet_history c ++ [Call (StartWorker node) (length (workers c))])).
Proof.
  intros [H1 H2 H3 H4 H5 H6]. set (x := Call (StartWorker node) (length (workers c))).
  assert (accepted (fleet_history c ++ [x]) = accepted (fleet_history c)) as Ha
    by (unfold accepted; by rewrite omap_app, app_nil_r).
  split; cbn [fleet_shared workers fleet_history]; rewrite ?Ha; auto.
  - rewrite length_app, H1. unfold x. by rewrite hired_snoc, length_app.
  - rewrite H2. symmetry. by apply stopped_snoc.
  - apply Forall_app. split; [by apply workers_ok_more|by constructor].
  - unfold x. rewrite outstanding_snoc. unfold travelling.
    rewrite omap_app. cbn [omap list_omap holding]. by rewrite app_nil_r.
Qed.

Lemma fleet_inv_submit c s node task k :
  fleet_inv c ->
  fleet_inv (mkFleet
    (mkShared (pending (fleet_shared c) ++ [(task, s)]) (channel (fleet_shared c))
       (reports (fleet_shared c)) (shutdown (fleet_shared c)))
    (workers c) k (fleet_history c ++ [Call (FleetSubmit s) (Some (node, task))])).
Proof.
  intros [H1 H2 H3 H4 H5 H6].
  assert (accepted (fleet_history c ++ [Call (FleetSubmit s) (Some (node, task))]) =
          accepted (fleet_history c) ++ [s]) as Ha by apply accepted_snoc.
  split; cbn [fleet_shared workers fleet_history pending channel shutdown]; rewrite ?Ha.
  - rewrite hired_submit. done.
  - rewrite H2. symmetry. by apply stopped_snoc.
  - intros s'. rewrite fmap_app, !elem_of_app. intros [Hs|Hs]; [by left; auto|by right].
  - by apply workers_ok_more.
  - intros r Hr. destruct (H5 r Hr) as (s' & Hs' & Hr'). exists s'. set_solver.
  - rewrite outstanding_snoc. cbn [fly]. unfold travelling in *. cbn [pending channel].
    rewrite !fmap_app. cbn. rewrite (Permutation_app_comm _ [id s]), <- app_assoc.
    rewrite (Permutation_app_comm (outstanding _)). by apply submseteq_app.
Qed.

Lemma fleet_inv_receive c tok ms r rest k :
  fleet_inv c -> channel (fleet_shared c) = r :: rest ->
  fleet_inv (mkFleet
    (mkShared (pending (fleet_shared c)) rest (reports (fleet_shared c))
       (shutdown (fleet_shared c)))
    (workers c) k (fleet_history c ++ [Call (FleetReceive tok ms) (Some r)])).
Proof.
  intros [H1 H2 H3 H4 H5 H6] Hch.
  assert (accepted (fleet_history c ++ [Call (FleetReceive tok ms) (Some r)]) =
          accepted (fleet_history c)) as Ha by (unfold accepted; by rewrite omap_app, app_nil_r).
  split; cbn [fleet_shared workers fleet_history pending channel shutdown]; rewrite ?Ha; auto.
  - rewrite hired_receive. done.
  - rewrite H2. symmetry. by apply stopped_snoc.
  - by apply workers_ok_more.
  - intros r' Hr'. apply H5. rewrite Hch. by right.
  - rewrite outstanding_snoc. cbn [fly]. unfold travelling in *. rewrite Hch in H6. cbn [channel].
    assert (step_id r ∈ outstanding (fleet_history c)) as Hin.
    { eapply elem_of_submseteq; [|exact H6]. set_solver. }
    rewrite (remove_first_perm _ _ Hin) in H6. cbn [fmap list_fmap pending] in H6 |- *.
    rewrite !app_assoc, <- Permutation_middle, <- !app_assoc in H6.
    by apply (submseteq_app_inv_l _ _ [step_id r]).
Qed.

Lemma coord_move_inv c c' : fleet_inv c -> coord_move c c' -> fleet_inv c'.
Proof.
  intros Hi. unfold coord_move. destruct (fleet_coord c) as [|a k]; [done|].
  intros (r & sh & ws & He & ->).
  assert (a <> StopWorkers -> local_act a -> sh = fleet_shared c -> ws = workers c ->
    fleet_inv (mkFleet sh ws (k r) (fleet_history c ++ [Call a r]))) as Hlocal.
  { intros Hs Ha -> ->. apply fleet_inv_call; [done| |by apply stopped_snoc].
    by apply same_tasks_fleet, same_tasks_call. }
  destruct a; try done; try (by destruct He as (_ & -> & ->); apply Hlocal); clear Hlocal.
  - destruct He as (-> & -> & ->). by apply fleet_inv_hire.
  - destruct He as [-> He]. destruct r as [[node task]|]; subst sh; [by apply fleet_inv_submit|].
    apply fleet_inv_call; [done|apply same_fleet_refused|by apply stopped_snoc].
  - destruct He as [-> He]. destruct r as [r|].
    + destruct He as (rest & Hch & ->). by apply fleet_inv_receive.
    + destruct He as [_ ->]. apply fleet_inv_call; [done|apply same_fleet_other; done|].
      by apply stopped_snoc.
  - destruct He as [-> ->]. destruct Hi as [H1 H2 H3 H4 H5 H6].
    destruct (same_tasks_fleet _ _ (same_tasks_call (fleet_history c) StopWorkers r I)) as [Ho Ha Hh].
    split; cbn [fleet_shared workers fleet_history pending channel shutdown];
      rewrite ?Ho, ?Ha, ?Hh; auto; [|by apply workers_ok_more].
    unfold stopped. rewrite existsb_app. cbn. by rewrite orb_true_r.
  - destruct He as (-> & -> & _). apply fleet_inv_call; [done|by apply same_fleet_other|].
    by apply stopped_snoc.
Qed.
(** *** The workers' moves *)

(** The steps in hand after one worker moved. *)
Lemma held_insert n w w' ws :
  ws !! n = Some w ->
  exists rest, omap holding ws ≡ₚ option_list (holding w) ++ rest /\
    omap holding (<[n := w']> ws) ≡ₚ option_list (holding w') ++ rest.
Proof.
  revert n. induction ws as [|x ws IH]; intros [|n] Hn; cbn in Hn; [done..| |].
  - injection Hn as ->. exists (omap holding ws). cbn.
    split; [by destruct (holding w)|by destruct (holding w')].
  - destruct (IH n Hn) as (rest & H1 & H2). exists (option_list (holding x) ++ rest).
    cbn. rewrite (Permutation_app_swap_app _ _ rest), (Permutation_app_swap_app (option_list (holding w')) _ rest).
    rewrite <- H1, <- H2. split; by destruct (holding x).
Qed.

(** What a move of a worker keeps: it takes steps from the queues, sends the
    results of steps it has in hand, and makes up nothing. *)
Definition in_hand (sh : shared) (w : worker) : list StepId :=
  (id <$> (pending sh).*2) ++ (id <$> option_list (holding w)) ++ (step_id <$> channel sh).

Record kept (h : history) (sh : shared) (w : worker) (sh' : shared) (w' : worker) : Prop := {
  kept_shutdown : shutdown sh' = shutdown sh;
  kept_pending s : s ∈ (pending sh').*2 -> s ∈ (pending sh).*2;
  kept_ok : worker_ok h w';
  kept_channel r : r ∈ channel sh' -> r ∈ channel sh \/
    exists s, s ∈ accepted h /\ step_id r = id s /\ task_result cx s (Joined r);
  kept_hand : in_hand sh' w' ⊆+ in_hand sh w
}.

Lemma kept_same h sh w w' :
  worker_ok h w' -> option_list (holding w') ⊆+ option_list (holding w) -> kept h sh w sh w'.
Proof.
  intros Hok Hh. split; auto. unfold in_hand. apply submseteq_skips_l, submseteq_skips_r.
  by apply fmap_submseteq.
Qed.

Lemma worker_step_kept h receiver sh w sh' w' :
  worker_step receiver sh w sh' w' -> worker_ok h w ->
  (forall s, s ∈ (pending sh).*2 -> s ∈ accepted h) -> kept h sh w sh' w'.
Proof.
  intros Hw Hok Hpend. destruct Hw; cbn in Hok; try (by apply kept_same; [|cbn; auto using submseteq_nil_l]).
  - (* An item taken. *)
    split; cbn [pending channel shutdown]; auto.
    + intros s'. rewrite H, !fmap_app, fmap_cons. set_solver.
    + split; [|done]. apply Hpend. rewrite H, fmap_app, fmap_cons. set_solver.
    + unfold in_hand. cbn [pending channel holding]. rewrite H, !fmap_app, !fmap_cons. cbn.
      rewrite <- !app_assoc. apply submseteq_skips_l. cbn. by rewrite <- Permutation_middle.
  - apply kept_same; [|done]. destruct Hok as [Hs Hok]. split; [done|].
    intros h' o Hruns. apply Hok. by exists r.
  - apply kept_same; [|done]. destruct Hok as [Hs Hok]. split; [done|].
    exists h0, (Returned r). split; [by apply Hok|done].
  - split; auto.
  - (* A result sent. *)
    destruct Hok as [Hs Hr]. pose proof (task_result_id _ _ Hr) as Hid.
    split; cbn [pending channel shutdown]; auto; [done| |].
    + intros r' [Hr'| ->%list_elem_of_singleton]%elem_of_app; [by left|right; eauto].
    + unfold in_hand. cbn [pending channel holding]. rewrite fmap_app. cbn. rewrite Hid.
      by rewrite (Permutation_app_comm _ [id s]).
Qed.

Lemma swap_middle {B} (a b c d : list B) : a ++ (b ++ c) ++ d ≡ₚ c ++ a ++ b ++ d.
Proof. rewrite <- app_assoc, (Permutation_app_swap_app b c), Permutation_app_swap_app. done. Qed.

Lemma worker_move_inv n c c' : fleet_inv c -> worker_move n c c' -> fleet_inv c'.
Proof.
  intros [H1 H2 H3 H4 H5 H6] (w & sh & w' & Hn & Hw & ->).
  destruct (worker_step_kept (fleet_history c) _ _ _ _ _ Hw
              (proj1 (Forall_lookup _ _) H4 _ _ Hn) H3) as [G1 G2 G3 G4 G5].
  destruct (held_insert n w w' (workers c) Hn) as (rest & P1 & P2).
  split; cbn [fleet_shared workers fleet_history].
  - by rewrite length_insert.
  - congruence.
  - auto.
  - by apply Forall_insert.
  - intros r Hr. destruct (G4 r Hr) as [Hr'|Hr']; [by apply H5|done].
  - etrans; [|exact H6]. unfold travelling, in_hand in *. rewrite P1, P2, !fmap_app.
    rewrite !swap_middle. by apply submseteq_skips_l.
Qed.

Lemma fleet_step_inv c c' : fleet_step c c' -> fleet_inv c -> fleet_inv c'.
Proof. intros [H|[n H]] Hi; [by eapply coord_move_inv|by eapply worker_move_inv]. Qed.

Lemma fleet_inv_reachable p c : rtc fleet_step (start_fleet p) c -> fleet_inv c.
Proof.
  remember (start_fleet p) as c0 eqn:E. intros H.
  assert (fleet_inv c0) as Hi by (subst; apply fleet_inv_start).
  clear E. induction H; eauto using fleet_step_inv.
Qed.

(** ** Adequacy *)

Lemma coord_effect_legal c a r sh ws :
  fleet_inv c -> coord_effect c a r sh ws -> legal (task_result cx) (fleet_history c) a r.
Proof.
  intros Hi He. destruct a; try done; try exact (proj1 He).
  - cbn in He |- *. destruct He as (-> & _). apply (fi_hired _ Hi).
  - cbn in He |- *. destruct He as [_ He]. destruct r as [r|]; [|done].
    destruct He as (rest & Hch & _).
    destruct (fi_channel _ Hi r) as (s & Hs & Hid & HT); [rewrite Hch; by left|].
    exists s. split_and!; [done|done| |done]. rewrite <- Hid.
    eapply elem_of_submseteq; [|exact (fi_flight _ Hi)]. unfold travelling. rewrite Hch. set_solver.
Qed.

(** What holds of a coordinator holds of it under every schedule. *)
Lemma fleet_wp c c' Q :
  rtc fleet_step c c' -> fleet_inv c ->
  wp (task_result cx) (fleet_history c) (fleet_coord c) Q ->
  wp (task_result cx) (fleet_history c') (fleet_coord c') Q.
Proof.
  induction 1 as [|c c1 c' Hstep _ IH]; [done|]. intros Hi Hwp.
  apply IH; [by eapply fleet_step_inv|]. clear IH. destruct Hstep as [Hc|(n & w & sh & w' & _ & _ & ->)].
  - unfold coord_move in Hc. destruct (fleet_coord c) as [|a k]; [done|].
    destruct Hc as (r & sh & ws & He & ->). apply Hwp. by eapply coord_effect_legal.
  - done.
Qed.
(** ** The run can still end *)

Lemma rtc_worker c n w sh w' c' :
  workers c !! n = Some w -> worker_step (receiving c) (fleet_shared c) w sh w' ->
  rtc fleet_step (mkFleet sh (<[n := w']> (workers c)) (fleet_coord c) (fleet_history c)) c' ->
  rtc fleet_step c c'.
Proof. intros Hn Hw. apply rtc_l. right. exists n, w, sh, w'. done. Qed.

Definition can_stop (sh : shared) (w : worker) (n : nat) : Prop :=
  forall c, fleet_shared c = sh -> workers c !! n = Some w ->
  exists sh' w', rtc fleet_step c
    (mkFleet sh' (<[n := w']> (workers c)) (fleet_coord c) (fleet_history c)) /\ ended w' = true.

Lemma can_stop_step sh w n sh' w' :
  (forall receiver, worker_step receiver sh w sh' w') -> can_stop sh' w' n -> can_stop sh w n.
Proof.
  intros Hw Hs c <- Hn.
  destruct (Hs (mkFleet sh' (<[n := w']> (workers c)) (fleet_coord c) (fleet_history c)) eq_refl)
    as (sh2 & w2 & Hr & He); [by apply list_lookup_insert_eq; eapply lookup_lt_Some|].
  exists sh2, w2. split; [|done]. eapply rtc_worker; [done|apply Hw|].
  cbn in Hr. by rewrite list_insert_insert_eq in Hr.
Qed.

Lemma can_stop_ended sh w n : ended w = true -> can_stop sh w n.
Proof.
  intros He c <- Hn. exists (fleet_shared c), w. rewrite list_insert_id by done.
  split; [|done]. by destruct c.
Qed.

Lemma can_stop_polling sh n : shutdown sh = true -> can_stop sh Polling n.
Proof.
  intros Hs. eapply can_stop_step; [intros; by apply ws_cancelled|by apply can_stop_ended].
Qed.

Lemma can_stop_sending sh s r n : shutdown sh = true -> can_stop sh (Sending s r) n.
Proof.
  intros Hs c <- Hn. destruct (receiving c) eqn:Er.
  - set (sh' := mkShared (pending (fleet_shared c)) (channel (fleet_shared c) ++ [r])
      (reports (fleet_shared c)) (shutdown (fleet_shared c))).
    destruct (can_stop_polling sh' n Hs
      (mkFleet sh' (<[n := Polling]> (workers c)) (fleet_coord c) (fleet_history c)) eq_refl)
      as (sh2 & w2 & Hr & He); [by apply list_lookup_insert_eq; eapply lookup_lt_Some|].
    exists sh2, w2. split; [|done]. eapply rtc_worker; [done|rewrite Er; by apply ws_send|].
    cbn in Hr. by rewrite list_insert_insert_eq in Hr.
  - eexists _, _. split; [eapply rtc_worker; [done|rewrite Er; by apply ws_gone|apply rtc_refl]|done].
Qed.

Lemma can_stop_executing n task s p : forall sh h,
  shutdown sh = true -> can_stop sh (Executing task s p h) n.
Proof.
  induction p as [o|a k IH]; intros sh h Hs.
  - destruct o as [r| |].
    + eapply can_stop_step; [intros; apply ws_executed|].
      eapply can_stop_step; [intros; apply ws_report|]. by apply can_stop_sending.
    + eapply can_stop_step; [intros; by apply ws_unwound|by apply can_stop_ended].
    + eapply can_stop_step; [intros; by apply ws_unwound|by apply can_stop_ended].
  - destruct (legal_answer a h) as [r Hr].
    eapply can_stop_step; [intros; by apply ws_exec|]. by apply IH.
Qed.

(** A worker that is told to stop can get there: it finishes what it executes. *)
Lemma worker_can_stop sh w n : shutdown sh = true -> can_stop sh w n.
Proof.
  intros Hs. destruct w.
  - by apply can_stop_polling.
  - eapply can_stop_step; [intros; by apply ws_select_done|by apply can_stop_ended].
  - eapply can_stop_step; [intros; by apply ws_wait_done|by apply can_stop_ended].
  - by apply can_stop_executing.
  - eapply can_stop_step; [intros; apply ws_report|]. by apply can_stop_sending.
  - by apply can_stop_sending.
  - by apply can_stop_ended.
  - by apply can_stop_ended.
Qed.

(** The coordinator of a fleet has no tasks of its own. *)
Definition taskless (a : act) : Prop :=
  match a with Spawn _ | Await _ | AbortTask _ => False | _ => True end.

(** A call of the coordinator gets its answer, once the workers it waits for
    have stopped. *)
Lemma coord_can_move c a k :
  fleet_inv c -> fleet_coord c = Act a k -> taskless a -> joinable (fleet_history c) a ->
  exists c1 c2, rtc fleet_step c c1 /\ coord_move c1 c2 /\ fleet_coord c1 = fleet_coord c /\
    exists r, fleet_coord c2 = k r.
Proof.
  intros Hi Hc Ha Hj.
  assert ((exists r sh ws, coord_effect c a r sh ws) -> exists c1 c2, rtc fleet_step c c1 /\
    coord_move c1 c2 /\ fleet_coord c1 = fleet_coord c /\ exists r, fleet_coord c2 = k r) as Hnow.
  { intros (r & sh & ws & He). eexists c, _. split; [apply rtc_refl|].
    split; [unfold coord_move; rewrite Hc; by exists r, sh, ws|]. split; [done|by exists r]. }
  destruct a; try done; try (apply Hnow;
    match goal with |- exists r sh ws, coord_effect _ ?a _ _ _ =>
      destruct (legal_answer a (fleet_history c)) as [x Hx]; by exists x, (fleet_shared c), (workers c)
    end).
  - apply Hnow. by eexists _, _, _.
  - apply Hnow. by exists None, (fleet_shared c), (workers c).
  - apply Hnow. destruct (channel (fleet_shared c)) as [|r rest] eqn:Ech.
    + by exists None, (fleet_shared c), (workers c).
    + eexists (Some r), _, _. split; [done|]. by exists rest.
  - apply Hnow. by eexists tt, _, _.
  - destruct Hj as [Hn Hst]. rewrite <- (fi_hired _ Hi) in Hn.
    apply lookup_lt_is_Some in Hn as [w Hn]. rewrite <- (fi_stopped _ Hi) in Hst.
    destruct (worker_can_stop _ w n Hst c eq_refl Hn) as (sh & w' & Hr & He).
    eexists _, _. split; [exact Hr|]. split; [|split; [done|]].
    + unfold coord_move. cbn [fleet_coord]. rewrite Hc. eexists tt, _, _.
      split; [|reflexivity]. split; [reflexivity|]. split; [reflexivity|]. exists w'.
      split; [|done]. cbn. apply list_lookup_insert_eq. by eapply lookup_lt_Some.
    + by exists tt.
Qed.

(** What is left of a coordinator makes the same kinds of calls. *)
Lemma only_reachable (P : act -> Prop) c c' :
  rtc fleet_step c c' -> only P (fleet_coord c) -> only P (fleet_coord c').
Proof.
  induction 1 as [|a b d Hstep _ IH]; [done|]. intros Ha. apply IH.
  destruct Hstep as [Hm|(n & w & sh & w' & _ & _ & ->)]; [|done].
  unfold coord_move in Hm. destruct (fleet_coord a) as [|x k]; [done|].
  destruct Hm as (r & sh & ws & _ & ->). by apply Ha.
Qed.

Lemma fleet_reaches_end c Q :
  fleet_inv c -> only taskless (fleet_coord c) ->
  wp (task_result cx) (fleet_history c) (fleet_coord c) Q ->
  exists c' o, rtc fleet_step c c' /\ fleet_coord c' = Done o /\ Q (fleet_history c') o.
Proof.
  remember (fleet_coord c) as p eqn:Ep. revert c Ep.
  induction p as [o|a k IH]; intros c Ep Hi Ho Hwp.
  { exists c, o. split_and!; [apply rtc_refl|done|]. exact Hwp. }
  destruct Ho as [Ha Hk]. pose proof (proj1 Hwp) as Hj.
  destruct (coord_can_move c a k Hi (eq_sym Ep) Ha Hj) as (c1 & c2 & R1 & Hm & E1 & r & E2).
  assert (rtc fleet_step c c2) as R2 by (eapply rtc_r; [exact R1|by left]).
  assert (fleet_inv c2) as Hi2 by (clear -R2 Hi; induction R2; eauto using fleet_step_inv).
  destruct (IH r c2 (eq_sym E2) Hi2) as (c3 & o & R3 & Hd & HQ).
  - apply Hk.
  - pose proof (fleet_wp c c2 Q R2 Hi) as Hw. rewrite E2, <- Ep in Hw. by apply Hw.
  - exists c3, o. split_and!; [by etrans|done|done].
Qed.
End Fleet.

(** ** Distributed runs *)

Section DistributedRuns.
Context `{JN : JsonNumber} `{JL : !JsonLib} `{UL : UuidLib} `{BP : BuildProfile}.

Lemma fleet_taskless {A} (p : prog A) : only fleet_act p -> only taskless p.
Proof. apply only_mono. by intros []. Qed.

Lemma distributed_wp cx l timeout start token :
  dag_steps l ->
  wp (task_result cx) [] (run_distributed_dag l timeout start token cx)
    (fun h o => exists rs, o = Returned rs /\ dist_final l (task_result cx) timeout token h rs).
Proof.
  intros Hl. apply (wp_run_distributed l (dag_distinct _ Hl) (dag_short _ Hl)); [|done|done].
  intros s r. by apply task_result_ok.
Qed.
End DistributedRuns.

(** C7. Under every schedule of the coordinator and the workers, and however the
    fleet places and moves the submitted steps, a distributed run of a valid DAG
    flow that ends returns exactly one result per step: first those of the steps
    dealt with, each with its reason (a failed dependency, a condition that does
    not hold, the outcome of an execution that started when the step was
    released, or the refusal of every node), then a skip for each step that is
    left.  Steps are left only when the run was cancelled, timed out, or gave up
    waiting for a result, and no step is handed to the fleet twice. *)
Theorem distributed_correct `{JN : JsonNumber} `{JL : !JsonLib} `{UL : UuidLib}
    `{BP : BuildProfile} cx f timeout start token c o :
  dag_steps (steps f) -> flow_mode f = FlowMode.Dag -> validate f = Ok tt ->
  rtc (fleet_step cx) (start_fleet (run_distributed_dag (steps f) timeout start token cx)) c ->
  fleet_coord c = Done o ->
  exists dealt lft reason,
    o = Returned (dealt ++ left_skips reason lft) /\
    dag_results (steps f) (fleet_result (task_result cx)) dealt /\
    step_id <$> (dealt ++ left_skips reason lft) ≡ₚ id <$> steps f /\
    NoDup (id <$> accepted (fleet_history c)) /\
    (lft <> [] ->
     (token = true \/ timeout < u64_max \/ gave_up (fleet_history c)) /\
     (reason = "cancelled" /\ token = true \/
      reason = "flow timeout exceeded" /\ timeout < u64_max \/ reason = "not scheduled")).
Proof.
  intros Hl Hmode Hval Hreach Hdone. apply validate_ok_spec in Hval.
  pose proof (fleet_wp cx _ _ _ Hreach (fleet_inv_start cx _)
    (distributed_wp cx (steps f) timeout start token Hl)) as Hwp.
  rewrite Hdone in Hwp. destruct Hwp as (rs & -> & dealt & lft & reason & -> & Hd & Hr & Hp & Hn & Hc).
  exists dealt, lft, reason. do 4 (split; [done|]). intros Hlft. split; [|done].
  apply Hc; [by apply vs_refs|by apply vs_acyclic|done].
Qed.

(** ** A result that never comes *)

Definition idle `{JN : JsonNumber} (w : worker) : Prop :=
  match w with Polling | Selecting | NoWork | Stopped | Crashed _ => True | _ => False end.
Definition looking `{JN : JsonNumber} (w : worker) : Prop :=
  match w with Polling | Selecting | NoWork => True | _ => False end.

(** Nothing to do, nothing on its way, and somebody still looking for work. *)
Record quiet `{JN : JsonNumber} (sh : shared) (ws : list worker) : Prop := {
  quiet_pending : pending sh = [];
  quiet_channel : channel sh = [];
  quiet_running : shutdown sh = false;
  quiet_idle : Forall idle ws;
  quiet_looking : Exists looking ws
}.

Section Stall.
Context `{JN : JsonNumber} `{JL : !JsonLib} `{UL : UuidLib} `{BP : BuildProfile}.
Context (cx : ExecCtx) {A : Type}.

Lemma quiet_step receiver sh w sh' w' :
  worker_step cx receiver sh w sh' w' -> pending sh = [] -> shutdown sh = false -> idle w ->
  sh' = sh /\ idle w' /\ (looking w -> looking w').
Proof.
  intros Hw Hp Hs Hi. destruct Hw as [| | | |l task s k Hl| | | | | | | |]; try done; try congruence.
  rewrite Hp in Hl. by destruct l.
Qed.

Lemma quiet_move n (c c' : fleet) :
  quiet (fleet_shared c) (workers c) -> worker_move cx n c c' ->
  quiet (fleet_shared c') (workers c') /\ fleet_coord c' = fleet_coord c /\
  fleet_history c' = fleet_history (A := A) c.
Proof.
  intros [H1 H2 H3 H4 H5] (w & sh & w' & Hn & Hw & ->). cbn.
  destruct (quiet_step _ _ _ _ _ Hw H1 H3 (proj1 (Forall_lookup _ _) H4 _ _ Hn))
    as (-> & Hi & Hl). split; [|done]. split; [done..|by apply Forall_insert|].
  apply Exists_exists in H5 as (x & Hx & Hlook). apply list_elem_of_lookup in Hx as [m Hm].
  apply Exists_exists. destruct (decide (m = n)) as [->|Hne].
  - rewrite Hn in Hm. injection Hm as ->. exists w'. split; [|auto].
    apply list_elem_of_lookup. exists n. apply list_lookup_insert_eq. by eapply lookup_lt_Some.
  - exists x. split; [|done]. apply list_elem_of_lookup. exists m.
    by rewrite list_lookup_insert_ne.
Qed.
End Stall.


(** ** A scheduler

    One schedule, computed: before each entry of the script the coordinator
    moves as far as it can, then the worker the entry names moves. *)

Section Scripts.
Context `{JN : JsonNumber} `{JL : !JsonLib} `{UL : UuidLib} `{BP : BuildProfile}.
Context (cx : ExecCtx) {A : Type} (o : history -> forall a, res a).
Hypothesis o_legal : legal_oracle (fun _ _ => True) o.

Definition effect_of (c : fleet (A := A)) (a : act) : option (res a * shared * list worker) :=
  let sh := fleet_shared c in
  match a return option (res a * shared * list worker) with
  | StartWorker _ => Some (length (workers c), sh, workers c ++ [Polling])
  | FleetSubmit s =>
      match o (fleet_history c) (FleetSubmit s) with
      | Some (node, task) => Some (Some (node, task),
          mkShared (pending sh ++ [(task, s)]) (channel sh) (reports sh) (shutdown sh), workers c)
      | None => Some (None, sh, workers c)
      end
  | FleetReceive _ _ =>
      match channel sh with
      | r :: rest => Some (Some r, mkShared (pending sh) rest (reports sh) (shutdown sh), workers c)
      | [] => None
      end
  | StopWorkers => Some (tt, mkShared (pending sh) (channel sh) (reports sh) true, workers c)
  | JoinWorker n =>
      match workers c !! n with
      | Some w => if ended w then Some (tt, sh, workers c) else None
      | None => None
      end
  | Spawn _ => None
  | Await _ => None
  | AbortTask _ => None
  | a => Some (o (fleet_history c) a, sh, workers c)
  end.

Definition coord_next (c : fleet (A := A)) : option (fleet (A := A)) :=
  match fleet_coord c with
  | Done _ => None
  | Act a k =>
      match effect_of c a with
      | Some (r, sh, ws) => Some (mkFleet sh ws (k r) (fleet_history c ++ [Call a r]))
      | None => None
      end
  end.

Definition worker_next (sh : shared) (w : worker) : option (shared * worker) :=
  match w with
  | Polling => Some (sh, if shutdown sh then Stopped else Selecting)
  | Selecting =>
      if shutdown sh then Some (sh, Stopped)
      else match pending sh with
           | [] => Some (sh, NoWork)
           | (task, s) :: rest => Some (mkShared rest (channel sh) (reports sh) (shutdown sh),
               Executing task s (execute_step_with_handler cx s) [])
           end
  | NoWork => Some (sh, if shutdown sh then Stopped else Polling)
  | Executing task s (Act a k) h => Some (sh, Executing task s (k (o h a)) (h ++ [Call a (o h a)]))
  | Executing task s (Done (Returned r)) h => Some (sh, Reporting task s r)
  | Executing task s (Done _) h => Some (sh, Crashed s)
  | Reporting task s r => Some (mkShared (pending sh) (channel sh)
      (reports sh ++ [(task, completes r)]) (shutdown sh), Sending s r)
  | Sending s r => Some (mkShared (pending sh) (channel sh ++ [r]) (reports sh) (shutdown sh), Polling)
  | Stopped | Crashed _ => None
  end.

Fixpoint coord_run (fuel : nat) (c : fleet (A := A)) : fleet (A := A) :=
  match fuel with
  | O => c
  | S fuel => match coord_next c with Some c' => coord_run fuel c' | None => c end
  end.

Definition worker_run (n : nat) (c : fleet (A := A)) : fleet (A := A) :=
  match workers c !! n with
  | None => c
  | Some w =>
      if receiving c then
        match worker_next (fleet_shared c) w with
        | Some (sh, w') => mkFleet sh (<[n := w']> (workers c)) (fleet_coord c) (fleet_history c)
        | None => c
        end
      else c
  end.

Definition play (fuel : nat) (script : list nat) (c : fleet (A := A)) : fleet (A := A) :=
  coord_run fuel (foldl (fun c n => worker_run n (coord_run fuel c)) c script).

Lemma effect_of_ok c a r sh ws : effect_of c a = Some (r, sh, ws) -> coord_effect c a r sh ws.
Proof.
  pose proof (o_legal (fleet_history c) a) as Ho.
  destruct a; cbn; try done; try (by intros [= <- <- <-]).
  - destruct (o (fleet_history c) (FleetSubmit s)) as [[node task]|]; by intros [= <- <- <-].
  - destruct (channel (fleet_shared c)) as [|x rest] eqn:E; [done|].
    intros [= <- <- <-]. split; [done|]. by exists rest.
  - destruct (workers c !! n) as [w|] eqn:E; [|done]. destruct (ended w) eqn:Ew; [|done].
    intros [= <- <- <-]. eauto.
Qed.

Lemma coord_run_reaches fuel : forall c, rtc (fleet_step cx) c (coord_run fuel c).
Proof.
  induction fuel as [|fuel IH]; intros c; cbn; [apply rtc_refl|].
  destruct (coord_next c) as [c'|] eqn:E; [|apply rtc_refl]. eapply rtc_l; [|apply IH].
  left. unfold coord_next in E. unfold coord_move. destruct (fleet_coord c) as [|a k]; [done|].
  destruct (effect_of c a) as [[[r sh] ws]|] eqn:Ee; [|done]. injection E as <-.
  exists r, sh, ws. split; [by apply effect_of_ok|done].
Qed.

Lemma worker_next_step sh w sh' w' :
  worker_next sh w = Some (sh', w') -> worker_step cx true sh w sh' w'.
Proof.
  destruct w as [| | |task s [[r| |]|a k] h|task s r|s r| |s]; cbn; try done.
  - intros [= <- <-]. destruct (shutdown sh) eqn:E; by constructor.
  - destruct (shutdown sh) eqn:E; [intros [= <- <-]; by constructor|].
    destruct (pending sh) as [|[task s] rest] eqn:Ep; intros [= <- <-]; [by constructor|].
    rewrite <- E. by apply (ws_item cx true sh [] task s rest).
  - intros [= <- <-]. destruct (shutdown sh) eqn:E; by constructor.
  - intros [= <- <-]. constructor.
  - intros [= <- <-]. by constructor.
  - intros [= <- <-]. by constructor.
  - intros [= <- <-]. constructor. apply o_legal.
  - intros [= <- <-]. constructor.
  - intros [= <- <-]. by constructor.
Qed.

Lemma worker_run_reaches n c : rtc (fleet_step cx) c (worker_run n c).
Proof.
  unfold worker_run.
  destruct (workers c !! n) as [w|] eqn:Hn; [|apply rtc_refl].
  destruct (receiving c) eqn:Hr; [|apply rtc_refl].
  destruct (worker_next (fleet_shared c) w) as [[sh w']|] eqn:E; [|apply rtc_refl].
  apply rtc_once. right. exists n, w, sh, w'. rewrite Hr. split; [done|].
  split; [by apply worker_next_step|done].
Qed.

Lemma play_reaches fuel script : forall c, rtc (fleet_step cx) c (play fuel script c).
Proof.
  unfold play. induction script as [|n script IH]; intros c; cbn [foldl]; [apply coord_run_reaches|].
  etrans; [|apply IH]. etrans; [apply coord_run_reaches|apply worker_run_reaches].
Qed.
End Scripts.

Module FleetExamples.
Export StepExamples.

(** Two nodes, which accept every step. *)
Definition env (f : history -> StepDef -> handler_outcome) (h : history) (a : act) : res a :=
  match a return res a with
  | FleetNodes => ["a"; "b"]
  | FleetHasQueue _ => true
  | FleetSubmit s => Some ("a", id s)
  | a => answers f (fun _ _ => JoinError "") h a
  end.

Lemma fleet_env_legal f : (forall h s, f h s <> HandlerTimeout) ->
  legal_oracle (fun _ _ => True) (env f).
Proof.
  intros Hf h a. pose proof (answers_legal f (fun _ _ => JoinError "") (fun _ _ => True) Hf) as Ho.
  specialize (Ho (fun _ _ _ _ => I) h a). by destruct a.
Qed.

Definition run : prog (list StepResult) :=
  run_distributed_dag (steps DagExamples.flow) u64_max 0 false cx.

Definition works : history -> StepDef -> handler_outcome := fun _ _ => HandlerOk Null.
Definition panics : history -> StepDef -> handler_outcome := fun _ _ => HandlerPanic.

(** The second worker executes one step, the first the other. *)
Definition final : fleet :=
  play cx (env works) 100 (replicate 15 1%nat ++ replicate 17 0%nat ++ replicate 3 1%nat)
    (start_fleet run).

Lemma fleet_final_reached : rtc (fleet_step cx) (start_fleet run) final.
Proof. apply play_reaches, fleet_env_legal. by intros. Qed.

Lemma fleet_final_done :
  fleet_coord final = Done (Returned [DagExamples.ok_result 1%N; DagExamples.ok_result 2%N]).
Proof. reflexivity. Qed.

(** Nobody gave up on the channel. *)
Lemma final_patient : ~ gave_up (fleet_history final).
Proof.
  assert (existsb (fun c => match c with Call (FleetReceive _ _) None => true | _ => false end)
            (fleet_history final) = false) as H by (vm_compute; reflexivity).
  revert H. generalize (fleet_history final). intros h H (tok & ms & Hin).
  apply not_true_iff_false in H. apply H, existsb_exists. eexists.
  split; [by apply list_elem_of_In|done].
Qed.

(** The first worker executes the first step, whose handler panics; the other
    one looks for work. *)
Definition stalled : fleet :=
  play cx (env panics) 100 (replicate 9 0%nat ++ [1%nat]) (start_fleet run).

Lemma stalled_reached : rtc (fleet_step cx) (start_fleet run) stalled.
Proof. apply play_reaches, fleet_env_legal. by intros. Qed.

Lemma stalled_quiet : quiet (fleet_shared stalled) (workers stalled).
Proof.
  split; [reflexivity..| |].
  - assert (forallb (fun w => match w with Crashed _ | Selecting => true | _ => false end)
      (workers stalled) = true) as H by (vm_compute; reflexivity).
    revert H. generalize (workers stalled). intros ws H.
    rewrite forallb_forall in H. apply Forall_forall. intros w Hw%list_elem_of_In.
    specialize (H w Hw). by destruct w.
  - assert (existsb (fun w => match w with Selecting => true | _ => false end)
      (workers stalled) = true) as H by (vm_compute; reflexivity).
    revert H. generalize (workers stalled). intros ws H.
    apply existsb_exists in H as (w & Hw & H). apply Exists_exists. exists w.
    split; [by apply list_elem_of_In|]. by destruct w.
Qed.

(** The coordinator waits for the result of the step that was lost. *)
Lemma stalled_waiting :
  outstanding (fleet_history stalled) = [1%N] /\
  exists tok ms k, fleet_coord stalled = Act (FleetReceive tok ms) k.
Proof.
  split; [vm_compute; reflexivity|].
  assert (match fleet_coord stalled with Act (FleetReceive _ _) _ => true | _ => false end = true)
    as H by (vm_compute; reflexivity).
  destruct (fleet_coord stalled) as [o|a k]; [done|]. destruct a; try done. by eexists _, _, _.
Qed.
End FleetExamples.

#[local] Existing Instances SerdeModel.serde_number SerdeModel.serde_lib
  StepExamples.ids StepExamples.release.

Lemma distributed_correct_witness :
  exists dealt, [DagExamples.ok_result 1%N; DagExamples.ok_result 2%N] = dealt ++ [] /\
    step_id <$> dealt ≡ₚ [2%N; 1%N].
Proof.
  destruct (distributed_correct StepExamples.cx DagExamples.flow u64_max 0 false
    FleetExamples.final (Returned [DagExamples.ok_result 1%N; DagExamples.ok_result 2%N])
    DagExamples.flow_ok eq_refl eq_refl FleetExamples.fleet_final_reached FleetExamples.fleet_final_done)
    as (dealt & lft & reason & [= E] & _ & Hp & _ & Hl).
  destruct lft as [|s lft].
  - exists dealt. cbn in E, Hp. rewrite app_nil_r in Hp. done.
  - destruct (Hl ltac:(done)) as [[?|[?|?]] _];
      [done|unfold u64_max in *; lia|by destruct FleetExamples.final_patient].
Defined.

