(* ===== verification/QueueRunner.v ===== *)
(** * Queue-backed execution

    [rust-old/src/engine/queue_runner.rs]: all steps are enqueued in a managed
    queue, and a worker loop dequeues, executes and reports them.  The queue
    ([majra::queue::ManagedQueue]) is not part of the program: its answers are
    those of the environment, and [queue_answer] states what a queue used by
    this run alone answers. *)

From Stdlib Require Import ZArith Lia.
From stdpp Require Import base tactics option list strings sets.
From S2P Require Import Prelude Json State Error Step Condition Bus EngineResult Prog.
From S2P Require Import StepExec Sequential Pool Footprint.

Open Scope Z_scope.

Section QueueRunner.
Context `{JN : JsonNumber} `{JL : !JsonLib} `{UL : UuidLib} `{BP : BuildProfile}.

Fixpoint enqueue_all (steps : list StepDef) : prog unit :=
  match steps with
  | [] => ret tt
  | s :: rest => let! _ := perform (Enqueue s) in enqueue_all rest
  end.

(** Errors of the queue are logged and ignored. *)
Definition report_item (task : Uuid) (r : StepResult) : prog unit :=
  match status r with
  | StepStatus.Completed => let! _ := perform (QueueComplete task) in ret tt
  | _ => let! _ := perform (QueueFail task) in ret tt
  end.

(** [queue.queued_count().await == 0 && queue.running_count() == 0] *)
Definition drained : prog bool :=
  let! queued := perform QueuedCount in
  if queued =? 0 then let! running := perform RunningCount in ret (running =? 0)
  else ret false.

(** The [loop]; [fuel] bounds its turns. *)
Fixpoint worker_loop (fuel : nat) (cx : ExecCtx) (total : nat) (results : list StepResult)
  : prog (list StepResult) :=
  match fuel with
  | O => Done OutOfFuel
  | S fuel =>
      let! item := perform Dequeue in
      match item with
      | None =>
          let! empty := drained in
          if empty then ret results
          else let! _ := perform YieldNow in worker_loop fuel cx total results
      | Some (task, s) =>
          let! r := execute_step_with_handler cx s in
          let! _ := report_item task r in
          if (total <=? length (results ++ [r]))%nat then ret (results ++ [r])
          else worker_loop fuel cx total (results ++ [r])
      end
  end.

Definition run_queued (fuel : nat) (steps : list StepDef) (cx : ExecCtx)
  : prog (list StepResult) :=
  let! _ := enqueue_all steps in
  worker_loop fuel cx (length steps) [].

Lemma local_enqueue_all l : local (enqueue_all l).
Proof. induction l; cbn [enqueue_all]; local_solve. Qed.
Lemma local_report_item t r : local (report_item t r).
Proof. unfold report_item. local_solve. Qed.
Lemma local_drained : local drained.
Proof. unfold drained. local_solve. Qed.
#[local] Hint Resolve local_enqueue_all local_report_item local_drained : szal.
Lemma local_worker_loop fuel cx total : forall rs, local (worker_loop fuel cx total rs).
Proof. induction fuel as [|fuel IH]; intros rs; cbn [worker_loop]; [done|local_solve]. Qed.
Lemma local_run_queued fuel steps cx : local (run_queued fuel steps cx).
Proof. unfold run_queued. pose proof local_worker_loop. local_solve. Qed.

Lemma only_enqueue_all l : only executor_act (enqueue_all l).
Proof. induction l; cbn [enqueue_all]; only_solve. Qed.
Lemma only_report_item t r : only executor_act (report_item t r).
Proof. unfold report_item. only_solve. Qed.
Lemma only_drained : only executor_act drained.
Proof. unfold drained. only_solve. Qed.
#[local] Hint Resolve only_enqueue_all only_report_item only_drained : szal.
Lemma only_worker_loop fuel cx total : forall rs,
  only executor_act (worker_loop fuel cx total rs).
Proof. induction fuel as [|fuel IH]; intros rs; cbn [worker_loop]; only_solve. Qed.
Lemma only_run_queued fuel steps cx : only executor_act (run_queued fuel steps cx).
Proof. unfold run_queued. pose proof only_worker_loop. only_solve. Qed.
End QueueRunner.

#[export] Hint Resolve local_enqueue_all local_report_item local_drained local_worker_loop
  local_run_queued : szal.

(** ** A queue of one's own *)

Section Queue.
Context `{JN : JsonNumber}.

Record queue : Type := mkQueue { pending : list (Uuid * StepDef); active : list Uuid }.
Definition empty_queue : queue := {| pending := []; active := [] |}.

(** What the queue answers, and becomes: an item is dequeued in whatever order
    the queue chooses, unless none is pending or the items being processed
    take up its capacity; completing or failing an item being processed
    succeeds and retires it; the counts are exact. *)
Definition queue_answer (q : queue) (a : act) : res a -> queue -> Prop :=
  match a with
  | Enqueue s => fun _ q' =>
      exists t, q' = {| pending := pending q ++ [(t, s)]; active := active q |}
  | Dequeue => fun r q' =>
      match r with
      | Some (t, s) => exists rest, pending q ≡ₚ ((t, s) :: rest) /\
          q' = {| pending := rest; active := t :: active q |}
      | None => (pending q = [] \/ active q <> []) /\ q' = q
      end
  | QueueComplete t | QueueFail t => fun r q' =>
      (exists l1 l2, active q = l1 ++ (t :: l2) /\ r = Ok tt /\
         q' = {| pending := pending q; active := l1 ++ l2 |}) \/
      ((t ∉ active q) /\ q' = q)
  | QueuedCount => fun n q' => n = Z.of_nat (length (pending q)) /\ q' = q
  | RunningCount => fun n q' => n = Z.of_nat (length (active q)) /\ q' = q
  | _ => fun _ q' => q' = q
  end.

(** The answers in a history are those of the queue. *)
Fixpoint queue_history (q : queue) (h : history) (q' : queue) : Prop :=
  match h with
  | [] => q' = q
  | Call a r :: h => exists q1, queue_answer q a r q1 /\ queue_history q1 h q'
  end.

Lemma queue_history_app q h k q' :
  queue_history q (h ++ k) q' -> exists q1, queue_history q h q1 /\ queue_history q1 k q'.
Proof.
  revert q. induction h as [|[a r] h IH]; intros q; [by exists q|].
  cbn. intros (q1 & Ha & H). destruct (IH q1 H) as (q2 & H1 & H2).
  exists q2. split; [by exists q1|done].
Qed.

(** Calls that are not about the queue leave it alone. *)
Lemma queue_history_step h : forall q q',
  Forall (fun c => step_act (call_act c)) h -> queue_history q h q' -> q' = q.
Proof.
  induction h as [|[a r] h IH]; intros q q' Hf; [done|].
  apply Forall_cons in Hf as [Ha Hf]. intros (q1 & Hq & H).
  assert (q1 = q) as -> by (by destruct a). by apply IH.
Qed.

(** What the items were reported as: [true] for completed. *)
Definition reports (h : history) : list bool :=
  omap (fun c => match call_act c with
                 | QueueComplete _ => Some true
                 | QueueFail _ => Some false
                 | _ => None
                 end) h.

Lemma reports_app h k : reports (h ++ k) = reports h ++ reports k.
Proof. apply omap_app. Qed.

Lemma reports_step h : Forall (fun c => step_act (call_act c)) h -> reports h = [].
Proof.
  unfold reports. induction 1 as [|[a r] h Ha _ IH]; [done|]. cbn. rewrite IH. by destruct a.
Qed.
End Queue.

(** ** What a queued run does *)

Section QueueStory.
Context `{JN : JsonNumber} `{JL : !JsonLib} `{UL : UuidLib} `{BP : BuildProfile}.
Context (cx : ExecCtx).

Definition queued_fact (prior : list StepResult) (s : StepDef) (m : list mark) (r : StepResult)
  : Prop := step_done s m (Returned r).

Definition is_completed (r : StepResult) : bool :=
  bool_decide (status r = StepStatus.Completed).

(** From a state of the queue in which the steps [todo] are pending, the worker
    executes them in some order and reports each by its status. *)
Definition worker_story (prior : list StepResult) (todo : list StepDef) (h : history)
    (q' : queue) (o : outcome (list StepResult)) : Prop :=
  match o with
  | Returned rs => exists new order,
      rs = prior ++ new /\ order ≡ₚ todo /\
      story queued_fact prior order (marks h) new /\
      reports h = is_completed <$> new /\ q' = empty_queue
  | Panicked => exists order s rest m1 m2 new,
      order ++ s :: rest ≡ₚ todo /\ marks h = m1 ++ m2 /\
      story queued_fact prior order m1 new /\ step_done s m2 Panicked
  | OutOfFuel => False
  end.

(** One execution of a step. *)
Lemma runs_execute_step s new o :
  0 <= max_retries s <= u32_max ->
  runs (execute_step_with_handler cx s) [] new o ->
  step_done s (marks new) o /\ Forall (fun c => step_act (call_act c)) new.
Proof.
  intros Hr H. split.
  - exact (wp_runs _ _ _ _ _ (does_execute_step_done cx s Hr) H).
  - destruct (runs_only _ _ _ _ _ (only_execute_step cx s) H) as (n & -> & Hn). done.
Qed.

(** Reporting an item being processed retires it. *)
Lemma runs_report_item t r h o q q' :
  runs (report_item t r) [] h o -> queue_history q h q' -> active q = [t] ->
  o = Returned tt /\ marks h = [] /\ reports h = [is_completed r] /\
  q' = {| pending := pending q; active := [] |}.
Proof.
  intros Hruns Hq Ha.
  assert (forall a (x : res a), h = [Call a x] -> (a = QueueComplete t \/ a = QueueFail t) ->
            q' = {| pending := pending q; active := [] |}) as Hret.
  { intros a x -> Ht. destruct Hq as (q1 & Hq1 & ->).
    assert ((exists l1 l2, active q = l1 ++ t :: l2 /\
              q1 = {| pending := pending q; active := l1 ++ l2 |}) \/ t ∉ active q) as Hcase
      by (destruct Ht as [-> | ->]; cbn in Hq1; naive_solver).
    rewrite Ha in Hcase. destruct Hcase as [(l1 & l2 & E & ->)|Hn]; [|set_solver].
    destruct l1 as [|? [|]]; cbn in E; simplify_eq; done. }
  unfold report_item, is_completed in *.
  destruct (status r); destruct Hruns as (x & _ & -> & ->);
    (split_and!; [done|done|done|by eapply Hret; [done|auto]]).
Qed.

Lemma worker_story_cons prior s todo m h1 h2 h3 q r o :
  queued_fact prior s m r -> marks h1 = m -> reports h1 = [] ->
  marks h2 = [] -> reports h2 = [is_completed r] ->
  worker_story (prior ++ [r]) todo h3 q o ->
  worker_story prior (s :: todo) (h1 ++ h2 ++ h3) q o.
Proof.
  intros Hf Hm1 Hr1 Hm2 Hr2. unfold worker_story.
  rewrite !marks_app, !reports_app, Hm1, Hr1, Hm2, Hr2. cbn [app].
  destruct o as [rs| |]; [| |done].
  - intros (new & order & -> & Hp & Hs & -> & ->). exists (r :: new), (s :: order).
    rewrite <- app_assoc. split_and!; [done|by rewrite Hp|by constructor|done|done].
  - intros (order & s' & rest & m1 & m2 & new & Hp & -> & Hs & Hd).
    exists (s :: order), s', rest, (m ++ m1), m2, (r :: new).
    split_and!; [by rewrite <- Hp|by rewrite app_assoc|by constructor|done].
Qed.

(** The story only depends on the steps pending, and a dequeue leaves no mark. *)
Lemma worker_story_item prior (l : list (Uuid * StepDef)) t s rest h item q o :
  l ≡ₚ (t, s) :: rest ->
  worker_story prior (s :: rest.*2) h q o ->
  worker_story prior l.*2 (Call Dequeue item :: h) q o.
Proof.
  intros Hp. unfold worker_story.
  change (marks (Call Dequeue item :: h)) with (marks h).
  change (reports (Call Dequeue item :: h)) with (reports h).
  assert (l.*2 ≡ₚ s :: rest.*2) as Hl by (by rewrite Hp).
  destruct o as [rs| |]; [| |done].
  - intros (new & order & H1 & H2 & H3). exists new, order. by rewrite Hl.
  - intros (order & s' & rest' & m1 & m2 & new & H1 & H2).
    exists order, s', rest', m1, m2, new. by rewrite Hl.
Qed.

(** One turn of the loop that dequeued [s], and what follows it. *)
Lemma runs_worker_turn total (k : list StepResult -> prog (list StepResult))
    prior t s rest h q' o :
  (length prior + S (length rest) = total)%nat -> 0 <= max_retries s <= u32_max ->
  (forall rs, local (k rs)) ->
  (forall r h, rest <> [] -> runs (k (prior ++ [r])) [] h o ->
     queue_history {| pending := rest; active := [] |} h q' ->
     worker_story (prior ++ [r]) rest.*2 h q' o) ->
  runs (let! r := execute_step_with_handler cx s in
        let! _ := report_item t r in
        if (total <=? length (prior ++ [r]))%nat then ret (prior ++ [r]) else k (prior ++ [r]))
    [] h o ->
  queue_history {| pending := rest; active := [t] |} h q' ->
  worker_story prior (s :: rest.*2) h q' o.
Proof.
  intros Htot Hs Hk IH Hruns Hq.
  apply runs_bind_local in Hruns
    as [(n1 & n2 & r & -> & Hrun1 & Hruns)|[[Hrun1 ->]|[Hrun1 ->]]]; [| | |local_solve].
  - apply queue_history_app in Hq as (q2 & Hq1 & Hq).
    destruct (runs_execute_step s n1 _ Hs Hrun1) as [Hd Hstep].
    apply queue_history_step in Hq1 as ->; [|done].
    apply runs_bind_local in Hruns
      as [(n3 & n4 & [] & -> & Hrun2 & Hruns)|[[Hrun2 _]|[Hrun2 _]]]; [| | |local_solve].
    + apply queue_history_app in Hq as (q3 & Hq2 & Hq).
      destruct (runs_report_item _ _ _ _ _ _ Hrun2 Hq2 eq_refl) as (_ & Hm & Hrep & ->).
      eapply worker_story_cons; [exact Hd|done|by apply reports_step|done|done|].
      rewrite length_app in Hruns. cbn [length] in Hruns.
      destruct (total <=? length prior + 1)%nat eqn:E.
      * apply Nat.leb_le in E. destruct rest; [|cbn in *; lia].
        destruct Hruns as [-> ->]. cbn in Hq. subst q'.
        exists [], []. rewrite app_nil_r. split_and!; [done|done|constructor|done|done].
      * apply Nat.leb_gt in E. apply IH; [|done|done]. intros ->. cbn in *. lia.
    + exfalso. unfold report_item in Hrun2. destruct (status r); naive_solver.
    + exfalso. unfold report_item in Hrun2. destruct (status r); naive_solver.
  - destruct (runs_execute_step s h _ Hs Hrun1) as [Hd _].
    exists [], s, rest.*2, [], (marks h), []. split_and!; [done|done|constructor|done].
  - by destruct (runs_execute_step s h _ Hs Hrun1) as [[_ []] _].
Qed.

Lemma runs_drained h q' o :
  runs drained [] h o -> queue_history empty_queue h q' ->
  o = Returned true /\ marks h = [] /\ reports h = [] /\ q' = empty_queue.
Proof.
  intros (n & h1 & -> & _ & Hruns)%runs_perform_local; [|local_solve].
  intros (q1 & [-> ->] & Hq). cbn in Hruns.
  destruct Hruns as (m & _ & -> & ->). destruct Hq as (q2 & [-> ->] & ->). done.
Qed.

Lemma runs_worker_loop total : forall fuel prior q h q' o,
  active q = [] -> (length prior + length (pending q) = total)%nat ->
  (prior = [] \/ pending q <> []) -> (length (pending q) < fuel)%nat ->
  Forall (fun s => 0 <= max_retries s <= u32_max) (pending q).*2 ->
  runs (worker_loop fuel cx total prior) [] h o -> queue_history q h q' ->
  worker_story prior (pending q).*2 h q' o.
Proof.
  induction fuel as [|fuel IH]; intros prior [pq aq] h q' o; cbn [pending active];
    intros -> Htot Hne Hfuel Hr Hruns Hq; [lia|].
  cbn [worker_loop] in Hruns.
  apply runs_perform_local in Hruns as (item & h1 & -> & _ & Hruns); [|local_solve].
  destruct Hq as (q1 & Hdeq & Hq). destruct item as [[t s]|].
  - destruct Hdeq as (rest & Hp & ->). cbn [pending active] in *.
    rewrite Hp in Hr, Htot, Hfuel. cbn [length] in Htot, Hfuel.
    apply Forall_cons in Hr as [Hs Hr].
    apply (worker_story_item _ _ _ _ _ _ _ _ _ Hp).
    eapply (runs_worker_turn total); [done|done| | |exact Hruns|exact Hq]; [local_solve|].
    intros r h Hrest Hruns' Hq'.
    apply (IH (prior ++ [r]) {| pending := rest; active := [] |}); cbn; auto; [|lia].
    rewrite length_app. cbn. lia.
  - destruct Hdeq as [[Hp|Hp] ->]; [|done]. cbn [pending] in Hp. destruct Hne as [->|]; [|done].
    subst pq.
    apply runs_bind_local in Hruns as [(n1 & n2 & b & -> & Hrun1 & Hruns)|Hruns]; [|
      |local_solve].
    + apply queue_history_app in Hq as (q2 & Hq1 & Hq).
      destruct (runs_drained _ _ _ Hrun1 Hq1) as ([= ->] & Hm & Hrep & ->).
      destruct Hruns as [-> ->]. cbn in Hq. subst q'. rewrite app_nil_r.
      exists [], []. unfold worker_story. cbn [app fmap list_fmap].
      change (marks (Call Dequeue None :: n1)) with (marks n1).
      change (reports (Call Dequeue None :: n1)) with (reports n1). rewrite Hm, Hrep.
      split_and!; [done|done|constructor|done|done].
    + exfalso. destruct Hruns as [[Hrun1 _]|[Hrun1 _]];
        by destruct (runs_drained _ _ _ Hrun1 Hq).
Qed.

Lemma runs_enqueue_all l : forall q h q' o,
  runs (enqueue_all l) [] h o -> queue_history q h q' ->
  o = Returned tt /\ marks h = [] /\ reports h = [] /\
  (pending q').*2 = (pending q).*2 ++ l /\ active q' = active q.
Proof.
  induction l as [|s l IH]; intros q h q' o; cbn [enqueue_all].
  - intros [-> ->] ->. by rewrite app_nil_r.
  - intros (n & h1 & -> & _ & Hruns)%runs_perform_local; [|local_solve].
    intros (q1 & (t & ->) & Hq). destruct (IH _ _ _ _ Hruns Hq) as (-> & Hm & Hrep & Hp & Ha).
    cbn [pending active] in *. split_and!; [done|done|done| |done].
    rewrite Hp, fmap_app. cbn. by rewrite <- app_assoc.
Qed.

(** A story depends on the calls only through marks and reports. *)
Lemma worker_story_quiet prior todo h k q o :
  marks h = [] -> reports h = [] ->
  worker_story prior todo k q o -> worker_story prior todo (h ++ k) q o.
Proof.
  intros Hm Hrep. unfold worker_story. by rewrite marks_app, reports_app, Hm, Hrep.
Qed.

Lemma runs_run_queued fuel steps h q o :
  Forall (fun s => 0 <= max_retries s <= u32_max) steps -> (length steps < fuel)%nat ->
  runs (run_queued fuel steps cx) [] h o -> queue_history empty_queue h q ->
  worker_story [] steps h q o.
Proof.
  intros Hr Hfuel Hruns Hq. unfold run_queued in Hruns.
  apply runs_bind_local in Hruns as [(n1 & n2 & [] & -> & Hrun1 & Hruns)|Hruns]; [| |local_solve].
  - apply queue_history_app in Hq as (q2 & Hq1 & Hq).
    destruct (runs_enqueue_all _ _ _ _ _ Hrun1 Hq1) as (_ & Hm & Hrep & Hp & Ha).
    apply worker_story_quiet; [done|done|]. cbn in Hp, Ha. rewrite <- Hp in *.
    rewrite length_fmap in *. eapply runs_worker_loop; eauto.
  - exfalso. destruct Hruns as [[Hrun1 _]|[Hrun1 _]];
      by destruct (runs_enqueue_all _ _ _ _ _ Hrun1 Hq).
Qed.
End QueueStory.

(** ** Properties *)

(** C21. With a queue of its own, and at most one turn of the worker loop per step
    and one more, a queued run executes every step exactly once, one after the
    other in the order the queue hands them out, and returns their results in
    that order; each item is reported completed to the queue exactly when its
    step's result is, and the queue is empty at the end.  The run panics only in
    a step's execution. *)
Theorem queued_run `{JN : JsonNumber} `{JL : !JsonLib} `{UL : UuidLib} `{BP : BuildProfile}
    cx fuel steps h q o :
  Forall (fun s => 0 <= max_retries s <= u32_max) steps -> (length steps < fuel)%nat ->
  runs (run_queued fuel steps cx) [] h o -> queue_history empty_queue h q ->
  match o with
  | Returned rs => exists order,
      order ≡ₚ steps /\ story queued_fact [] order (marks h) rs /\
      reports h = is_completed <$> rs /\ q = empty_queue
  | Panicked => exists order s rest m1 m2 rs,
      order ++ s :: rest ≡ₚ steps /\ marks h = m1 ++ m2 /\
      story queued_fact [] order m1 rs /\ step_done s m2 Panicked
  | OutOfFuel => False
  end.
Proof.
  intros Hr Hfuel Hruns Hq. pose proof (runs_run_queued cx _ _ _ _ _ Hr Hfuel Hruns Hq) as H.
  destruct o as [rs| |]; [|done|done]. destruct H as (new & order & -> & H). by exists order.
Qed.

(** ** Witness *)

Module QueueExamples.
Export StepExamples.

Definition step : StepDef := step_new 1%N "build".

(** A queue that hands out the step under the number 5, once. *)
Definition dequeued (h : history) : bool :=
  existsb (fun c => match call_act c with Dequeue => true | _ => false end) h.
Definition env (h : history) (a : act) : res a :=
  match a return res a with
  | Dequeue => if dequeued h then None else Some (5%N, step)
  | a => answers (fun _ _ => HandlerOk Null) (fun _ _ => JoinError "cancelled") h a
  end.
Lemma queue_env_legal : legal_oracle (fun _ _ => True) env.
Proof.
  intros h a. destruct a; try done;
    apply (answers_legal (fun _ _ => HandlerOk Null) (fun _ _ => JoinError "cancelled")); done.
Qed.

Definition run : history * outcome (list StepResult) := exec env [] (run_queued 2 [step] cx).

Lemma run_queue : queue_history empty_queue run.1 empty_queue.
Proof.
  cbn. exists {| pending := [(5%N, step)]; active := [] |}. split; [by eexists|].
  exists {| pending := []; active := [5%N] |}. split; [by exists []|].
  repeat (eexists; split; [reflexivity|]).
  exists empty_queue. split; [left; by exists [], []|done].
Qed.
End QueueExamples.

#[local] Existing Instances SerdeModel.serde_number SerdeModel.serde_lib
  StepExamples.ids StepExamples.release.

Lemma queued_run_witness :
  exists rs order, QueueExamples.run.2 = Returned rs /\ order ≡ₚ [QueueExamples.step] /\
    reports QueueExamples.run.1 = is_completed <$> rs.
Proof.
  assert (H := queued_run StepExamples.cx 2 [QueueExamples.step] QueueExamples.run.1 empty_queue
    QueueExamples.run.2).
  destruct H as (order & H1 & _ & H2 & _).
  - repeat constructor; cbn; unfold u32_max; lia.
  - cbn. lia.
  - apply (exec_runs (fun _ _ => True)), QueueExamples.queue_env_legal.
  - apply QueueExamples.run_queue.
  - eexists _, order. split; [reflexivity|]. by split.
Defined.
