(* ===== verification/Runner.v ===== *)
(** * The engine

    [rust-old/src/engine/runner.rs] and [EngineConfig] of
    [rust-old/src/engine/mod.rs]: a flow is validated, announced and recorded,
    its steps are run by the executor of its mode or through the queue,
    completed steps are rolled back after a failure, and the outcome is
    reported and recorded.  The build has the [majra] feature and not
    [hardware]. *)

From Stdlib Require Import ZArith Lia.
From stdpp Require Import base tactics option list strings gmap.
From S2P Require Import Prelude Json State Error Step Condition Flow Bus EngineResult.
From S2P Require Import Prog StepExec Sequential Hierarchical Pool Parallel Dag Footprint QueueRunner.

Open Scope Z_scope.

(** [EngineConfig].  Sinks, stores and trackers are reached through actions; the
    configuration says which are set. *)
Record EngineConfig : Type := mkEngineConfig {
  max_concurrency : nat;
  global_timeout_ms : option Z;
  cfg_storage : bool;
  cfg_metrics : bool;
  cfg_heartbeat : bool;
  cfg_queue : bool;
  cfg_step_type_metrics : bool;
  cfg_progress_sink : bool;
  cfg_execution_store : bool
}.

Definition config_default : EngineConfig := {|
  max_concurrency := 16;
  global_timeout_ms := None;
  cfg_storage := false;
  cfg_metrics := false;
  cfg_heartbeat := false;
  cfg_queue := false;
  cfg_step_type_metrics := false;
  cfg_progress_sink := false;
  cfg_execution_store := false
|}.

Record Engine : Type := mkEngine {
  engine_config : EngineConfig;
  rollback_handler : bool;
  engine_sink : bool
}.

Definition engine_new (c : EngineConfig) : Engine :=
  {| engine_config := c; rollback_handler := false; engine_sink := false |}.

Definition with_rollback_handler (e : Engine) : Engine :=
  {| engine_config := engine_config e; rollback_handler := true; engine_sink := engine_sink e |}.

Definition with_event_sink (e : Engine) : Engine :=
  {| engine_config := engine_config e; rollback_handler := rollback_handler e;
     engine_sink := true |}.

Definition set_config (e : Engine) (c : EngineConfig) : Engine :=
  {| engine_config := c; rollback_handler := rollback_handler e; engine_sink := engine_sink e |}.

Definition with_storage (e : Engine) : Engine :=
  let c := engine_config e in
  set_config e {| max_concurrency := max_concurrency c; global_timeout_ms := global_timeout_ms c;
    cfg_storage := true; cfg_metrics := cfg_metrics c; cfg_heartbeat := cfg_heartbeat c;
    cfg_queue := cfg_queue c; cfg_step_type_metrics := cfg_step_type_metrics c;
    cfg_progress_sink := cfg_progress_sink c; cfg_execution_store := cfg_execution_store c |}.

Definition with_metrics (e : Engine) : Engine :=
  let c := engine_config e in
  set_config e {| max_concurrency := max_concurrency c; global_timeout_ms := global_timeout_ms c;
    cfg_storage := cfg_storage c; cfg_metrics := true; cfg_heartbeat := cfg_heartbeat c;
    cfg_queue := cfg_queue c; cfg_step_type_metrics := cfg_step_type_metrics c;
    cfg_progress_sink := cfg_progress_sink c; cfg_execution_store := cfg_execution_store c |}.

Definition with_heartbeat (e : Engine) : Engine :=
  let c := engine_config e in
  set_config e {| max_concurrency := max_concurrency c; global_timeout_ms := global_timeout_ms c;
    cfg_storage := cfg_storage c; cfg_metrics := cfg_metrics c; cfg_heartbeat := true;
    cfg_queue := cfg_queue c; cfg_step_type_metrics := cfg_step_type_metrics c;
    cfg_progress_sink := cfg_progress_sink c; cfg_execution_store := cfg_execution_store c |}.

Definition with_queue (e : Engine) : Engine :=
  let c := engine_config e in
  set_config e {| max_concurrency := max_concurrency c; global_timeout_ms := global_timeout_ms c;
    cfg_storage := cfg_storage c; cfg_metrics := cfg_metrics c; cfg_heartbeat := cfg_heartbeat c;
    cfg_queue := true; cfg_step_type_metrics := cfg_step_type_metrics c;
    cfg_progress_sink := cfg_progress_sink c; cfg_execution_store := cfg_execution_store c |}.

Definition with_execution_store (e : Engine) : Engine :=
  let c := engine_config e in
  set_config e {| max_concurrency := max_concurrency c; global_timeout_ms := global_timeout_ms c;
    cfg_storage := cfg_storage c; cfg_metrics := cfg_metrics c; cfg_heartbeat := cfg_heartbeat c;
    cfg_queue := cfg_queue c; cfg_step_type_metrics := cfg_step_type_metrics c;
    cfg_progress_sink := cfg_progress_sink c; cfg_execution_store := true |}.

Definition with_progress_sink (e : Engine) : Engine :=
  let c := engine_config e in
  set_config e {| max_concurrency := max_concurrency c; global_timeout_ms := global_timeout_ms c;
    cfg_storage := cfg_storage c; cfg_metrics := cfg_metrics c; cfg_heartbeat := cfg_heartbeat c;
    cfg_queue := cfg_queue c; cfg_step_type_metrics := cfg_step_type_metrics c;
    cfg_progress_sink := true; cfg_execution_store := cfg_execution_store c |}.

Definition with_step_type_metrics (e : Engine) (set : bool) : Engine :=
  let c := engine_config e in
  set_config e {| max_concurrency := max_concurrency c; global_timeout_ms := global_timeout_ms c;
    cfg_storage := cfg_storage c; cfg_metrics := cfg_metrics c; cfg_heartbeat := cfg_heartbeat c;
    cfg_queue := cfg_queue c; cfg_step_type_metrics := set;
    cfg_progress_sink := cfg_progress_sink c; cfg_execution_store := cfg_execution_store c |}.

Section Runner.
Context `{JN : JsonNumber} `{JL : !JsonLib} `{UL : UuidLib} `{BP : BuildProfile}
  `{CL : ChronoLib}.

(** ** Rollback *)

(** The steps to roll back, in the order of the flow. *)
Definition to_roll_back (f : FlowDef) (rs : list StepResult) : list StepDef :=
  List.filter (fun s => rollbackable s &&
    existsb (fun r => bool_decide (step_id r = id s) &&
                      bool_decide (status r = StepStatus.Completed)) rs) (steps f).

Lemma elem_to_roll_back f rs s :
  s ∈ to_roll_back f rs <->
  s ∈ steps f /\ rollbackable s = true /\
  exists r, r ∈ rs /\ step_id r = id s /\ status r = StepStatus.Completed.
Proof.
  unfold to_roll_back. rewrite list_elem_of_In, filter_In, andb_true_iff, existsb_exists.
  setoid_rewrite <- list_elem_of_In. setoid_rewrite andb_true_iff.
  by setoid_rewrite bool_decide_eq_true.
Qed.

(** [for step in completed_steps.into_iter().rev()], on the reversed list. *)
Fixpoint rollback_loop (e : Engine) (l : list StepDef) (all_rolled_back : bool) : prog bool :=
  match l with
  | [] => ret all_rolled_back
  | s :: l =>
      let! _ := emit_now (engine_sink e) (fun now =>
        Event.step_rollback now (name s) (id_str s)) in
      let! out := perform (CallRollback s) in
      match out with
      | RollbackOk => rollback_loop e l all_rolled_back
      | RollbackErr _ => rollback_loop e l false
      | RollbackPanic => panic
      end
  end.

Definition rollback_completed_steps (e : Engine) (f : FlowDef) (rs : list StepResult)
  : prog bool :=
  if rollback_handler e then rollback_loop e (rev (to_roll_back f rs)) true else ret false.

(** [if has_failures && flow.rollback_on_failure { ... }] *)
Definition rollback_if_failed (e : Engine) (f : FlowDef) (rs : list StepResult) : prog bool :=
  if has_failures rs && rollback_on_failure f then rollback_completed_steps e f rs else ret false.

(** ** Heartbeat *)

Definition start_heartbeat (f : FlowDef) : prog unit :=
  let engine_id := uuid_to_string (flow_id f) in
  let! _ := perform (HeartbeatRegister engine_id (VObject (json_object
    [("flow", VString (flow_name f)); ("mode", VString (FlowMode.fmt (flow_mode f)));
     ("steps", VNumber (number_of_u64 (Z.of_nat (length (steps f)))))]))) in
  perform (HeartbeatStart engine_id).

(** [HeartbeatGuard::drop] *)
Definition drop_heartbeat (f : FlowDef) : prog unit :=
  let engine_id := uuid_to_string (flow_id f) in
  let! _ := perform (HeartbeatAbort engine_id) in
  perform (HeartbeatDeregister engine_id).

(** The rest of a run, [p], with the guard held. *)
Definition with_heartbeat_guard {A} (e : Engine) (f : FlowDef) (p : prog A) : prog A :=
  if cfg_heartbeat (engine_config e) then
    let! _ := start_heartbeat f in finally p (drop_heartbeat f)
  else p.

(** ** Reports and records *)

Definition save_record_if (store : bool) (r : ExecutionRecord) : prog unit :=
  if store then perform (SaveRecord r) else ret tt.

Definition announce (e : Engine) (f : FlowDef) : prog unit :=
  emit_now (engine_sink e) (fun now => Event.flow_started now (flow_name f)).

(** The terminal events and metrics; [status] is the text of the failure. *)
Definition report_outcome (e : Engine) (f : FlowDef) (failed rolled_back : bool)
    (status : string) (ms : Z) : prog unit :=
  if failed then
    let! _ := (if rolled_back then
                 emit_now (engine_sink e) (fun now => Event.flow_rolled_back now (flow_name f))
               else ret tt) in
    let! _ := emit_now (engine_sink e) (fun now => Event.flow_failed now (flow_name f) status) in
    metric_run_failed (cfg_metrics (engine_config e)) (flow_name f) ms
  else
    let! _ := emit_now (engine_sink e) (fun now => Event.flow_completed now (flow_name f) ms) in
    metric_run_completed (cfg_metrics (engine_config e)) (flow_name f) ms.

Definition final_state (failed rolled_back : bool) : WorkflowState.t :=
  if rolled_back then WorkflowState.RolledBack
  else if failed then WorkflowState.Failed
  else WorkflowState.Completed.

(** The end of a run, from the results of its steps: [finalize], which [run]
    repeats. *)
Definition finalize (e : Engine) (f : FlowDef) (rs : list StepResult) (start : Z)
    (started : string) (exec_id : string) : prog (result FlowResult SzalError) :=
  let! ms := elapsed_ms start in
  let failed := has_failures rs in
  let! rolled := rollback_if_failed e f rs in
  let status := if failed then (if rolled then "rolled_back" else "failed") else "success" in
  let! _ := report_outcome e f failed rolled status ms in
  let fr := {| result_flow := flow_name f; result_steps := rs; total_duration_ms := ms;
               success := negb failed; rolled_back := rolled |} in
  if cfg_execution_store (engine_config e) then
    let! now := perform UtcNow in
    let! _ := perform (SaveRecord
      {| execution_id := exec_id; record_flow := flow_name f;
         record_state := final_state failed rolled; record_result := Some fr;
         started_at := started; finished_at := Some (rfc3339 now) |}) in
    ret (Ok fr)
  else ret (Ok fr).

(** ** Running a flow *)

Definition flow_timeout (e : Engine) (f : FlowDef) : Z :=
  match global_timeout_ms (engine_config e) with
  | Some ms => ms
  | None => default u64_max (flow_timeout_ms f)
  end.

Definition exec_ctx (e : Engine) (f : FlowDef) : ExecCtx :=
  {| event_sink := engine_sink e; ctx_flow := flow_name f; ctx_flow_id := flow_id f;
     metrics := cfg_metrics (engine_config e);
     step_type_metrics := cfg_step_type_metrics (engine_config e) |}.

(** [match flow.mode]; the concurrency limit is the pool's. *)
Definition run_mode (e : Engine) (f : FlowDef) (start : Z) (token : bool)
  : prog (list StepResult) :=
  match flow_mode f with
  | FlowMode.Sequential =>
      run_sequential (steps f) (flow_timeout e f) start token (exec_ctx e f)
  | FlowMode.Parallel => run_parallel (steps f) (flow_timeout e f) start token (exec_ctx e f)
  | FlowMode.Dag => run_dag (steps f) (flow_timeout e f) start token (exec_ctx e f)
  | FlowMode.Hierarchical =>
      run_hierarchical (steps f) (flow_timeout e f) start token (exec_ctx e f)
  end.

(** The queue-backed path, which returns early. *)
Definition run_through_queue (fuel : nat) (e : Engine) (f : FlowDef) (start : Z)
  : prog (result FlowResult SzalError) :=
  let! rs := run_queued fuel (steps f) (exec_ctx e f) in
  let! ms := elapsed_ms start in
  let failed := has_failures rs in
  let! rolled := rollback_if_failed e f rs in
  let! _ := report_outcome e f failed rolled "failed" ms in
  ret (Ok {| result_flow := flow_name f; result_steps := rs; total_duration_ms := ms;
             success := negb failed; rolled_back := rolled |}).

(** [fuel] bounds the worker loop of the queue-backed path. *)
Definition run (fuel : nat) (e : Engine) (f : FlowDef) : prog (result FlowResult SzalError) :=
  match validate f with
  | Err er => ret (Err er)
  | Ok _ =>
      let! _ := announce e f in
      let exec_id := uuid_to_string (flow_id f) in
      let! now := perform UtcNow in
      let started := rfc3339 now in
      let! _ := save_record_if (cfg_execution_store (engine_config e))
        {| execution_id := exec_id; record_flow := flow_name f;
           record_state := WorkflowState.Running; record_result := None;
           started_at := started; finished_at := None |} in
      let! _ := metric_run_started (cfg_metrics (engine_config e)) (flow_name f) in
      with_heartbeat_guard e f (
        let! start := perform InstantNow in
        if cfg_queue (engine_config e) then run_through_queue fuel e f start
        else
          let! rs := run_mode e f start false in
          finalize e f rs start started exec_id)
  end.

(** [r.status == Skipped && r.error.as_deref() == Some("cancelled")] *)
Definition skipped_by_token (r : StepResult) : bool :=
  bool_decide (status r = StepStatus.Skipped) && bool_decide (error r = Some "cancelled").

Definition run_with_cancellation (e : Engine) (f : FlowDef)
  : prog (result FlowResult SzalError) :=
  match validate f with
  | Err er => ret (Err er)
  | Ok _ =>
      let! _ := announce e f in
      let! _ := metric_run_started (cfg_metrics (engine_config e)) (flow_name f) in
      with_heartbeat_guard e f (
        let! start := perform InstantNow in
        let! rs := run_mode e f start true in
        let! ms := elapsed_ms start in
        let failed := has_failures rs in
        let! token := perform IsCancelled in
        let was_cancelled := token && existsb skipped_by_token rs in
        let! rolled := rollback_if_failed e f rs in
        let success := negb failed && negb was_cancelled in
        let status := if was_cancelled then "cancelled"
                      else if failed then (if rolled then "rolled_back" else "failed")
                      else "success" in
        let! _ := report_outcome e f (negb success) rolled status ms in
        ret (Ok {| result_flow := flow_name f; result_steps := rs; total_duration_ms := ms;
                   success := success; rolled_back := rolled |}))
  end.
End Runner.

(** ** The frame of a run

    The calls only the engine itself makes, in order; what the executors do is
    left out, and events are seen without their time. *)

Section Frames.
Context `{JN : JsonNumber}.

Inductive beat : Type := BRegister | BStart | BAbort | BDeregister.

Inductive frame : Type :=
| FEvent (v : view)
| FMetric (m : metric)
| FSave (r : ExecutionRecord)
| FRollback (s : StepDef) (out : rollback_outcome)
| FBeat (b : beat) (engine : string).

Definition frame_of (c : call) : option frame :=
  match c with
  | Call a r =>
      match a return res a -> option frame with
      | Emit e => fun _ =>
          if engine_event (Event.event_type e) then Some (FEvent (view_of e)) else None
      | Metric m => fun _ =>
          match m with StepStarted _ _ | StepFinished _ _ _ _ => None | m => Some (FMetric m) end
      | SaveRecord x => fun _ => Some (FSave x)
      | CallRollback s => fun out => Some (FRollback s out)
      | HeartbeatRegister i _ => fun _ => Some (FBeat BRegister i)
      | HeartbeatStart i => fun _ => Some (FBeat BStart i)
      | HeartbeatAbort i => fun _ => Some (FBeat BAbort i)
      | HeartbeatDeregister i => fun _ => Some (FBeat BDeregister i)
      | _ => fun _ => None
      end r
  end.
Definition frames (h : history) : list frame := omap frame_of h.

Lemma frames_app h k : frames (h ++ k) = frames h ++ frames k.
Proof. apply omap_app. Qed.

Lemma frames_executor h : Forall (fun c => executor_act (call_act c)) h -> frames h = [].
Proof.
  unfold frames. induction 1 as [|[a r] h Ha _ IH]; [done|]. cbn. rewrite IH.
  destruct a as [| |e| | | |[]| | | | | | | | | | | | | | | | | | | | | | | | | |]; try done. cbn in *. by rewrite Ha.
Qed.
End Frames.

Section Shows.
Context `{JN : JsonNumber} `{JL : !JsonLib}.

(** Every complete run of [p] extends its history by frames, and ends, as [R]
    says. *)
Definition shows {A} (p : prog A) (R : list frame -> outcome A -> Prop) : Prop :=
  forall h h' o, runs p h h' o -> exists new, h' = h ++ new /\ R (frames new) o.

Lemma shows_bind {A B} (p : prog A) (k : A -> prog B) R :
  shows p (fun m o =>
    match o with
    | Returned x => shows (k x) (fun m' o' => R (m ++ m') o')
    | Panicked => R m Panicked
    | OutOfFuel => R m OutOfFuel
    end) ->
  shows (bind p k) R.
Proof.
  intros Hp h h' o [(h1 & x & H1 & H2)|[[H1 ->]|[H1 ->]]]%runs_bind.
  - destruct (Hp _ _ _ H1) as (n1 & -> & Hk). destruct (Hk _ _ _ H2) as (n2 & -> & HR).
    exists (n1 ++ n2). rewrite frames_app, app_assoc. done.
  - apply (Hp _ _ _ H1).
  - apply (Hp _ _ _ H1).
Qed.

Lemma shows_mono {A} (p : prog A) (R R' : list frame -> outcome A -> Prop) :
  (forall m o, R m o -> R' m o) -> shows p R -> shows p R'.
Proof. intros HR Hp h h' o H. destruct (Hp _ _ _ H) as (n & -> & Hn). eauto. Qed.

Lemma shows_done {A} (o : outcome A) (R : list frame -> outcome A -> Prop) :
  R [] o -> shows (Done o) R.
Proof. intros HR h h' o' [-> ->]. exists []. by rewrite app_nil_r. Qed.

Lemma shows_perform a (R : list frame -> outcome (res a) -> Prop) :
  (forall r, R (frames [Call a r]) (Returned r)) -> shows (perform a) R.
Proof. intros HR h h' o (r & _ & -> & ->). exists [Call a r]. auto. Qed.

Lemma shows_executor {A} (p : prog A) (R : list frame -> outcome A -> Prop) :
  only executor_act p -> (forall h h' o, runs p h h' o -> R [] o) -> shows p R.
Proof.
  intros Hp HR h h' o H. destruct (runs_only _ _ _ _ _ Hp H) as (n & -> & Hn).
  exists n. rewrite frames_executor by done. eauto.
Qed.

Lemma shows_finally {A} (p : prog A) (c : prog unit) (m' : list frame) R :
  shows c (fun n o => n = m' /\ o = Returned tt) ->
  shows p (fun m o => R (m ++ m') o) -> shows (finally p c) R.
Proof.
  intros Hc Hp h h' o (h1 & o1 & H1 & H2)%runs_finally.
  destruct (Hp _ _ _ H1) as (n1 & -> & HR).
  apply runs_bind in H2 as [(h2 & [] & H2 & [-> ->])|[[H2 ->]|[H2 ->]]];
    destruct (Hc _ _ _ H2) as (n2 & -> & Hn2 & ?); [|done..].
  exists (n1 ++ n2). rewrite frames_app, app_assoc, Hn2. done.
Qed.

(** ** The helpers *)

Definition ftold (sink : bool) (v : view) : list frame := if sink then [FEvent v] else [].
Definition fmetric (sink : bool) (m : metric) : list frame := if sink then [FMetric m] else [].

Lemma shows_emit_now b mk (R : list frame -> outcome unit -> Prop) :
  (forall now, view_of (mk now) = view_of (mk 0)) ->
  (forall now, engine_event (Event.event_type (mk now)) = true) ->
  R (ftold b (view_of (mk 0))) (Returned tt) -> shows (emit_now b mk) R.
Proof.
  intros Hv He HR. apply shows_bind, shows_perform. intros now. unfold emit. destruct b.
  - refine (shows_perform (Emit (mk now)) _ _). intros []. cbn in *. by rewrite He, Hv.
  - by apply shows_done.
Qed.

Lemma shows_elapsed st (R : list frame -> outcome Z -> Prop) :
  (forall ms, in_u64 ms -> R [] (Returned ms)) -> shows (elapsed_ms st) R.
Proof.
  intros HR. apply shows_bind, shows_perform. intros now. apply shows_done, HR.
  unfold in_u64, u64_max, millis.
  pose proof (Z.mod_pos_bound (Z.max 0 (now - st) / 1000000) (2 ^ 64)). lia.
Qed.
End Shows.

Arguments shows : simpl never.

Ltac shows_step :=
  lazymatch goal with
  | |- shows (bind _ _) _ => apply shows_bind
  | |- shows (perform ?a) ?R => refine (shows_perform a R _); intros ?
  | |- shows (emit_now _ _) _ => apply shows_emit_now; [reflexivity|reflexivity|]
  | |- shows (elapsed_ms _) _ => apply shows_elapsed; intros ? ?
  | |- shows (ret _) _ => apply shows_done
  | |- shows (Done _) _ => apply shows_done
  | |- shows panic _ => apply shows_done
  end; cbv beta iota; cbn [frames omap list_omap frame_of app].

Section RunStory.
Context `{JN : JsonNumber} `{JL : !JsonLib} `{UL : UuidLib} `{BP : BuildProfile}
  `{CL : ChronoLib}.
Context (e : Engine) (f : FlowDef).

Definition flow_view (ty : EventType.t) (err : option string) : view :=
  {| view_type := ty; view_flow := Some (flow_name f); view_step := None;
     view_attempt := None; view_error := err |}.

(** Rollback handlers called one after the other, each after its event. *)
Definition rollback_frames (l : list (StepDef * rollback_outcome)) : list frame :=
  concat ((fun c => ftold (engine_sink e) (step_view EventType.StepRollback c.1 None None) ++
                    [FRollback c.1 c.2]) <$> l).

Definition rollback_wanted (rs : list StepResult) : bool :=
  has_failures rs && rollback_on_failure f && rollback_handler e.

Definition rollback_plan (rs : list StepResult) : list StepDef :=
  if rollback_wanted rs then rev (to_roll_back f rs) else [].

(** The handler was called for every step of the plan, in order, and returned;
    the answer tells whether a rollback was wanted and every call succeeded.  A
    handler that panics ends it. *)
Definition rolled (wanted : bool) (plan : list StepDef)
    (l : list (StepDef * rollback_outcome)) (o : outcome bool) : Prop :=
  match o with
  | Returned b =>
      l.*1 = plan /\ (RollbackPanic ∉ l.*2) /\
      (b = true <-> wanted = true /\ Forall (fun c => c.2 = RollbackOk) l)
  | Panicked => exists init s rest,
      l = init ++ [(s, RollbackPanic)] /\ l.*1 ++ rest = plan /\ (RollbackPanic ∉ init.*2)
  | OutOfFuel => False
  end.

Lemma rollback_frames_cons s out l :
  rollback_frames ((s, out) :: l) =
    ftold (engine_sink e) (step_view EventType.StepRollback s None None) ++
    FRollback s out :: rollback_frames l.
Proof. unfold rollback_frames. cbn. by rewrite <- app_assoc. Qed.

Lemma rolled_cons wanted wanted' s out plan l o :
  out <> RollbackPanic -> (wanted' = true <-> wanted = true /\ out = RollbackOk) ->
  rolled wanted' plan l o -> rolled wanted (s :: plan) ((s, out) :: l) o.
Proof.
  intros Hout Hb. destruct o as [b| |]; cbn; [| |done].
  - intros (-> & Hp & Hiff). rewrite Forall_cons. cbn. split_and!; [done|set_solver|naive_solver].
  - intros (init & s' & rest & -> & <- & Hp).
    exists ((s, out) :: init), s', rest. split_and!; [done|done|set_solver].
Qed.

Lemma shows_rollback_loop plan : forall wanted,
  shows (rollback_loop e plan wanted) (fun m o =>
    exists l, m = rollback_frames l /\ rolled wanted plan l o).
Proof.
  induction plan as [|s plan IH]; intros b; cbn [rollback_loop].
  { shows_step. exists []. cbn. split_and!; [done|done|set_solver|naive_solver]. }
  do 4 shows_step. destruct r as [|err|].
  - eapply shows_mono; [|apply IH]. intros m o (l & -> & Ho). exists ((s, RollbackOk) :: l).
    rewrite rollback_frames_cons. split; [done|]. eapply rolled_cons; [done| |done]. naive_solver.
  - eapply shows_mono; [|apply IH]. intros m o (l & -> & Ho). exists ((s, RollbackErr err) :: l).
    rewrite rollback_frames_cons. split; [done|]. eapply rolled_cons; [done| |done]. naive_solver.
  - shows_step. exists [(s, RollbackPanic)]. rewrite rollback_frames_cons.
    split; [done|]. exists [], s, plan. split_and!; [done|done|set_solver].
Qed.

Lemma shows_rollback rs :
  shows (rollback_if_failed e f rs) (fun m o =>
    exists l, m = rollback_frames l /\ rolled (rollback_wanted rs) (rollback_plan rs) l o).
Proof.
  unfold rollback_if_failed, rollback_completed_steps, rollback_plan, rollback_wanted.
  destruct (has_failures rs && rollback_on_failure f); cbn [andb].
  - destruct (rollback_handler e); [apply shows_rollback_loop|].
    shows_step. exists []. cbn. split_and!; [done|done|set_solver|naive_solver].
  - shows_step. exists []. cbn. split_and!; [done|done|set_solver|naive_solver].
Qed.

(** *** The frames of the parts of a run *)

Definition outcome_frames (failed rolled : bool) (status : string) (ms : Z) : list frame :=
  if failed then
    (if rolled then ftold (engine_sink e) (flow_view EventType.FlowRolledBack None) else []) ++
    ftold (engine_sink e) (flow_view EventType.FlowFailed (Some status)) ++
    fmetric (cfg_metrics (engine_config e)) (RunFailed (flow_name f) ms)
  else
    ftold (engine_sink e) (flow_view EventType.FlowCompleted None) ++
    fmetric (cfg_metrics (engine_config e)) (RunCompleted (flow_name f) ms).

Lemma shows_report failed rolled status ms :
  shows (report_outcome e f failed rolled status ms)
    (fun m o => m = outcome_frames failed rolled status ms /\ o = Returned tt).
Proof.
  unfold report_outcome, outcome_frames, metric_run_failed, metric_run_completed, fmetric.
  destruct failed; [destruct rolled|];
    repeat shows_step; destruct (cfg_metrics (engine_config e)); shows_step;
    rewrite <- ?app_assoc; try (destruct r; cbn); split; by rewrite ?app_nil_r.
Qed.

(** The record of a run that is under way, and of one that ended. *)
Definition running_record (started : string) : ExecutionRecord :=
  {| execution_id := uuid_to_string (flow_id f); record_flow := flow_name f;
     record_state := WorkflowState.Running; record_result := None;
     started_at := started; finished_at := None |}.
Definition final_record (started finished : string) (fr : FlowResult) : ExecutionRecord :=
  {| execution_id := uuid_to_string (flow_id f); record_flow := flow_name f;
     record_state := final_state (negb (success fr)) (rolled_back fr);
     record_result := Some fr; started_at := started; finished_at := Some finished |}.

Definition saved (store : bool) (r : ExecutionRecord) : list frame :=
  if store then [FSave r] else [].

Definition opening_frames (store : bool) (started : string) : list frame :=
  ftold (engine_sink e) (flow_view EventType.FlowStarted None) ++
  saved store (running_record started) ++
  fmetric (cfg_metrics (engine_config e)) (RunStarted (flow_name f)).

Definition beats (l : list beat) : list frame :=
  if cfg_heartbeat (engine_config e)
  then (fun b => FBeat b (uuid_to_string (flow_id f))) <$> l else [].

(** A result that says what the run did. *)
Definition result_ok (fr : FlowResult) : Prop :=
  result_flow fr = flow_name f /\ in_u64 (total_duration_ms fr) /\
  success fr = negb (has_failures (result_steps fr)).

Definition failure_text (rolled : bool) : string := if rolled then "rolled_back" else "failed".

(** The end of a run whose steps gave [rs]: rollback, reports, and with a store
    the final record. *)
Definition ending (store : bool) (text : bool -> string) (started : string)
    (rs : list StepResult) (m : list frame) (o : outcome (result FlowResult SzalError)) : Prop :=
  exists l,
    match o with
    | Returned (Ok fr) => exists finished,
        result_steps fr = rs /\ result_ok fr /\
        rolled (rollback_wanted rs) (rollback_plan rs) l (Returned (rolled_back fr)) /\
        m = rollback_frames l ++
            outcome_frames (has_failures rs) (rolled_back fr) (text (rolled_back fr))
              (total_duration_ms fr) ++
            saved store (final_record started finished fr)
    | Returned (Err _) => False
    | Panicked => rolled (rollback_wanted rs) (rollback_plan rs) l Panicked /\
                  m = rollback_frames l
    | OutOfFuel => False
    end.

Lemma shows_finalize rs start started :
  shows (finalize e f rs start started (uuid_to_string (flow_id f)))
    (ending (cfg_execution_store (engine_config e)) failure_text started rs).
Proof.
  unfold finalize. do 3 shows_step. eapply shows_mono; [|apply shows_rollback].
  intros m [b| |] (l & -> & Hl); [| |done]; cbv beta iota zeta; [|by exists l].
  shows_step. eapply shows_mono; [|apply shows_report]. intros m' o [-> ->]. cbv beta iota.
  set (fr := {| result_flow := _ |}).
  assert (forall finished m'', m'' = saved (cfg_execution_store (engine_config e))
            (final_record started finished fr) ->
    ending (cfg_execution_store (engine_config e)) failure_text started rs
      (rollback_frames l ++ outcome_frames (has_failures rs) b
         (if has_failures rs then if b then "rolled_back" else "failed" else "success") ms ++ m'')
      (Returned (Ok fr))) as Hend.
  { intros finished m'' ->. exists l, finished. split; [done|]. split; [done|]. split; [done|].
    unfold outcome_frames. by destruct (has_failures rs). }
  destruct (cfg_execution_store (engine_config e)).
  - do 5 shows_step. eapply Hend. unfold saved, final_record. cbn. rewrite negb_involutive. done.
  - shows_step. by apply (Hend "").
Qed.

(** *** Complete runs *)

(** What runs the steps. *)
Definition executor (fuel : nat) (start : Z) : prog (list StepResult) :=
  if cfg_queue (engine_config e) then run_queued fuel (steps f) (exec_ctx e f)
  else run_mode e f start false.

Lemma only_run_mode start token : only executor_act (run_mode e f start token).
Proof. unfold run_mode. destruct (flow_mode f); auto with szal. Qed.

Lemma shows_through_queue fuel start started R :
  (forall h h' rs, runs (run_queued fuel (steps f) (exec_ctx e f)) h h' (Returned rs) ->
     forall m o, ending false (fun _ => "failed") started rs m o -> R m o) ->
  (forall h h', runs (run_queued fuel (steps f) (exec_ctx e f)) h h' Panicked -> R [] Panicked) ->
  (forall h h', runs (run_queued fuel (steps f) (exec_ctx e f)) h h' OutOfFuel -> R [] OutOfFuel) ->
  shows (run_through_queue fuel e f start) R.
Proof.
  intros HR HP HO. unfold run_through_queue. shows_step.
  apply shows_executor; [apply only_run_queued|]. intros h h' [rs| |] Hruns; [|eauto..].
  do 3 shows_step. eapply shows_mono; [|apply shows_rollback].
  intros m [b| |] (l & -> & Hl); [| |done]; cbv beta iota zeta; [|by eapply HR; [|exists l]].
  shows_step. eapply shows_mono; [|apply shows_report]. intros m' o [-> ->]. shows_step.
  eapply HR; [done|]. exists l, "". cbn. do 3 (split; [done|]). done.
Qed.

Definition run_story (fuel : nat) (m : list frame) (o : outcome (result FlowResult SzalError))
  : Prop :=
  exists started m' start h h' out,
    m = opening_frames (cfg_execution_store (engine_config e)) started ++
        beats [BRegister; BStart] ++ m' ++ beats [BAbort; BDeregister] /\
    runs (executor fuel start) h h' out /\
    match out with
    | Returned rs =>
        if cfg_queue (engine_config e) then ending false (fun _ => "failed") started rs m' o
        else ending (cfg_execution_store (engine_config e)) failure_text started rs m' o
    | Panicked => m' = [] /\ o = Panicked
    | OutOfFuel => m' = [] /\ o = OutOfFuel
    end.

Lemma shows_drop_heartbeat :
  shows (drop_heartbeat f) (fun m o =>
    m = (fun b => FBeat b (uuid_to_string (flow_id f))) <$> [BAbort; BDeregister] /\
    o = Returned tt).
Proof. unfold drop_heartbeat. cbv zeta. do 3 shows_step. by destruct r0. Qed.

Lemma shows_guard {A} (p : prog A) R :
  shows p (fun m o => R (beats [BRegister; BStart] ++ m ++ beats [BAbort; BDeregister]) o) ->
  shows (with_heartbeat_guard e f p) R.
Proof.
  intros H. unfold with_heartbeat_guard, beats in *.
  destruct (cfg_heartbeat (engine_config e)).
  - unfold start_heartbeat. cbv zeta. do 4 shows_step.
    eapply shows_finally; [apply shows_drop_heartbeat|exact H].
  - eapply shows_mono; [|exact H]. intros m o. cbn. by rewrite app_nil_r.
Qed.

(** The steps under the guard. *)
Lemma shows_steps fuel start started R :
  (forall h h' out m o, runs (executor fuel start) h h' out ->
     match out with
     | Returned rs =>
         if cfg_queue (engine_config e) then ending false (fun _ => "failed") started rs m o
         else ending (cfg_execution_store (engine_config e)) failure_text started rs m o
     | Panicked => m = [] /\ o = Panicked
     | OutOfFuel => m = [] /\ o = OutOfFuel
     end -> R m o) ->
  shows (if cfg_queue (engine_config e) then run_through_queue fuel e f start
         else let! rs := run_mode e f start false in
              finalize e f rs start started (uuid_to_string (flow_id f))) R.
Proof.
  intros HR. unfold executor in HR. destruct (cfg_queue (engine_config e)).
  - eapply shows_through_queue; intros h h'; [intros rs Hruns m o|intros Hruns..];
      intros; by eapply (HR _ _ _ _ _ Hruns).
  - shows_step. apply shows_executor; [apply only_run_mode|]. intros h h' [rs| |] Hruns.
    + eapply shows_mono; [|apply shows_finalize]. intros m o Ho. by eapply (HR _ _ _ _ _ Hruns).
    + by eapply (HR _ _ _ _ _ Hruns).
    + by eapply (HR _ _ _ _ _ Hruns).
Qed.

Lemma shows_save_if b r :
  shows (save_record_if b r) (fun m o => m = saved b r /\ o = Returned tt).
Proof. unfold save_record_if. destruct b; shows_step; [by destruct r0|done]. Qed.
Lemma shows_run_started b n :
  shows (metric_run_started b n) (fun m o => m = fmetric b (RunStarted n) /\ o = Returned tt).
Proof. unfold metric_run_started. destruct b; shows_step; [by destruct r|done]. Qed.

Lemma shows_run fuel :
  validate f = Ok tt -> shows (run fuel e f) (run_story fuel).
Proof.
  intros Hv. unfold run. rewrite Hv. cbv zeta. unfold announce. do 4 shows_step.
  rename r into now.
  shows_step. eapply shows_mono; [|apply shows_save_if]. intros m1 o [-> ->]. cbv beta iota.
  shows_step. eapply shows_mono; [|apply shows_run_started]. intros m2 o [-> ->]. cbv beta iota.
  apply shows_guard. do 2 shows_step. apply shows_steps.
  intros h h' out m o Hruns Hout. exists (rfc3339 now), m, r, h, h', out.
  split; [|by split]. unfold opening_frames. by rewrite <- !app_assoc.
Qed.

Lemma shows_invalid fuel er :
  validate f = Err er -> run fuel e f = ret (Err er).
Proof. intros Hv. unfold run. by rewrite Hv. Qed.

(** *** Runs with a cancellation token *)

Definition cancel_text (was_cancelled failed rolled : bool) : string :=
  if was_cancelled then "cancelled" else if failed then failure_text rolled else "success".

Definition cancel_ending (rs : list StepResult) (m : list frame)
    (o : outcome (result FlowResult SzalError)) : Prop :=
  exists l token,
    let was_cancelled := token && existsb skipped_by_token rs in
    match o with
    | Returned (Ok fr) =>
        result_steps fr = rs /\ result_flow fr = flow_name f /\ in_u64 (total_duration_ms fr) /\
        success fr = negb (has_failures rs) && negb was_cancelled /\
        rolled (rollback_wanted rs) (rollback_plan rs) l (Returned (rolled_back fr)) /\
        m = rollback_frames l ++
            outcome_frames (negb (success fr)) (rolled_back fr)
              (cancel_text was_cancelled (has_failures rs) (rolled_back fr))
              (total_duration_ms fr)
    | Returned (Err _) => False
    | Panicked => rolled (rollback_wanted rs) (rollback_plan rs) l Panicked /\
                  m = rollback_frames l
    | OutOfFuel => False
    end.

Definition cancel_story (m : list frame) (o : outcome (result FlowResult SzalError)) : Prop :=
  exists m' start h h' out,
    m = opening_frames false "" ++ beats [BRegister; BStart] ++ m' ++
        beats [BAbort; BDeregister] /\
    runs (run_mode e f start true) h h' out /\
    match out with
    | Returned rs => cancel_ending rs m' o
    | Panicked => m' = [] /\ o = Panicked
    | OutOfFuel => m' = [] /\ o = OutOfFuel
    end.

Lemma shows_run_with_cancellation :
  validate f = Ok tt -> shows (run_with_cancellation e f) cancel_story.
Proof.
  intros Hv. unfold run_with_cancellation. rewrite Hv. cbv zeta. unfold announce. do 2 shows_step.
  shows_step. eapply shows_mono; [|apply shows_run_started]. intros m2 o [-> ->]. cbv beta iota.
  apply shows_guard. do 2 shows_step. shows_step.
  apply shows_executor; [apply only_run_mode|]. intros h h' out Hruns.
  assert (forall m o,
    match out with
    | Returned rs => cancel_ending rs m o
    | Panicked => m = [] /\ o = Panicked
    | OutOfFuel => m = [] /\ o = OutOfFuel
    end -> cancel_story
      (ftold (engine_sink e) (view_of (Event.flow_started 0 (flow_name f))) ++
       fmetric (cfg_metrics (engine_config e)) (RunStarted (flow_name f)) ++
       beats [BRegister; BStart] ++ m ++ beats [BAbort; BDeregister]) o) as Hend.
  { intros m o Ho. exists m, r, h, h', out. split; [|by split].
    unfold opening_frames. cbn [saved app]. by rewrite <- !app_assoc. }
  destruct out as [rs| |]; [|by apply Hend..].
  do 4 shows_step. rename r0 into token. shows_step.
  eapply shows_mono; [|apply shows_rollback].
  intros m [b| |] (l & -> & Hl); [| |done]; cbv beta iota zeta;
    [|apply Hend; by exists l, token].
  shows_step. eapply shows_mono; [|apply shows_report]. intros m' o [-> ->]. shows_step.
  apply Hend. exists l, token. cbn. do 5 (split; [done|]). by rewrite app_nil_r.
Qed.
End RunStory.

(** ** Reading parts of a frame *)

Section Projections.
Context `{JN : JsonNumber} `{JL : !JsonLib} `{UL : UuidLib} `{BP : BuildProfile}
  `{CL : ChronoLib}.
Context (e : Engine) (f : FlowDef).

Definition beats_of (m : list frame) : list (beat * string) :=
  omap (fun x => match x with FBeat b i => Some (b, i) | _ => None end) m.
Definition saves_of (m : list frame) : list ExecutionRecord :=
  omap (fun x => match x with FSave r => Some r | _ => None end) m.
Definition rollbacks_of (m : list frame) : list (StepDef * rollback_outcome) :=
  omap (fun x => match x with FRollback s out => Some (s, out) | _ => None end) m.

Section Projection.
Context {B} (g : frame -> option B).
Hypothesis g_event : forall v, g (FEvent v) = None.
Hypothesis g_metric : forall m, g (FMetric m) = None.

Lemma proj_ftold b v : omap g (ftold b v) = [].
Proof. destruct b; cbn; by rewrite ?g_event. Qed.
Lemma proj_fmetric b m : omap g (fmetric b m) = [].
Proof. destruct b; cbn; by rewrite ?g_metric. Qed.
Lemma proj_outcome failed rolled st ms : omap g (outcome_frames e f failed rolled st ms) = [].
Proof.
  unfold outcome_frames. destruct failed, rolled; by rewrite !omap_app, !proj_ftold, proj_fmetric.
Qed.
Lemma proj_opening store st :
  omap g (opening_frames e f store st) = omap g (saved store (running_record f st)).
Proof.
  unfold opening_frames. by rewrite !omap_app, proj_ftold, proj_fmetric, app_nil_r.
Qed.
Lemma proj_rollback l :
  omap g (rollback_frames e l) = omap (fun c => g (FRollback c.1 c.2)) l.
Proof.
  induction l as [|[s out] l IH]; [done|]. rewrite rollback_frames_cons, omap_app, proj_ftold.
  cbn. rewrite IH. done.
Qed.
End Projection.

Lemma omap_none {A B} (l : list A) : omap (fun _ => @None B) l = [].
Proof. by induction l. Qed.

Lemma beats_ending store text st rs m o : ending e f store text st rs m o -> beats_of m = [].
Proof.
  intros (l & H). unfold beats_of. destruct o as [[fr|]| |]; [|done| |done].
  - destruct H as (fin & _ & _ & _ & ->).
    rewrite !omap_app, proj_rollback, proj_outcome, omap_none by done. by destruct store.
  - destruct H as (_ & ->). by rewrite proj_rollback, omap_none by done.
Qed.

Lemma beats_cancel_ending rs m o : cancel_ending e f rs m o -> beats_of m = [].
Proof.
  intros (l & token & H). unfold beats_of. cbv zeta in H. destruct o as [[fr|]| |]; [|done| |done].
  - destruct H as (_ & _ & _ & _ & _ & ->).
    by rewrite !omap_app, proj_rollback, proj_outcome, omap_none by done.
  - destruct H as (_ & ->). by rewrite proj_rollback, omap_none by done.
Qed.

Lemma beats_guarded store st m :
  beats_of m = [] ->
  beats_of (opening_frames e f store st ++ beats e f [BRegister; BStart] ++ m ++
            beats e f [BAbort; BDeregister]) =
    if cfg_heartbeat (engine_config e)
    then (fun b => (b, uuid_to_string (flow_id f))) <$> [BRegister; BStart; BAbort; BDeregister]
    else [].
Proof.
  intros Hm. unfold beats_of in *. rewrite !omap_app, proj_opening, Hm by done.
  unfold beats. by destruct store, (cfg_heartbeat (engine_config e)).
Qed.

Lemma saves_ending store text st rs m o :
  ending e f store text st rs m o ->
  (saves_of m = [] /\ forall r, o <> Returned r) \/
  exists fin fr, o = Returned (Ok fr) /\ result_steps fr = rs /\
    saves_of m = if store then [final_record f st fin fr] else [].
Proof.
  intros (l & H). unfold saves_of. destruct o as [[fr|]| |]; [|done| |done].
  - destruct H as (fin & Hrs & _ & _ & ->). right. exists fin, fr. do 2 (split; [done|]).
    rewrite !omap_app, proj_rollback, proj_outcome, omap_none by done. by destruct store.
  - left. destruct H as (_ & ->). by rewrite proj_rollback, omap_none by done.
Qed.

Lemma rollbacks_ending store text st rs m o :
  ending e f store text st rs m o ->
  exists l, rollbacks_of m = l /\
    match o with
    | Returned (Ok fr) => result_steps fr = rs /\
        rolled (rollback_wanted e f rs) (rollback_plan e f rs) l (Returned (rolled_back fr))
    | Returned (Err _) => False
    | Panicked => rolled (rollback_wanted e f rs) (rollback_plan e f rs) l Panicked
    | OutOfFuel => False
    end.
Proof.
  assert (forall l : list (StepDef * rollback_outcome),
            omap (fun c => Some (c.1, c.2)) l = l) as Hid
    by (induction l as [|[] l IH]; cbn; [done|by rewrite IH]).
  intros (l & H). exists l. unfold rollbacks_of. destruct o as [[fr|]| |]; [|done| |done].
  - destruct H as (fin & Hrs & _ & Hl & ->). split; [|by split].
    rewrite !omap_app, proj_rollback, proj_outcome, Hid by done.
    by destruct store; cbn; rewrite app_nil_r.
  - destruct H as (Hl & ->). split; [|done]. by rewrite proj_rollback by done.
Qed.
End Projections.

(** ** Properties *)

(** C2. A run of a valid flow, whatever handlers, clocks, queue and tasks do: it
    announces the flow, records it as running, counts it and starts the
    heartbeat; the executor of the flow's mode (or the queue's worker) runs the
    steps; if a step failed, the flow wants rollback and there is a handler, it
    is called on every completed step that can be rolled back, last step first,
    each call after its event; then the terminal events and metrics, the final
    record, and the heartbeat stops.  The result carries the executor's results,
    is a success exactly when none of them failed, and is rolled back exactly
    when a rollback was wanted and every handler call succeeded.  Nothing else
    is reported or recorded. *)
Theorem run_does `{JN : JsonNumber} `{JL : !JsonLib} `{UL : UuidLib} `{BP : BuildProfile}
    `{CL : ChronoLib} fuel e f h o :
  validate f = Ok tt -> runs (run fuel e f) [] h o -> run_story e f fuel (frames h) o.
Proof. intros Hv H. by destruct (shows_run e f fuel Hv [] h o H) as (new & -> & Hr). Qed.

(** C15. The same for a run with a cancellation token, which keeps no record and
    does not use the queue: the run is a success exactly when no step failed and
    it was not cancelled, that is, the token was cancelled by the end and some
    step was skipped for it; a cancelled run is reported as failed with
    "cancelled". *)
Theorem run_with_cancellation_does `{JN : JsonNumber} `{JL : !JsonLib} `{UL : UuidLib}
    `{BP : BuildProfile} `{CL : ChronoLib} e f h o :
  validate f = Ok tt -> runs (run_with_cancellation e f) [] h o -> cancel_story e f (frames h) o.
Proof.
  intros Hv H. by destruct (shows_run_with_cancellation e f Hv [] h o H) as (new & -> & Hr).
Qed.

(** An invalid flow is rejected before anything happens, with the error of
    [validate], and that is the only error a run returns. *)
Theorem run_error_iff_invalid `{JN : JsonNumber} `{JL : !JsonLib} `{UL : UuidLib}
    `{BP : BuildProfile} `{CL : ChronoLib} fuel e f h er :
  (runs (run fuel e f) [] h (Returned (Err er)) <-> validate f = Err er /\ h = []) /\
  (runs (run_with_cancellation e f) [] h (Returned (Err er)) <-> validate f = Err er /\ h = []).
Proof.
  destruct (validate f) as [[]|er'] eqn:Hv.
  - split; (split; [|by intros [? _]]); intros H; exfalso.
    + destruct (shows_run e f fuel Hv [] h _ H) as (n & -> & ? & ? & ? & ? & ? & out & _ & _ & Hout).
      destruct out as [rs| |]; [|by destruct Hout..].
      destruct (cfg_queue (engine_config e)); by destruct Hout.
    + destruct (shows_run_with_cancellation e f Hv [] h _ H)
        as (n & -> & ? & ? & ? & ? & out & _ & _ & Hout).
      destruct out as [rs| |]; [|by destruct Hout..]. by destruct Hout as (? & ? & ?).
  - unfold run, run_with_cancellation. rewrite Hv. cbn. naive_solver.
Qed.

(** Whichever way a run ends, panics included, its heartbeat is registered
    and started, and then stopped and deregistered, in that order and nothing
    else, when the engine has a tracker. *)
Theorem heartbeat_released `{JN : JsonNumber} `{JL : !JsonLib} `{UL : UuidLib}
    `{BP : BuildProfile} `{CL : ChronoLib} fuel e f h o :
  validate f = Ok tt ->
  runs (run fuel e f) [] h o \/ runs (run_with_cancellation e f) [] h o ->
  beats_of (frames h) =
    if cfg_heartbeat (engine_config e)
    then (fun b => (b, uuid_to_string (flow_id f))) <$> [BRegister; BStart; BAbort; BDeregister]
    else [].
Proof.
  intros Hv [H|H].
  - destruct (shows_run e f fuel Hv [] h o H) as (n & -> & ? & m & ? & ? & ? & out & Hm & _ & Hout).
    cbn [app]. rewrite Hm. apply beats_guarded.
    destruct out as [rs| |]; [|by destruct Hout as [-> _]..].
    destruct (cfg_queue (engine_config e)); by eapply beats_ending.
  - destruct (shows_run_with_cancellation e f Hv [] h o H) as (n & -> & m & ? & ? & ? & out & Hm & _ & Hout).
    cbn [app]. rewrite Hm. apply beats_guarded.
    destruct out as [rs| |]; [by eapply beats_cancel_ending|by destruct Hout as [-> _]..].
Qed.

(** C10. Rollback: for a run that returns, the rollback handler is called exactly
    when a step failed, the flow asks for rollback and there is a handler; then
    it is called once for each top-level step that can be rolled back and has a
    completed result, in the reverse of the flow's order, and for no other; and
    the result says rolled back exactly when that happened and every call
    succeeded. *)
Theorem rollback_in_reverse `{JN : JsonNumber} `{JL : !JsonLib} `{UL : UuidLib}
    `{BP : BuildProfile} `{CL : ChronoLib} fuel e f h fr :
  validate f = Ok tt -> runs (run fuel e f) [] h (Returned (Ok fr)) ->
  let wanted := rollback_wanted e f (result_steps fr) in
  let calls := rollbacks_of (frames h) in
  rev calls.*1 `sublist_of` steps f /\
  (forall s, s ∈ calls.*1 <->
     wanted = true /\ s ∈ steps f /\ rollbackable s = true /\
     exists r, r ∈ result_steps fr /\ step_id r = id s /\ status r = StepStatus.Completed) /\
  (rolled_back fr = true <-> wanted = true /\ Forall (fun c => c.2 = RollbackOk) calls).
Proof.
  intros Hv H wanted calls.
  destruct (shows_run e f fuel Hv [] h _ H) as (n & Hh & st & m & ? & ? & ? & out & Hm & _ & Hout).
  cbn [app] in Hh. subst n.
  assert (calls = rollbacks_of m) as Hc.
  { unfold calls. rewrite Hm. unfold rollbacks_of. rewrite !omap_app, proj_opening by done.
    unfold beats. destruct (cfg_execution_store _), (cfg_heartbeat _); cbn; by rewrite app_nil_r. }
  assert (rolled wanted (rollback_plan e f (result_steps fr)) calls (Returned (rolled_back fr)))
    as (Hplan & _ & Hrb).
  { rewrite Hc. destruct out as [rs| |]; [|by destruct Hout..].
    destruct (cfg_queue (engine_config e));
      apply rollbacks_ending in Hout as (l & <- & <- & Hl); exact Hl. }
  split_and!; [| |exact Hrb]; rewrite Hplan;
    unfold rollback_plan; fold wanted.
  - destruct wanted; [|apply sublist_nil_l]. rewrite rev_involutive. apply sublist_list_filter.
  - intros s. destruct wanted; [|set_solver]. rewrite elem_of_rev, elem_to_roll_back. naive_solver.
Qed.

(** ** Witnesses *)

Module RunnerExamples.
Export StepExamples.

#[export] Instance utc : ChronoLib := {| rfc3339 t := "1970-01-01T00:00:00+00:00" |}.

(** A build that can be rolled back, and a test that fails. *)
Definition build : StepDef := with_rollback (step_new 1%N "build").
Definition test : StepDef := step_new 2%N "test".
Definition flow : FlowDef :=
  flow_with_rollback (add_step (add_step (flow_new 9%N "ci" FlowMode.Sequential) build) test).

Definition engine : Engine :=
  with_heartbeat (with_execution_store (with_event_sink
    (with_rollback_handler (engine_new config_default)))).

Definition handler (h : history) (s : StepDef) : handler_outcome :=
  if bool_decide (id s = 1%N) then HandlerOk Null else HandlerErr "broken".
Definition env : history -> forall a, res a := answers handler (fun _ _ => JoinError "cancelled").
Lemma runner_env_legal : legal_oracle (fun _ _ => True) env.
Proof. apply answers_legal; [|done]. intros h s. unfold handler. by destruct (bool_decide _). Qed.

Definition outcome_of (rolled : bool) : FlowResult := {|
  result_flow := "ci";
  result_steps :=
    [{| step_id := 1%N; status := StepStatus.Completed; output := Null;
        duration_ms := 0; attempts := 1; error := None |};
     {| step_id := 2%N; status := StepStatus.Failed; output := Null;
        duration_ms := 0; attempts := 1; error := Some "broken" |}];
  total_duration_ms := 0;
  success := false;
  rolled_back := rolled
|}.

Definition history_of {A} (p : prog A) : history := (exec env [] p).1.

Lemma run_runs : runs (run 0 engine flow) [] (history_of (run 0 engine flow))
                   (Returned (Ok (outcome_of true))).
Proof. exact (exec_runs _ env [] (run 0 engine flow) runner_env_legal). Qed.

Lemma cancel_runs :
  runs (run_with_cancellation engine flow) [] (history_of (run_with_cancellation engine flow))
    (Returned (Ok (outcome_of true))).
Proof. exact (exec_runs _ env [] (run_with_cancellation engine flow) runner_env_legal). Qed.
End RunnerExamples.

#[local] Existing Instances SerdeModel.serde_number SerdeModel.serde_lib
  StepExamples.ids StepExamples.release RunnerExamples.utc.

Lemma run_does_witness :
  run_story RunnerExamples.engine RunnerExamples.flow 0
    (frames (RunnerExamples.history_of (run 0 RunnerExamples.engine RunnerExamples.flow)))
    (Returned (Ok (RunnerExamples.outcome_of true))).
Proof.
  exact (run_does 0 RunnerExamples.engine RunnerExamples.flow _ _ eq_refl RunnerExamples.run_runs).
Defined.

Lemma run_with_cancellation_does_witness :
  cancel_story RunnerExamples.engine RunnerExamples.flow
    (frames (RunnerExamples.history_of
       (run_with_cancellation RunnerExamples.engine RunnerExamples.flow)))
    (Returned (Ok (RunnerExamples.outcome_of true))).
Proof.
  exact (run_with_cancellation_does RunnerExamples.engine RunnerExamples.flow _ _ eq_refl
           RunnerExamples.cancel_runs).
Defined.

Lemma heartbeat_released_witness :
  beats_of (frames (RunnerExamples.history_of (run 0 RunnerExamples.engine RunnerExamples.flow))) =
    [(BRegister, "id"); (BStart, "id"); (BAbort, "id"); (BDeregister, "id")].
Proof.
  exact (heartbeat_released 0 RunnerExamples.engine RunnerExamples.flow _ _ eq_refl
           (or_introl RunnerExamples.run_runs)).
Defined.

Lemma rollback_in_reverse_witness :
  let calls := rollbacks_of (frames
    (RunnerExamples.history_of (run 0 RunnerExamples.engine RunnerExamples.flow))) in
  calls = [(RunnerExamples.build, RollbackOk)] /\ Forall (fun c => c.2 = RollbackOk) calls.
Proof.
  split; [reflexivity|].
  apply (rollback_in_reverse 0 RunnerExamples.engine RunnerExamples.flow _
           (RunnerExamples.outcome_of true) eq_refl RunnerExamples.run_runs).
  reflexivity.
Defined.
