(* ===== verification/EndToEnd.v ===== *)
(** * Whole runs

    [Engine::run] put together with the components it uses: with the executors
    under every schedule of their tasks, and with any execution store that keeps
    the promises of [ExecutionStoreLaws]. *)

From Stdlib Require Import ZArith Lia.
From stdpp Require Import base tactics option list strings gmap relations.
From S2P Require Import Prelude Json State Error Step Condition Flow Bus EngineResult.
From S2P Require Import Storage Prog StepExec Sequential Hierarchical Pool Parallel Dag Footprint.
From S2P Require Import QueueRunner Runner.

Open Scope Z_scope.

(** ** Results by mode *)

Section Modes.
Context `{JN : JsonNumber} `{JL : !JsonLib} `{UL : UuidLib} `{BP : BuildProfile}
  `{CL : ChronoLib}.
Context (e : Engine) (f : FlowDef).

(** Retry counts are [u32]s; in DAG mode ids are distinct. *)
Record runnable : Prop := {
  runnable_retries : Forall (fun s => 0 <= max_retries s <= u32_max) (forest (steps f));
  runnable_dag : flow_mode f = FlowMode.Dag -> dag_steps (steps f)
}.

Lemma steps_in_forest l : Forall (fun s => 0 <= max_retries s <= u32_max) (forest l) ->
  Forall (fun s => 0 <= max_retries s <= u32_max) l.
Proof.
  rewrite !Forall_forall. intros H s Hs. apply H, list_elem_of_In, in_flat_map.
  exists s. rewrite <- !list_elem_of_In, subtree_unfold. split; [done|left].
Qed.

(** What the executor of the flow's mode promises of its results. *)
Definition mode_results (token : bool) (rs : list StepResult) : Prop :=
  let timeout := flow_timeout e f in
  let cx := exec_ctx e f in
  match flow_mode f with
  | FlowMode.Sequential => exists m, story (seq_fact (steps f) timeout token cx) [] (steps f) m rs
  | FlowMode.Parallel => parallel_results cx timeout token (steps f) rs
  | FlowMode.Dag => dag_final (steps f) (task_result cx) timeout token rs
  | FlowMode.Hierarchical => exists m,
      tree_outcome timeout token cx (steps f) [] false (steps f) m (Returned rs)
  end.

Definition mode_outcome (token : bool) (o : outcome (list StepResult)) : Prop :=
  match o with
  | Returned rs => mode_results token rs
  | Panicked => flow_mode f = FlowMode.Sequential \/ flow_mode f = FlowMode.Hierarchical
  | OutOfFuel => False
  end.

Lemma wp_run_mode token start h :
  runnable -> (forall n, aborted h n = false) ->
  wp (task_result (exec_ctx e f)) h (run_mode e f start token) (fun _ => mode_outcome token).
Proof.
  intros [Hr Hdag] Hcalm. unfold run_mode, mode_outcome, mode_results.
  destruct (flow_mode f) eqn:Em.
  - apply wp_post; [apply local_run_sequential|].
    eapply post_mono; [|apply (does_sequential_loop (steps f)); [by apply steps_in_forest|done]].
    cbn. intros h' [rs| |]; [intros (new & -> & H); eauto|auto|done].
  - eapply wp_mono; [|by apply wp_run_parallel]. intros h' o (joined & -> & Hj). by exists joined.
  - eapply wp_mono; [|apply (wp_run_dag _ (dag_distinct _ (Hdag eq_refl))
                               (dag_short _ (Hdag eq_refl)) (task_result (exec_ctx e f))
                               (flow_timeout e f) token
                               (fun s r => task_result_ok (exec_ctx e f) _ s r (Hdag eq_refl)));
                         done].
    intros h' o (rs & -> & Hrs). done.
  - apply wp_post; [apply local_run_hierarchical|].
    eapply post_mono; [|by apply does_execute_tree].
    cbn. intros h' [rs| |]; [eauto|auto|by intros []].
Qed.
End Modes.

(** ** The engine under every schedule *)

Section Schedules.
Context `{JN : JsonNumber} `{JL : !JsonLib} `{UL : UuidLib} `{BP : BuildProfile}
  `{CL : ChronoLib}.
Context (T : StepDef -> join_result -> Prop).

Definition no_aborts (h : history) : Prop := forall n, aborted h n = false.

(** A local part of a run that returns. *)
Lemma wp_part {A B} h (p : prog A) (k : A -> prog B) Q :
  local p -> shows p (fun _ o => exists x, o = Returned x) -> no_aborts h ->
  (forall h' x, no_aborts h' -> wp T h' (k x) Q) -> wp T h (bind p k) Q.
Proof.
  intros Hp Hs Hh HQ. apply wp_bind, wp_local_runs; [done|]. intros h' o Hruns Hab.
  destruct (Hs _ _ _ Hruns) as (_ & _ & x & ->). apply HQ. intros n. by rewrite Hab.
Qed.

Lemma wp_last {A} h (p : prog A) (Q : outcome A -> Prop) :
  local p -> shows p (fun _ => Q) -> wp T h p (fun _ => Q).
Proof.
  intros Hp Hs. apply wp_local_runs; [done|]. intros h' o Hruns _.
  by destruct (Hs _ _ _ Hruns) as (_ & _ & H).
Qed.

Lemma returns_perform a : shows (perform a) (fun _ o => exists x, o = Returned x).
Proof. apply shows_perform. eauto. Qed.

Lemma wp_with_guard {A} e f h (p : prog A) (Q : outcome A -> Prop) :
  no_aborts h -> (forall h', no_aborts h' -> wp T h' p (fun _ => Q)) ->
  wp T h (with_heartbeat_guard e f p) (fun _ => Q).
Proof.
  intros Hh Hp. unfold with_heartbeat_guard. destruct (cfg_heartbeat (engine_config e)); [|auto].
  apply wp_part; [done| |done|].
  - unfold start_heartbeat. cbv zeta. apply shows_bind, shows_perform. intros _.
    refine (shows_perform (HeartbeatStart _) _ _). eauto.
  - intros h' _ Hh'. apply wp_finally. eapply wp_mono; [|by apply Hp].
    intros h'' o Ho. apply wp_local_runs; [done|]. intros h3 o' Hruns _.
    by destruct (shows_drop_heartbeat f _ _ _ Hruns) as (_ & _ & _ & ->).
Qed.
End Schedules.

Section EngineWp.
Context `{JN : JsonNumber} `{JL : !JsonLib} `{UL : UuidLib} `{BP : BuildProfile}
  `{CL : ChronoLib}.
Context (e : Engine) (f : FlowDef).

(** How a run ends. *)
Definition engine_outcome (o : outcome (result FlowResult SzalError)) : Prop :=
  match o with
  | Returned (Ok fr) => mode_results e f false (result_steps fr) /\ result_ok f fr
  | Returned (Err _) | OutOfFuel => False
  | Panicked => flow_mode f = FlowMode.Sequential \/ flow_mode f = FlowMode.Hierarchical \/
                rollback_handler e = true
  end.

Lemma local_rollback_loop l : forall b, local (rollback_loop e l b).
Proof. induction l as [|s l IH]; intros b; cbn [rollback_loop]; local_solve. Qed.
#[local] Hint Resolve local_rollback_loop : szal.
Lemma local_finalize rs start st i : local (finalize e f rs start st i).
Proof.
  unfold finalize, rollback_if_failed, rollback_completed_steps, report_outcome,
    metric_run_failed, metric_run_completed. cbv zeta. local_solve.
Qed.

(** Only the handler of a rollback makes the end of a run panic. *)
Lemma ending_panics store text st rs m :
  ending e f store text st rs m Panicked -> rollback_handler e = true.
Proof.
  intros (l & H). destruct H as [(init & s & rest & -> & Hplan & _) _].
  unfold rollback_plan, rollback_wanted in Hplan. destruct (rollback_handler e); [done|].
  rewrite andb_false_r, fmap_app in Hplan. by destruct (init.*1).
Qed.

Lemma engine_outcome_ending store text st rs m o :
  mode_results e f false rs -> ending e f store text st rs m o -> engine_outcome o.
Proof.
  intros Hrs H. destruct o as [[fr|]| |]; cbn; [|by destruct H| |by destruct H].
  - destruct H as (l & fin & -> & Hok & _). done.
  - right. right. by eapply ending_panics.
Qed.

Lemma wp_run fuel :
  runnable f -> validate f = Ok tt -> cfg_queue (engine_config e) = false ->
  wp (task_result (exec_ctx e f)) [] (run fuel e f) (fun _ => engine_outcome).
Proof.
  intros Hf Hv Hq. unfold run. rewrite Hv, Hq. cbv zeta.
  apply wp_part; [unfold announce; auto with szal| |done|].
  { unfold announce. shows_step. eauto. }
  intros h1 _ Hh1. apply wp_part; [done|apply returns_perform|done|].
  intros h2 now Hh2.
  apply wp_part; [unfold save_record_if; local_solve| |done|].
  { eapply shows_mono; [|apply shows_save_if]. intros m o [_ ->]. eauto. }
  intros h3 _ Hh3. apply wp_part; [unfold metric_run_started; local_solve| |done|].
  { eapply shows_mono; [|apply shows_run_started]. intros m o [_ ->]. eauto. }
  intros h4 _ Hh4. apply wp_with_guard; [done|]. intros h5 Hh5.
  apply wp_part; [done|apply returns_perform|done|]. intros h6 start Hh6.
  apply wp_bind. eapply wp_mono; [|by apply wp_run_mode].
  intros h7 [rs| |]; cbn [continue mode_outcome]; [|naive_solver|done].
  intros Hrs. apply wp_last; [apply local_finalize|].
  eapply shows_mono; [|apply shows_finalize]. intros m o. by apply engine_outcome_ending.
Qed.
End EngineWp.

(** ** What is counted and what is stored *)

Section Facts.
Context `{JN : JsonNumber} `{JL : !JsonLib} `{UL : UuidLib} `{BP : BuildProfile}
  `{CL : ChronoLib}.
Context (e : Engine) (f : FlowDef).

(** The steps a run answers for: with their sub-steps in hierarchical mode. *)
Definition answered_steps : list StepDef :=
  match flow_mode f with FlowMode.Hierarchical => forest (steps f) | _ => steps f end.

Lemma mode_results_ids rs :
  runnable f -> validate f = Ok tt ->
  (flow_mode f = FlowMode.Dag -> u64_max <= flow_timeout e f) ->
  mode_results e f false rs -> step_id <$> rs ≡ₚ id <$> answered_steps.
Proof.
  intros [Hr Hdag] Hv%validate_ok_spec Ht. unfold mode_results, answered_steps.
  destruct (flow_mode f) eqn:Em.
  - intros (m & H). by rewrite (seq_story_ids _ _ _ _ _ _ _ _ H).
  - apply parallel_results_ids. by apply steps_in_forest.
  - intros H. apply (final_complete _ _ _ _ _ H); [by apply vs_refs|by apply vs_acyclic|done|auto].
  - intros (m & new & -> & H). cbn. by rewrite (tree_story_ids _ _ _ _ _ _ _ _ _ H).
Qed.

Lemma step_done_final s m r : step_done s m (Returned r) -> is_final r.
Proof. unfold is_final. intros (_ & _ & _ & [?|?] & _); auto. Qed.

Lemma skip_results_final reason l : Forall is_final (skip_results reason l).
Proof. apply Forall_forall. intros r Hr. right. right. by eapply skip_results_status. Qed.

Lemma tree_story_final timeout token cx siblings prior failed l m rs :
  tree_story timeout token cx siblings prior failed l m rs -> Forall is_final rs.
Proof.
  induction 1; rewrite ?Forall_cons, ?Forall_app;
    eauto 8 using skip_results_final, step_done_final.
Qed.

Lemma mode_results_final rs : runnable f -> mode_results e f false rs -> Forall is_final rs.
Proof.
  intros [Hr Hdag]. unfold mode_results. destruct (flow_mode f) eqn:Em.
  - intros (m & H). remember (@nil StepResult) as prior eqn:E. clear E.
    induction H as [|prior s l m m' r rs [(? & _ & -> & _)|(_ & _ & Hd)] _ IH]; [done|..];
      constructor; [by right; right|done|by eapply step_done_final|done].
  - apply steps_in_forest in Hr. intros (joined & -> & Hj). apply Forall_app. split.
    + apply Forall_fmap, Forall_forall. intros s _. by right; right.
    + assert (Forall (fun s => 0 <= max_retries s <= u32_max)
                (triage (steps f) [] (steps f)).2) as Hr2.
      { rewrite <- (triage_perm (steps f) (steps f) []) in Hr. by apply Forall_app in Hr as [_ Hr]. }
      clear Hr Em Hdag. induction Hj as [|s r l rs Hf _ IH]; [done|].
      apply Forall_cons in Hr2 as [Hs Hr2]. constructor; [|auto].
      destruct Hf as [| |r HT|]; [by right; right|by right; right| |by right; left].
      destruct (task_result_done _ s r Hs HT) as (m & Hd). by eapply step_done_final.
  - intros H. destruct (final_results _ _ _ _ _ H) as (dealt & stops & -> & Hd & Hs).
    apply Forall_app. split; apply Forall_forall; intros r Hin.
    + destruct (dag_results_reasons _ _ (fun s r => task_result_ok _ _ s r (Hdag eq_refl)) _ r Hd Hin)
        as [?|[?|[E|E]]]; unfold is_final; [auto|auto|rewrite E; auto|rewrite E; auto].
    + rewrite Forall_forall in Hs. destruct (Hs r Hin); by right; right.
  - intros (m & new & -> & H). by eapply tree_story_final.
Qed.

(** The records a run saves, when nothing goes through the queue. *)
Lemma run_saves fuel h o :
  validate f = Ok tt -> cfg_queue (engine_config e) = false ->
  cfg_execution_store (engine_config e) = true -> runs (run fuel e f) [] h o ->
  exists st,
    (saves_of (frames h) = [running_record f st] /\ forall r, o <> Returned r) \/
    exists fin fr, o = Returned (Ok fr) /\
      saves_of (frames h) = [running_record f st; final_record f st fin fr].
Proof.
  intros Hv Hq Hst H.
  destruct (shows_run e f fuel Hv [] h o H) as (n & -> & st & m & ? & ? & ? & out & Hm & _ & Hout).
  cbn [app]. exists st.
  assert (saves_of (frames n) = running_record f st :: saves_of m) as ->.
  { rewrite Hm. unfold saves_of. rewrite !omap_app, proj_opening, Hst by done.
    unfold beats. destruct (cfg_heartbeat _); cbn; by rewrite app_nil_r. }
  rewrite Hq, Hst in Hout. destruct out as [rs| |]; [|by (destruct Hout as [-> ->]; left)..].
  destruct (saves_ending _ _ _ _ _ _ _ _ Hout) as [[-> Ho]|(fin & fr & -> & _ & ->)]; [by left|].
  right. by exists fin, fr.
Qed.

(** Through the queue, only the first is saved. *)
Lemma queued_saves fuel h o :
  validate f = Ok tt -> cfg_queue (engine_config e) = true ->
  cfg_execution_store (engine_config e) = true -> runs (run fuel e f) [] h o ->
  exists st, saves_of (frames h) = [running_record f st].
Proof.
  intros Hv Hq Hst H.
  destruct (shows_run e f fuel Hv [] h o H) as (n & -> & st & m & ? & ? & ? & out & Hm & _ & Hout).
  cbn [app]. exists st.
  assert (saves_of m = []) as Hsm.
  { rewrite Hq in Hout. destruct out as [rs| |]; [|by destruct Hout as [-> _]..].
    by destruct (saves_ending _ _ _ _ _ _ _ _ Hout) as [[-> _]|(fin & fr & _ & _ & ->)]. }
  rewrite Hm. unfold saves_of in *. rewrite !omap_app, proj_opening, Hst, Hsm by done.
  unfold beats. by destruct (cfg_heartbeat _).
Qed.
End Facts.

(** A store after the saves of a run. *)
Definition store_after `{JN : JsonNumber} {S : Type} `{ES : !ExecutionStore S} (h : history)
    (s : S) : S :=
  store_run (OpSave <$> saves_of (frames h)) s.

(** ** Properties *)





(** A run through the queue never records its end: once it has returned,
    whatever the result, the store still has the record of the start, in state
    [Running] and without a result. *)
Theorem queued_run_record_stale `{JN : JsonNumber} `{JL : !JsonLib} `{UL : UuidLib}
    `{BP : BuildProfile} `{CL : ChronoLib} {S : Type} `{ES : !ExecutionStore S}
    `{EL : !ExecutionStoreLaws S} fuel e f h o (s : S) :
  validate f = Ok tt -> cfg_queue (engine_config e) = true ->
  cfg_execution_store (engine_config e) = true -> runs (run fuel e f) [] h o ->
  exists st, get (uuid_to_string (flow_id f)) (store_after h s) = Some (running_record f st).
Proof.
  intros Hv Hq Hst H. unfold store_after.
  destruct (queued_saves e f fuel h o Hv Hq Hst H) as (st & ->).
  exists st. rewrite get_store_run. cbn. by case_decide.
Qed.

(** ** Witnesses *)

Module EndToEndExamples.
Export RunnerExamples.

Lemma flow_runnable : runnable flow.
Proof. split; [|done]. repeat constructor; cbn; unfold u32_max; lia. Qed.

Definition start : config :=
  start_config (max_concurrency (engine_config engine)) (run 0 engine flow).
Definition final : config := drive (exec_ctx engine flow) 200 env start.

Lemma final_reached : rtc (step (exec_ctx engine flow)) start final.
Proof. apply drive_reaches, runner_env_legal. Qed.

Lemma final_done : coord final = Done (Returned (Ok (outcome_of true))).
Proof. reflexivity. Qed.

(** The engine with a queue, in an environment where the queue is used up by
    another worker. *)
Definition queue_engine : Engine := with_queue engine.
Definition unrun : FlowResult := {|
  result_flow := "ci"; result_steps := []; total_duration_ms := 0;
  success := true; rolled_back := false |}.
Lemma queue_runs : runs (run 1 queue_engine flow) [] (history_of (run 1 queue_engine flow))
                     (Returned (Ok unrun)).
Proof. exact (exec_runs _ env [] (run 1 queue_engine flow) runner_env_legal). Qed.
End EndToEndExamples.

#[local] Existing Instances SerdeModel.serde_number SerdeModel.serde_lib
  StepExamples.ids StepExamples.release RunnerExamples.utc StorageModel.list_order.





Lemma queued_run_record_stale_witness :
  let h := RunnerExamples.history_of (run 1 EndToEndExamples.queue_engine RunnerExamples.flow) in
  exists st, get "id" (store_after h executions_new) =
               Some (running_record RunnerExamples.flow st).
Proof.
  exact (queued_run_record_stale 1 EndToEndExamples.queue_engine RunnerExamples.flow _ _
    executions_new eq_refl eq_refl eq_refl EndToEndExamples.queue_runs).
Defined.
