(* ===== verification/RunDistributed.v ===== *)
(** * Distributed runs of the engine

    [run_distributed] of [rust-old/src/engine/runner.rs]: the flow is announced
    and recorded as in [run], the coordinator of [Distributed] runs its steps on
    the fleet, and [finalize] ends the run.  A build with the [fleet] feature. *)

From Stdlib Require Import ZArith Lia.
From stdpp Require Import base tactics option list strings gmap relations.
From S2P Require Import Prelude Json State Error Step Condition Flow Bus EngineResult.
From S2P Require Import Storage Prog StepExec Sequential Pool Parallel Dag Distributed Footprint.
From S2P Require Import Fleet QueueRunner Runner EndToEnd.

Open Scope Z_scope.

Section RunDistributed.
Context `{JN : JsonNumber} `{JL : !JsonLib} `{UL : UuidLib} `{BP : BuildProfile}
  `{CL : ChronoLib}.

Definition not_dag (f : FlowDef) : SzalError :=
  InvalidFlow ("run_distributed requires Dag mode, got " +:+ FlowMode.fmt (flow_mode f)).

Definition run_distributed (e : Engine) (f : FlowDef) : prog (result FlowResult SzalError) :=
  match validate f with
  | Err er => ret (Err er)
  | Ok _ =>
      if negb (bool_decide (flow_mode f = FlowMode.Dag)) then ret (Err (not_dag f))
      else
      let! _ := announce e f in
      let exec_id := uuid_to_string (flow_id f) in
      let! now := perform UtcNow in
      let started := rfc3339 now in
      let! _ := save_record_if (cfg_execution_store (engine_config e))
        {| execution_id := exec_id; record_flow := flow_name f;
           record_state := WorkflowState.Running; record_result := None;
           started_at := started; finished_at := None |} in
      let! _ := metric_run_started (cfg_metrics (engine_config e)) (flow_name f) in
      let! start := perform InstantNow in
      let! rs := run_distributed_dag (steps f) (flow_timeout e f) start false (exec_ctx e f) in
      finalize e f rs start started exec_id
  end.

(** ** The sequence of its calls *)

Context (e : Engine) (f : FlowDef).

(** A distributed run announces and records the flow, lets the coordinator run
    the steps, and ends as a run without a queue does; it has no heartbeat. *)
Definition distributed_story (m : list frame) (o : outcome (result FlowResult SzalError)) : Prop :=
  exists started m' start h h' out,
    m = opening_frames e f (cfg_execution_store (engine_config e)) started ++ m' /\
    runs (run_distributed_dag (steps f) (flow_timeout e f) start false (exec_ctx e f)) h h' out /\
    match out with
    | Returned rs => ending e f (cfg_execution_store (engine_config e)) failure_text started rs m' o
    | Panicked => m' = [] /\ o = Panicked
    | OutOfFuel => m' = [] /\ o = OutOfFuel
    end.

Lemma shows_run_distributed :
  validate f = Ok tt -> flow_mode f = FlowMode.Dag ->
  shows (run_distributed e f) distributed_story.
Proof.
  intros Hv Hm. unfold run_distributed. rewrite Hv, bool_decide_eq_true_2 by done. cbv zeta.
  cbn [negb]. unfold announce. do 4 shows_step. rename r into now.
  shows_step. eapply shows_mono; [|apply shows_save_if]. intros m1 o [-> ->]. cbv beta iota.
  shows_step. eapply shows_mono; [|apply shows_run_started]. intros m2 o [-> ->]. cbv beta iota.
  do 2 shows_step. shows_step. apply shows_executor; [apply fleet_executor, only_run_distributed|].
  intros h h' [rs| |] Hruns.
  - eapply shows_mono; [|apply shows_finalize]. intros m o Ho.
    exists (rfc3339 now), m, r, h, h', (Returned rs). split; [|by split].
    unfold opening_frames. by rewrite <- !app_assoc.
  - exists (rfc3339 now), [], r, h, h', Panicked. split; [|by split].
    unfold opening_frames. by rewrite <- !app_assoc.
  - exists (rfc3339 now), [], r, h, h', OutOfFuel. split; [|by split].
    unfold opening_frames. by rewrite <- !app_assoc.
Qed.

(** What is refused is refused before any call. *)
Lemma run_distributed_refuses :
  match validate f with
  | Err er => run_distributed e f = ret (Err er)
  | Ok _ => flow_mode f <> FlowMode.Dag -> run_distributed e f = ret (Err (not_dag f))
  end.
Proof.
  unfold run_distributed. destruct (validate f); [|done]. intros Hm.
  by rewrite bool_decide_eq_false_2.
Qed.
End RunDistributed.

(** ** The run under every schedule *)

Section Schedules.
Context `{JN : JsonNumber} `{JL : !JsonLib} `{UL : UuidLib} `{BP : BuildProfile}
  `{CL : ChronoLib}.
Context (e : Engine) (f : FlowDef).

Definition fleet_results (h : history) (rs : list StepResult) : Prop :=
  dist_final (steps f) (task_result (exec_ctx e f)) (flow_timeout e f) false h rs.

(** How a distributed run ends. *)
Definition distributed_outcome (h : history) (o : outcome (result FlowResult SzalError)) : Prop :=
  match o with
  | Returned (Ok fr) => fleet_results h (result_steps fr) /\ result_ok f fr
  | Returned (Err _) | OutOfFuel => False
  | Panicked => rollback_handler e = true
  end.

(** What was promised of the results stays true as the run goes on. *)
Lemma fleet_results_same h h' rs : same_tasks h h' -> fleet_results h rs -> fleet_results h' rs.
Proof.
  intros Hh (dealt & lft & reason & -> & Hd & Hr & Hp & Hn & Hc).
  exists dealt, lft, reason. do 4 (split; [done|]). rewrite (same_accepted _ _ Hh).
  split; [done|]. intros H1 H2 H3. eapply cut_short_more; [|by apply Hc].
  destruct Hh as (new & -> & _). by apply prefix_app_r.
Qed.

(** A local part of a run that returns leaves the fleet as it is. *)
Lemma wp_fleet_part {A B} T h (p : prog A) (k : A -> prog B) Q :
  local p -> shows p (fun _ o => exists x, o = Returned x) ->
  (forall h' x, same_tasks h h' -> wp T h' (k x) Q) -> wp T h (bind p k) Q.
Proof.
  intros Hp Hs HQ. apply wp_bind, wp_local_story; [done|]. intros h' o Hruns Hh.
  destruct (Hs _ _ _ Hruns) as (_ & _ & x & ->). by apply HQ.
Qed.

Lemma wp_run_distributed_flow :
  dag_steps (steps f) -> validate f = Ok tt -> flow_mode f = FlowMode.Dag ->
  wp (task_result (exec_ctx e f)) [] (run_distributed e f) distributed_outcome.
Proof.
  intros Hl Hv Hm. unfold run_distributed. rewrite Hv, bool_decide_eq_true_2 by done. cbv zeta.
  cbn [negb].
  apply wp_fleet_part; [unfold announce; auto with szal| |].
  { unfold announce. shows_step. eauto. }
  intros h1 _ Hh1. apply wp_fleet_part; [done|apply returns_perform|].
  intros h2 now Hh2.
  apply wp_fleet_part; [unfold save_record_if; local_solve| |].
  { eapply shows_mono; [|apply shows_save_if]. intros m o [_ ->]. eauto. }
  intros h3 _ Hh3. apply wp_fleet_part; [unfold metric_run_started; local_solve| |].
  { eapply shows_mono; [|apply shows_run_started]. intros m o [_ ->]. eauto. }
  intros h4 _ Hh4. apply wp_fleet_part; [done|apply returns_perform|].
  intros h5 start Hh5.
  pose proof (same_tasks_trans _ _ _ (same_tasks_trans _ _ _ (same_tasks_trans _ _ _
    (same_tasks_trans _ _ _ Hh1 Hh2) Hh3) Hh4) Hh5) as Hh.
  apply wp_bind. eapply wp_mono; [|eapply (wp_run_distributed _ (dag_distinct _ Hl) (dag_short _ Hl))].
  2: { intros s r. by apply task_result_ok. }
  2: by rewrite (same_outstanding _ _ Hh).
  2: by rewrite (same_accepted _ _ Hh).
  intros h6 o (rs & -> & Hrs). cbn [continue].
  apply wp_local_story; [apply local_finalize|]. intros h7 o Hruns Hh7.
  destruct (shows_finalize _ _ _ _ _ _ _ _ Hruns) as (m & -> & Hend).
  destruct o as [[fr|]| |]; cbn; [|by destruct Hend| |by destruct Hend].
  - destruct Hend as (l & fin & E & Hok & _). rewrite E. split; [|done].
    by eapply fleet_results_same.
  - by eapply ending_panics.
Qed.

(** It has no tasks of its own: its executor is the fleet's coordinator. *)
Lemma taskless_run_distributed : only taskless (run_distributed e f).
Proof.
  unfold run_distributed, announce, save_record_if, metric_run_started, finalize, elapsed_ms, emit,
    rollback_if_failed, rollback_completed_steps, report_outcome, metric_run_failed,
    metric_run_completed. cbv zeta.
  pose proof (fun st => fleet_taskless _ (only_run_distributed (steps f) (flow_timeout e f) st
    false (exec_ctx e f))) as Hrun.
  assert (forall l b, only taskless (rollback_loop e l b)) as Hroll.
  { intros l. induction l as [|s l IH]; intros b; cbn [rollback_loop]; [done|].
    unfold emit_now, emit. only_solve. }
  unfold emit_now, emit. only_solve.
Qed.
End Schedules.

(** ** Properties *)

(** The calls of a distributed run, in order: a flow that is not valid is
    refused with the error of its validation, and one that is not in [Dag] mode
    with an error naming the mode, both before any call; otherwise the run is
    announced, recorded as [Running] and counted, the coordinator runs, and the
    run ends as one without a queue does (rollbacks, the report of its outcome,
    the final record); it never touches the heartbeat. *)
Theorem run_distributed_does `{JN : JsonNumber} `{JL : !JsonLib} `{UL : UuidLib}
    `{BP : BuildProfile} `{CL : ChronoLib} e f h o :
  runs (run_distributed e f) [] h o ->
  match validate f with
  | Err er => h = [] /\ o = Returned (Err er)
  | Ok _ =>
      (flow_mode f <> FlowMode.Dag /\ h = [] /\ o = Returned (Err (not_dag f))) \/
      (flow_mode f = FlowMode.Dag /\ distributed_story e f (frames h) o)
  end.
Proof.
  intros Hruns. pose proof (run_distributed_refuses e f) as Hno.
  destruct (validate f) as [[]|er] eqn:Hv.
  - destruct (decide (flow_mode f = FlowMode.Dag)) as [Hm|Hm].
    + right. split; [done|]. by destruct (shows_run_distributed e f Hv Hm _ _ _ Hruns) as (m & -> & H).
    + left. rewrite (Hno Hm) in Hruns. by destruct Hruns.
  - rewrite Hno in Hruns. by destruct Hruns.
Qed.

(** C8. A whole distributed run, under every schedule of the coordinator and the
    workers: when it ends, it returns a result with exactly one entry per step,
    which meets the promises of the coordinator and is a success exactly when no
    step failed, or it panics in the handler of a rollback. *)
Theorem run_distributed_correct `{JN : JsonNumber} `{JL : !JsonLib} `{UL : UuidLib}
    `{BP : BuildProfile} `{CL : ChronoLib} e f c o :
  dag_steps (steps f) -> validate f = Ok tt -> flow_mode f = FlowMode.Dag ->
  rtc (fleet_step (exec_ctx e f)) (start_fleet (run_distributed e f)) c ->
  fleet_coord c = Done o ->
  match o with
  | Returned (Ok fr) =>
      fleet_results e f (fleet_history c) (result_steps fr) /\ result_ok f fr /\
      step_id <$> result_steps fr ≡ₚ id <$> steps f
  | Returned (Err _) | OutOfFuel => False
  | Panicked => rollback_handler e = true
  end.
Proof.
  intros Hl Hv Hm Hreach Hdone.
  pose proof (fleet_wp _ _ _ _ Hreach (fleet_inv_start _ _) (wp_run_distributed_flow e f Hl Hv Hm))
    as H.
  rewrite Hdone in H. destruct o as [[fr|]| |]; [|done..]. destruct H as [Hrs Hok].
  do 2 (split; [done|]). by destruct Hrs as (dealt & lft & reason & -> & _ & _ & Hp & _).
Qed.

(** C9. A distributed run is never stuck for good: from every configuration a
    schedule can reach, it can still end, whatever the workers are doing and
    whatever the handlers answer. *)
Theorem run_distributed_can_end `{JN : JsonNumber} `{JL : !JsonLib} `{UL : UuidLib}
    `{BP : BuildProfile} `{CL : ChronoLib} e f c :
  dag_steps (steps f) -> validate f = Ok tt -> flow_mode f = FlowMode.Dag ->
  rtc (fleet_step (exec_ctx e f)) (start_fleet (run_distributed e f)) c ->
  exists c' o, rtc (fleet_step (exec_ctx e f)) c c' /\ fleet_coord c' = Done o /\
    (rollback_handler e = false -> exists fr, o = Returned (Ok fr)).
Proof.
  intros Hl Hv Hm Hreach.
  destruct (fleet_reaches_end _ c _ (fleet_inv_reachable _ _ _ Hreach)
    (only_reachable _ _ _ _ Hreach (taskless_run_distributed e f))
    (fleet_wp _ _ _ _ Hreach (fleet_inv_start _ _) (wp_run_distributed_flow e f Hl Hv Hm)))
    as (c' & o & Hr & Hd & Ho).
  exists c', o. do 2 (split; [done|]). intros Hno.
  destruct o as [[fr|]| |]; cbn in Ho; [by exists fr|done|congruence|done].
Qed.

(** ** Witnesses *)

Module RunDistributedExamples.
Export RunnerExamples.

(** Two steps, of which the second fails. *)
Definition flow : FlowDef :=
  add_step (add_step (flow_new 9%N "ci" FlowMode.Dag) build) test.
Definition env : history -> forall a, res a := FleetExamples.env handler.
Lemma dist_env_legal : legal_oracle (fun _ _ => True) env.
Proof. apply FleetExamples.fleet_env_legal. intros h s. unfold handler. by destruct (bool_decide _). Qed.

Lemma dist_flow_ok : dag_steps (steps flow).
Proof.
  split; [by apply (bool_decide_eq_true_1 _)|..];
    intros s [->|[->|[]%not_elem_of_nil]%elem_of_cons]%elem_of_cons;
    cbn; unfold usize_max, u32_max; lia.
Qed.

Definition start : fleet := start_fleet (run_distributed engine flow).
Definition final : fleet :=
  play (exec_ctx engine flow) env 100 (replicate 15 1%nat ++ replicate 30 0%nat ++
      replicate 30 1%nat ++ [0%nat])
    start.

Lemma dist_final_reached : rtc (fleet_step (exec_ctx engine flow)) start final.
Proof. apply play_reaches, dist_env_legal. Qed.

Lemma dist_final_done : fleet_coord final = Done (Returned (Ok (outcome_of false))).
Proof. reflexivity. Qed.

(** The handler of the first step unwinds its worker, and the second has no work. *)
Definition panicking (h : history) (s : StepDef) : handler_outcome := HandlerPanic.
Definition plain : Engine := engine_new config_default.
Definition waiting : fleet :=
  play (exec_ctx plain flow) (FleetExamples.env panicking) 100 (replicate 12 0%nat)
    (start_fleet (run_distributed plain flow)).

Lemma waiting_reached :
  rtc (fleet_step (exec_ctx plain flow)) (start_fleet (run_distributed plain flow)) waiting.
Proof. by apply play_reaches, FleetExamples.fleet_env_legal. Qed.

(** A run that gives up on its workers at once. *)
Definition gives_up : FlowResult := {|
  result_flow := "ci";
  result_steps := [skipped 1%N "not scheduled"; skipped 2%N "not scheduled"];
  total_duration_ms := 0;
  success := true;
  rolled_back := false
|}.
Lemma giving_up_runs :
  runs (run_distributed engine flow) [] (exec env [] (run_distributed engine flow)).1
    (Returned (Ok gives_up)).
Proof. exact (exec_runs _ env [] (run_distributed engine flow) dist_env_legal). Qed.
End RunDistributedExamples.

#[local] Existing Instances SerdeModel.serde_number SerdeModel.serde_lib
  StepExamples.ids StepExamples.release RunnerExamples.utc.

Lemma run_distributed_does_witness :
  flow_mode RunDistributedExamples.flow = FlowMode.Dag /\
  distributed_story RunnerExamples.engine RunDistributedExamples.flow
    (frames (exec RunDistributedExamples.env []
       (run_distributed RunnerExamples.engine RunDistributedExamples.flow)).1)
    (Returned (Ok RunDistributedExamples.gives_up)).
Proof.
  destruct (run_distributed_does _ _ _ _ RunDistributedExamples.giving_up_runs) as [(H & _)|H];
    [by destruct H|exact H].
Defined.

Lemma run_distributed_correct_witness :
  fleet_results RunnerExamples.engine RunDistributedExamples.flow
    (fleet_history RunDistributedExamples.final)
    (result_steps (RunnerExamples.outcome_of false)).
Proof.
  apply (run_distributed_correct RunnerExamples.engine RunDistributedExamples.flow _ _
    RunDistributedExamples.dist_flow_ok eq_refl eq_refl RunDistributedExamples.dist_final_reached
    RunDistributedExamples.dist_final_done).
Defined.

Lemma run_distributed_can_end_witness :
  exists c' fr,
    rtc (fleet_step (exec_ctx RunDistributedExamples.plain RunDistributedExamples.flow))
      RunDistributedExamples.waiting c' /\ fleet_coord c' = Done (Returned (Ok fr)).
Proof.
  destruct (run_distributed_can_end RunDistributedExamples.plain RunDistributedExamples.flow _
    RunDistributedExamples.dist_flow_ok eq_refl eq_refl RunDistributedExamples.waiting_reached)
    as (c' & o & Hr & Hd & Ho). destruct (Ho eq_refl) as [fr ->]. by exists c', fr.
Defined.
