(* ===== verification/SubFlow.v ===== *)
(** * Sub-flows

    [sub_flow_handler] of [rust-old/src/engine/mod.rs]: a step handler that runs
    a stored flow, in an engine of its own, for the steps of type [sub_flow] and
    leaves the others to the handler it was built from. *)

From Stdlib Require Import ZArith Lia.
From stdpp Require Import base tactics option list strings gmap relations.
From S2P Require Import Prelude Json State Error Step Condition Flow Bus EngineResult.
From S2P Require Import Storage Prog StepExec Sequential Hierarchical Pool Parallel Dag.
From S2P Require Import QueueRunner Runner EndToEnd.

Open Scope Z_scope.

Section SubFlow.
Context `{JN : JsonNumber} `{JL : !JsonLib} `{UL : UuidLib} `{BP : BuildProfile}
  `{CL : ChronoLib}.
(** [WorkflowStorage::get_by_name] and [serde_json::to_value]. *)
Context (get_by_name : string -> option FlowDef) (to_value : FlowResult -> result Value string).

(** [(inner)(step).await]: the calls of the inner handler are the calls of a
    handler of this program. *)
Definition call_inner (s : StepDef) : prog (result Value string) :=
  let! out := perform (CallHandler s None) in
  match out with
  | HandlerOk v => ret (Ok v)
  | HandlerErr e => ret (Err e)
  | _ => panic
  end.

Definition sub_flow_name (s : StepDef) : option string :=
  c ← Step.config s; v ← value_get c "flow_name"; as_str v.

Definition sub_engine : Engine := engine_new config_default.

Definition sub_flow_output (flow_name : string) (r : result FlowResult SzalError)
  : result Value string :=
  match r with
  | Err e => Err ("sub-flow '" +:+ flow_name +:+ "' failed: " +:+ fmt_error e)
  | Ok fr =>
      if success fr then
        match to_value fr with
        | Ok v => Ok v
        | Err e => Err ("serialize: " +:+ e)
        end
      else Err ("sub-flow '" +:+ flow_name +:+ "' failed: " +:+
                show_Z (Z.of_nat (failed_count fr)) +:+ " step(s) failed")
  end.

(** The sub-engine has no queue, so that [run] needs no fuel. *)
Definition sub_flow_handler (s : StepDef) : prog (result Value string) :=
  if negb (bool_decide (step_type s = Some "sub_flow")) then call_inner s
  else
    match sub_flow_name s with
    | None => ret (Err "sub_flow step requires config.flow_name")
    | Some n =>
        match get_by_name n with
        | None => ret (Err ("sub-flow '" +:+ n +:+ "' not found in storage"))
        | Some f =>
            let! r := run 0 sub_engine f in
            ret (sub_flow_output n r)
        end
    end.

(** The flow a step runs, by the name it gives. *)
Definition sub_flow_of (s : StepDef) : option (string * FlowDef) :=
  if bool_decide (step_type s = Some "sub_flow") then
    n ← sub_flow_name s; f ← get_by_name n; Some (n, f)
  else None.

Lemma sub_flow_runs s n f :
  sub_flow_of s = Some (n, f) ->
  sub_flow_handler s = bind (run 0 sub_engine f) (fun r => ret (sub_flow_output n r)).
Proof.
  unfold sub_flow_of, sub_flow_handler. intros H. case_bool_decide; [|done]. cbn [negb].
  destruct (sub_flow_name s) as [m|]; [|done]. cbn in H.
  destruct (get_by_name m) as [g|]; [|done]. by injection H as -> ->.
Qed.

(** What the handler answers when it runs a valid flow. *)
Definition sub_flow_answer (n : string) (f : FlowDef) (o : outcome (result Value string)) : Prop :=
  match o with
  | Returned v => exists fr,
      mode_results sub_engine f false (result_steps fr) /\ result_ok f fr /\
      v = if has_failures (result_steps fr)
          then Err ("sub-flow '" +:+ n +:+ "' failed: " +:+
                    show_Z (Z.of_nat (failed_count fr)) +:+ " step(s) failed")
          else match to_value fr with Ok v => Ok v | Err e => Err ("serialize: " +:+ e) end
  | Panicked => flow_mode f = FlowMode.Sequential \/ flow_mode f = FlowMode.Hierarchical
  | OutOfFuel => False
  end.

Lemma wp_sub_flow s n f :
  sub_flow_of s = Some (n, f) -> runnable f -> validate f = Ok tt ->
  wp (task_result (exec_ctx sub_engine f)) [] (sub_flow_handler s)
    (fun _ => sub_flow_answer n f).
Proof.
  intros Hs Hf Hv. rewrite (sub_flow_runs _ _ _ Hs). apply wp_bind.
  eapply wp_mono; [|by apply wp_run]. intros h [[fr|]| |]; cbn; [|done|naive_solver|done].
  intros [Hres Hok]. exists fr. split; [done|]. split; [done|].
  destruct Hok as (_ & _ & ->). by destruct (has_failures _).
Qed.

(** A flow that is refused, or a step that runs none. *)
Lemma sub_flow_refused s n f e :
  sub_flow_of s = Some (n, f) -> validate f = Err e ->
  sub_flow_handler s = ret (Err ("sub-flow '" +:+ n +:+ "' failed: " +:+ fmt_error e)).
Proof. intros Hs Hv. rewrite (sub_flow_runs _ _ _ Hs). unfold run. by rewrite Hv. Qed.
End SubFlow.

(** C30. A step of type [sub_flow] whose flow is stored and valid runs that flow in
    an engine of its own, under every schedule of the engine's tasks: the answer
    is the serialized result when no step of the flow failed, and otherwise an
    error that counts the failed steps, at least one; an invalid flow, an
    unknown name and a missing one are reported as errors without any call, and
    the other steps are left to the inner handler. *)
Theorem sub_flow_handler_correct `{JN : JsonNumber} `{JL : !JsonLib} `{UL : UuidLib}
    `{BP : BuildProfile} `{CL : ChronoLib} (get_by_name : string -> option FlowDef)
    (to_value : FlowResult -> result Value string) s :
  match sub_flow_of get_by_name s with
  | Some (n, f) =>
      (forall e, validate f = Err e -> sub_flow_handler get_by_name to_value s =
         ret (Err ("sub-flow '" +:+ n +:+ "' failed: " +:+ fmt_error e))) /\
      (runnable f -> validate f = Ok tt -> forall c o,
       rtc (step (exec_ctx sub_engine f))
         (start_config (max_concurrency config_default) (sub_flow_handler get_by_name to_value s)) c ->
       coord c = Done o ->
       match o with
       | Returned v => exists fr,
           mode_results sub_engine f false (result_steps fr) /\ result_ok f fr /\
           (failed_count fr = 0%nat ->
              v = match to_value fr with Ok v => Ok v | Err e => Err ("serialize: " +:+ e) end) /\
           (failed_count fr <> 0%nat ->
              v = Err ("sub-flow '" +:+ n +:+ "' failed: " +:+
                       show_Z (Z.of_nat (failed_count fr)) +:+ " step(s) failed"))
       | Panicked => flow_mode f = FlowMode.Sequential \/ flow_mode f = FlowMode.Hierarchical
       | OutOfFuel => False
       end)
  | None =>
      (step_type s = Some "sub_flow" -> sub_flow_handler get_by_name to_value s =
         ret (Err match sub_flow_name s with
                  | None => "sub_flow step requires config.flow_name"
                  | Some n => "sub-flow '" +:+ n +:+ "' not found in storage"
                  end)) /\
      (step_type s <> Some "sub_flow" -> sub_flow_handler get_by_name to_value s = call_inner s)
  end.
Proof.
  destruct (sub_flow_of get_by_name s) as [[n f]|] eqn:Hs.
  - split; [intros e; by apply sub_flow_refused|]. intros Hf Hv c o Hreach Hdone.
    pose proof (coord_wp _ _ _ _ _ Hreach (pool_inv_start _ _ _)
      (wp_sub_flow get_by_name to_value s n f Hs Hf Hv)) as H.
    rewrite Hdone in H. destruct o as [v| |]; [|done..]. destruct H as (fr & Hres & Hok & ->).
    exists fr. split; [done|]. split; [done|]. unfold failed_count.
    rewrite <- has_failures_count. destruct (has_failures _); split; congruence.
  - unfold sub_flow_of, sub_flow_handler in *. case_bool_decide; cbn [negb]; (split; [|done]); [|done].
    intros _. destruct (sub_flow_name s) as [n|]; [|done]. cbn in Hs. by destruct (get_by_name n).
Qed.

(** ** Witnesses *)

Module SubFlowExamples.
Export EndToEndExamples.

(** A step that runs the flow [ci] of [RunnerExamples], whose second step fails. *)
Definition nested : StepDef :=
  with_config (with_step_type (step_new 5%N "nested") "sub_flow")
    (VObject [("flow_name", VString "ci")]).
Definition stored (n : string) : option FlowDef :=
  if bool_decide (n = "ci") then Some flow else None.
Definition to_null (fr : FlowResult) : result Value string := Ok Null.
Definition message : string := "sub-flow 'ci' failed: 1 step(s) failed".

Definition sub_start : config :=
  start_config (max_concurrency config_default) (sub_flow_handler stored to_null nested).
Definition sub_final : config := drive (exec_ctx sub_engine flow) 200 env sub_start.

Lemma sub_final_reached : rtc (step (exec_ctx sub_engine flow)) sub_start sub_final.
Proof. apply drive_reaches, runner_env_legal. Qed.
Lemma sub_final_done : coord sub_final = Done (Returned (Err message)).
Proof. reflexivity. Qed.
End SubFlowExamples.

#[local] Existing Instances SerdeModel.serde_number SerdeModel.serde_lib
  StepExamples.ids StepExamples.release RunnerExamples.utc.

Lemma sub_flow_handler_correct_witness :
  exists fr, mode_results sub_engine RunnerExamples.flow false (result_steps fr) /\
    failed_count fr <> 0%nat /\
    SubFlowExamples.message =
      "sub-flow 'ci' failed: " +:+ show_Z (Z.of_nat (failed_count fr)) +:+ " step(s) failed".
Proof.
  destruct (sub_flow_handler_correct SubFlowExamples.stored SubFlowExamples.to_null
    SubFlowExamples.nested) as [_ H].
  destruct (H EndToEndExamples.flow_runnable eq_refl _ _ SubFlowExamples.sub_final_reached
    SubFlowExamples.sub_final_done) as (fr & Hres & _ & H0 & H1).
  exists fr. split; [done|].
  assert (failed_count fr <> 0%nat) as Hne by (intros E; specialize (H0 E); discriminate H0).
  split; [done|]. pose proof (f_equal (fun r => match r with Err e => e | Ok _ => "" end) (H1 Hne)) as E. exact E.
Defined.
