(* ===== verification/RustPath.v ===== *)
(** * Lines, words and paths of the Rust standard library

    What the tools of the MCP server call of [core::str] and [std::path] (for
    Unix), on the bytes of a text.  A path is its bytes, which are UTF-8
    throughout the program. *)

From Stdlib Require Import ZArith Lia Ascii SpecFloat.
From stdpp Require Import base tactics option list strings.
From S2P Require Import Prelude RustStr.

Open Scope Z_scope.

(** ** Lines and words *)

Definition LF : ascii := ascii_of_nat 10.
Definition CR : ascii := ascii_of_nat 13.

Definition ends_with (c : ascii) (l : list ascii) : bool := bool_decide (last l = Some c).

(** [str::lines]: a line ends at a line feed, with the return before it; what
    follows the last line feed is a line unless it is empty. *)
Definition strip_return (l : list ascii) : list ascii :=
  if ends_with CR l then removelast l else l.
Fixpoint strip_lines (ps : list (list ascii)) : list (list ascii) :=
  match ps with
  | [] => []
  | [p] => if bool_decide (p = []) then [] else [p]
  | p :: ps => strip_return p :: strip_lines ps
  end.
Definition lines (l : list ascii) : list (list ascii) := strip_lines (split_bytes LF l).

(** The bytes of the white space a text starts with. *)
Definition leading_space (l : list ascii) : option nat :=
  match l with
  | a :: l1 =>
      if ws1 a then Some 1%nat
      else match l1 with
           | b :: l2 =>
               if ws2 a b then Some 2%nat
               else match l2 with c :: _ => if ws3 a b c then Some 3%nat else None | [] => None end
           | [] => None
           end
  | [] => None
  end.

(** [str::split_whitespace]: [skip] bytes of a space are still to pass, [cur] is
    the word read so far. *)
Fixpoint words_loop (skip : nat) (cur l : list ascii) : list (list ascii) :=
  match l with
  | [] => if bool_decide (cur = []) then [] else [rev cur]
  | a :: l' =>
      match skip with
      | S skip => words_loop skip cur l'
      | O =>
          match leading_space l with
          | Some n =>
              let rest := words_loop (n - 1) [] l' in
              if bool_decide (cur = []) then rest else rev cur :: rest
          | None => words_loop 0 (a :: cur) l'
          end
      end
  end.
Definition split_whitespace (l : list ascii) : list (list ascii) := words_loop 0 [] l.

(** [s.splitn(n, c)] *)
Fixpoint splitn (n : nat) (sep : ascii) (l : list ascii) : list (list ascii) :=
  match n with
  | O => []
  | S O => [l]
  | S n =>
      match span (fun a => negb (eqc a sep)) l with
      | (p, []) => [p]
      | (p, _ :: rest) => p :: splitn n sep rest
      end
  end.

(** [str::contains] *)
Definition contains (p l : list ascii) : bool := bool_decide (is_Some (find_bytes p l)).

(** [str::eq_ignore_ascii_case] *)
Definition to_lower (c : ascii) : ascii :=
  if between 65 90 c then ascii_of_N (Z.to_N (code c + 32)) else c.
Definition eq_ignore_ascii_case (l m : list ascii) : bool :=
  bool_decide (to_lower <$> l = to_lower <$> m).

(** [str::parse::<f64>] on any text: a sign, then digits with a point and an
    exponent, or one of the words for the other values. *)
Definition exponent (l : list ascii) : option Z :=
  let '(negative, l) := match l with
    | c :: l' => if eqc c "-" then (true, l') else if eqc c "+" then (false, l') else (false, l)
    | [] => (false, [])
    end in
  if bool_decide (l <> []) && forallb is_ascii_digit l
  then Some (if negative then - digits_val l else digits_val l) else None.

Definition f64_scaled (d k : Z) : f64 :=
  if 0 <=? k then f64_of_Z (d * 10 ^ k) else f64_of_decimal d (- k).

Definition parse_f64_number (l : list ascii) : option f64 :=
  let '(ip, r) := span is_ascii_digit l in
  let '(fp, r) := match r with
    | c :: r' => if eqc c "." then span is_ascii_digit r' else ([], r)
    | [] => ([], [])
    end in
  let d := digits_val (ip ++ fp) in
  let k := Z.of_nat (length fp) in
  if bool_decide (ip ++ fp = []) then None
  else
    match r with
    | [] => Some (f64_scaled d (- k))
    | c :: r' =>
        if eqc (to_lower c) "e" then (fun e => f64_scaled d (e - k)) <$> exponent r' else None
    end.

Definition parse_f64_unsigned (l : list ascii) : option f64 :=
  match parse_f64_number l with
  | Some x => Some x
  | None =>
      if eq_ignore_ascii_case l (as_bytes "inf") || eq_ignore_ascii_case l (as_bytes "infinity")
      then Some (S754_infinity false)
      else if eq_ignore_ascii_case l (as_bytes "nan") then Some S754_nan else None
  end.

Definition parse_f64_text (l : list ascii) : option f64 :=
  match l with
  | c :: l' =>
      if eqc c "-" then SFopp <$> parse_f64_unsigned l'
      else if eqc c "+" then parse_f64_unsigned l' else parse_f64_unsigned l
  | [] => None
  end.

Example parse_uptime : parse_f64_text (as_bytes "12.5") = Some (f64_of_decimal 125 1).
Proof. vm_compute. reflexivity. Qed.
Example parse_exponent : parse_f64_text (as_bytes "-1.5E+1") = Some (SFopp (f64_of_Z 15)).
Proof. vm_compute. reflexivity. Qed.
Example parse_word : parse_f64_text (as_bytes "Inf") = Some (S754_infinity false) /\
  parse_f64_text (as_bytes "e5") = None /\ parse_f64_text (as_bytes "+") = None.
Proof. vm_compute. auto. Qed.

Example lines_example : lines (as_bytes "a" ++ [CR; LF] ++ as_bytes "b" ++ [LF]) = [["a"%char]; ["b"%char]].
Proof. reflexivity. Qed.
Example lines_empty : lines [] = [].
Proof. reflexivity. Qed.
Example words_example :
  split_whitespace (as_bytes " to be ") = [as_bytes "to"; as_bytes "be"].
Proof. reflexivity. Qed.
Example splitn_example : splitn 2 "|" (as_bytes "a|b|c") = [as_bytes "a"; as_bytes "b|c"].
Proof. reflexivity. Qed.

(** ** Paths *)

Definition is_absolute (path : list ascii) : bool :=
  match path with c :: _ => eqc c "/" | [] => false end.

(** [Path::join]: an absolute path replaces the base; a separator is added to a
    base that has none. *)
Definition path_join (base path : list ascii) : list ascii :=
  if is_absolute path then path
  else if bool_decide (base = []) || ends_with "/" base then base ++ path
  else base ++ "/"%char :: path.

Inductive component : Type := RootDir | CurDir | ParentDir | Normal (name : list ascii).
#[export] Instance component_eq_dec : EqDecision component.
Proof. solve_decision. Defined.

(** A separator at the start is the root; a dot there is kept; the rest is
    separated into pieces. *)
Definition path_body (path : list ascii) : list ascii * list ascii :=
  match path with
  | [] => ([], [])
  | c :: body =>
      if eqc c "/" then (["/"%char], body)
      else if eqc c "." && (bool_decide (body = []) || is_absolute body) then (["."%char], body)
      else ([], path)
  end.

Definition piece (p : list ascii) : option component :=
  if bool_decide (p = []) || bool_decide (p = as_bytes ".") then None
  else if bool_decide (p = as_bytes "..") then Some ParentDir
  else Some (Normal p).

Definition first_component (path : list ascii) : list component :=
  match (path_body path).1 with
  | c :: _ => if eqc c "/" then [RootDir] else [CurDir]
  | [] => []
  end.

(** [Path::components] *)
Definition components (path : list ascii) : list component :=
  first_component path ++ omap piece (split_bytes "/" (path_body path).2).

Fixpoint skip_empty (rps : list (list ascii)) : list (list ascii) :=
  match rps with
  | [] => []
  | p :: rps' => match piece p with None => skip_empty rps' | Some _ => rps end
  end.

(** The pieces from the last one that is a component, backwards. *)
Definition last_pieces (path : list ascii) : list (list ascii) :=
  skip_empty (rev (split_bytes "/" (path_body path).2)).

(** [Path::parent]: the path before the last component, as it is written. *)
Definition parent (path : list ascii) : option (list ascii) :=
  match last_pieces path with
  | [] => if bool_decide (first_component path = [CurDir]) then Some [] else None
  | _ :: rest => Some ((path_body path).1 ++ join_bytes "/" (rev (skip_empty rest)))
  end.

(** [Path::file_name] *)
Definition file_name (path : list ascii) : option (list ascii) :=
  match last_pieces path with
  | p :: _ => match piece p with Some (Normal name) => Some name | _ => None end
  | [] => None
  end.

Fixpoint is_prefix (base path : list component) : bool :=
  match base, path with
  | [], _ => true
  | c :: base, d :: path => bool_decide (c = d) && is_prefix base path
  | _ :: _, [] => false
  end.

(** [Path::starts_with]: component by component. *)
Definition path_starts_with (path base : list ascii) : bool :=
  is_prefix (components base) (components path).

Section PathExamples.
Let show (o : option (list ascii)) : option string := from_bytes <$> o.

Example join_relative : from_bytes (path_join (as_bytes "/a") (as_bytes "b")) = "/a/b".
Proof. reflexivity. Qed.
Example join_empty : from_bytes (path_join (as_bytes "/a") []) = "/a/".
Proof. reflexivity. Qed.
Example components_example : components (as_bytes "/a//./../b/") =
  [RootDir; Normal (as_bytes "a"); ParentDir; Normal (as_bytes "b")].
Proof. reflexivity. Qed.
Example components_dot : components (as_bytes "./a") = [CurDir; Normal (as_bytes "a")].
Proof. reflexivity. Qed.
Example parent_example : show (parent (as_bytes "/a//b/./c/")) = Some "/a//b".
Proof. reflexivity. Qed.
Example parent_top : show (parent (as_bytes "/a")) = Some "/".
Proof. reflexivity. Qed.
Example parent_root : parent (as_bytes "//") = None.
Proof. reflexivity. Qed.
Example parent_relative : show <$> [parent (as_bytes "a"); parent (as_bytes "./a"); parent (as_bytes ".")] =
  [Some ""; Some "."; Some ""].
Proof. reflexivity. Qed.
Example file_name_example : show <$> [file_name (as_bytes "/a/b/"); file_name (as_bytes "/a/..")] =
  [Some "b"; None].
Proof. reflexivity. Qed.
Example starts_with_components :
  path_starts_with (as_bytes "/work/a") (as_bytes "/work") = true /\
  path_starts_with (as_bytes "/workshop") (as_bytes "/work") = false.
Proof. split; reflexivity. Qed.
End PathExamples.

(** *** Facts on paths *)

Definition is_normal (c : component) : bool := match c with Normal _ => true | _ => false end.

(** Only names, from the root. *)
Definition canonical (path : list ascii) : bool :=
  match components path with
  | RootDir :: cs => forallb is_normal cs
  | _ => false
  end.

(** Below the directory [base], without a step up. *)
Definition inside (base path : list ascii) : Prop :=
  exists cs, components path = components base ++ cs /\ forallb is_normal cs = true.

(** A name that [read_dir] can give. *)
Definition entry_ok (name : list ascii) : bool :=
  negb (is_absolute name) &&
  match piece name with Some (Normal _) => forallb (fun a => negb (eqc a "/")) name | _ => false end.

Lemma split_bytes_app_sep sep a b :
  split_bytes sep (a ++ sep :: b) = split_bytes sep a ++ split_bytes sep b.
Proof.
  induction a as [|c a IH]; cbn.
  - unfold eqc. by rewrite bool_decide_eq_true_2.
  - rewrite IH. destruct (eqc c sep); [done|].
    by destruct (split_bytes_cons sep a) as (p & ps & ->).
Qed.

(** The components of what follows the root. *)
Definition names (body : list ascii) : list component := omap piece (split_bytes "/" body).

Lemma names_app a b : names (a ++ "/"%char :: b) = names a ++ names b.
Proof. unfold names. by rewrite split_bytes_app_sep, omap_app. Qed.

Lemma components_absolute body : components ("/"%char :: body) = RootDir :: names body.
Proof. done. Qed.

Lemma is_absolute_inv path : is_absolute path = true -> exists body, path = "/"%char :: body.
Proof.
  destruct path as [|c body]; [done|]. cbn. intros ->%bool_decide_eq_true. by exists body.
Qed.

Lemma canonical_absolute path : canonical path = true -> is_absolute path = true.
Proof.
  unfold canonical, components, first_component, path_body, is_absolute.
  destruct path as [|c body]; [done|]. destruct (eqc c "/"); [done|].
  destruct (eqc c "." && _); [done|]. cbn [fst snd app].
  generalize (split_bytes "/" (c :: body)). intros l. induction l as [|p l IH]; [done|].
  cbn. unfold piece at 1. repeat case_bool_decide; cbn; done || apply IH.
Qed.

Lemma no_slash_split name :
  forallb (fun a => negb (eqc a "/")) name = true -> split_bytes "/" name = [name].
Proof. apply split_bytes_none. Qed.

(** Joining a relative path adds its components. *)
Lemma components_join base path :
  is_absolute base = true -> is_absolute path = false ->
  components (path_join base path) = components base ++ names path.
Proof.
  intros (body & ->)%is_absolute_inv Hp. unfold path_join. rewrite Hp.
  destruct (_ || _) eqn:E; cbn [app]; rewrite !components_absolute.
  - rewrite bool_decide_eq_false_2 in E by done. cbn in E.
    apply bool_decide_eq_true in E. destruct body as [|c body _] using rev_ind; [done|].
    rewrite app_comm_cons, last_snoc in E. injection E as ->.
    rewrite <- app_assoc. cbn. by rewrite !names_app, app_nil_r.
  - by rewrite names_app.
Qed.

Lemma entry_names name : entry_ok name = true -> names name = [Normal name].
Proof.
  unfold entry_ok, names. intros [_ H]%andb_prop.
  destruct (piece name) as [[| | |n]|] eqn:Hp; try done. rewrite no_slash_split by done. cbn.
  rewrite Hp. unfold piece in Hp. repeat case_bool_decide; cbn in Hp; try done.
  by injection Hp as <-.
Qed.

Lemma canonical_join base name :
  canonical base = true -> entry_ok name = true -> canonical (path_join base name) = true.
Proof.
  intros Hb Hn. unfold canonical in *.
  rewrite components_join, (entry_names _ Hn).
  - destruct (components base) as [|[] cs]; try done. cbn. by rewrite forallb_app, Hb.
  - by apply canonical_absolute.
  - unfold entry_ok in Hn. by destruct (is_absolute name).
Qed.

Lemma inside_join base path name :
  is_absolute path = true -> inside base path -> entry_ok name = true ->
  inside base (path_join path name).
Proof.
  intros Ha (cs & Hcs & Hn) He. exists (cs ++ [Normal name]).
  rewrite components_join, Hcs, entry_names, forallb_app, Hn by
    (done || by unfold entry_ok in He; destruct (is_absolute name)).
  by rewrite <- app_assoc.
Qed.

Lemma canonical_inside base path :
  canonical base = true -> canonical path = true -> path_starts_with path base = true ->
  inside base path.
Proof.
  unfold path_starts_with, inside, canonical. intros Hb Hc Hp.
  assert (exists cs, components path = components base ++ cs) as [cs Hcs].
  { clear Hc Hb. revert Hp. generalize (components path) as p. induction (components base) as [|c b IH].
    - intros p _. by exists p.
    - intros [|d p]; [done|]. cbn. intros [Hd Hp]%andb_prop. apply bool_decide_eq_true in Hd as <-.
      destruct (IH p Hp) as [cs ->]. by exists cs. }
  exists cs. split; [done|]. rewrite Hcs in Hc.
  destruct (components base) as [|[] b]; try done.
  cbn in Hc. rewrite forallb_app in Hc. by apply andb_prop in Hc as [_ ?].
Qed.

(** The last name of a path can be joined to another one. *)
Lemma split_no_sep sep l p : p ∈ split_bytes sep l -> forallb (fun a => negb (eqc a sep)) p = true.
Proof.
  revert p. induction l as [|c l IH]; intros p; cbn.
  - by intros ->%list_elem_of_singleton.
  - destruct (eqc c sep) eqn:Hc.
    + intros [->|H]%elem_of_cons; [done|by apply IH].
    + destruct (split_bytes_cons sep l) as (q & qs & E). rewrite E in *.
      intros [->|H]%elem_of_cons; [|apply IH; by right]. cbn. rewrite Hc. apply IH. by left.
Qed.

Lemma skip_empty_incl rps p : p ∈ skip_empty rps -> p ∈ rps.
Proof.
  induction rps as [|q rps IH]; [done|]. cbn. destruct (piece q); [done|]. intros H. right. by apply IH.
Qed.

Lemma file_name_ok path name : file_name path = Some name -> entry_ok name = true.
Proof.
  unfold file_name. destruct (last_pieces path) as [|p ps] eqn:Hl; [done|].
  destruct (piece p) as [[| | |n]|] eqn:Hp; [done..| |done]. intros [= ->].
  assert (p = name) as ->. { unfold piece in Hp. repeat case_bool_decide; cbn in Hp; try done. by injection Hp. }
  assert (Hin : name ∈ skip_empty (rev (split_bytes "/" (path_body path).2))).
  { change (name ∈ last_pieces path). rewrite Hl. by left. }
  apply skip_empty_incl, list_elem_of_In, in_rev in Hin.
  apply list_elem_of_In, split_no_sep in Hin.
  unfold entry_ok. rewrite Hp, Hin. destruct name as [|c name]; [done|]. cbn in *.
  by destruct (eqc c "/").
Qed.

(** *** Facts on lines *)

Definition has_no (c : ascii) (l : list ascii) : Prop := forallb (fun a => negb (eqc a c)) l = true.

Lemma split_join sep ps :
  ps <> [] -> Forall (has_no sep) ps -> split_bytes sep (join_bytes sep ps) = ps.
Proof.
  induction ps as [|p ps IH]; [done|]. intros _ [Hp Hps]%Forall_cons.
  destruct ps as [|q ps]; [by apply split_bytes_none|].
  change (join_bytes sep (p :: q :: ps)) with (p ++ sep :: join_bytes sep (q :: ps)).
  rewrite split_bytes_app by done. by rewrite IH.
Qed.

Definition line_ok (l : list ascii) : Prop := has_no LF l /\ ends_with CR l = false.

Lemma strip_return_ok l : ends_with CR l = false -> strip_return l = l.
Proof. unfold strip_return. by intros ->. Qed.

Lemma strip_lines_ok ps :
  Forall (fun l => ends_with CR l = false) ps -> last ps <> Some [] -> strip_lines ps = ps.
Proof.
  induction ps as [|p ps IH]; [done|]. intros [Hp Hps]%Forall_cons Hl.
  destruct ps as [|q ps]; cbn [strip_lines].
  - rewrite bool_decide_eq_false_2; [done|]. intros ->. by apply Hl.
  - rewrite strip_return_ok by done. f_equal. by apply IH.
Qed.

(** The lines that were joined, when the last one is not empty. *)
Lemma lines_join ps :
  Forall line_ok ps -> last ps <> Some [] -> lines (join_bytes LF ps) = ps.
Proof.
  intros Hps Hl. unfold lines. destruct ps as [|p ps]; [done|].
  rewrite split_join; [|done|].
  - apply strip_lines_ok; [|done]. eapply Forall_impl; [exact Hps|]. by intros l [_ ?].
  - eapply Forall_impl; [exact Hps|]. by intros l [? _].
Qed.

Lemma splitn_next n sep p rest :
  has_no sep p -> splitn (S (S n)) sep (p ++ sep :: rest) = p :: splitn (S n) sep rest.
Proof.
  intros Hp. cbn [splitn]. rewrite span_all; [done|done|].
  unfold eqc. by rewrite bool_decide_eq_true_2.
Qed.
