(* ===== verification/Mcp.v ===== *)
(** * The MCP server: tools and their responses

    [rust-old/src/mcp/mod.rs]: the [Tool] interface, the JSON of responses, the
    error codes.  A tool is a definition and a call, which computes a response
    from its arguments and may talk to the operating system; [mcp] is the syntax
    of such a computation, [mwp] its weakest precondition over all answers.

    [bote], which dispatches the calls, is not part of the program. *)

From Stdlib Require Import ZArith Lia Ascii.
From stdpp Require Import base tactics option list strings gmap.
From S2P Require Import Prelude RustStr Json Step Bus RustPath.

Open Scope Z_scope.

(** ** What the tools use of [serde_json] *)

(** [serde_json::Error], by its text and its position. *)
Record JsonError : Type := mkJsonError {
  json_message : string;
  json_line : Z;
  json_column : Z
}.

Class McpJson `{JN : JsonNumber} := {
  (** [Number::as_u64] *)
  number_as_u64 : Number -> option Z;
  number_of_i64 : Z -> Number;
  (** [serde_json::from_str::<Value>] and [serde_json::to_string_pretty] *)
  json_from_str : string -> result Value JsonError;
  to_string_pretty : Value -> result string string
}.

Class McpJsonLaws `{MJ : McpJson} : Prop := {
  as_u64_range n u : number_as_u64 n = Some u -> in_u64 u;
  as_u64_of_u64 u : in_u64 u -> number_as_u64 (number_of_u64 u) = Some u
}.

Section Values.
Context `{JN : JsonNumber}.

Definition as_bool (v : Value) : option bool :=
  match v with VBool b => Some b | _ => None end.
Definition as_array (v : Value) : option (list Value) :=
  match v with VArray a => Some a | _ => None end.
Definition as_object (v : Value) : option (list (string * Value)) :=
  match v with VObject o => Some o | _ => None end.
Definition as_u64 `{MJ : !McpJson} (v : Value) : option Z :=
  match v with VNumber n => number_as_u64 n | _ => None end.
(** [Value::as_f64] *)
Definition value_as_f64 (v : Value) : option f64 :=
  match v with VNumber n => as_f64 n | _ => None end.

(** [json!] of an unsigned integer, of an [f64] and of a [&str] list. *)
Definition json_u64 (n : Z) : Value := VNumber (number_of_u64 n).
Definition json_nat (n : nat) : Value := json_u64 (Z.of_nat n).
Definition json_i64 `{MJ : !McpJson} (n : Z) : Value := VNumber (number_of_i64 n).
Definition json_f64 (x : f64) : Value :=
  match from_f64 x with Some n => VNumber n | None => Null end.
Definition json_strings (l : list string) : Value := VArray (VString <$> l).
End Values.

Lemma as_u64_json `{ML : McpJsonLaws} n : in_u64 n -> as_u64 (json_u64 n) = Some n.
Proof. apply as_u64_of_u64. Qed.

(** ** Error codes *)

Module McpErrorCode.
Inductive t : Type :=
| Validation | NotFound | PermissionDenied | Timeout | IoError | Internal.

#[export] Instance eq_dec : EqDecision t.
Proof. solve_decision. Defined.

Definition as_str (c : t) : string :=
  match c with
  | Validation => "validation"
  | NotFound => "not_found"
  | PermissionDenied => "permission_denied"
  | Timeout => "timeout"
  | IoError => "io_error"
  | Internal => "internal"
  end.

Definition is_retryable (c : t) : bool :=
  match c with Timeout | IoError | Internal => true | _ => false end.

Lemma as_str_inj c d : as_str c = as_str d -> c = d.
Proof. by destruct c, d. Qed.
End McpErrorCode.

(** ** Responses *)

Section Responses.
Context `{JN : JsonNumber} `{JL : !JsonLib}.

Definition object (l : list (string * Value)) : Value := VObject (json_object l).

Definition text_content (text : string) : Value :=
  VArray [object [("type", VString "text"); ("text", VString text)]].

Definition result_ok (text : string) : Value :=
  object [("content", text_content text); ("isError", VBool false)].

(** [to_string_pretty(value).unwrap_or_default()] *)
Definition pretty `{MJ : !McpJson} (v : Value) : string :=
  match to_string_pretty v with Ok s => s | Err _ => "" end.

Definition result_ok_json `{MJ : !McpJson} (v : Value) : Value :=
  object [("content", text_content (pretty v)); ("isError", VBool false)].

Definition result_error (msg : string) : Value :=
  object [("content", text_content msg); ("isError", VBool true)].

Definition result_error_typed (c : McpErrorCode.t) (msg : string) : Value :=
  object [("content", text_content msg); ("isError", VBool true);
          ("_meta", object [("error_code", VString (McpErrorCode.as_str c));
                            ("retryable", VBool (McpErrorCode.is_retryable c))])].

(** *** Reading a response *)

Definition response_text (v : Value) : option string :=
  match value_get v "content" with
  | Some (VArray [c]) =>
      match value_get c "type" with
      | Some (VString t) => if bool_decide (t = "text") then value_get c "text" ≫= as_str else None
      | _ => None
      end
  | _ => None
  end.

Definition response_error (v : Value) : option bool := value_get v "isError" ≫= as_bool.

Definition response_code (v : Value) : option string :=
  value_get v "_meta" ≫= (fun m => value_get m "error_code" ≫= as_str).

Definition response_retryable (v : Value) : option bool :=
  value_get v "_meta" ≫= (fun m => value_get m "retryable" ≫= as_bool).
End Responses.

(** *** What responses are *)

Section ResponseFacts.
Context `{JL : JsonLaws}.

Lemma json_object_snoc l k v : json_object (l ++ [(k, v)]) = map_insert k v (json_object l).
Proof. unfold json_object. by rewrite fold_left_app. Qed.

(** [json!({...})[k]]: the last binding of [k]. *)
Lemma object_get l k : value_get (object l) k = assoc k (rev l).
Proof.
  unfold object. rewrite value_get_object. induction l as [|[k' v] l IH] using rev_ind.
  - cbn. unfold json_object. cbn. done.
  - rewrite json_object_snoc, assoc_map_insert, rev_unit. cbn.
    destruct (decide (k = k')); [done|]. by rewrite IH.
Qed.

(** A response says [text], and whether and with which code it is an error. *)
Record says (v : Value) (text : string) (err : bool) (code : option McpErrorCode.t) : Prop := {
  says_text : response_text v = Some text;
  says_error : response_error v = Some err;
  says_code : response_code v = McpErrorCode.as_str <$> code;
  says_retryable : response_retryable v = McpErrorCode.is_retryable <$> code
}.

Lemma text_of_content v text :
  value_get v "content" = Some (text_content text) -> response_text v = Some text.
Proof.
  unfold response_text, text_content. intros ->. rewrite !object_get. done.
Qed.

Ltac says_solve :=
  split; [apply text_of_content; by rewrite object_get|
          unfold response_error; by rewrite object_get|
          unfold response_code; rewrite object_get; cbn; try (rewrite decide_True by done; cbn; by rewrite object_get)|
          unfold response_retryable; rewrite object_get; cbn; try (rewrite decide_True by done; cbn; by rewrite object_get)]; try done.

Lemma says_result_ok text : says (result_ok text) text false None.
Proof. unfold result_ok. says_solve. Qed.
Lemma says_result_ok_json `{MJ : !McpJson} v : says (result_ok_json v) (pretty v) false None.
Proof. unfold result_ok_json. says_solve. Qed.
Lemma says_result_error text : says (result_error text) text true None.
Proof. unfold result_error. says_solve. Qed.
Lemma says_result_error_typed c text : says (result_error_typed c text) text true (Some c).
Proof. unfold result_error_typed. says_solve. Qed.
End ResponseFacts.

(** ** Definitions of tools *)

Section Definitions.
Context `{JN : JsonNumber} `{JL : !JsonLib}.

(** [bote::ToolDef], with the [ToolSchema] it is built from. *)
Record ToolDef : Type := mkToolDef {
  tool_name : string;
  tool_description : string;
  tool_properties : gmap string Value;
  tool_required : list string
}.

(** [map.into_iter().collect()] into a [HashMap] *)
Definition collect_map (o : list (string * Value)) : gmap string Value :=
  list_to_map o.

Definition tool_def (nm desc : string) (properties : Value) (required : list string) : ToolDef :=
  let props := match properties with VObject o => collect_map o | _ => ∅ end in
  mkToolDef nm desc props required.

(** A property of the schema, in the forms the tools use. *)
Definition prop (ty desc : string) : Value :=
  object [("type", VString ty); ("description", VString desc)].
Definition prop_type (ty : string) : Value := object [("type", VString ty)].
Definition prop_enum (values : list string) : Value :=
  object [("type", VString "string"); ("enum", json_strings values)].
Definition prop_enum_desc (values : list string) (desc : string) : Value :=
  object [("type", VString "string"); ("enum", json_strings values); ("description", VString desc)].
Definition prop_items (item desc : string) : Value :=
  object [("type", VString "array"); ("items", prop_type item); ("description", VString desc)].
End Definitions.

(** ** Calls of the operating system *)

(** What the tools read of [std::fs::Metadata]. *)
Inductive file_kind : Type := Directory | Symlink | RegularFile | OtherFile.
#[export] Instance file_kind_eq_dec : EqDecision file_kind.
Proof. solve_decision. Defined.

Record Metadata : Type := mkMetadata {
  meta_kind : file_kind;
  meta_len : Z;
  meta_readonly : bool;
  meta_modified : option Timestamp
}.

(** An entry of a directory; [file_type] and [metadata] can fail. *)
Record DirEntry : Type := mkDirEntry {
  entry_name : string;
  entry_kind : result file_kind string;
  entry_metadata : result Metadata string
}.

(** [std::process::Output], with what was printed as [from_utf8_lossy] reads it. *)
Record Output : Type := mkOutput {
  out_success : bool;
  out_code : option Z;
  out_stdout : string;
  out_stderr : string
}.

(** The limiters of [NetworkPool]. *)
Inductive limiter : Type := HttpLimiter | DnsLimiter | PortLimiter.

Inductive io : Type :=
| NewUuid
| UtcNow
| CurrentDir
| Canonicalize (path : string)
| StatFile (path : string)
| StatSymlink (path : string)
| ReadToString (path : string)
| ReadBytes (path : string)
| WriteFile (path content : string)
| AppendFile (path content : string)
| OpenDir (path : string)
| NextEntry (dir : nat)
| RunCommand (program : string) (args : list string) (cwd : option string) (timeout : option Z)
| EnvVar (name : string)
| LookupHost (addr : string)
| TcpConnect (addr : string) (timeout : Z)
| CheckRate (l : limiter) (key : string)
| OpenRandom
| RandomBytes (n : nat)
| ProcessId
| Parallelism.

(** The [io::Error]s by their texts; [None] is a command that ran into its time
    limit.  [AppendFile] opens a file, creates it if need be, and writes at its
    end. *)
Definition io_res (a : io) : Type :=
  match a with
  | NewUuid => Uuid
  | UtcNow => Timestamp
  | CurrentDir => result string string
  | Canonicalize _ => result string string
  | StatFile _ => result Metadata string
  | StatSymlink _ => result Metadata string
  | ReadToString _ => result string string
  | ReadBytes _ => result (list ascii) string
  | WriteFile _ _ => result unit string
  | AppendFile _ _ => result unit string
  | OpenDir _ => result nat string
  | NextEntry _ => result (option DirEntry) string
  | RunCommand _ _ _ _ => option (result Output string)
  | EnvVar _ => option string
  | LookupHost _ => result (list string) string
  | TcpConnect _ _ => bool
  | CheckRate _ _ => bool
  | OpenRandom => result unit string
  | RandomBytes _ => result (list ascii) string
  | ProcessId => Z
  | Parallelism => result Z string
  end.

Inductive event : Type := Event (a : io) (r : io_res a).
Definition event_io (e : event) : io := let 'Event a _ := e in a.

(** What is documented of the answers: a canonical path is absolute and consists
    of names, a directory's entries have names other than [.] and [..], a command
    without a time limit does not run into it, and as many random bytes are read
    as were asked for. *)
Definition io_legal (a : io) : io_res a -> Prop :=
  match a with
  | Canonicalize _ => fun r =>
      match r with Ok p => canonical (as_bytes p) = true | Err _ => True end
  | NextEntry _ => fun r =>
      match r with Ok (Some e) => entry_ok (as_bytes (entry_name e)) = true | _ => True end
  | RunCommand _ _ _ None => fun r => r <> None
  | RandomBytes n => fun r => match r with Ok l => length l = n | Err _ => True end
  | _ => fun _ => True
  end.

(** A computation that returns or panics. *)
Inductive mcp (A : Type) : Type :=
| MRet (x : A)
| MPanic
| MIo (a : io) (k : io_res a -> mcp A).
Arguments MRet {A} x.
Arguments MPanic {A}.
Arguments MIo {A} a k.

Definition call_io (a : io) : mcp (io_res a) := MIo a MRet.

Fixpoint mcp_bind {A B} (m : mcp A) (k : A -> mcp B) : mcp B :=
  match m with
  | MRet x => k x
  | MPanic => MPanic
  | MIo a f => MIo a (fun r => mcp_bind (f r) k)
  end.

Notation "'let*' x ':=' c 'in' k" := (mcp_bind c (fun x => k))
  (at level 10, x pattern, c at level 100, k at level 200,
   format "'let*'  x  ':='  c  'in' '//' k") : szal_scope.

(** Whatever is answered, [Q] holds of the calls made and of the result, [None]
    for a panic. *)
Fixpoint mwp {A} (h : list event) (m : mcp A) (Q : list event -> option A -> Prop) : Prop :=
  match m with
  | MRet x => Q h (Some x)
  | MPanic => Q h None
  | MIo a k => forall r, io_legal a r -> mwp (h ++ [Event a r]) (k r) Q
  end.

Lemma mwp_mono {A} h (m : mcp A) (Q Q' : list event -> option A -> Prop) :
  (forall h o, Q h o -> Q' h o) -> mwp h m Q -> mwp h m Q'.
Proof.
  intros HQ. revert h. induction m as [x| |a k IH]; intros h; cbn; [auto..|].
  intros H r Hr. by apply IH, H.
Qed.

Lemma mwp_bind {A B} h (m : mcp A) (k : A -> mcp B) Q :
  mwp h m (fun h o => match o with Some x => mwp h (k x) Q | None => Q h None end) ->
  mwp h (mcp_bind m k) Q.
Proof.
  revert h. induction m as [x| |a f IH]; intros h; cbn; [done..|].
  intros H r Hr. by apply IH, H.
Qed.

(** One run: every call answered by [o]. *)
Fixpoint mcp_run {A} (o : list event -> forall a, io_res a) (h : list event) (m : mcp A)
  : list event * option A :=
  match m with
  | MRet x => (h, Some x)
  | MPanic => (h, None)
  | MIo a k => let r := o h a in mcp_run o (h ++ [Event a r]) (k r)
  end.

Lemma mwp_run {A} o h (m : mcp A) Q :
  (forall h a, io_legal a (o h a)) -> mwp h m Q -> Q (mcp_run o h m).1 (mcp_run o h m).2.
Proof.
  intros Ho. revert h. induction m as [x| |a k IH]; intros h; cbn; [done..|].
  intros H. apply IH, H, Ho.
Qed.

Lemma mwp_conj {A} h (m : mcp A) Q Q' :
  mwp h m Q -> mwp h m Q' -> mwp h m (fun h o => Q h o /\ Q' h o).
Proof. revert h. induction m as [x| |a k IH]; intros h; cbn; auto. Qed.

Lemma mwp_grows {A} h (m : mcp A) : mwp h m (fun h' _ => h `prefix_of` h').
Proof.
  revert h. induction m as [x| |a k IH]; intros h; cbn; [done..|].
  intros r _. eapply mwp_mono; [|by apply IH]. intros h' o Hp. cbn in Hp.
  etrans; [|exact Hp]. by apply prefix_app_r.
Qed.

(** ** Tools *)

Record Tool `{JN : JsonNumber} : Type := mkTool {
  definition : ToolDef;
  tool_call : Value -> mcp Value
}.

(** [let x = match c { Some(x) => x, None => return e };] *)
Notation "'require' x ':=' c 'else' e 'in' k" := (match c with Some x => k | None => MRet e end)
  (at level 10, x name, c at level 100, e at level 100, k at level 200,
   format "'require'  x  ':='  c  'else'  e  'in' '//' k") : szal_scope.

Section Arguments.
Context `{JN : JsonNumber} `{JL : !JsonLib}.

(** [args.get(k).and_then(|v| v.as_...())] *)
Definition get_str (args : Value) (k : string) : option string := value_get args k ≫= as_str.
Definition get_bool (args : Value) (k : string) : option bool := value_get args k ≫= as_bool.
Definition get_array (args : Value) (k : string) : option (list Value) := value_get args k ≫= as_array.
Definition get_object (args : Value) (k : string) : option (list (string * Value)) :=
  value_get args k ≫= as_object.
Definition get_f64 (args : Value) (k : string) : option f64 := value_get args k ≫= value_as_f64.
Definition get_u64 `{MJ : !McpJson} (args : Value) (k : string) : option Z :=
  value_get args k ≫= as_u64.

(** [args[k]] *)
Definition index (args : Value) (k : string) : Value := default Null (value_get args k).

Definition missing (k : string) : Value :=
  result_error_typed McpErrorCode.Validation ("missing required field: " +:+ k).
Definition invalid (text : string) : Value := result_error_typed McpErrorCode.Validation text.
End Arguments.

(** ** What every tool promises *)

Section ToolInterface.
Context `{JN : JsonNumber} `{JL : !JsonLib} `{LW : !JsonLaws}.

Definition refusal (v : Value) : Prop := exists text c, says v text true (Some c).
Definition response (v : Value) : Prop :=
  refusal v \/ exists text, says v text false None.

(** The fields a tool requires are among its properties; whatever the operating
    system answers, what it returns is a response; and when a required field is
    missing, it returns a refusal. *)
Class ToolLaws (t : Tool) : Prop := {
  required_declared k : k ∈ tool_required (definition t) ->
    is_Some (tool_properties (definition t) !! k);
  call_responds args h : mwp h (tool_call t args) (fun _ o => forall v, o = Some v -> response v);
  call_missing args k h : k ∈ tool_required (definition t) -> value_get args k = None ->
    mwp h (tool_call t args) (fun _ o => exists v, o = Some v /\ refusal v)
}.

Lemma refusal_typed c text : refusal (result_error_typed c text).
Proof. eexists _, _. apply says_result_error_typed. Qed.
Lemma response_typed c text : response (result_error_typed c text).
Proof. left. apply refusal_typed. Qed.
Lemma response_ok text : response (result_ok text).
Proof. right. eexists. apply says_result_ok. Qed.
Lemma response_ok_json `{MJ : !McpJson} v : response (result_ok_json v).
Proof. right. eexists. apply says_result_ok_json. Qed.
End ToolInterface.

#[export] Hint Resolve refusal_typed response_typed response_ok response_ok_json : szal.
#[export] Hint Unfold missing invalid : szal.

Lemma assoc_here {V} k (v : V) l : assoc k ((k, v) :: l) = Some v.
Proof. cbn. by rewrite decide_True. Qed.
Lemma assoc_next {V} k k' (v : V) l : k <> k' -> assoc k ((k', v) :: l) = assoc k l.
Proof. intros Hk. cbn. by rewrite decide_False. Qed.

(** Reads the fields of the objects in the goal. *)
Ltac read_fields :=
  unfold get_str, get_bool, get_array, get_object, get_u64, get_f64, index;
  rewrite ?object_get; cbn [rev app];
  repeat (rewrite assoc_here || rewrite assoc_next by done);
  cbn [assoc mbind option_bind default from_option Datatypes.id as_str as_bool
    as_array as_object].

Section Declared.
Context `{JN : JsonNumber} `{JL : !JsonLib} `{LW : !JsonLaws}.

Lemma collect_map_lookup o k : collect_map o !! k = assoc k o.
Proof.
  unfold collect_map. induction o as [|[k' v] o IH]; cbn; [by apply lookup_empty|].
  destruct (decide (k = k')) as [->|Hk]; [by rewrite lookup_insert_eq|by rewrite lookup_insert_ne].
Qed.

Lemma assoc_json_object l k : assoc k (json_object l) = assoc k (rev l).
Proof. rewrite <- value_get_object. apply object_get. Qed.

(** A field is declared by its entry in the schema. *)
Lemma declared nm desc l required k :
  is_Some (assoc k (rev l)) ->
  is_Some (tool_properties (tool_def nm desc (object l) required) !! k).
Proof. cbn. by rewrite collect_map_lookup, assoc_json_object. Qed.
End Declared.

(** One step of a tool's program. *)
Ltac tool_step :=
  match goal with
  | |- mwp _ (match ?c with _ => _ end) _ => destruct c
  | |- mwp _ (mcp_bind (call_io _) _) _ => cbn [call_io mcp_bind mwp]; intros ? _
  | |- mwp _ (mcp_bind _ _) _ => apply mwp_bind
  | |- mwp _ (MIo _ _) _ => cbn [mwp]; intros ? _
  | |- mwp _ (call_io _) _ => cbn [mwp call_io]; intros ? _
  | |- mwp _ (MRet _) _ => cbn [mwp]
  end.

Ltac head_of t := lazymatch t with ?f _ => head_of f | _ => t end.
(** Unfolds the tool, then its call. *)
Ltac unfold_tool :=
  lazymatch goal with |- context [tool_call ?t _] =>
    let t := head_of t in unfold t; cbn [tool_call] end;
  lazymatch goal with |- mwp _ ?m _ => let f := head_of m in unfold f end; cbv zeta.

(** The promises of a tool by symbolic execution of its call. *)
Ltac declares :=
  intros ? Hk; cbn in Hk;
  repeat (apply elem_of_cons in Hk as [->|Hk]; [apply declared; by eexists|]);
  by apply not_elem_of_nil in Hk.
Ltac responds :=
  intros ? ?; unfold_tool; repeat tool_step;
  intros ? [= <-]; unfold missing, invalid; auto with szal.
Ltac refuses :=
  intros ? ? ? Hk Hnone; unfold_tool; cbn [definition tool_required tool_def] in Hk;
  repeat (apply elem_of_cons in Hk as [->|Hk];
    [unfold get_str, get_u64, get_bool, get_array, get_object, get_f64;
     repeat first [rewrite Hnone; cbn [mbind option_bind]|tool_step];
     eexists; (split; [reflexivity|]); unfold missing, invalid; auto with szal|]);
  by apply not_elem_of_nil in Hk.
Ltac tool_laws := split; [declares|responds|refuses].

(** ** A concrete JSON library *)

Module McpModel.
Export SerdeModel.

Definition number_u64 (n : Num) : option Z :=
  match n with
  | PosInt n => if (0 <=? n) && (n <=? u64_max) then Some n else None
  | _ => None
  end.

Definition mcp_json (parse : string -> result Value JsonError) : McpJson := {|
  number_as_u64 := number_u64 : Number -> option Z;
  number_of_i64 n := (if 0 <=? n then PosInt n else NegInt n) : Number;
  json_from_str := parse;
  to_string_pretty v := Ok (text v)
|}.

Lemma mcp_json_laws parse : McpJsonLaws (MJ := mcp_json parse).
Proof.
  split.
  - intros [n|n|x] u; cbn; try done. destruct (_ && _) eqn:E; [|done]. intros [= <-].
    unfold in_u64. lia.
  - unfold in_u64. intros u Hu. cbn. by replace ((0 <=? u) && (u <=? u64_max)) with true by lia.
Qed.

Definition no_json (s : string) : result Value JsonError := Err (mkJsonError "expected value" 1 1).
End McpModel.

(** An operating system that refuses everything. *)
Definition denied (a : io) : io_res a :=
  match a with
  | NewUuid => 7%N
  | UtcNow => 0
  | CurrentDir | Canonicalize _ | StatFile _ | StatSymlink _ | ReadToString _
  | ReadBytes _ | WriteFile _ _ | AppendFile _ _ | OpenDir _ | NextEntry _
  | LookupHost _ | OpenRandom | RandomBytes _ | Parallelism => Err "denied"
  | RunCommand _ _ _ _ => Some (Err "denied")
  | EnvVar _ => None
  | TcpConnect _ _ => false
  | CheckRate _ _ => true
  | ProcessId => 1
  end.

Lemma denied_legal a : io_legal a (denied a).
Proof. destruct a; try done. by destruct timeout. Qed.
