(* ===== verification/Float.v ===== *)
(** * Binary64 arithmetic and its text

    What the tools of the MCP server use of [f64]: the four operations and the
    remainder, the casts to integers, [Display] and the format [{:.N}].  The
    numbers are those of [SpecFloat]; [RustStr] has their parsing. *)

From Stdlib Require Import ZArith Lia Ascii SpecFloat.
From stdpp Require Import base tactics option list strings.
From S2P Require Import Prelude RustStr.

Open Scope Z_scope.

(** ** Operations *)

Definition f64_add : f64 -> f64 -> f64 := SFadd f64_prec f64_emax.
Definition f64_sub : f64 -> f64 -> f64 := SFsub f64_prec f64_emax.
Definition f64_mul : f64 -> f64 -> f64 := SFmul f64_prec f64_emax.
Definition f64_div : f64 -> f64 -> f64 := SFdiv f64_prec f64_emax.
Definition f64_zero : f64 := S754_zero false.

(** The operator [%]: the exact remainder of the division truncated toward
    zero, with the sign of the dividend. *)
Definition f64_rem (x y : f64) : f64 :=
  match x, y with
  | S754_nan, _ | _, S754_nan | S754_infinity _, _ | _, S754_zero _ => S754_nan
  | _, S754_infinity _ => x
  | S754_zero _, _ => x
  | S754_finite sx mx ex, S754_finite _ my ey =>
      let e := Z.min ex ey in
      let a := Zpos mx * 2 ^ (ex - e) in
      let b := Zpos my * 2 ^ (ey - e) in
      match a mod b with
      | Zpos r => binary_normalize f64_prec f64_emax (if sx then Zneg r else Zpos r) e sx
      | _ => S754_zero sx
      end
  end.

(** [f64::trunc], as an integer; [None] for infinities and NaN. *)
Definition f64_truncate (x : f64) : option Z :=
  match x with
  | S754_zero _ => Some 0
  | S754_finite s m e =>
      let n := if 0 <=? e then Zpos m * 2 ^ e else Zpos m / 2 ^ (- e) in
      Some (if s then - n else n)
  | _ => None
  end.

(** [x.fract() == 0.0] *)
Definition f64_integral (x : f64) : bool :=
  match x with
  | S754_zero _ => true
  | S754_finite _ m e => (0 <=? e) || (Zpos m mod 2 ^ (- e) =? 0)
  | _ => false
  end.

(** [x as u64] and [x as i64] saturate, and take NaN to zero. *)
Definition f64_cast (lo hi : Z) (x : f64) : Z :=
  match x with
  | S754_nan => 0
  | S754_infinity s => if s then lo else hi
  | _ => match f64_truncate x with Some n => Z.max lo (Z.min n hi) | None => 0 end
  end.
Definition f64_to_u64 : f64 -> Z := f64_cast 0 u64_max.
Definition f64_to_i64 : f64 -> Z := f64_cast (- 2 ^ 63) (2 ^ 63 - 1).

Definition f64_ltb (x y : f64) : bool := SFltb x y.
Definition f64_abs (x : f64) : f64 := SFabs x.

(** ** Text *)

(** The absolute value of a finite number as a quotient of integers. *)
Definition f64_ratio (m : positive) (e : Z) : Z * Z :=
  if 0 <=? e then (Zpos m * 2 ^ e, 1) else (Zpos m, 2 ^ (- e)).

Definition decimal_length (n : Z) : Z := Z.of_nat (String.length (show_Z n)).

(** The power of ten of the first digit of [num / den]. *)
Fixpoint small_exponent (fuel : nat) (num den e : Z) : Z :=
  match fuel with
  | O => e
  | S fuel => if den <=? num then e else small_exponent fuel (num * 10) den (e - 1)
  end.
Definition decimal_exponent (num den : Z) : Z :=
  if den <=? num then decimal_length (num / den) - 1 else small_exponent 400 num den 0.

(** The number [d * 10^k], correctly rounded. *)
Definition f64_of_scaled (d k : Z) : f64 :=
  if 0 <=? k then f64_of_Z (d * 10 ^ k) else f64_of_decimal d (- k).

(** [d] such that [d * 10^k] has [n] digits, reads back as [x] and is closest to
    it. *)
Definition digits_at (x : f64) (num den k : Z) : option Z :=
  let scale := if 0 <=? k then (num, den * 10 ^ k) else (num * 10 ^ (- k), den) in
  let lo := scale.1 / scale.2 in
  let near := 2 * (scale.1 - lo * scale.2) <=? scale.2 in
  let reads d := f64_eqb (f64_of_scaled d k) x in
  let first := if near then lo else lo + 1 in
  let second := if near then lo + 1 else lo in
  if reads first then Some first else if reads second then Some second else None.

(** The shortest digits that read back as [x]; 17 are always enough.  The only
    digits with a zero at their end are those of a power of ten. *)
Fixpoint shortest (fuel : nat) (x : f64) (num den e n : Z) : Z * Z :=
  let k := e - n + 1 in
  match fuel with
  | O => (0, k)
  | S fuel =>
      match digits_at x num den k with
      | Some d => if d mod 10 =? 0 then (d / 10, k + 1) else (d, k)
      | None => shortest fuel x num den e (n + 1)
      end
  end.

Definition zeros (n : Z) : string := from_bytes (repeat "0"%char (Z.to_nat n)).

(** [d * 10^k] without an exponent. *)
Definition show_scaled (d k : Z) : string :=
  if 0 <=? k then show_Z d +:+ zeros k
  else
    let s := show_Z d in
    let padded := zeros (1 - k - Z.of_nat (String.length s)) +:+ s in
    let n := (String.length padded - Z.to_nat (- k))%nat in
    String.substring 0 n padded +:+ "." +:+ String.substring n (Z.to_nat (- k)) padded.

(** [impl Display for f64] *)
Definition show_f64 (x : f64) : string :=
  match x with
  | S754_zero s => if s then "-0" else "0"
  | S754_infinity s => if s then "-inf" else "inf"
  | S754_nan => "NaN"
  | S754_finite s m e =>
      let '(num, den) := f64_ratio m e in
      let '(d, k) := shortest 17 (S754_finite false m e) num den (decimal_exponent num den) 1 in
      (if s then "-" else "") +:+ show_scaled d k
  end.

(** The nearest integer to [a / b], ties to even. *)
Definition round_even (a b : Z) : Z :=
  let q := a / b in
  let r := 2 * (a mod b) in
  if r <? b then q else if b <? r then q + 1 else if Z.even q then q else q + 1.

(** [format!("{x:.N}")] *)
Definition show_fixed (n : Z) (x : f64) : string :=
  match x with
  | S754_zero s => (if s then "-" else "") +:+ show_scaled 0 (- n)
  | S754_infinity s => if s then "-inf" else "inf"
  | S754_nan => "NaN"
  | S754_finite s m e =>
      let '(num, den) := f64_ratio m e in
      (if s then "-" else "") +:+ show_scaled (round_even (num * 10 ^ n) den) (- n)
  end.

Example show_tenth : show_f64 (f64_of_decimal 1 1) = "0.1".
Proof. vm_compute. reflexivity. Qed.
Example show_third : show_f64 (f64_div (f64_of_Z 1) (f64_of_Z 3)) = "0.3333333333333333".
Proof. vm_compute. reflexivity. Qed.
Example show_sum : show_f64 (f64_add (f64_of_decimal 1 1) (f64_of_decimal 2 1)) = "0.30000000000000004".
Proof. vm_compute. reflexivity. Qed.
Example show_small : show_f64 (f64_of_decimal 1 7) = "0.0000001".
Proof. vm_compute. reflexivity. Qed.
Example show_large : show_f64 (f64_of_Z (10 ^ 22)) = "10000000000000000000000".
Proof. vm_compute. reflexivity. Qed.
Example show_fixed_half : show_fixed 2 (f64_of_decimal 1536 3) = "1.54".
Proof. vm_compute. reflexivity. Qed.
Example show_fixed_tie : show_fixed 2 (f64_of_decimal 125 3) = "0.12".
Proof. vm_compute. reflexivity. Qed.
Example rem_negative : f64_rem (f64_of_Z (-7)) (f64_of_Z 3) = f64_of_Z (-1).
Proof. vm_compute. reflexivity. Qed.
