(* ===== verification/Serde.v ===== *)
(** * The derived JSON codecs: building blocks

    The crate derives [Serialize] and [Deserialize] for its data.  What a derive
    generates is fixed by the declaration of the type and its attributes; this
    file has the shapes the declarations use (numbers, options, vectors, unit
    variants, structs with default fields), and [SerdeTypes] the codec of each
    type.

    A value is serialized to a JSON tree, the fields of a struct in the order
    they are declared.  The tree is written as text ([to_string]) or collected
    into a [Value] ([to_value]), whose maps are rebuilt entry by entry; what was
    written is parsed back into a tree.  Each of these passages of a tree is a
    [transport]: it keeps its shape.  A codec is right when its reader undoes its
    writer across every transport. *)

From Stdlib Require Import ZArith Lia Ascii.
From stdpp Require Import base tactics option list strings.
From S2P Require Import Prelude RustStr Json Step Bus RustPath Mcp.

Open Scope Z_scope.

(** ** Trees and their passages *)

Section Trees.
Context `{JN : JsonNumber} `{JL : !JsonLib}.

(** [Deserialize for Value]: a tree collected into maps; the last of two entries
    with one key wins. *)
Fixpoint rebuild (v : Value) : Value :=
  match v with
  | VArray a => VArray (map rebuild a)
  | VObject o => VObject (json_object (map (fun '(k, w) => (k, rebuild w)) o))
  | _ => v
  end.

(** The numbers of a tree as they are read back. *)
Fixpoint map_numbers (f : Number -> Number) (v : Value) : Value :=
  match v with
  | VNumber n => VNumber (f n)
  | VArray a => VArray (map (map_numbers f) a)
  | VObject o => VObject (map (fun '(k, w) => (k, map_numbers f w)) o)
  | _ => v
  end.

(** How deep arrays and objects nest. *)
Fixpoint json_depth (v : Value) : nat :=
  match v with
  | VArray a => S (foldr (fun w n => Nat.max (json_depth w) n) 0%nat a)
  | VObject o => S (foldr (fun '(_, w) n => Nat.max (json_depth w) n) 0%nat o)
  | _ => 0%nat
  end.

(** The values of the entries with a key. *)
Definition entries (k : string) (o : list (string * Value)) : list Value :=
  snd <$> filter (fun e => e.1 = k) o.

Record transport (t : Value -> Value) : Prop := {
  transport_null : t Null = Null;
  transport_bool b : t (VBool b) = VBool b;
  transport_string s : t (VString s) = VString s;
  transport_u64 n : in_u64 n -> t (json_u64 n) = json_u64 n;
  transport_array a : t (VArray a) = VArray (t <$> a);
  transport_object o : NoDup o.*1 ->
    exists o', t (VObject o) = VObject o' /\ NoDup o'.*1 /\
               forall k, entries k o' = t <$> entries k o
}.
End Trees.

(** What else the crate relies on of [serde_json]: a [Map] holds a key once;
    [json_tree] is the syntax of a text, which a derived reader is driven by;
    the errors of its readers by their message. *)
Class JsonText `{JN : JsonNumber} `{JL : !JsonLib} `{MJ : !McpJson} := {
  json_tree : string -> option Value;
  renumber : Number -> Number;
  from_str_error : string -> string;
  from_value_error : Value -> string
}.

(** Documented: what is written can be read, integers are exact, arrays and
    objects nest less than 128 deep. *)
Class JsonTextLaws `{JT : JsonText} : Prop := {
  map_insert_nodup k v o : NoDup o.*1 -> NoDup (map_insert k v o).*1;
  renumber_u64 n : in_u64 n -> renumber (number_of_u64 n) = number_of_u64 n;
  tree_of_text v :
    (json_depth v < 128)%nat -> json_tree (value_to_string v) = Some (map_numbers renumber v);
  too_deep v : (128 <= json_depth v)%nat -> json_tree (value_to_string v) = None;
  pretty_text v : exists s, to_string_pretty v = Ok s /\
    ((json_depth v < 128)%nat -> json_tree s = Some (map_numbers renumber v))
}.

(** ** Entries *)

#[global] Arguments entries {JN} k o : simpl never.

Section Entries.
Context `{JN : JsonNumber}.

Lemma entries_cons k k' v o :
  entries k ((k', v) :: o) = if decide (k' = k) then v :: entries k o else entries k o.
Proof. unfold entries. rewrite filter_cons. cbn. by case_decide. Qed.

Lemma entries_absent k o : k ∉ o.*1 -> entries k o = [].
Proof.
  induction o as [|[k' v] o IH]; [done|]. cbn. rewrite not_elem_of_cons. intros [Hk Ho].
  rewrite entries_cons, decide_False by done. by apply IH.
Qed.

Lemma assoc_absent k (o : list (string * Value)) : k ∉ o.*1 -> assoc k o = None.
Proof.
  induction o as [|[k' v] o IH]; [done|]. cbn. rewrite not_elem_of_cons. intros [Hk Ho].
  rewrite decide_False by done. by apply IH.
Qed.

Lemma entries_assoc k o : NoDup o.*1 -> entries k o = option_list (assoc k o).
Proof.
  induction o as [|[k' v] o IH]; [done|]. cbn [fmap list_fmap fst].
  intros [Hk Ho]%NoDup_cons. rewrite entries_cons. cbn [assoc].
  destruct (decide (k' = k)) as [->|Hne].
  - rewrite decide_True by done. cbn. by rewrite entries_absent.
  - rewrite (decide_False (P := k = k')) by done. by apply IH.
Qed.

Lemma assoc_app k (o o' : list (string * Value)) :
  assoc k (o ++ o') = match assoc k o with Some v => Some v | None => assoc k o' end.
Proof.
  induction o as [|[k' v] o IH]; [done|]. cbn. by case_decide.
Qed.

Lemma assoc_fmap (f : Value -> Value) k (o : list (string * Value)) :
  assoc k ((fun '(k, w) => (k, f w)) <$> o) = f <$> assoc k o.
Proof.
  induction o as [|[k' v] o IH]; [done|]. cbn. by case_decide.
Qed.

Lemma keys_fmap (f : Value -> Value) (o : list (string * Value)) : ((fun '(k, w) => (k, f w)) <$> o).*1 = o.*1.
Proof. induction o as [|[k' v] o IH]; [done|]. cbn. by f_equal. Qed.
End Entries.

(** ** The passages are transports *)

Section Transports.
Context `{JN : JsonNumber} `{JL : !JsonLib} `{LW : !JsonLaws} `{MJ : !McpJson}
  `{JT : !JsonText} `{TL : !JsonTextLaws}.

Lemma json_object_nodup o : NoDup (json_object o).*1.
Proof.
  unfold json_object. assert (NoDup (@nil (string * Value)).*1) as H by constructor.
  revert H. generalize (@nil (string * Value)).
  induction o as [|[k v] o IH]; intros acc Hacc; [done|]. cbn. by apply IH, map_insert_nodup.
Qed.

Lemma assoc_rev k (o : list (string * Value)) : NoDup o.*1 -> assoc k (rev o) = assoc k o.
Proof.
  induction o as [|[k' v] o IH]; [done|]. cbn [fmap list_fmap fst rev].
  intros [Hk Ho]%NoDup_cons. rewrite assoc_app, IH by done. cbn [assoc].
  destruct (decide (k = k')) as [->|Hne]; [by rewrite assoc_absent|by destruct (assoc k o)].
Qed.

Lemma assoc_collected k o : NoDup o.*1 -> assoc k (json_object o) = assoc k o.
Proof. intros Ho. by rewrite assoc_json_object, assoc_rev. Qed.

Lemma transport_id : transport (fun v => v).
Proof.
  split; try done; [intros a; by rewrite list_fmap_id|].
  intros o Ho. exists o. split_and!; [done|done|]. intros k. by rewrite list_fmap_id.
Qed.

Lemma option_list_fmap {A B} (f : A -> B) o : option_list (f <$> o) = f <$> option_list o.
Proof. by destruct o. Qed.

Lemma transport_rebuild : transport rebuild.
Proof.
  split; try done. intros o Ho. eexists. split_and!; [done|apply json_object_nodup|].
  intros k. rewrite !entries_assoc; [|done|apply json_object_nodup].
  change (map ?f o) with (f <$> o). rewrite assoc_collected by by rewrite keys_fmap.
  by rewrite assoc_fmap, option_list_fmap.
Qed.

Lemma transport_numbers : transport (map_numbers renumber).
Proof.
  split; try done.
  - intros n Hn. cbn. by rewrite renumber_u64.
  - intros o Ho. eexists. split_and!; [done| |]; change (map ?f o) with (f <$> o).
    + by rewrite keys_fmap.
    + intros k. rewrite !entries_assoc; [|done|by rewrite keys_fmap].
      by rewrite assoc_fmap, option_list_fmap.
Qed.

Lemma transport_compose t u : transport t -> transport u -> transport (fun v => u (t v)).
Proof.
  intros [T1 T2 T3 T4 T5 T6] [U1 U2 U3 U4 U5 U6]. split.
  - by rewrite T1.
  - intros b. by rewrite T2.
  - intros s. by rewrite T3.
  - intros n Hn. by rewrite T4, U4.
  - intros a. by rewrite T5, U5, <- list_fmap_compose.
  - intros o Ho. destruct (T6 o Ho) as (o1 & -> & H1 & E1). destruct (U6 o1 H1) as (o2 & -> & H2 & E2).
    exists o2. split_and!; [done|done|]. intros k. by rewrite E2, E1, <- list_fmap_compose.
Qed.
End Transports.

(** ** Readers *)

Section Readers.
Context `{JN : JsonNumber} `{JL : !JsonLib} `{MJ : !McpJson}.

Definition read_u64 (v : Value) : option Z := as_u64 v.
Definition read_u32 (v : Value) : option Z :=
  n ← as_u64 v; if n <=? u32_max then Some n else None.
Definition read_bool (v : Value) : option bool := as_bool v.
Definition read_string (v : Value) : option string := as_str v.
Definition read_value (v : Value) : option Value := Some (rebuild v).

Definition read_option {A} (read : Value -> option A) (v : Value) : option (option A) :=
  match v with Null => Some None | v => Some <$> read v end.
Definition read_vec {A} (read : Value -> option A) (v : Value) : option (list A) :=
  match v with VArray a => mapM read a | _ => None end.

(** A unit variant: its name, or an object that gives the name the content
    [null]. *)
Definition read_variant {A} (names : list (string * A)) (v : Value) : option A :=
  match v with
  | VString s => assoc s names
  | VObject [(s, Null)] => assoc s names
  | _ => None
  end.

(** The fields of a struct come from an object, by name, or from an array, by
    position. *)
Inductive source : Type := FromMap (o : list (string * Value)) | FromSeq (a : list Value).

Definition read_struct {A} (fields : nat) (read : source -> option A) (v : Value) : option A :=
  match v with
  | VObject o => read (FromMap o)
  | VArray a => if bool_decide (length a <= fields)%nat then read (FromSeq a) else None
  | _ => None
  end.

(** What stands for a field that is not there, in either form; [None] is an
    error. *)
Record absence (A : Type) : Type := mkAbsence { if_missing : option A; if_short : option A }.
#[global] Arguments mkAbsence {A} _ _.
#[global] Arguments if_missing {A} _.
#[global] Arguments if_short {A} _.
Definition required {A} : absence A := mkAbsence None None.
(** A field of type [Option] *)
Definition optional {A} : absence (option A) := mkAbsence (Some None) None.
(** [#[serde(default)]] *)
Definition defaulted {A} (x : A) : absence A := mkAbsence (Some x) (Some x).

(** A field that occurs twice is an error. *)
Definition field {A} (src : source) (i : nat) (k : string) (read : Value -> option A)
    (ab : absence A) : option A :=
  match src with
  | FromMap o =>
      match entries k o with
      | [] => if_missing ab
      | [v] => read v
      | _ => None
      end
  | FromSeq a => match a !! i with Some v => read v | None => if_short ab end
  end.

(** ** Writers *)

Definition write_option {A} (write : A -> Value) (o : option A) : Value :=
  match o with Some x => write x | None => Null end.
(** [#[serde(skip_serializing_if = "Option::is_none")]] *)
Definition skip_none {A} (k : string) (write : A -> Value) (o : option A)
  : list (string * Value) :=
  match o with Some x => [(k, write x)] | None => [] end.
(** [#[serde(skip_serializing_if = "Vec::is_empty")]] *)
Definition skip_empty {A} (k : string) (write : list A -> Value) (l : list A)
  : list (string * Value) :=
  match l with [] => [] | _ => [(k, write l)] end.

Lemma assoc_skip_none {A} k k' (write : A -> Value) o :
  assoc k (skip_none k' write o) = if decide (k = k') then write <$> o else None.
Proof. destruct o; cbn; [done|]. by case_decide. Qed.

Lemma assoc_skip_empty {A} k k' (write : list A -> Value) l :
  assoc k (skip_empty k' write l) =
    if decide (k = k') then match l with [] => None | _ => Some (write l) end else None.
Proof. destruct l; cbn; [by case_decide|done]. Qed.

Lemma field_across {A} (t : Value -> Value) o o' i k (read : Value -> option A) ab :
  NoDup o.*1 -> (forall k, entries k o' = t <$> entries k o) ->
  field (FromMap o') i k read ab =
    match assoc k o with Some v => read (t v) | None => if_missing ab end.
Proof.
  intros Ho Ht. cbn. rewrite Ht, entries_assoc by done. by destruct (assoc k o).
Qed.

(** Reading the object a struct was written as, on the far side of a passage. *)
Lemma read_struct_across {A} (t : Value -> Value) n o (read : source -> option A) x :
  transport t -> NoDup o.*1 ->
  (forall o', (forall B i k (r : Value -> option B) ab, field (FromMap o') i k r ab =
      match assoc k o with Some v => r (t v) | None => if_missing ab end) ->
    read (FromMap o') = x) ->
  read_struct n read (t (VObject o)) = x.
Proof.
  intros Ht Ho Hread. destruct (transport_object t Ht o Ho) as (o' & -> & _ & He).
  cbn. apply Hread. intros. by apply field_across.
Qed.
End Readers.

(** ** What is read is what was written *)

Section RoundTrips.
Context `{JN : JsonNumber} `{JL : !JsonLib} `{MJ : !McpJson} `{ML : !McpJsonLaws}.
Context (t : Value -> Value) (Ht : transport t).

Lemma read_u64_across n : in_u64 n -> read_u64 (t (json_u64 n)) = Some n.
Proof. intros Hn. rewrite (transport_u64 t Ht) by done. by apply as_u64_json. Qed.

Lemma read_u32_across n : in_u32 n -> read_u32 (t (json_u64 n)) = Some n.
Proof.
  intros Hn. assert (in_u64 n) as Hn' by (unfold in_u64, in_u32, u64_max, u32_max in *; lia).
  rewrite (transport_u64 t Ht) by done. unfold read_u32. rewrite as_u64_json by done. cbn.
  unfold in_u32 in Hn. by replace (n <=? u32_max) with true by lia.
Qed.

Lemma read_bool_across b : read_bool (t (VBool b)) = Some b.
Proof. by rewrite (transport_bool t Ht). Qed.

Lemma read_string_across s : read_string (t (VString s)) = Some s.
Proof. by rewrite (transport_string t Ht). Qed.

Lemma read_variant_across {A} (names : list (string * A)) s x :
  assoc s names = Some x -> read_variant names (t (VString s)) = Some x.
Proof. intros H. by rewrite (transport_string t Ht). Qed.

Lemma read_option_across {A} (write : A -> Value) (read : Value -> option A) (f : A -> A) o :
  (forall x, o = Some x -> read (t (write x)) = Some (f x) /\ t (write x) <> Null) ->
  read_option read (t (write_option write o)) = Some (f <$> o).
Proof.
  intros H. destruct o as [x|]; cbn; [|by rewrite (transport_null t Ht)].
  destruct (H x eq_refl) as [Hr Hn]. unfold read_option. rewrite Hr. by destruct (t (write x)).
Qed.

Lemma read_vec_across {A} (write : A -> Value) (read : Value -> option A) (f : A -> A) l :
  Forall (fun x => read (t (write x)) = Some (f x)) l ->
  read_vec read (t (VArray (write <$> l))) = Some (f <$> l).
Proof.
  intros H. rewrite (transport_array t Ht). cbn. induction H as [|x l Hx _ IH]; [done|].
  cbn in IH |- *. rewrite Hx. cbn. by rewrite IH.
Qed.
End RoundTrips.

(** Looks up a field among those a struct is written with. *)
Ltac find_field :=
  repeat first
    [ rewrite assoc_here | rewrite assoc_next by done | rewrite assoc_app
    | rewrite assoc_skip_none | rewrite assoc_skip_empty
    | rewrite decide_True by done | rewrite decide_False by done
    | progress cbn [assoc app] ].
