(* ===== verification/SerdeTypes.v ===== *)
(** * The JSON form of definitions, results and records

    The codecs derived for [StepDef] (step.rs), [FlowDef] (flow.rs),
    [StepResult], [FlowResult] (engine/result.rs), [ExecutionRecord]
    (storage.rs), [StepProgress] (engine/mod.rs) and [WorkflowEvent] (bus.rs) of
    [rust-old/src], from their declarations and serde attributes, and what reads
    back what they write.  They implement the interfaces [RecordCodec] of the SQL
    store and [DefinitionCodec] of the tools. *)

From Stdlib Require Import ZArith Lia Ascii.
From stdpp Require Import base tactics option list strings.
From S2P Require Import Prelude RustStr Json State Step Flow Bus EngineResult SqlStore Stream.
From S2P Require Import RustPath Mcp Serde.

Open Scope Z_scope.

(** ** Unit variants, by the names they are declared with *)

Definition variants {A} (nm : A -> string) (all : list A) : list (string * A) :=
  (fun x => (nm x, x)) <$> all.

Definition trigger_variant (m : TriggerMode.t) : string :=
  match m with TriggerMode.All => "All" | TriggerMode.Any => "Any" end.
Definition backoff_variant (b : BackoffStrategy.t) : string :=
  match b with
  | BackoffStrategy.Fixed => "Fixed"
  | BackoffStrategy.Linear => "Linear"
  | BackoffStrategy.Exponential => "Exponential"
  end.
Definition status_variant (st : StepStatus.t) : string :=
  match st with
  | StepStatus.Pending => "Pending"
  | StepStatus.Running => "Running"
  | StepStatus.Completed => "Completed"
  | StepStatus.Failed => "Failed"
  | StepStatus.Skipped => "Skipped"
  | StepStatus.RolledBack => "RolledBack"
  end.
Definition mode_variant (m : FlowMode.t) : string :=
  match m with
  | FlowMode.Sequential => "Sequential"
  | FlowMode.Parallel => "Parallel"
  | FlowMode.Dag => "Dag"
  | FlowMode.Hierarchical => "Hierarchical"
  end.
Definition state_variant (s : WorkflowState.t) : string :=
  match s with
  | WorkflowState.Created => "Created"
  | WorkflowState.Running => "Running"
  | WorkflowState.Paused => "Paused"
  | WorkflowState.Completed => "Completed"
  | WorkflowState.Failed => "Failed"
  | WorkflowState.RollingBack => "RollingBack"
  | WorkflowState.RolledBack => "RolledBack"
  | WorkflowState.Cancelled => "Cancelled"
  end.
(** [#[serde(rename_all = "snake_case")]] *)
Definition event_variant (e : EventType.t) : string :=
  match e with
  | EventType.FlowStarted => "flow_started"
  | EventType.FlowCompleted => "flow_completed"
  | EventType.FlowFailed => "flow_failed"
  | EventType.FlowRolledBack => "flow_rolled_back"
  | EventType.StepStarted => "step_started"
  | EventType.StepCompleted => "step_completed"
  | EventType.StepFailed => "step_failed"
  | EventType.StepRetry => "step_retry"
  | EventType.StepRollback => "step_rollback"
  | EventType.StepSkipped => "step_skipped"
  | EventType.StepTimeout => "step_timeout"
  end.

Section Variants.
Context `{JN : JsonNumber}.

Definition read_trigger : Value -> option TriggerMode.t :=
  read_variant (variants trigger_variant [TriggerMode.All; TriggerMode.Any]).
Definition read_backoff : Value -> option BackoffStrategy.t :=
  read_variant (variants backoff_variant
    [BackoffStrategy.Fixed; BackoffStrategy.Linear; BackoffStrategy.Exponential]).
Definition read_status : Value -> option StepStatus.t :=
  read_variant (variants status_variant
    [StepStatus.Pending; StepStatus.Running; StepStatus.Completed; StepStatus.Failed;
     StepStatus.Skipped; StepStatus.RolledBack]).
Definition read_mode : Value -> option FlowMode.t :=
  read_variant (variants mode_variant
    [FlowMode.Sequential; FlowMode.Parallel; FlowMode.Dag; FlowMode.Hierarchical]).
Definition read_state : Value -> option WorkflowState.t :=
  read_variant (variants state_variant WorkflowState.all_states).
Definition read_event_type : Value -> option EventType.t :=
  read_variant (variants event_variant
    [EventType.FlowStarted; EventType.FlowCompleted; EventType.FlowFailed;
     EventType.FlowRolledBack; EventType.StepStarted; EventType.StepCompleted;
     EventType.StepFailed; EventType.StepRetry; EventType.StepRollback;
     EventType.StepSkipped; EventType.StepTimeout]).
End Variants.

(** ** Definitions *)

Section Definitions.
Context `{JN : JsonNumber} `{JL : !JsonLib} `{MJ : !McpJson} `{UL : UuidLib}.

(** The [serde] feature of [uuid]: the text form. *)
Definition write_uuid (u : Uuid) : Value := VString (uuid_to_string u).
Definition read_uuid (v : Value) : option Uuid := s ← as_str v; uuid_parse s.

Fixpoint write_step (s : StepDef) : Value :=
  VObject
    ([("id", write_uuid (id s)); ("name", VString (name s));
      ("description", VString (description s)); ("timeout_ms", json_u64 (timeout_ms s));
      ("max_retries", json_u64 (max_retries s)); ("retry_delay_ms", json_u64 (retry_delay_ms s));
      ("backoff", VString (backoff_variant (backoff s))); ("rollbackable", VBool (rollbackable s))] ++
     skip_none "step_type" VString (step_type s) ++
     skip_none "config" (fun v => v) (config s) ++
     skip_none "condition" VString (condition s) ++
     [("depends_on", VArray (write_uuid <$> depends_on s));
      ("trigger_mode", VString (trigger_variant (trigger_mode s)))] ++
     skip_empty "sub_steps" (fun l => VArray (map write_step l)) (sub_steps s)).

Definition step_fields (read_sub : Value -> option StepDef) (src : source) : option StepDef :=
  id' ← field src 0 "id" read_uuid required;
  name' ← field src 1 "name" read_string required;
  description' ← field src 2 "description" read_string required;
  timeout' ← field src 3 "timeout_ms" read_u64 required;
  retries' ← field src 4 "max_retries" read_u32 required;
  delay' ← field src 5 "retry_delay_ms" read_u64 required;
  backoff' ← field src 6 "backoff" read_backoff (defaulted BackoffStrategy.Fixed);
  rollbackable' ← field src 7 "rollbackable" read_bool required;
  step_type' ← field src 8 "step_type" (read_option read_string) (defaulted None);
  config' ← field src 9 "config" (read_option read_value) (defaulted None);
  condition' ← field src 10 "condition" (read_option read_string) (defaulted None);
  depends' ← field src 11 "depends_on" (read_vec read_uuid) required;
  trigger' ← field src 12 "trigger_mode" read_trigger (defaulted TriggerMode.All);
  subs' ← field src 13 "sub_steps" (read_vec read_sub) (defaulted []);
  Some {| id := id'; name := name'; description := description'; timeout_ms := timeout';
          max_retries := retries'; retry_delay_ms := delay'; backoff := backoff';
          rollbackable := rollbackable'; step_type := step_type'; config := config';
          condition := condition'; depends_on := depends'; trigger_mode := trigger';
          sub_steps := subs' |}.

Fixpoint read_step_fuel (fuel : nat) (v : Value) : option StepDef :=
  match fuel with
  | O => None
  | S fuel => read_struct 14 (step_fields (read_step_fuel fuel)) v
  end.

(** Sub-steps nest no deeper than the tree they are read from. *)
Definition read_step (v : Value) : option StepDef := read_step_fuel (S (json_depth v)) v.

Definition write_flow (f : FlowDef) : Value :=
  VObject
    [("id", write_uuid (flow_id f)); ("name", VString (flow_name f));
     ("description", VString (flow_description f));
     ("mode", VString (mode_variant (flow_mode f)));
     ("steps", VArray (write_step <$> steps f));
     ("rollback_on_failure", VBool (rollback_on_failure f));
     ("timeout_ms", write_option json_u64 (flow_timeout_ms f));
     ("version", json_u64 (version f))].

Definition flow_fields (src : source) : option FlowDef :=
  id' ← field src 0 "id" read_uuid required;
  name' ← field src 1 "name" read_string required;
  description' ← field src 2 "description" read_string required;
  mode' ← field src 3 "mode" read_mode required;
  steps' ← field src 4 "steps" (read_vec read_step) required;
  rollback' ← field src 5 "rollback_on_failure" read_bool required;
  timeout' ← field src 6 "timeout_ms" (read_option read_u64) optional;
  version' ← field src 7 "version" read_u32 (defaulted default_flow_version);
  Some {| flow_id := id'; flow_name := name'; flow_description := description';
          flow_mode := mode'; steps := steps'; rollback_on_failure := rollback';
          flow_timeout_ms := timeout'; version := version' |}.

Definition read_flow (v : Value) : option FlowDef := read_struct 8 flow_fields v.
End Definitions.

(** ** Results and records *)

Section Results.
Context `{JN : JsonNumber} `{JL : !JsonLib} `{MJ : !McpJson} `{UL : UuidLib}.

Definition write_step_result (r : StepResult) : Value :=
  VObject
    [("step_id", write_uuid (step_id r)); ("status", VString (status_variant (status r)));
     ("output", output r); ("duration_ms", json_u64 (duration_ms r));
     ("attempts", json_u64 (attempts r)); ("error", write_option VString (error r))].

Definition step_result_fields (src : source) : option StepResult :=
  step_id' ← field src 0 "step_id" read_uuid required;
  status' ← field src 1 "status" read_status required;
  output' ← field src 2 "output" read_value required;
  duration' ← field src 3 "duration_ms" read_u64 required;
  attempts' ← field src 4 "attempts" read_u32 required;
  error' ← field src 5 "error" (read_option read_string) optional;
  Some {| step_id := step_id'; status := status'; output := output'; duration_ms := duration';
          attempts := attempts'; error := error' |}.
Definition read_step_result (v : Value) : option StepResult := read_struct 6 step_result_fields v.

Definition write_flow_result (fr : FlowResult) : Value :=
  VObject
    [("flow_name", VString (result_flow fr));
     ("steps", VArray (write_step_result <$> result_steps fr));
     ("total_duration_ms", json_u64 (total_duration_ms fr));
     ("success", VBool (success fr)); ("rolled_back", VBool (rolled_back fr))].

Definition flow_result_fields (src : source) : option FlowResult :=
  flow' ← field src 0 "flow_name" read_string required;
  steps' ← field src 1 "steps" (read_vec read_step_result) required;
  total' ← field src 2 "total_duration_ms" read_u64 required;
  success' ← field src 3 "success" read_bool required;
  rolled' ← field src 4 "rolled_back" read_bool required;
  Some {| result_flow := flow'; result_steps := steps'; total_duration_ms := total';
          success := success'; rolled_back := rolled' |}.
Definition read_flow_result (v : Value) : option FlowResult := read_struct 5 flow_result_fields v.

Definition write_record (r : ExecutionRecord) : Value :=
  VObject
    [("execution_id", VString (execution_id r)); ("flow_name", VString (record_flow r));
     ("state", VString (state_variant (record_state r)));
     ("result", write_option write_flow_result (record_result r));
     ("started_at", VString (started_at r));
     ("finished_at", write_option VString (finished_at r))].

Definition record_fields (src : source) : option ExecutionRecord :=
  id' ← field src 0 "execution_id" read_string required;
  flow' ← field src 1 "flow_name" read_string required;
  state' ← field src 2 "state" read_state required;
  result' ← field src 3 "result" (read_option read_flow_result) optional;
  started' ← field src 4 "started_at" read_string required;
  finished' ← field src 5 "finished_at" (read_option read_string) optional;
  Some {| execution_id := id'; record_flow := flow'; record_state := state';
          record_result := result'; started_at := started'; finished_at := finished' |}.
Definition read_record (v : Value) : option ExecutionRecord := read_struct 6 record_fields v.

Definition write_progress (p : StepProgress) : Value :=
  VObject [("step_name", VString (progress_step p)); ("step_id", VString (progress_id p));
           ("data", progress_data p)].

Definition progress_fields (src : source) : option StepProgress :=
  step' ← field src 0 "step_name" read_string required;
  id' ← field src 1 "step_id" read_string required;
  data' ← field src 2 "data" read_value required;
  Some (mkProgress step' id' data').
Definition read_progress (v : Value) : option StepProgress := read_struct 3 progress_fields v.
End Results.

(** ** Events *)

(** The [serde] feature of [chrono]: a time as text. *)
Class ChronoText := {
  time_to_text : Bus.Timestamp -> string;
  text_to_time : string -> option Bus.Timestamp
}.
Class ChronoTextLaws `{CT : ChronoText} : Prop := {
  text_to_time_to_text u : text_to_time (time_to_text u) = Some u
}.

Section Events.
Context `{JN : JsonNumber} `{JL : !JsonLib} `{MJ : !McpJson} `{CT : ChronoText}.

Definition read_time (v : Value) : option Bus.Timestamp := s ← as_str v; text_to_time s.

Definition write_event (e : Event.t) : Value :=
  VObject
    [("event_type", VString (event_variant (Event.event_type e)));
     ("flow_name", write_option VString (Event.flow_name e));
     ("step_name", write_option VString (Event.step_name e));
     ("step_id", write_option VString (Event.step_id e));
     ("attempt", write_option json_u64 (Event.attempt e));
     ("duration_ms", write_option json_u64 (Event.duration_ms e));
     ("error", write_option VString (Event.error e));
     ("timestamp", VString (time_to_text (Event.timestamp e)))].

Definition event_fields (src : source) : option Event.t :=
  type' ← field src 0 "event_type" read_event_type required;
  flow' ← field src 1 "flow_name" (read_option read_string) optional;
  step' ← field src 2 "step_name" (read_option read_string) optional;
  id' ← field src 3 "step_id" (read_option read_string) optional;
  attempt' ← field src 4 "attempt" (read_option read_u32) optional;
  duration' ← field src 5 "duration_ms" (read_option read_u64) optional;
  error' ← field src 6 "error" (read_option read_string) optional;
  time' ← field src 7 "timestamp" read_time required;
  Some {| Event.event_type := type'; Event.flow_name := flow'; Event.step_name := step';
          Event.step_id := id'; Event.attempt := attempt'; Event.duration_ms := duration';
          Event.error := error'; Event.timestamp := time' |}.
Definition read_event (v : Value) : option Event.t := read_struct 8 event_fields v.
End Events.

(** ** Reading back

    On the far side of a passage [t] a codec finds what was written, with the
    embedded [Value]s as [t] left them and collected again. *)

Section Reread.
Context `{JN : JsonNumber} `{JL : !JsonLib}.
Context (t : Value -> Value).

Definition reread_value (v : Value) : Value := rebuild (t v).

(** [Some(Value::Null)] is written as [null], which is read as [None]. *)
Definition reread_config (o : option Value) : option Value :=
  v ← o; match t v with Null => None | w => Some (rebuild w) end.

Fixpoint reread_step (s : StepDef) : StepDef :=
  {| id := id s; name := name s; description := description s;
     timeout_ms := timeout_ms s; max_retries := max_retries s;
     retry_delay_ms := retry_delay_ms s; backoff := backoff s;
     rollbackable := rollbackable s; step_type := step_type s;
     config := reread_config (config s); condition := condition s;
     depends_on := depends_on s; trigger_mode := trigger_mode s;
     sub_steps := map reread_step (sub_steps s) |}.

Definition reread_flow (f : FlowDef) : FlowDef :=
  {| flow_id := flow_id f; flow_name := flow_name f; flow_description := flow_description f;
     flow_mode := flow_mode f; steps := reread_step <$> steps f;
     rollback_on_failure := rollback_on_failure f; flow_timeout_ms := flow_timeout_ms f;
     version := version f |}.

Definition reread_step_result (r : StepResult) : StepResult :=
  {| step_id := step_id r; status := status r; output := reread_value (output r);
     duration_ms := duration_ms r; attempts := attempts r; error := error r |}.

Definition reread_flow_result (fr : FlowResult) : FlowResult :=
  {| result_flow := result_flow fr; result_steps := reread_step_result <$> result_steps fr;
     total_duration_ms := total_duration_ms fr; success := success fr;
     rolled_back := rolled_back fr |}.

Definition reread_record (r : ExecutionRecord) : ExecutionRecord :=
  {| execution_id := execution_id r; record_flow := record_flow r;
     record_state := record_state r; record_result := reread_flow_result <$> record_result r;
     started_at := started_at r; finished_at := finished_at r |}.

(** *** Nothing changes when the embedded values do not *)

(** The passage leaves the value as it is, as it leaves those whose numbers are
    integers and whose maps are maps of this program. *)
Definition settled (v : Value) : Prop := rebuild (t v) = v.

Definition config_settled (s : StepDef) : Prop :=
  match config s with Some v => settled v /\ v <> Null | None => True end.

Lemma reread_step_id s : Forall config_settled (subtree s) -> reread_step s = s.
Proof.
  induction s as [s IH] using StepDef_tree_ind. rewrite subtree_unfold, Forall_cons.
  intros [Hc Hsub]. destruct s as [i n d tm mr rd b rb st c cd dep tr subs]. cbn in *. f_equal.
  - destruct c as [v|]; [|done]. destruct Hc as [Hs Hn]. unfold settled in Hs. cbn in *.
    destruct (t v); [by subst v|exact (f_equal Some Hs)..].
  - clear Hc. induction IH as [|c' l Hc' _ IHl]; [done|]. cbn in Hsub |- *.
    apply Forall_app in Hsub as [H1 H2]. by rewrite Hc', IHl.
Qed.

Lemma reread_flow_id f : Forall config_settled (forest (steps f)) -> reread_flow f = f.
Proof.
  intros H. destruct f as [i n d m l r tm v]. unfold reread_flow. cbn in *. f_equal.
  induction l as [|s l IH]; [done|]. apply Forall_app in H as [H1 H2].
  cbn. by rewrite reread_step_id, IH.
Qed.

Definition output_settled (r : StepResult) : Prop := settled (output r).

Lemma reread_step_result_id r : output_settled r -> reread_step_result r = r.
Proof.
  unfold output_settled, settled. intros H. unfold reread_step_result, reread_value. rewrite H. by destruct r.
Qed.

Lemma reread_flow_result_id fr :
  Forall output_settled (result_steps fr) -> reread_flow_result fr = fr.
Proof.
  intros H. destruct fr as [n l tm s r]. unfold reread_flow_result. cbn in *. f_equal.
  induction H as [|x l Hx _ IH]; [done|]. cbn. by rewrite reread_step_result_id, IH.
Qed.

Definition record_settled (r : ExecutionRecord) : Prop :=
  match record_result r with Some fr => Forall output_settled (result_steps fr) | None => True end.

Lemma reread_record_id r : record_settled r -> reread_record r = r.
Proof.
  unfold record_settled. intros H. destruct r as [i n s o b e]. unfold reread_record. cbn in *.
  f_equal. destruct o as [fr|]; [|done]. cbn. by rewrite reread_flow_result_id.
Qed.
End Reread.

(** *** Ranges: the fields hold integers of their types *)

Section Ranges.
Context `{JN : JsonNumber}.

Record step_range (s : StepDef) : Prop := {
  range_timeout : in_u64 (timeout_ms s);
  range_retries : in_u32 (max_retries s);
  range_delay : in_u64 (retry_delay_ms s)
}.

Record flow_range (f : FlowDef) : Prop := {
  range_steps : Forall step_range (forest (steps f));
  range_flow_timeout : from_option in_u64 True (flow_timeout_ms f);
  range_version : in_u32 (version f)
}.

Record step_result_range (r : StepResult) : Prop := {
  range_duration : in_u64 (duration_ms r);
  range_attempts : in_u32 (attempts r)
}.

Record flow_result_range (fr : FlowResult) : Prop := {
  range_results : Forall step_result_range (result_steps fr);
  range_total : in_u64 (total_duration_ms fr)
}.

Definition record_range (r : ExecutionRecord) : Prop :=
  from_option flow_result_range True (record_result r).

Record event_range (e : Event.t) : Prop := {
  range_event_attempt : from_option in_u32 True (Event.attempt e);
  range_event_duration : from_option in_u64 True (Event.duration_ms e)
}.
End Ranges.

(** *** The recursion through [sub_steps] *)

Section Recursion.
Context `{JN : JsonNumber} `{JL : !JsonLib} `{MJ : !McpJson} `{UL : UuidLib}.

Lemma depth_array w a : w ∈ a -> (json_depth w < json_depth (VArray a))%nat.
Proof.
  intros H. cbn. apply Nat.lt_succ_r. induction H as [w a|w v a _ IH]; cbn; lia.
Qed.

Lemma depth_entry k w o : w ∈ entries k o -> (json_depth w < json_depth (VObject o))%nat.
Proof.
  cbn. intros H. apply Nat.lt_succ_r. revert H. induction o as [|[k' v] o IH]; cbn.
  - by intros ?%not_elem_of_nil.
  - rewrite entries_cons. case_decide; [|intros Hw; specialize (IH Hw); lia].
    intros [->|Hw]%elem_of_cons; [lia|]. specialize (IH Hw). lia.
Qed.

(** A field of a value is read from something less deep. *)
Definition source_of (v : Value) (src : source) : Prop :=
  (exists o, v = VObject o /\ src = FromMap o) \/ (exists a, v = VArray a /\ src = FromSeq a).

Lemma field_ext {A} v src i k (read read' : Value -> option A) ab :
  source_of v src ->
  (forall w, (json_depth w < json_depth v)%nat -> read w = read' w) ->
  field src i k read ab = field src i k read' ab.
Proof.
  intros [(o & -> & ->)|(a & -> & ->)] H; cbn.
  - pose proof (fun w => depth_entry k w o) as Hd. destruct (entries k o) as [|w [|w' l]] eqn:E; [done| |done].
    apply H, (Hd w). by left.
  - destruct (a !! i) eqn:E; [|done]. apply H, depth_array. by eapply list_elem_of_lookup_2.
Qed.

Lemma read_vec_ext {A} (read read' : Value -> option A) v n :
  (json_depth v < n)%nat ->
  (forall w, (json_depth w < n)%nat -> read w = read' w) -> read_vec read v = read_vec read' v.
Proof.
  destruct v as [| | | |a|]; try done. intros Hn H. cbn.
  assert (Forall (fun w => read w = read' w) a) as Ha.
  { apply Forall_forall. intros w Hw%depth_array. apply H. lia. }
  clear -Ha. induction Ha as [|w a Hw _ IH]; [done|]. cbn. by rewrite Hw, IH.
Qed.

Lemma read_struct_ext {A} n v (read read' : source -> option A) :
  (forall src, source_of v src -> read src = read' src) ->
  read_struct n read v = read_struct n read' v.
Proof.
  destruct v as [| | | |a|o]; intros H; try done; cbn.
  - case_bool_decide; [|done]. apply H. right. by exists a.
  - apply H. left. by exists o.
Qed.

Lemma step_fields_ext v src (read read' : Value -> option StepDef) :
  source_of v src -> (forall w, (json_depth w < json_depth v)%nat -> read w = read' w) ->
  step_fields read src = step_fields read' src.
Proof.
  intros Hs H. unfold step_fields. do 13 (apply option_bind_ext_fun; intros ?).
  f_equal. eapply field_ext; [done|]. intros w Hw. by eapply read_vec_ext.
Qed.

(** The depth of the value is fuel enough. *)
Lemma read_step_fuel_enough n v :
  (json_depth v < n)%nat -> read_step_fuel n v = read_step v.
Proof.
  revert v. induction n as [n IH] using lt_wf_ind. intros v Hn. destruct n as [|n]; [lia|].
  unfold read_step. cbn [read_step_fuel]. apply read_struct_ext. intros src Hs.
  apply (step_fields_ext v); [done|]. intros w Hw.
  rewrite IH by lia. symmetry. apply IH; lia.
Qed.

Lemma read_step_unfold v : read_step v = read_struct 14 (step_fields read_step) v.
Proof.
  unfold read_step at 1. cbn [read_step_fuel]. apply read_struct_ext. intros src Hs.
  apply (step_fields_ext v); [done|]. intros w Hw. by apply read_step_fuel_enough.
Qed.
End Recursion.
#[global] Arguments read_step {JN JL MJ UL} v : simpl never.

(** *** What is read is what was written *)

Section Across.
Context `{JN : JsonNumber} `{JL : !JsonLib} `{MJ : !McpJson} `{ML : !McpJsonLaws}
  `{UL : UuidLib} `{UW : !UuidLaws}.
Context (t : Value -> Value) (Ht : transport t).

Lemma read_uuid_across u : read_uuid (t (write_uuid u)) = Some u.
Proof.
  unfold write_uuid. rewrite (transport_string t Ht). cbn. apply uuid_parse_to_string.
Qed.

Lemma read_ids_across l : read_vec read_uuid (t (VArray (write_uuid <$> l))) = Some l.
Proof.
  rewrite (read_vec_across t Ht write_uuid read_uuid (fun u => u)); [by rewrite list_fmap_id|].
  apply Forall_forall. intros u _. apply read_uuid_across.
Qed.

Lemma read_text_across o :
  read_option read_string (t (write_option VString o)) = Some o.
Proof.
  rewrite (read_option_across t Ht VString read_string (fun s => s)); [by destruct o|].
  intros s _. by rewrite (transport_string t Ht).
Qed.

Lemma read_opt_u64_across o :
  from_option in_u64 True o -> read_option read_u64 (t (write_option json_u64 o)) = Some o.
Proof.
  intros Ho. rewrite (read_option_across t Ht json_u64 read_u64 (fun n => n)); [by destruct o|].
  intros n ->. cbn in Ho. split; [by apply read_u64_across|by rewrite (transport_u64 t Ht)].
Qed.

Lemma read_opt_u32_across o :
  from_option in_u32 True o -> read_option read_u32 (t (write_option json_u64 o)) = Some o.
Proof.
  intros Ho. rewrite (read_option_across t Ht json_u64 read_u32 (fun n => n)); [by destruct o|].
  intros n ->. cbn in Ho. split; [by apply read_u32_across|]. rewrite (transport_u64 t Ht); [done|].
  unfold in_u64, in_u32, u64_max, u32_max in *. lia.
Qed.

Lemma match_some_none {A} (o : option A) :
  match o with Some x => Some x | None => None end = o.
Proof. by destruct o. Qed.

Lemma read_config_across o :
  match o with Some v => read_option read_value (t v) | None => Some None end =
  Some (reread_config t o).
Proof. destruct o as [v|]; [|done]. cbn. by destruct (t v). Qed.

Lemma read_skipped_across o :
  match VString <$> o with Some v => read_option read_string (t v) | None => Some None end = Some o.
Proof. destruct o as [s|]; [|done]. cbn. by rewrite (transport_string t Ht). Qed.

Lemma read_backoff_across b : read_backoff (t (VString (backoff_variant b))) = Some b.
Proof. apply read_variant_across; [done|]. by destruct b. Qed.
Lemma read_trigger_across m : read_trigger (t (VString (trigger_variant m))) = Some m.
Proof. apply read_variant_across; [done|]. by destruct m. Qed.
Lemma read_status_across s : read_status (t (VString (status_variant s))) = Some s.
Proof. apply read_variant_across; [done|]. by destruct s. Qed.
Lemma read_mode_across m : read_mode (t (VString (mode_variant m))) = Some m.
Proof. apply read_variant_across; [done|]. by destruct m. Qed.
Lemma read_state_across s : read_state (t (VString (state_variant s))) = Some s.
Proof. apply read_variant_across; [done|]. by destruct s. Qed.
Lemma read_event_type_across e : read_event_type (t (VString (event_variant e))) = Some e.
Proof. apply read_variant_across; [done|]. by destruct e. Qed.

(** The entries of a step, as [write_step] lists them. *)
Definition step_entries (s : StepDef) : list (string * Value) :=
  [("id", write_uuid (id s)); ("name", VString (name s));
   ("description", VString (description s)); ("timeout_ms", json_u64 (timeout_ms s));
   ("max_retries", json_u64 (max_retries s)); ("retry_delay_ms", json_u64 (retry_delay_ms s));
   ("backoff", VString (backoff_variant (backoff s))); ("rollbackable", VBool (rollbackable s))] ++
  skip_none "step_type" VString (step_type s) ++
  skip_none "config" (fun v => v) (config s) ++
  skip_none "condition" VString (condition s) ++
  [("depends_on", VArray (write_uuid <$> depends_on s));
   ("trigger_mode", VString (trigger_variant (trigger_mode s)))] ++
  skip_empty "sub_steps" (fun l => VArray (write_step <$> l)) (sub_steps s).

Lemma write_step_unfold s : write_step s = VObject (step_entries s).
Proof. by destruct s. Qed.

Lemma step_entries_nodup s : NoDup (step_entries s).*1.
Proof.
  destruct s as [i n d tm mr rd b rb [st|] [c|] [cd|] dep tr [|sub subs]];
    apply (bool_decide_unpack _); vm_compute; exact I.
Qed.

Lemma read_subs_across l :
  Forall (fun s => read_step (t (write_step s)) = Some (reread_step t s)) l ->
  match match l with [] => None | _ => Some (VArray (write_step <$> l)) end with
  | Some v => read_vec read_step (t v)
  | None => Some []
  end = Some (map (reread_step t) l).
Proof.
  destruct l as [|s l]; [done|]. apply (read_vec_across t Ht write_step read_step).
Qed.

Lemma forest_ranges l c :
  Forall step_range (forest l) -> c ∈ l -> Forall step_range (subtree c).
Proof.
  rewrite !Forall_forall. intros H Hc d Hd. apply H, list_elem_of_In, in_flat_map. exists c.
  by rewrite <- !list_elem_of_In.
Qed.

Lemma read_step_across s :
  Forall step_range (subtree s) -> read_step (t (write_step s)) = Some (reread_step t s).
Proof.
  induction s as [s IH] using StepDef_tree_ind. rewrite subtree_unfold, Forall_cons.
  intros [[H1 H2 H3] Hsub]. rewrite read_step_unfold, write_step_unfold.
  apply read_struct_across; [done|apply step_entries_nodup|]. intros o' Hf.
  unfold step_fields. rewrite !Hf. unfold step_entries. find_field.
  rewrite read_uuid_across, !(read_string_across t Ht), !(read_u64_across t Ht),
    (read_u32_across t Ht), (read_bool_across t Ht), read_backoff_across by done.
  rewrite !match_some_none. cbn [if_missing defaulted].
  rewrite !read_skipped_across, option_fmap_id, read_config_across, read_ids_across,
    read_trigger_across, read_subs_across.
  - cbn. by destruct s.
  - apply Forall_forall. intros c Hc. rewrite Forall_forall in IH. apply IH; [done|].
    by eapply forest_ranges.
Qed.

(** Opens the struct of the goal and looks up its fields. *)
Ltac open_fields fields :=
  apply read_struct_across; [done|apply (bool_decide_unpack _); vm_compute; exact I|];
  intros o' Hf; unfold fields; rewrite !Hf; find_field.

Lemma read_flow_across f :
  flow_range f -> read_flow (t (write_flow f)) = Some (reread_flow t f).
Proof.
  intros [Hs Ho Hv]. open_fields (@flow_fields). clear Hf.
  rewrite read_uuid_across, !(read_string_across t Ht), read_mode_across,
    (read_bool_across t Ht), (read_opt_u64_across _ Ho), (read_u32_across t Ht _ Hv).
  rewrite (read_vec_across t Ht write_step read_step (reread_step t)); [done|].
  apply Forall_forall. intros s Hin. by eapply read_step_across, forest_ranges.
Qed.

Lemma read_step_result_across r :
  step_result_range r -> read_step_result (t (write_step_result r)) = Some (reread_step_result t r).
Proof.
  intros [Hd Ha]. open_fields (@step_result_fields). clear Hf.
  by rewrite read_uuid_across, read_status_across, (read_u64_across t Ht _ Hd),
    (read_u32_across t Ht _ Ha), read_text_across.
Qed.

Lemma read_flow_result_across fr :
  flow_result_range fr -> read_flow_result (t (write_flow_result fr)) = Some (reread_flow_result t fr).
Proof.
  intros [Hr Hm]. open_fields (@flow_result_fields). clear Hf.
  rewrite (read_string_across t Ht), (read_u64_across t Ht _ Hm), !(read_bool_across t Ht).
  rewrite (read_vec_across t Ht write_step_result read_step_result (reread_step_result t)); [done|].
  eapply Forall_impl; [exact Hr|]. apply read_step_result_across.
Qed.

Lemma read_record_across r :
  record_range r -> read_record (t (write_record r)) = Some (reread_record t r).
Proof.
  unfold record_range. intros Hr. open_fields (@record_fields). clear Hf.
  rewrite !(read_string_across t Ht), read_state_across, read_text_across.
  rewrite (read_option_across t Ht write_flow_result read_flow_result (reread_flow_result t)); [done|].
  intros fr Efr. rewrite Efr in Hr. cbn in Hr. pose proof (read_flow_result_across fr Hr) as H. split; [done|].
  intros E. by rewrite E in H.
Qed.

Lemma read_progress_across p :
  read_progress (t (write_progress p)) =
  Some (mkProgress (progress_step p) (progress_id p) (reread_value t (progress_data p))).
Proof.
  open_fields (@progress_fields). clear Hf. by rewrite !(read_string_across t Ht).
Qed.

Lemma read_event_across `{CTL : ChronoTextLaws} e :
  event_range e -> read_event (t (write_event e)) = Some e.
Proof.
  intros [Ha Hd]. open_fields (@event_fields). clear Hf.
  rewrite read_event_type_across, !read_text_across, (read_opt_u32_across _ Ha),
    (read_opt_u64_across _ Hd). unfold read_time. rewrite (transport_string t Ht). cbn.
  rewrite text_to_time_to_text. by destruct e.
Qed.
End Across.
