(* ===== verification/Codecs.v ===== *)
(** * Reading and writing definitions, results and records as JSON

    The calls of [serde_json] the crate makes at its own types ([to_value],
    [from_value], [to_string], [from_str]), with the codecs of [SerdeTypes].  They
    implement [RecordCodec], by which the SQL store keeps its rows, and
    [DefinitionCodec], by which the tools exchange definitions. *)

From Stdlib Require Import ZArith Lia Ascii.
From stdpp Require Import base tactics option list strings countable gmap.
From S2P Require Import Prelude RustStr Json State Error Step Flow Bus EngineResult Storage SqlStore.
From S2P Require Import RustPath Mcp Serde SerdeTypes.

Open Scope Z_scope.

Section Calls.
Context `{JN : JsonNumber} `{JL : !JsonLib} `{MJ : !McpJson} `{JT : !JsonText}.

(** [serde_json::to_value], on what a type is written as *)
Definition to_value (tree : Value) : Value := rebuild tree.

(** [serde_json::from_value] *)
Definition from_value {A} (read : Value -> option A) (v : Value) : result A string :=
  ok_or (read v) (from_value_error v).

(** [serde_json::from_str] *)
Definition from_str {A} (read : Value -> option A) (s : string) : result A string :=
  ok_or (json_tree s ≫= read) (from_str_error s).
End Calls.

(** [serde]'s derived codecs of definitions, as the tools use them. *)
Class DefinitionCodec `{JN : JsonNumber} := {
  step_from_str : string -> result StepDef string;
  step_from_value : Value -> result StepDef string;
  step_to_value : StepDef -> result Value string;
  flow_from_str : string -> result FlowDef string;
  flow_to_value : FlowDef -> result Value string
}.

Section Instances.
Context `{JN : JsonNumber} `{JL : !JsonLib} `{MJ : !McpJson} `{JT : !JsonText} `{UL : UuidLib}.

Definition serde_definitions : DefinitionCodec := {|
  step_from_str := from_str read_step;
  step_from_value := from_value read_step;
  step_to_value s := Ok (to_value (write_step s));
  flow_from_str := from_str read_flow;
  flow_to_value f := Ok (to_value (write_flow f))
|}.

Definition serde_records : RecordCodec := {|
  record_to_string r := Ok (value_to_string (write_record r));
  record_from_string := from_str read_record
|}.
End Instances.

(** ** Depth *)

Section Depth.
Context `{JN : JsonNumber} `{JL : !JsonLib} `{LW : !JsonLaws} `{MJ : !McpJson}
  `{JT : !JsonText} `{TL : !JsonTextLaws}.

Lemma depth_array_le a n :
  (json_depth (VArray a) <= S n)%nat <-> Forall (fun w => (json_depth w <= n)%nat) a.
Proof.
  cbn. induction a as [|w a IH]; [split; [by intros _; apply Forall_nil|cbn; lia]|]. cbn. rewrite Forall_cons, <- IH. lia.
Qed.

Lemma depth_object_le o n :
  (json_depth (VObject o) <= S n)%nat <-> Forall (fun e => (json_depth e.2 <= n)%nat) o.
Proof.
  cbn. induction o as [|[k w] o IH]; [split; [by intros _; apply Forall_nil|cbn; lia]|].
  cbn. rewrite Forall_cons, <- IH. cbn. lia.
Qed.

Lemma assoc_elem k v (o : list (string * Value)) : assoc k o = Some v -> (k, v) ∈ o.
Proof.
  induction o as [|[k' w] o IH]; [done|]. cbn. case_decide as Hk; [|intros H; right; auto].
  intros [= ->]. subst k'. left.
Qed.

Lemma elem_assoc k v (o : list (string * Value)) :
  NoDup o.*1 -> (k, v) ∈ o -> assoc k o = Some v.
Proof.
  induction o as [|[k' w] o IH]; [by intros _ ?%not_elem_of_nil|]. cbn.
  intros [Hk Ho]%NoDup_cons [[= -> ->]|Hin]%elem_of_cons; [by rewrite decide_True|].
  rewrite decide_False; [by apply IH|]. intros ->. apply Hk, list_elem_of_fmap.
  by exists (k', v).
Qed.

(** Collecting entries into a map adds none. *)
Lemma collected_elem e o : e ∈ json_object o -> e ∈ o.
Proof.
  destruct e as [k v]. intros H.
  apply elem_assoc in H; [|apply json_object_nodup]. rewrite assoc_json_object in H.
  apply elem_of_rev. by apply assoc_elem.
Qed.

Lemma depth_rebuild v : forall n, (json_depth v <= n)%nat -> (json_depth (rebuild v) <= n)%nat.
Proof.
  revert v. fix IH 1. intros v n. destruct v as [|b|m|s|a|o]; try done.
  - destruct n as [|n]; [cbn; lia|]. rewrite depth_array_le. intros H.
    cbn [rebuild]. apply depth_array_le.
    induction a as [|w a IHa]; [by constructor|]. cbn [map].
    apply Forall_cons in H as [Hw Ha]. constructor; [by apply IH|by apply IHa].
  - destruct n as [|n]; [cbn; lia|]. rewrite depth_object_le. intros H.
    cbn [rebuild]. apply depth_object_le, Forall_forall. intros e He%collected_elem.
    revert e He. apply Forall_forall.
    induction o as [|[k w] o IHo]; [by constructor|]. cbn [map].
    apply Forall_cons in H as [Hw Ho]. constructor; [by apply IH|by apply IHo].
Qed.
End Depth.

(** ** Records *)

Section Records.
Context `{JN : JsonNumber} `{JL : !JsonLib} `{LW : !JsonLaws} `{MJ : !McpJson}
  `{ML : !McpJsonLaws} `{JT : !JsonText} `{TL : !JsonTextLaws} `{UL : UuidLib} `{UW : !UuidLaws}.

(** A record as the engine makes it, nested less deep than the parser goes. *)
Definition record_readable (r : ExecutionRecord) : Prop :=
  record_range r /\ (json_depth (write_record r) < 128)%nat.

Definition record_exact (r : ExecutionRecord) : Prop :=
  record_readable r /\ record_settled (map_numbers renumber) r.

Lemma record_text_reads r :
  record_readable r ->
  from_str read_record (value_to_string (write_record r)) =
    Ok (reread_record (map_numbers renumber) r).
Proof.
  intros [Hr Hd]. unfold from_str. rewrite tree_of_text by done. cbn [mbind option_bind].
  by rewrite (read_record_across _ transport_numbers r Hr).
Qed.

Definition serde_record_laws : RecordCodecLaws (H := serde_records).
Proof.
  refine (@Build_RecordCodecLaws _ serde_records record_readable record_exact _ _ _ _); cbn.
  - intros r. by eexists.
  - intros r d Hr [= <-]. by rewrite record_text_reads; eauto.
  - intros r d [Hr Hs] [= <-]. by rewrite record_text_reads, reread_record_id.
  - by intros r [Hr _].
Defined.

(** A record nested too deep is written and can never be read. *)
Lemma deep_record_unreadable r :
  (128 <= json_depth (write_record r))%nat ->
  record_from_string (RecordCodec := serde_records) (value_to_string (write_record r)) =
    Err (from_str_error (value_to_string (write_record r))).
Proof. intros Hd. cbn. unfold from_str. by rewrite too_deep. Qed.
End Records.

(** ** Definitions *)

Section DefinitionFacts.
Context `{JN : JsonNumber} `{JL : !JsonLib} `{LW : !JsonLaws} `{MJ : !McpJson}
  `{ML : !McpJsonLaws} `{JT : !JsonText} `{TL : !JsonTextLaws} `{UL : UuidLib} `{UW : !UuidLaws}.

(** A definition printed by a tool and parsed by the next one. *)
Definition printed (v : Value) : Value := map_numbers renumber (rebuild v).

Lemma transport_printed : transport printed.
Proof. apply (transport_compose _ _ transport_rebuild transport_numbers). Qed.

Lemma pretty_reads {A} (read : Value -> option A) tree x :
  (json_depth tree < 128)%nat -> read (printed tree) = Some x ->
  from_str read (pretty (to_value tree)) = Ok x.
Proof.
  intros Hd Hx. unfold pretty. destruct (pretty_text (to_value tree)) as (s & -> & Hs).
  unfold from_str. rewrite Hs.
  - cbn. unfold printed in Hx. unfold to_value. by rewrite Hx.
  - unfold to_value. apply Nat.lt_succ_r, depth_rebuild. lia.
Qed.

(** What a reader accepts is in range. *)
Lemma field_from {A} v src i k (read : Value -> option A) ab x :
  source_of v src -> field src i k read ab = Some x ->
  (exists w, (json_depth w < json_depth v)%nat /\ read w = Some x) \/
  if_missing ab = Some x \/ if_short ab = Some x.
Proof.
  intros [(o & -> & ->)|(a & -> & ->)]; cbn.
  - pose proof (fun w => depth_entry k w o) as Hd.
    destruct (entries k o) as [|w [|]]; [auto| |done].
    intros Hx. left. exists w. split; [apply Hd; left|done].
  - destruct (a !! i) as [w|] eqn:E; [|auto]. intros Hx. left. exists w.
    split; [|done]. apply depth_array. by eapply list_elem_of_lookup_2.
Qed.

Lemma required_from {A} v src i k (read : Value -> option A) x :
  source_of v src -> field src i k read required = Some x ->
  exists w, (json_depth w < json_depth v)%nat /\ read w = Some x.
Proof. intros Hs [H|[H|H]]%(field_from v); done. Qed.

Lemma read_u64_range v n : read_u64 v = Some n -> in_u64 n.
Proof. destruct v; try done. apply as_u64_range. Qed.

Lemma read_u32_range v n : read_u32 v = Some n -> in_u32 n.
Proof.
  unfold read_u32. intros (m & Hm & H)%bind_Some. apply read_u64_range in Hm.
  destruct (m <=? u32_max) eqn:E; [|done]. injection H as <-.
  unfold in_u32, in_u64 in *. lia.
Qed.

Lemma read_struct_source {A} n (read : source -> option A) v x :
  read_struct n read v = Some x -> exists src, source_of v src /\ read src = Some x.
Proof.
  unfold source_of. destruct v as [| | | |a|o]; cbn; try done.
  - case_bool_decide; [|done]. intros H'. exists (FromSeq a). eauto.
  - intros H'. exists (FromMap o). eauto.
Qed.

Lemma read_vec_elems {A} (read : Value -> option A) v l x :
  read_vec read v = Some l -> x ∈ l ->
  exists w, (json_depth w < json_depth v)%nat /\ read w = Some x.
Proof.
  destruct v as [| | | |a|]; cbn [read_vec]; try done. intros H%mapM_Some Hx.
  apply list_elem_of_lookup in Hx as [i Hi]. destruct (Forall2_lookup_r _ _ _ _ _ H Hi) as (w & Hw & Hr).
  exists w. split; [|done]. apply depth_array. by eapply list_elem_of_lookup_2.
Qed.

Lemma read_step_in_range v s : read_step v = Some s -> Forall step_range (subtree s).
Proof.
  remember (json_depth v) as n eqn:En. revert v s En.
  induction n as [n IH] using lt_wf_ind. intros v s -> H. rewrite read_step_unfold in H.
  apply read_struct_source in H as (src & Hs & H). unfold step_fields in H.
  do 3 (apply bind_Some in H as (? & _ & H)).
  apply bind_Some in H as (tm & Htm & H). apply bind_Some in H as (mr & Hmr & H).
  apply bind_Some in H as (rd & Hrd & H). do 7 (apply bind_Some in H as (? & _ & H)).
  apply bind_Some in H as (subs & Hsubs & H). injection H as <-.
  rewrite subtree_unfold. cbn [sub_steps]. constructor.
  - destruct (required_from v src _ _ _ _ Hs Htm) as (w1 & _ & H1%read_u64_range).
    destruct (required_from v src _ _ _ _ Hs Hmr) as (w2 & _ & H2%read_u32_range).
    destruct (required_from v src _ _ _ _ Hs Hrd) as (w3 & _ & H3%read_u64_range). done.
  - apply (field_from v) in Hsubs as [(w & Hw & Hr)|[Hr|Hr]];
      [|injection Hr as <-; by apply Forall_nil..|done].
    apply Forall_forall. intros c (p & Hp & Hc)%list_elem_of_In%in_flat_map.
    apply list_elem_of_In in Hp, Hc. destruct (read_vec_elems _ _ _ _ Hr Hp) as (w' & Hw' & Hr').
    assert (Forall step_range (subtree p)) as Hall by (eapply (IH (json_depth w')); eauto; lia).
    rewrite Forall_forall in Hall. by apply Hall.
Qed.

(** A value that JSON keeps as it is: its numbers are read as they were, its maps
    were built by [Map]. *)
Definition plain (v : Value) : Prop := map_numbers renumber v = v /\ rebuild v = v.

Definition config_plain (s : StepDef) : Prop :=
  match config s with Some v => plain v /\ v <> Null | None => True end.

Lemma plain_settled t s :
  (t = rebuild \/ t = map_numbers renumber \/ t = printed) -> config_plain s -> config_settled t s.
Proof.
  unfold config_plain, config_settled, settled, plain. destruct (config s) as [v|]; [|done].
  intros Ht [[Hn Hr] Hv]. split; [|done].
  destruct Ht as [->|[->| ->]]; unfold printed; by rewrite ?Hr, ?Hn, ?Hr.
Qed.

Lemma flow_reads t f :
  transport t -> (t = rebuild \/ t = map_numbers renumber \/ t = printed) ->
  flow_range f -> Forall config_plain (forest (steps f)) ->
  read_flow (t (write_flow f)) = Some f.
Proof.
  intros Ht Hw Hr Hp. rewrite read_flow_across, reread_flow_id; [done| |done|done].
  eapply Forall_impl; [exact Hp|]. intros s. by apply plain_settled.
Qed.

(** The text a tool answers for a flow is read as that flow. *)
Lemma flow_printed f :
  flow_range f -> Forall config_plain (forest (steps f)) -> (json_depth (write_flow f) < 128)%nat ->
  from_str read_flow (pretty (to_value (write_flow f))) = Ok f.
Proof.
  intros Hr Hp Hd. apply pretty_reads; [done|]. apply flow_reads; auto using transport_printed.
Qed.

Lemma step_text_reads s :
  Forall step_range (subtree s) -> Forall config_plain (subtree s) ->
  (json_depth (write_step s) < 128)%nat ->
  from_str read_step (value_to_string (write_step s)) = Ok s.
Proof.
  intros Hr Hp Hd. unfold from_str. rewrite tree_of_text by done. cbn [mbind option_bind].
  rewrite (read_step_across _ transport_numbers s Hr), reread_step_id; [done|].
  eapply Forall_impl; [exact Hp|]. intros c. apply plain_settled. auto.
Qed.

Lemma step_new_range i nm : Forall step_range (subtree (step_new i nm)).
Proof. repeat constructor; cbn; unfold in_u64, in_u32, u64_max, u32_max; lia. Qed.

(** A flow as it was written before definitions had a version. *)
Definition write_legacy_flow (f : FlowDef) : Value :=
  match write_flow f with
  | VObject o => VObject (filter (fun e => e.1 <> "version") o)
  | v => v
  end.

Lemma legacy_flow_reads t f :
  transport t -> flow_range f ->
  read_flow (t (write_legacy_flow f)) = Some (with_version (reread_flow t f) default_flow_version).
Proof.
  intros Ht [Hs Ho Hv].
  change (write_legacy_flow f) with (VObject (removelast match write_flow f with
    | VObject o => o | _ => [] end)). cbn [write_flow removelast].
  apply read_struct_across; [done|apply (bool_decide_unpack _); vm_compute; exact I|].
  intros o' Hf. unfold flow_fields. rewrite !Hf. find_field. clear Hf.
  rewrite read_uuid_across, !(read_string_across t Ht), read_mode_across,
    (read_bool_across t Ht), (read_opt_u64_across _ Ht _ Ho) by done.
  rewrite (read_vec_across t Ht write_step read_step (reread_step t)); [done|].
  apply Forall_forall. intros s Hin. by eapply read_step_across, forest_ranges.
Qed.
End DefinitionFacts.

(** ** A concrete text form

    Trees printed through an injective numbering of all trees: the laws of
    [JsonText] can be met. *)

Module TextModel.
Import SerdeModel.

#[local] Instance f64_eq_dec : EqDecision f64.
Proof. solve_decision. Defined.

#[local] Instance f64_countable : Countable f64.
Proof.
  refine (inj_countable'
    (fun x : f64 => match x with
       | SpecFloat.S754_zero s => inl (inl s)
       | SpecFloat.S754_infinity s => inl (inr s)
       | SpecFloat.S754_nan => inr (inl tt)
       | SpecFloat.S754_finite s m e => inr (inr (s, m, e))
       end)
    (fun y => match y with
       | inl (inl s) => SpecFloat.S754_zero s
       | inl (inr s) => SpecFloat.S754_infinity s
       | inr (inl _) => SpecFloat.S754_nan
       | inr (inr (s, m, e)) => SpecFloat.S754_finite s m e
       end) _). by intros [].
Defined.

#[local] Instance num_eq_dec : EqDecision Num.
Proof. solve_decision. Defined.

#[local] Instance num_countable : Countable Num.
Proof.
  refine (inj_countable'
    (fun n => match n with PosInt z => inl (inl z) | NegInt z => inl (inr z) | Float x => inr x end)
    (fun y => match y with inl (inl z) => PosInt z | inl (inr z) => NegInt z | inr x => Float x end) _).
  by intros [].
Defined.

Definition leaf : Type := bool + (Num + string).

(** A tree as a tree of leaves, nodes numbered by their kind. *)
Fixpoint to_tree (v : @Value serde_number) : gen_tree leaf :=
  match v with
  | Null => GenNode 0 []
  | VBool b => GenLeaf (inl b)
  | VNumber n => GenLeaf (inr (inl n))
  | VString s => GenLeaf (inr (inr s))
  | VArray a => GenNode 1 (map to_tree a)
  | VObject o => GenNode 2 (map (fun '(k, w) => GenNode 3 [GenLeaf (inr (inr k)); to_tree w]) o)
  end.

Fixpoint of_tree (g : gen_tree leaf) : @Value serde_number :=
  match g with
  | GenLeaf (inl b) => VBool b
  | GenLeaf (inr (inl n)) => VNumber (n : @Number serde_number)
  | GenLeaf (inr (inr s)) => VString s
  | GenNode 1 l => VArray (map of_tree l)
  | GenNode 2 l => VObject (map (fun g => match g with
      | GenNode 3 [GenLeaf (inr (inr k)); w] => (k, of_tree w)
      | _ => (EmptyString, Null)
      end) l)
  | GenNode _ _ => Null
  end.

Lemma of_to_tree v : of_tree (to_tree v) = v.
Proof.
  revert v. fix IH 1. intros [|b|n|s|a|o]; [reflexivity..| |]; cbn.
  - apply (f_equal VArray). induction a as [|w a IHa]; [reflexivity|]. cbn. by rewrite IH, IHa.
  - apply (f_equal VObject). induction o as [|[k w] o IHo]; [reflexivity|]. cbn. by rewrite IH, IHo.
Qed.

(** A positive as its binary digits. *)
Fixpoint digits (p : positive) : string :=
  match p with
  | xH => ""
  | xO p => String "0" (digits p)
  | xI p => String "1" (digits p)
  end.
Fixpoint undigits (s : string) : positive :=
  match s with
  | "" => xH
  | String c s => if eqc c "0" then xO (undigits s) else xI (undigits s)
  end.
Lemma undigits_digits p : undigits (digits p) = p.
Proof. induction p as [p IH|p IH|]; cbn; by rewrite ?IH. Qed.

Definition print (v : @Value serde_number) : string := digits (encode (to_tree v)).
Definition parse (s : string) : option (@Value serde_number) := of_tree <$> decode (undigits s).

Lemma read_printed v : parse (print v) = Some v.
Proof. unfold parse, print. rewrite undigits_digits, decode_encode. cbn. by rewrite of_to_tree. Qed.

Definition text_lib : JsonLib (H := serde_number) := {|
  value_get := SerdeModel.get; map_insert := SerdeModel.insert; value_to_string := print
|}.

Definition text_json_laws : JsonLaws (JL := text_lib).
Proof.
  split.
  - done.
  - intros [] k Hv; try done. by destruct (Hv o).
  - intros. apply SerdeModel.assoc_insert.
  - intros x Hx. exists (Float x). cbn. by rewrite Hx.
  - intros x Hx. cbn. by rewrite Hx.
Defined.

Definition no_message : JsonError := mkJsonError "expected value" 1 1.

Definition text_mcp : McpJson (JN := serde_number) := {|
  number_as_u64 := McpModel.number_u64 : Number -> option Z;
  number_of_i64 n := (if 0 <=? n then PosInt n else NegInt n) : Number;
  json_from_str s := ok_or (parse s) no_message;
  to_string_pretty v := Ok (print v)
|}.

Definition text_mcp_laws : McpJsonLaws (MJ := text_mcp).
Proof. destruct (McpModel.mcp_json_laws (fun s => ok_or (parse s) no_message)). by split. Defined.

Definition shallow (v : @Value serde_number) : option (@Value serde_number) :=
  if (json_depth v <? 128)%nat then Some v else None.

Definition text : JsonText (JL := text_lib) (MJ := text_mcp) := {|
  json_tree s := parse s ≫= shallow;
  renumber n := n;
  from_str_error s := "expected value";
  from_value_error v := "invalid type"
|}.

Lemma insert_keys k v o x : x ∈ (SerdeModel.insert k v o).*1 -> x = k \/ x ∈ o.*1.
Proof.
  induction o as [|[k' w] o IH]; cbn; [rewrite list_elem_of_singleton; auto|].
  case_decide; cbn; rewrite !elem_of_cons; naive_solver.
Qed.

Lemma insert_nodup k v o : NoDup o.*1 -> NoDup (SerdeModel.insert k v o).*1.
Proof.
  induction o as [|[k' w] o IH]; cbn; [intros _; apply NoDup_singleton|].
  rewrite NoDup_cons. intros [Hk Ho]. case_decide as E; cbn; rewrite NoDup_cons.
  - by subst k'.
  - split; [|by apply IH]. intros [->|?]%insert_keys; done.
Qed.

Lemma map_numbers_same v : map_numbers (fun n => n) v = v.
Proof.
  revert v. fix IH 1. intros [|b|n|s|a|o]; [reflexivity..| |]; cbn.
  - apply (f_equal VArray). induction a as [|w a IHa]; [reflexivity|]. cbn. by rewrite IH, IHa.
  - apply (f_equal VObject). induction o as [|[k w] o IHo]; [reflexivity|]. cbn. by rewrite IH, IHo.
Qed.

Lemma shallow_tree v : (json_depth v < 128)%nat -> parse (print v) ≫= shallow = Some v.
Proof.
  intros Hd. rewrite read_printed. cbn [mbind option_bind]. unfold shallow.
  by rewrite (proj2 (Nat.ltb_lt _ _) Hd).
Qed.

Definition text_laws : JsonTextLaws (JT := text).
Proof.
  split.
  - apply insert_nodup.
  - done.
  - intros v Hd. cbn [json_tree text value_to_string text_lib renumber].
    by rewrite shallow_tree, map_numbers_same.
  - intros v Hd. cbn [json_tree text value_to_string text_lib]. rewrite read_printed.
    cbn [mbind option_bind]. unfold shallow. by rewrite (proj2 (Nat.ltb_ge _ _) Hd).
  - intros v. exists (print v). split; [done|]. intros Hd. cbn [json_tree text renumber].
    by rewrite shallow_tree, map_numbers_same.
Defined.
End TextModel.

(** ** Properties *)

(** C23. Definitions survive JSON.  A flow written by [to_value], by [to_string] or
    by a tool's pretty printer is read back as the very same flow, sub-steps,
    dependencies and optional fields included, when its integers are in range, its
    configs are plain JSON values other than [null], and, through text, it nests
    less than 128 deep.  Every reader also accepts a flow written before
    definitions had a version, as version 1. *)
Theorem flow_json_roundtrip `{JN : JsonNumber} `{JL : !JsonLib} `{LW : !JsonLaws}
    `{MJ : !McpJson} `{ML : !McpJsonLaws} `{JT : !JsonText} `{TL : !JsonTextLaws}
    `{UL : UuidLib} `{UW : !UuidLaws} (f : FlowDef) :
  flow_range f -> Forall config_plain (forest (steps f)) ->
  from_value read_flow (to_value (write_flow f)) = Ok f /\
  ((json_depth (write_flow f) < 128)%nat ->
     from_str read_flow (value_to_string (write_flow f)) = Ok f /\
     from_str read_flow (pretty (to_value (write_flow f))) = Ok f) /\
  from_value read_flow (to_value (write_legacy_flow f)) = Ok (with_version f 1).
Proof.
  intros Hr Hp. split_and!.
  - unfold from_value, to_value. by rewrite (flow_reads rebuild) by first [apply transport_rebuild|by auto].
  - intros Hd. split; [|by apply flow_printed].
    unfold from_str. rewrite tree_of_text by done. cbn [mbind option_bind].
    by rewrite (flow_reads (map_numbers renumber)) by first [apply transport_numbers|by auto].
  - unfold from_value, to_value. rewrite (legacy_flow_reads rebuild) by first [apply transport_rebuild|by auto].
    rewrite reread_flow_id; [done|]. eapply Forall_impl; [exact Hp|].
    intros s. apply plain_settled. auto.
Qed.

(** [null] as a config does not survive: it is read as no config at all. *)
Lemma null_config_lost `{JN : JsonNumber} `{JL : !JsonLib} `{LW : !JsonLaws}
    `{MJ : !McpJson} `{ML : !McpJsonLaws} `{JT : !JsonText} `{TL : !JsonTextLaws}
    `{UL : UuidLib} `{UW : !UuidLaws} (i : StepId) nm :
  let s := with_config (step_new i nm) Null in
  config s = Some Null /\
  from_value read_step (to_value (write_step s)) = Ok (step_new i nm).
Proof.
  intros s. split; [done|]. unfold from_value, to_value.
  rewrite (read_step_across rebuild transport_rebuild); [done|].
  repeat constructor; cbn; unfold in_u64, in_u32, u64_max, u32_max; lia.
Qed.


Module CodecExamples.
Section Examples.
Context `{JN : JsonNumber}.
Definition step : StepDef := step_new 2%N "test".
Definition flow : FlowDef := add_step (flow_new 9%N "ci" FlowMode.Sequential) step.
Definition deep : Value := Nat.iter 128 (fun v => VArray [v]) Null.
Definition deep_record : ExecutionRecord := {|
  execution_id := "e1"; record_flow := "ci"; record_state := WorkflowState.Completed;
  record_result := Some {| result_flow := "ci";
    result_steps := [{| step_id := 1%N; status := StepStatus.Completed; output := deep;
                        duration_ms := 5; attempts := 1; error := None |}];
    total_duration_ms := 5; success := true; rolled_back := false |};
  started_at := "t"; finished_at := None |}.
End Examples.
End CodecExamples.

#[local] Existing Instances SerdeModel.serde_number TextModel.text_lib TextModel.text_mcp
  TextModel.text StorageModel.unary_ids.

Lemma flow_json_roundtrip_witness :
  from_value read_flow (to_value (write_flow CodecExamples.flow)) = Ok CodecExamples.flow.
Proof.
  pose proof TextModel.text_json_laws as LW. pose proof TextModel.text_mcp_laws as ML.
  pose proof TextModel.text_laws as TL. pose proof StorageModel.unary_laws as UW.
  assert (flow_range CodecExamples.flow) as Hr.
  { split; [apply step_new_range|done|cbn; unfold in_u32, u32_max, default_flow_version; lia]. }
  assert (Forall config_plain (forest (steps CodecExamples.flow))) as Hp by repeat constructor.
  exact (proj1 (flow_json_roundtrip CodecExamples.flow Hr Hp)).
Defined.

