(* ===== verification/Hub.v ===== *)
(** * The progress hub

    [ProgressHub] of [rust-old/src/stream.rs], over the broadcast channel of
    tokio, and the way of a progress event from the reporter of a step's handler
    to a client that reads Server-Sent Events.  The channel is not part of the
    repository: [Broadcast] is what the hub calls, [BroadcastLaws] its documented
    behaviour, told by [channel]. *)

From Stdlib Require Import ZArith Lia Ascii.
From stdpp Require Import base tactics option list strings gmap.
From S2P Require Import Prelude RustStr Json Step Storage Stream.
From S2P Require Import RustPath Mcp Serde SerdeTypes Codecs.

Open Scope Z_scope.

(** ** The broadcast channel *)

(** What a receive comes to: a value, [RecvError::Lagged] with the number of
    values missed, or that there is nothing to receive yet. *)
Inductive received (T : Type) : Type :=
| Got (x : T)
| Lagged (n : nat)
| Waiting.
Arguments Got {T} x.
Arguments Lagged {T} n.
Arguments Waiting {T}.

Class Broadcast (T : Type) := {
  Channel : Type;
  Receiver : Type;
  receiver_eq_dec :: EqDecision Receiver;
  (** [broadcast::channel]: the channel and its first receiver *)
  channel_new : nat -> Channel * Receiver;
  send : T -> Channel -> result nat T * Channel;
  channel_subscribe : Channel -> Receiver * Channel;
  receiver_count : Channel -> nat;
  recv : Receiver -> Channel -> received T * Channel;
  drop_receiver : Receiver -> Channel -> Channel
}.

(** The documented behaviour: every value sent while there is a receiver is kept
    for the receivers there are, each reads from its own place; at most [backlog]
    values are kept, and a receiver that falls behind them is told how many it
    missed and goes on with the oldest that is kept. *)
Class BroadcastLaws (T : Type) `{BC : !Broadcast T} := {
  sent : Channel -> list T;
  backlog : Channel -> nat;
  place : Receiver -> Channel -> option nat;
  place_range i c p : place i c = Some p -> (p <= length (sent c))%nat;
  (** the capacity may be rounded up *)
  new_channel n : (0 < n)%nat -> let '(c, i) := channel_new n in
    sent c = [] /\ (n <= backlog c)%nat /\
    forall j, place j c = if decide (j = i) then Some 0%nat else None;
  send_keeps x c : let '(res, c') := send x c in
    backlog c' = backlog c /\ (forall i, place i c' = place i c) /\
    ((exists i, is_Some (place i c)) -> is_ok res = true /\ sent c' = sent c ++ [x]) /\
    ((forall i, place i c = None) -> is_ok res = false /\ sent c' = sent c);
  subscribe_place c : let '(i, c') := channel_subscribe c in
    place i c = None /\ sent c' = sent c /\ backlog c' = backlog c /\
    forall j, place j c' = if decide (j = i) then Some (length (sent c)) else place j c;
  recv_leaves i c : let '(out, c') := recv i c in
    sent c' = sent c /\ backlog c' = backlog c /\ forall j, j <> i -> place j c' = place j c;
  recv_reads i c p : place i c = Some p -> let '(out, c') := recv i c in
    let oldest := (length (sent c) - backlog c)%nat in
    if decide (p < oldest)%nat then out = Lagged (oldest - p) /\ place i c' = Some oldest
    else match sent c !! p with
         | Some x => out = Got x /\ place i c' = Some (S p)
         | None => out = Waiting /\ place i c' = Some p
         end;
  drop_place i c :
    sent (drop_receiver i c) = sent c /\ backlog (drop_receiver i c) = backlog c /\
    forall j, place j (drop_receiver i c) = if decide (j = i) then None else place j c
}.

(** ** The hub *)

Section Hub.
Context `{JN : JsonNumber} `{BC : !Broadcast StepProgress}.

Record ProgressHub : Type := mkHub { tx : Channel }.

(** The receiver made with the channel is dropped when [new] returns. *)
Definition hub_new (capacity : nat) : ProgressHub :=
  let '(c, rx) := channel_new (Nat.max capacity 1) in mkHub (drop_receiver rx c).

(** The callback of [sink]: what [send] answers is ignored. *)
Definition hub_publish (p : StepProgress) (h : ProgressHub) : ProgressHub :=
  mkHub (send p (tx h)).2.

Definition hub_subscribe (h : ProgressHub) : Receiver * ProgressHub :=
  let '(i, c) := channel_subscribe (tx h) in (i, mkHub c).

Definition subscriber_count (h : ProgressHub) : nat := receiver_count (tx h).

(** A client receives, and goes away. *)
Definition hub_recv (i : Receiver) (h : ProgressHub) : received StepProgress * ProgressHub :=
  let '(out, c) := recv i (tx h) in (out, mkHub c).
Definition hub_leave (i : Receiver) (h : ProgressHub) : ProgressHub :=
  mkHub (drop_receiver i (tx h)).

(** ** Sequences of calls *)

Inductive hub_call : Type :=
| Publish (p : StepProgress)
| Subscribe
| Recv (i : Receiver)
| Leave (i : Receiver).

(** The state after a call, and what receiver [i] got from it. *)
Definition hub_do (i : Receiver) (c : hub_call) (h : ProgressHub)
  : list (received StepProgress) * ProgressHub :=
  match c with
  | Publish p => ([], hub_publish p h)
  | Subscribe => ([], (hub_subscribe h).2)
  | Recv j => let '(out, h) := hub_recv j h in (if decide (j = i) then [out] else [], h)
  | Leave j => ([], hub_leave j h)
  end.

Fixpoint hub_run (i : Receiver) (cs : list hub_call) (h : ProgressHub)
  : list (received StepProgress) * ProgressHub :=
  match cs with
  | [] => ([], h)
  | c :: cs =>
      let '(got, h) := hub_do i c h in
      let '(got', h) := hub_run i cs h in (got ++ got', h)
  end.

(** The events the calls publish. *)
Definition published_by (c : hub_call) : option StepProgress :=
  match c with Publish p => Some p | _ => None end.
Definition published (cs : list hub_call) : list StepProgress := omap published_by cs.
End Hub.

(** What a receiver got, read against the events published: each event is either
    delivered, in order, or counted by one [Lagged]. *)
Inductive accounts {T} : list (received T) -> list T -> list T -> Prop :=
| accounts_nil l : accounts [] l l
| accounts_got x got l rest : accounts got l rest -> accounts (Got x :: got) (x :: l) rest
| accounts_lagged n got l rest :
    (0 < n <= length l)%nat -> accounts got (drop n l) rest -> accounts (Lagged n :: got) l rest
| accounts_waiting got l rest : accounts got l rest -> accounts (Waiting :: got) l rest.

Section AccountFacts.
Context {T : Type}.

Lemma accounts_trans (g1 g2 : list (received T)) l m r :
  accounts g1 l m -> accounts g2 m r -> accounts (g1 ++ g2) l r.
Proof. induction 1; cbn; eauto using accounts. Qed.

Lemma accounts_snoc (g : list (received T)) l m (x : T) :
  accounts g l m -> accounts g (l ++ [x]) (m ++ [x]).
Proof.
  induction 1 as [l|y g l m _ IH|n g l m Hn _ IH|g l m _ IH]; cbn; eauto using accounts.
  constructor; [rewrite length_app; lia|]. by rewrite drop_app_le by lia.
Qed.

Lemma accounts_app (g : list (received T)) l m k :
  accounts g l m -> accounts g (l ++ k) (m ++ k).
Proof.
  intros H. induction k as [|x k IH] using rev_ind; [by rewrite !app_nil_r|].
  rewrite !app_assoc. by apply accounts_snoc.
Qed.

Lemma accounts_length (g : list (received T)) l m : accounts g l m -> (length m <= length l)%nat.
Proof.
  induction 1 as [l|y g l m _ IH|n g l m Hn _ IH|g l m _ IH]; cbn; try lia.
  rewrite length_drop in IH. lia.
Qed.

(** Without lags the values are the events, in order. *)
Definition values (g : list (received T)) : list T :=
  omap (fun o => match o with Got x => Some x | _ => None end) g.
Definition lagged (o : received T) : bool := match o with Lagged _ => true | _ => false end.

Lemma accounts_values g l rest :
  accounts g l rest -> existsb lagged g = false -> l = values g ++ rest.
Proof.
  induction 1 as [l|y g l m _ IH|n g l m Hn _ IH|g l m _ IH]; cbn; try done.
  intros H. by rewrite IH.
Qed.
End AccountFacts.

(** ** A subscriber *)

Section Subscriber.
Context `{JN : JsonNumber} `{BC : !Broadcast StepProgress} `{BL : !BroadcastLaws StepProgress}.

(** What receiver [i] has still to read. *)
Definition unread (i : Receiver) (h : ProgressHub) : list StepProgress :=
  match place i (tx h) with Some p => drop p (sent (tx h)) | None => [] end.

Definition subscribed (i : Receiver) (h : ProgressHub) : Prop := is_Some (place i (tx h)).

Lemma publish_unread i p h :
  subscribed i h -> subscribed i (hub_publish p h) /\
  unread i (hub_publish p h) = unread i h ++ [p] /\
  backlog (tx (hub_publish p h)) = backlog (tx h).
Proof.
  intros [n Hn]. unfold hub_publish, subscribed, unread. cbn.
  pose proof (send_keeps p (tx h)) as H. destruct (send p (tx h)) as [res c]. cbn.
  destruct H as (Hb & Hp & Hs & _). rewrite Hp, Hn. split; [done|]. split; [|done].
  destruct Hs as [_ ->]; [by eexists|]. rewrite drop_app_le; [done|]. by eapply place_range.
Qed.

Lemma recv_unread i h :
  subscribed i h -> let '(out, h') := hub_recv i h in
  subscribed i h' /\ backlog (tx h') = backlog (tx h) /\
  match unread i h with
  | [] => out = Waiting /\ unread i h' = []
  | x :: rest =>
      if decide (length (unread i h) <= backlog (tx h))%nat then out = Got x /\ unread i h' = rest
      else let n := (length (unread i h) - backlog (tx h))%nat in
           out = Lagged n /\ unread i h' = drop n (unread i h)
  end.
Proof.
  intros [p Hp]. unfold hub_recv, subscribed, unread. rewrite Hp.
  pose proof (recv_reads i (tx h) p Hp) as H. pose proof (place_range i (tx h) p Hp) as Hr.
  pose proof (recv_leaves i (tx h)) as Hl.
  destruct (recv i (tx h)) as [out c]. cbn. destruct Hl as (Hs & Hb & _). rewrite Hs, Hb.
  rewrite length_drop. cbv zeta in H.
  destruct (decide (p < length (sent (tx h)) - backlog (tx h))%nat) as [Hd|Hd].
  - destruct H as [-> ->]. split; [done|]. split; [done|].
    destruct (drop p (sent (tx h))) as [|x rest] eqn:E.
    { apply (f_equal length) in E. rewrite length_drop in E. cbn in E. lia. }
    rewrite decide_False by lia. split; [f_equal; lia|]. rewrite <- E, drop_drop. f_equal. lia.
  - destruct (sent (tx h) !! p) as [x|] eqn:E.
    + destruct H as [-> ->]. split; [done|]. split; [done|].
      rewrite (drop_S _ _ _ E). rewrite decide_True by lia. done.
    + destruct H as [-> ->]. split; [done|]. split; [done|].
      apply lookup_ge_None_1 in E. by rewrite drop_ge by lia.
Qed.

Lemma hub_do_accounts i c h :
  subscribed i h -> c <> Leave i -> let '(got, h') := hub_do i c h in
  subscribed i h' /\ backlog (tx h') = backlog (tx h) /\
  accounts got (unread i h ++ option_list (published_by c)) (unread i h').
Proof.
  intros Hi Hc. destruct c as [p| |j|j]; cbn [hub_do published_by option_list].
  - destruct (publish_unread i p h Hi) as (Hi' & Hu & Hb). split_and!; [done|done|].
    rewrite Hu. constructor.
  - rewrite app_nil_r. unfold hub_subscribe, subscribed, unread in *.
    pose proof (subscribe_place (tx h)) as H. destruct (channel_subscribe (tx h)) as [j c].
    destruct H as (Hj & Hs & Hb & Hp). cbn [tx snd]. rewrite Hs, Hp.
    rewrite decide_False by (intros ->; destruct Hi; congruence).
    split_and!; [done|done|constructor].
  - rewrite app_nil_r. destruct (decide (j = i)) as [->|Hne].
    + pose proof (recv_unread i h Hi) as H. destruct (hub_recv i h) as [out h'].
      destruct H as (Hi' & Hb & H). split_and!; [done|done|].
      destruct (unread i h) as [|x rest] eqn:E.
      * destruct H as [-> ->]. repeat constructor.
      * case_decide as Hd; destruct H as [-> Hu].
        -- rewrite Hu. repeat constructor.
        -- rewrite Hu. constructor; [cbn in *; lia|constructor].
    + unfold hub_recv, subscribed, unread in *. pose proof (recv_leaves j (tx h)) as H.
      destruct (recv j (tx h)) as [out c]. cbn [tx].
      destruct H as (-> & Hb & Hp). rewrite Hp by done. split_and!; [done|done|constructor].
  - rewrite app_nil_r. unfold hub_leave, subscribed, unread in *.
    destruct (drop_place j (tx h)) as (Hs & Hb & Hp). cbn [tx]. rewrite Hs, Hp.
    rewrite decide_False by congruence. split_and!; [done|done|constructor].
Qed.

Lemma hub_run_accounts i cs : forall h,
  subscribed i h -> Leave i ∉ cs -> let '(got, h') := hub_run i cs h in
  subscribed i h' /\ backlog (tx h') = backlog (tx h) /\
  accounts got (unread i h ++ published cs) (unread i h').
Proof.
  induction cs as [|c cs IH]; intros h Hi Hc; cbn [hub_run published omap list_omap].
  - rewrite app_nil_r. split_and!; [done|done|constructor].
  - apply not_elem_of_cons in Hc as [Hc Hcs].
    pose proof (hub_do_accounts i c h Hi (not_eq_sym Hc)) as H. destruct (hub_do i c h) as [got h1].
    destruct H as (Hi1 & Hb1 & H1). pose proof (IH h1 Hi1 Hcs) as H2.
    destruct (hub_run i cs h1) as [got' h2]. destruct H2 as (Hi2 & Hb2 & H2).
    split; [done|]. split; [congruence|]. eapply accounts_trans; [|exact H2].
    apply (accounts_app _ _ _ (published cs)) in H1. rewrite <- app_assoc in H1.
    by destruct (published_by c).
Qed.

(** The backlog is that of the channel, whatever is called. *)
Lemma hub_do_backlog i c h : backlog (tx (hub_do i c h).2) = backlog (tx h).
Proof.
  destruct c as [p| |j|j]; cbn [hub_do].
  - unfold hub_publish. cbn. pose proof (send_keeps p (tx h)) as H.
    destruct (send p (tx h)). by destruct H.
  - unfold hub_subscribe. pose proof (subscribe_place (tx h)) as H.
    destruct (channel_subscribe (tx h)). by destruct H as (_ & _ & Hb & _).
  - unfold hub_recv. pose proof (recv_leaves j (tx h)) as H.
    destruct (recv j (tx h)). by destruct H as (_ & Hb & _).
  - by destruct (drop_place j (tx h)) as (_ & Hb & _).
Qed.

Lemma hub_run_backlog i cs : forall h, backlog (tx (hub_run i cs h).2) = backlog (tx h).
Proof.
  induction cs as [|c cs IH]; intros h; [done|]. cbn [hub_run].
  pose proof (hub_do_backlog i c h) as H. destruct (hub_do i c h) as [got h1].
  specialize (IH h1). destruct (hub_run i cs h1) as [got' h2]. cbn in *. congruence.
Qed.

Lemma hub_new_backlog n : (Nat.max n 1 <= backlog (tx (hub_new n)))%nat.
Proof.
  unfold hub_new. pose proof (new_channel (Nat.max n 1) ltac:(lia)) as H.
  destruct (channel_new (Nat.max n 1)) as [c j]. cbn.
  destruct H as (_ & Hb & _). destruct (drop_place j c) as (_ & Hd & _). cbn in *. lia.
Qed.

Lemma subscribe_new h : let '(i, h') := hub_subscribe h in
  subscribed i h' /\ unread i h' = [] /\ backlog (tx h') = backlog (tx h).
Proof.
  unfold hub_subscribe, subscribed, unread. pose proof (subscribe_place (tx h)) as H.
  destruct (channel_subscribe (tx h)) as [i c]. destruct H as (_ & Hs & Hb & Hp). cbn.
  rewrite Hp, decide_True by done. rewrite Hs, drop_all. by split_and!.
Qed.

(** A receiver lags only when more is unread than is kept. *)
Lemma hub_run_no_lag i cs : forall h,
  subscribed i h -> Leave i ∉ cs ->
  (length (unread i h ++ published cs) <= backlog (tx h))%nat ->
  existsb lagged (hub_run i cs h).1 = false.
Proof.
  induction cs as [|c cs IH]; intros h Hi Hc Hlen; [done|]. cbn [hub_run].
  apply not_elem_of_cons in Hc as [Hc Hcs].
  pose proof (hub_do_accounts i c h Hi (not_eq_sym Hc)) as H.
  assert (existsb lagged (hub_do i c h).1 = false) as Hnow.
  { clear IH H. rewrite length_app in Hlen. pose proof (recv_unread i h Hi) as Hr.
    destruct c as [p| |j|j]; cbn [hub_do]; try done.
    destruct (decide (j = i)) as [->|]; [|by destruct (hub_recv j h)].
    destruct (hub_recv i h) as [out h']. destruct Hr as (_ & _ & Hr).
    destruct (unread i h) as [|x rest]; [by destruct Hr as [-> _]|].
    rewrite decide_True in Hr by lia. by destruct Hr as [-> _]. }
  destruct (hub_do i c h) as [got h1]. destruct H as (Hi1 & Hb1 & H).
  specialize (IH h1 Hi1 Hcs). destruct (hub_run i cs h1) as [got' h2]. cbn in *.
  rewrite existsb_app, Hnow. apply IH. rewrite Hb1. etrans; [|exact Hlen].
  apply accounts_length in H. rewrite !length_app in *.
  destruct (published_by c) as [p|]; cbn in *; unfold published in *; cbn; lia.
Qed.
End Subscriber.

(** ** A concrete channel *)

Module ChannelModel.
Section Model.
Context {T : Type}.

(** Receivers by the number of values they have not read. *)
Record channel : Type := mkChannel {
  buffer : list T;
  capacity : nat;
  behind : gmap nat nat
}.

Definition place_of (i : nat) (c : channel) : option nat :=
  (fun u => length (buffer c) - u)%nat <$> behind c !! i.

Definition move (i p : nat) (c : channel) : channel :=
  mkChannel (buffer c) (capacity c) (<[i := (length (buffer c) - p)%nat]> (behind c)).

Definition do_recv (i : nat) (c : channel) : received T * channel :=
  match place_of i c with
  | None => (Waiting, c)
  | Some p =>
      let oldest := (length (buffer c) - capacity c)%nat in
      if decide (p < oldest)%nat then (Lagged (oldest - p), move i oldest c)
      else match buffer c !! p with
           | Some x => (Got x, move i (S p) c)
           | None => (Waiting, move i p c)
           end
  end.

Definition tokio : Broadcast T := {|
  Channel := channel;
  Receiver := nat;
  channel_new n := (mkChannel [] n {[0%nat := 0%nat]}, 0%nat);
  send x c := if decide (behind c = ∅) then (Err x, c)
              else (Ok (size (behind c)), mkChannel (buffer c ++ [x]) (capacity c) (S <$> behind c));
  channel_subscribe c := let i := fresh (dom (behind c)) in (i, move i (length (buffer c)) c);
  receiver_count c := size (behind c);
  recv := do_recv;
  drop_receiver i c := mkChannel (buffer c) (capacity c) (delete i (behind c))
|}.

Lemma place_moved j i p c :
  (p <= length (buffer c))%nat ->
  place_of j (move i p c) = if decide (j = i) then Some p else place_of j c.
Proof.
  intros Hp. unfold place_of. cbn. case_decide as E; [subst j|].
  - rewrite lookup_insert_eq. cbn. f_equal. lia.
  - by rewrite lookup_insert_ne.
Qed.

Lemma place_le i c p : place_of i c = Some p -> (p <= length (buffer c))%nat.
Proof. unfold place_of. intros (u & _ & ->)%fmap_Some. lia. Qed.

Lemma sent_places i x c :
  place_of i (mkChannel (buffer c ++ [x]) (capacity c) (S <$> behind c)) = place_of i c.
Proof.
  unfold place_of. cbn. rewrite lookup_fmap, length_app. cbn.
  destruct (behind c !! i); cbn; [f_equal; lia|done].
Qed.

Lemma recv_other i c : let '(out, c') := do_recv i c in
  buffer c' = buffer c /\ capacity c' = capacity c /\
  forall j, j <> i -> place_of j c' = place_of j c.
Proof.
  unfold do_recv. destruct (place_of i c) as [p|]; [|done]. cbv zeta.
  assert (forall q j, j <> i -> place_of j (move i q c) = place_of j c) as H.
  { intros q j Hj. unfold place_of. cbn. by rewrite lookup_insert_ne. }
  case_decide; [by split_and!; auto|]. destruct (buffer c !! p); by split_and!; auto.
Qed.

Definition tokio_laws : BroadcastLaws T (BC := tokio).
Proof.
  refine (@Build_BroadcastLaws T tokio (fun c => buffer c) (fun c => capacity c) place_of
            _ _ _ _ _ _ _).
  - intros i c p. apply place_le.
  - intros n Hn. cbn. split_and!; [done|lia|]. intros j. unfold place_of. cbn.
    destruct (decide (j = 0%nat)) as [->|]; [done|]. by rewrite lookup_singleton_ne.
  - intros x c. cbn. destruct (decide (behind c = ∅)) as [E|E].
    + split_and!; [done|done| |done]. unfold place_of. rewrite E. intros (i & j & Hj).
      by rewrite lookup_empty in Hj.
    + split_and!; [done|intros i; apply sent_places|done|].
      intros H. destruct E. apply map_empty. intros i. specialize (H i). unfold place_of in H.
      by destruct (behind c !! i).
  - intros c. cbn. split_and!; [|done|done|].
    + unfold place_of. rewrite (proj1 (not_elem_of_dom (behind c) _)); [done|]. apply is_fresh.
    + intros j. by apply place_moved.
  - apply recv_other.
  - intros i c p Hp. cbn. unfold do_recv. rewrite Hp. cbv zeta. pose proof (place_le i c p Hp).
    case_decide as Hd.
    + split; [done|]. rewrite place_moved by lia. by rewrite decide_True.
    + destruct (buffer c !! p) as [x|] eqn:E; (split; [done|]); rewrite place_moved;
        try (by rewrite decide_True); [|done].
      apply lookup_lt_Some in E. lia.
  - intros i c. cbn. split_and!; [done|done|]. intros j. unfold place_of. cbn. case_decide as E.
    + subst j. by rewrite lookup_delete_eq.
    + by rewrite lookup_delete_ne.
Defined.
End Model.
End ChannelModel.

(** ** Properties *)

(** C27. A subscriber of the hub gets every event published after it subscribed, in
    order and once, or is told how many it missed.  Whatever clients do (publish,
    subscribe, receive, leave), what it has received accounts for the events one
    after the other, each delivered or counted by one [Lagged], and the rest are
    still to be read.  It misses events only by falling more than the capacity
    behind: when no more were published it has got exactly the first of them.
    Its next receive waits if nothing is left, gives the next event if it is no
    more than the backlog behind, and else reports exactly the events that are
    gone. *)
Theorem hub_delivers `{JN : JsonNumber} `{BC : !Broadcast StepProgress}
    `{BL : !BroadcastLaws StepProgress} (capacity : nat) (j : Receiver)
    (before cs : list hub_call) :
  let h := (hub_run j before (hub_new capacity)).2 in
  let '(i, h0) := hub_subscribe h in
  Leave i ∉ cs ->
  let '(got, h1) := hub_run i cs h0 in
  accounts got (published cs) (unread i h1) /\
  ((length (published cs) <= Nat.max capacity 1)%nat ->
     published cs = values got ++ unread i h1) /\
  exists kept, (Nat.max capacity 1 <= kept)%nat /\
    (hub_recv i h1).1 =
      match unread i h1 with
      | [] => Waiting
      | x :: _ => if decide (length (unread i h1) <= kept)%nat then Got x
                  else Lagged (length (unread i h1) - kept)
      end.
Proof.
  intros h. pose proof (subscribe_new h) as Hnew. destruct (hub_subscribe h) as [i h0].
  destruct Hnew as (Hi & Hu & Hb). intros Hleave.
  assert (Nat.max capacity 1 <= backlog (tx h0))%nat as Hcap.
  { rewrite Hb. unfold h. rewrite hub_run_backlog. apply hub_new_backlog. }
  pose proof (hub_run_accounts i cs h0 Hi Hleave) as Hrun.
  pose proof (hub_run_no_lag i cs h0 Hi Hleave) as Hlag. rewrite Hu in Hrun, Hlag.
  destruct (hub_run i cs h0) as [got h1]. destruct Hrun as (Hi1 & Hb1 & Hacc). cbn [app fst] in *.
  split; [done|]. split.
  - intros Hlen. apply accounts_values; [done|]. apply Hlag. lia.
  - exists (backlog (tx h1)). split; [lia|]. pose proof (recv_unread i h1 Hi1) as Hr.
    destruct (hub_recv i h1) as [out h2]. cbn. destruct Hr as (_ & _ & Hr).
    destruct (unread i h1) as [|x rest]; [by destruct Hr|].
    destruct (decide _) as [Hd|Hd]; by destruct Hr.
Qed.

(** What a client of the event stream makes of a message: its type, its id, and
    the progress event its data is the JSON of. *)
Definition client_event `{JN : JsonNumber} `{JL : !JsonLib} `{MJ : !McpJson} `{JT : !JsonText}
    (m : message) : string * string * result StepProgress string :=
  (from_bytes (msg_type m), from_bytes (msg_id m), from_str read_progress (from_bytes (msg_data m))).

(** [progress_to_sse], with the codec [StepProgress] derives. *)
Definition progress_frame `{JN : JsonNumber} `{JL : !JsonLib} (p : StepProgress) : string :=
  progress_to_sse (fun p => Ok (value_to_string (write_progress p))) p.


(** ** Witnesses *)

#[local] Existing Instances SerdeModel.serde_number TextModel.text_lib TextModel.text_mcp
  TextModel.text StorageModel.unary_ids.

Module HubExamples.
Definition tokio : Broadcast StepProgress := ChannelModel.tokio.
Definition laws : BroadcastLaws StepProgress (BC := tokio) := ChannelModel.tokio_laws.
Definition half : Value := VString "half".
Definition step : StepDef := step_new 1%N "build".
Definition event : StepProgress := mkProgress "build" "1" half.
Definition calls : list (hub_call (BC := tokio)) :=
  [Publish event; Subscribe; Recv (0%nat : Receiver (Broadcast := tokio))].

Lemma no_leave i : Leave i ∉ calls.
Proof. unfold calls. rewrite !not_elem_of_cons. by split_and!; [..|apply not_elem_of_nil]. Qed.
End HubExamples.

#[local] Existing Instance HubExamples.tokio.

Lemma hub_delivers_witness :
  let '(i, h0) := hub_subscribe (hub_new 2) in
  let '(got, h1) := hub_run i HubExamples.calls h0 in
  [HubExamples.event] = values got ++ unread (BL := HubExamples.laws) i h1.
Proof.
  pose proof (hub_delivers (BL := HubExamples.laws) 2 0%nat [] HubExamples.calls) as H.
  cbn [hub_run snd] in H. destruct (hub_subscribe (hub_new 2)) as [i h0].
  specialize (H (HubExamples.no_leave i)). destruct (hub_run i HubExamples.calls h0) as [got h1].
  destruct H as (_ & H & _). apply H. cbn. lia.
Defined.

Lemma printed_no_cr v : no_char CR (as_bytes (TextModel.print v)).
Proof.
  unfold TextModel.print.
  match goal with |- context [TextModel.digits ?q] => generalize q as p end.
  by induction p.
Qed.

