(* ===== verification/EventBus.v ===== *)
(** * The event bus

    [EventBus] of [rust-old/src/bus.rs], over the publish/subscribe hub of majra:
    events go out under their topic with their JSON as payload, and subscribers
    name a pattern of topics.  The hub is not part of the repository: [PubSub] is
    what the bus calls, [PubSubLaws] its documented behaviour. *)

From Stdlib Require Import ZArith Lia Ascii.
From stdpp Require Import base tactics option list strings gmap.
From S2P Require Import Prelude RustStr Json Step Storage Bus.
From S2P Require Import RustPath Mcp Serde SerdeTypes Codecs.

Open Scope Z_scope.

Class PubSub `{JN : JsonNumber} := {
  Bus : Type;
  Subscriber : Type;
  subscriber_eq_dec :: EqDecision Subscriber;
  pubsub_new : Bus;
  pubsub_publish : string -> Value -> Bus -> Bus;
  pubsub_subscribe : string -> Bus -> Subscriber * Bus
}.

(** A pattern against a topic, segment by segment: [#] stands for what is left,
    [*] for one segment. *)
Fixpoint segments_match (pattern topic : list string) : bool :=
  match pattern, topic with
  | ["#"], _ => true
  | p :: ps, t :: ts => (bool_decide (p = "*") || bool_decide (p = t)) && segments_match ps ts
  | [], [] => true
  | _, _ => false
  end.

Definition topic_matches (pattern topic : string) : bool :=
  segments_match (split_on "/" pattern) (split_on "/" topic).

(** Documented: what is published reaches the subscribers there are whose pattern
    matches the topic, in order. *)
Class PubSubLaws `{PS : PubSub} := {
  (** the pattern of a subscriber and the messages handed to it *)
  subscription : Subscriber -> Bus -> option (string * list (string * Value));
  subscribe_opens pat b : let '(i, b') := pubsub_subscribe pat b in
    forall j, subscription j b' = if decide (j = i) then Some (pat, []) else subscription j b;
  publish_delivers i t v b :
    subscription i (pubsub_publish t v b) =
      (fun '(pat, l) => (pat, if topic_matches pat t then l ++ [(t, v)] else l))
        <$> subscription i b
}.

Section EventBus.
Context `{JN : JsonNumber} `{JL : !JsonLib} `{MJ : !McpJson} `{JT : !JsonText} `{CT : ChronoText}
  `{PS : !PubSub}.

Record EventBus : Type := mkBus { pubsub : Bus }.

Definition event_bus_new : EventBus := mkBus pubsub_new.

(** [serde_json::to_value] does not fail on an event. *)
Definition event_to_value (e : Event.t) : result Value string := Ok (to_value (write_event e)).

Definition event_bus_publish (e : Event.t) (b : EventBus) : EventBus :=
  match publish event_to_value e with
  | Some (topic, payload) => mkBus (pubsub_publish topic payload (pubsub b))
  | None => b
  end.

Definition event_bus_subscribe (pattern : string) (b : EventBus) : Subscriber * EventBus :=
  let '(i, h) := pubsub_subscribe pattern (pubsub b) in (i, mkBus h).

(** A run's events published one after the other. *)
Definition publish_all (es : list Event.t) (b : EventBus) : EventBus :=
  foldl (fun b e => event_bus_publish e b) b es.

(** The messages a subscriber was handed. *)
Definition inbox `{PL : !PubSubLaws} (i : Subscriber) (b : EventBus) : list (string * Value) :=
  from_option snd [] (subscription i (pubsub b)).
End EventBus.

(** ** Topics and patterns *)

Lemma topic_head e : exists rest,
  split_on "/" (Event.topic e) =
    "szal" :: (if Event.is_flow_event (Event.event_type e) then "flow" else "step") :: rest.
Proof.
  unfold Event.topic. destruct (Event.is_flow_event (Event.event_type e)).
  - change ("szal/flow/" +:+ ?x) with ("szal" +:+ "/" +:+ ("flow" +:+ "/" +:+ x)).
    rewrite !split_slash by done. by eexists.
  - change ("szal/step/" +:+ ?x) with ("szal" +:+ "/" +:+ ("step" +:+ "/" +:+ x)).
    rewrite !split_slash by done. by eexists.
Qed.

Lemma match_everything e : topic_matches "szal/#" (Event.topic e) = true.
Proof. unfold topic_matches. by destruct (topic_head e) as (rest & ->). Qed.

Lemma match_flows e :
  topic_matches "szal/flow/#" (Event.topic e) = Event.is_flow_event (Event.event_type e).
Proof.
  unfold topic_matches. destruct (topic_head e) as (rest & ->).
  by destruct (Event.is_flow_event _).
Qed.

(** [szal/step/*/<type>] *)
Definition step_pattern (ty : EventType.t) : string := "szal/step/*/" +:+ EventType.fmt ty.

Lemma match_steps e ty :
  no_slash (subject e) -> Event.is_flow_event ty = false ->
  topic_matches (step_pattern ty) (Event.topic e) = bool_decide (Event.event_type e = ty).
Proof.
  intros Hs Hty. unfold topic_matches. rewrite topic_segments by done.
  assert (split_on "/" (step_pattern ty) = ["szal"; "step"; "*"; EventType.fmt ty]) as ->
    by (destruct ty; vm_compute; reflexivity).
  by destruct ty, (Event.event_type e).
Qed.

(** A step whose name has a slash escapes the pattern of its events. *)
Lemma slashed_step_missed now id err n :
  topic_matches "szal/step/*/step_failed" (Event.topic (Event.step_failed now "a/b" id err n)) =
  false.
Proof. vm_compute. reflexivity. Qed.

(** The documented [szal/step/*/failed] matches no event of a plainly named step. *)
Lemma documented_pattern_dead e :
  no_slash (subject e) -> topic_matches "szal/step/*/failed" (Event.topic e) = false.
Proof.
  intros Hs. unfold topic_matches. rewrite topic_segments by done.
  assert (split_on "/" "szal/step/*/failed" = ["szal"; "step"; "*"; "failed"]) as ->
    by (vm_compute; reflexivity).
  by destruct (Event.event_type e).
Qed.

(** ** A concrete hub *)

Module PubSubModel.
Section Model.
Context `{JN : JsonNumber}.

Definition deliver (t : string) (v : Value) (s : string * list (string * Value))
  : string * list (string * Value) :=
  let '(pat, l) := s in (pat, if topic_matches pat t then l ++ [(t, v)] else l).

Definition majra : PubSub := {|
  Bus := gmap nat (string * list (string * Value));
  Subscriber := nat;
  pubsub_new := ∅;
  pubsub_publish t v b := deliver t v <$> b;
  pubsub_subscribe pat b := let i := fresh (dom b) in (i, <[i := (pat, [])]> b)
|}.

Lemma lookup_opened i s (b : gmap nat (string * list (string * Value))) j :
  <[i := s]> b !! j = if decide (j = i) then Some s else b !! j.
Proof. rewrite lookup_insert. by repeat case_decide; subst. Qed.

Definition majra_laws : PubSubLaws (PS := majra).
Proof.
  refine (@Build_PubSubLaws _ majra (fun i (b : gmap nat _) => b !! i) _ _).
  - intros pat b j. apply (lookup_opened _ (pat, []) b j).
  - intros i t v b. cbn. by rewrite lookup_fmap.
Defined.
End Model.
End PubSubModel.

(** ** Properties *)

Section Routing.
Context `{JN : JsonNumber} `{JL : !JsonLib} `{MJ : !McpJson} `{JT : !JsonText} `{CT : ChronoText}
  `{PS : !PubSub} `{PL : !PubSubLaws}.

Lemma publish_all_subscription i es : forall b,
  subscription i (pubsub (publish_all es b)) =
    (fun '(pat, l) => (pat, l ++ ((fun e => (Event.topic e, to_value (write_event e))) <$>
       List.filter (fun e => topic_matches pat (Event.topic e)) es))) <$> subscription i (pubsub b).
Proof.
  unfold publish_all. induction es as [|e es IH]; intros b; cbn [foldl List.filter].
  - destruct (subscription i (pubsub b)) as [[pat l]|]; [|done]. cbn. by rewrite app_nil_r.
  - rewrite IH. cbn. rewrite publish_delivers.
    destruct (subscription i (pubsub b)) as [[pat l]|]; [|done]. cbn.
    destruct (topic_matches pat (Event.topic e)); [|done]. cbn. by rewrite <- app_assoc.
Qed.
End Routing.

Lemma filter_all {A} (p : A -> bool) l : Forall (fun x => p x = true) l -> List.filter p l = l.
Proof. induction 1 as [|x l Hx _ IH]; [done|]. cbn. by rewrite Hx, IH. Qed.

Lemma filter_ext_on {A} (p q : A -> bool) l :
  Forall (fun x => p x = q x) l -> List.filter p l = List.filter q l.
Proof. induction 1 as [|x l Hx _ IH]; [done|]. cbn. by rewrite Hx, IH. Qed.


Module EventBusExamples.
Fixpoint ticks (n : nat) : string := match n with O => "" | S n => String "." (ticks n) end.
(** Times are written in unary, after their sign. *)
Definition clock : ChronoText := {|
  time_to_text u := String (if u <? 0 then "-" else "+") (ticks (Z.to_nat (Z.abs u)));
  text_to_time s := match s with
                    | String c s => let n := Z.of_nat (String.length s) in
                                    Some (if eqc c "-" then - n else n)
                    | _ => None
                    end
|}.
Lemma length_ticks n : String.length (ticks n) = n.
Proof. induction n; cbn; congruence. Qed.
Lemma clock_laws : ChronoTextLaws (CT := clock).
Proof.
  split. intros u. cbn. rewrite length_ticks. unfold Timestamp in u.
  destruct (u <? 0) eqn:E.
  - change (eqc "-" "-") with true. cbn. f_equal. lia.
  - change (eqc "+" "-") with false. cbn. f_equal. lia.
Qed.
Definition failure : Event.t := Event.step_failed 7 "test" "2" "broken" 1.
End EventBusExamples.

#[local] Existing Instances SerdeModel.serde_number TextModel.text_lib TextModel.text_mcp
  TextModel.text EventBusExamples.clock.

