(* ===== verification/Durable.v ===== *)
(** * Recorded runs that survive the process

    [Engine::run] ([Runner]) with the execution store of
    [rust-old/src/sql_store.rs] ([engine_sink]): the engine saves its records in
    the sink, the background writer takes them to the table behind the backend of
    a dialect ([SqlBackend]), as the text the derived codec writes ([Codecs]). *)

From Stdlib Require Import ZArith Lia.
From stdpp Require Import base tactics option list strings gmap relations.
From S2P Require Import Prelude Json State Error Step Condition Flow Bus EngineResult.
From S2P Require Import Storage SqlStore SqlBackend Prog StepExec Sequential Pool Runner EndToEnd.
From S2P Require Import RustPath Mcp Serde SerdeTypes Codecs.

Open Scope Z_scope.

(** ** Saves and the writer *)

Section Saving.
Context `{JN : JsonNumber} `{RC : !RecordCodec} `{RL : !RecordCodecLaws}.
Context {D : Type} `{DB : !SqlDb D} `{DL : !SqlDbLaws D}.

(** A task that saves the records [rs] one after the other, with turns of the
    writer in between; [rest] are those it has not saved yet. *)
Inductive saving : list ExecutionRecord -> SpawnSink * D -> list ExecutionRecord -> SpawnSink * D -> Prop :=
| saving_here rs c : saving rs c rs c
| saving_save r rs s d rest c :
    saving rs (sink_save r s, d) rest c -> saving (r :: rs) (s, d) rest c
| saving_writer rs s d s' d' rest c :
    writer_turn s d = Some (s', d') -> saving rs (s', d') rest c -> saving rs (s, d) rest c.

Definition writer_ready (s : SpawnSink) : Prop :=
  if writer_started s then writer s = true else rx s = true /\ queue s = [].

(** The writer has applied a prefix of what was saved, in order. *)
Definition in_order (m : gmap string ExecutionRecord) (saved : list ExecutionRecord)
    (c : SpawnSink * D) : Prop :=
  db_up c.2 /\ writer_ready c.1 /\
  exists applied, Save <$> saved = applied ++ queue c.1 /\
                  agrees (replay applied m) (db_rows c.2).

Lemma in_order_save m saved r s d :
  in_order m saved (s, d) -> in_order m (saved ++ [r]) (sink_save r s, d).
Proof.
  intros (Hup & Hw & applied & Hq & Ha). cbn in *.
  destruct (ensure_writer_writer s Hw) as (Hw1 & Hw2 & Hq').
  split; [done|]. split; [unfold writer_ready; cbn; by rewrite Hw2|].
  exists applied. cbn. split; [|done]. by rewrite fmap_app, Hq, Hq', <- app_assoc.
Qed.

Lemma in_order_writer m saved s d s' d' :
  Forall readable saved -> writer_turn s d = Some (s', d') ->
  in_order m saved (s, d) -> in_order m saved (s', d').
Proof.
  intros Hr Ht (Hup & Hw & applied & Hq & Ha). cbn in *. unfold writer_turn in Ht.
  destruct (writer s) eqn:Ew; [|done]. destruct (queue s) as [|op q] eqn:Eq; [done|].
  simplify_eq/=.
  assert (op_readable op) as Hop.
  { assert (op ∈ Save <$> saved) as (r & -> & Hin)%list_elem_of_fmap
      by (rewrite Hq; apply elem_of_app; right; left).
    rewrite Forall_forall in Hr. by apply Hr. }
  destruct (apply_op_agrees op _ d Hup Ha Hop) as [Hup' Ha'].
  split; [done|]. split.
  { unfold writer_ready in *. cbn. destruct (writer_started s); [done|]. destruct Hw. congruence. }
  exists (applied ++ [op]). cbn. split; [by rewrite Hq, <- app_assoc|].
  by rewrite replay_snoc.
Qed.

Lemma in_order_saving m rs c rest c' : forall saved,
  saving rs c rest c' -> Forall readable (saved ++ rs) -> in_order m saved c ->
  exists done, rs = done ++ rest /\ in_order m (saved ++ done) c'.
Proof.
  intros saved H. revert saved.
  induction H as [rs c|r rs s d rest c _ IH|rs s d s' d' rest c Ht _ IH]; intros saved Hr Hi.
  - exists []. by rewrite app_nil_r.
  - destruct (IH (saved ++ [r])) as (done & -> & Hd).
    + by rewrite <- app_assoc.
    + by apply in_order_save.
    + exists (r :: done). split; [done|]. by rewrite <- app_assoc in Hd.
  - apply (IH saved Hr). eapply in_order_writer; [|done|done].
    by apply Forall_app in Hr as [? _].
Qed.

Lemma in_order_new m d : db_up d -> agrees m (db_rows d) -> in_order m [] (sink_new, d).
Proof. intros Hup Ha. split; [done|]. split; [done|]. by exists []. Qed.

(** The writer can always empty its queue. *)
Lemma writer_drains rest : forall s d,
  writer_ready s -> exists s' d', saving rest (s, d) rest (s', d') /\ queue s' = [].
Proof.
  intros s d. remember (length (queue s)) as n eqn:En. revert s d En.
  induction n as [|n IH]; intros s d En Hw.
  - exists s, d. split; [constructor|]. by destruct (queue s).
  - destruct (queue s) as [|op q] eqn:Eq; [done|]. injection En as En.
    assert (writer s = true) as Ew
      by (unfold writer_ready in Hw; destruct (writer_started s); [done|by destruct Hw; congruence]).
    set (s1 := {| mirror := mirror s; queue := q; rx := rx s;
                  writer_started := writer_started s; writer := writer s |}).
    destruct (IH s1 (apply_op op d) En) as (s' & d' & Hs & Hq).
    + unfold writer_ready in *. cbn. destruct (writer_started s); [done|].
      destruct Hw as [_ Hw]. congruence.
    + exists s', d'. split; [|done]. eapply saving_writer; [|exact Hs].
      unfold writer_turn, s1. by rewrite Ew, Eq.
Qed.

Lemma saving_trans rs c rest c' rest' c'' :
  saving rs c rest c' -> saving rest c' rest' c'' -> saving rs c rest' c''.
Proof. induction 1; eauto using saving. Qed.

(** Saves replayed are saves recorded. *)
Lemma replay_saves rs m : replay (Save <$> rs) m = recorded (OpSave <$> rs) m.
Proof.
  unfold replay, recorded. revert m. induction rs as [|r rs IH]; intros m; [done|]. cbn. apply IH.
Qed.
End Saving.

(** ** The table during and after a run *)

Section Runs.
Context `{JN : JsonNumber} `{RC : !RecordCodec} `{RL : !RecordCodecLaws}.
Context {D : Type} `{DB : !SqlDb D} `{DL : !SqlDbLaws D}.

(** The records a database holds: those that can be told from their text. *)
Definition holds (m : gmap string ExecutionRecord) (d : D) : Prop :=
  forall i, exists o, (sql_get i d).1 = Ok o /\ (o = None <-> m !! i = None) /\
    forall r, m !! i = Some r -> exact r -> o = Some r.

Lemma agrees_holds m d : db_up d -> agrees m (db_rows d) -> holds m d.
Proof.
  intros Hup Ha i. destruct (sql_get_agrees i m d Hup Ha) as (_ & _ & o & Ho). by exists o.
Qed.

(** Whatever has been saved, the table has the records of a prefix of it, all of
    it once the queue is empty. *)
Lemma saving_holds m rs rest s d d0 :
  db_up d0 -> agrees m (db_rows d0) -> Forall readable rs ->
  saving rs (sink_new, d0) rest (s, d) ->
  exists applied pending, rs = applied ++ pending ++ rest /\
    holds (recorded (OpSave <$> applied) m) d /\ (queue s = [] -> pending = []) /\
    writer_ready s.
Proof.
  intros Hup Ha Hr Hs.
  destruct (in_order_saving m rs _ rest _ [] Hs Hr (in_order_new m d0 Hup Ha))
    as (done & -> & Hup' & Hw & applied & Hq & Hag). cbn [app fst snd] in *.
  apply fmap_app_inv in Hq as (l1 & l2 & E1 & E2 & ->).
  exists l1, l2. split_and!; [by rewrite <- app_assoc| | |done].
  - apply agrees_holds; [done|]. rewrite <- replay_saves. by subst applied.
  - intros Hq. rewrite Hq in E2. by destruct l2.
Qed.
End Runs.

(** ** Properties *)


(** ** Witnesses *)

Module DurableExamples.
Definition JL : JsonLib := TextModel.text_lib.
Definition MJ : McpJson := TextModel.text_mcp.
Definition JT : JsonText (JL := JL) (MJ := MJ) := TextModel.text.
Definition UL : UuidLib := StorageModel.unary_ids.
#[export] Existing Instances SerdeModel.serde_number JL MJ JT UL StepExamples.release
  RunnerExamples.utc.

Definition engine : Engine := RunnerExamples.engine.
Definition flow : FlowDef := RunnerExamples.flow.
Definition env : history -> forall a, res a :=
  answers RunnerExamples.handler (fun _ _ => JoinError "cancelled").

Lemma durable_env_legal : legal_oracle (JL := JL) (fun _ _ => True) env.
Proof.
  apply answers_legal; [|done]. intros h s. unfold RunnerExamples.handler. by destruct (bool_decide _).
Qed.

Definition program : prog (result FlowResult SzalError) := run (JL := JL) 0 engine flow.
Definition calls : history := (exec env [] program).1.
Definition finished : FlowResult := RunnerExamples.outcome_of true.

Lemma program_runs : runs (JL := JL) program [] calls (Returned (Ok finished)).
Proof. exact (exec_runs _ env [] program durable_env_legal). Qed.

Definition time : string := "1970-01-01T00:00:00+00:00".
Definition records : list ExecutionRecord :=
  [running_record flow time; final_record flow time time finished].
Lemma records_saved : saves_of (frames calls) = records.
Proof. reflexivity. Qed.

Lemma records_exact : Forall record_exact records.
Proof.
  repeat constructor; cbn; unfold in_u64, in_u32, u64_max, u32_max; lia.
Qed.
End DurableExamples.

#[local] Existing Instances SerdeModel.serde_number DurableExamples.JL DurableExamples.MJ
  DurableExamples.JT DurableExamples.UL StepExamples.release RunnerExamples.utc.

