(* ===== verification/Hardware.v ===== *)
(** * Hardware-aware scheduling

    The [hardware] build: [rust-old/src/engine/hardware.rs], the field it adds to
    [StepDef] ([rust-old/src/step.rs]) and to [EngineConfig]
    ([rust-old/src/engine/mod.rs]), and the check the entry points of
    [rust-old/src/engine/runner.rs] make before they run a flow.  Detection and
    the registry of devices are the [ai_hwaccel] crate's, which [AiHwaccel] names. *)

From Stdlib Require Import ZArith Lia.
From stdpp Require Import base tactics option list strings gmap relations.
From S2P Require Import Prelude Json State Error Step Condition Flow Bus EngineResult.
From S2P Require Import Storage Prog StepExec Sequential Pool Runner EndToEnd RunDistributed.

Open Scope Z_scope.

Class AiHwaccel := {
  AcceleratorRequirement : Type;
  requirement_eq_dec :: EqDecision AcceleratorRequirement;
  ReqNone : AcceleratorRequirement;
  ReqGpu : AcceleratorRequirement;
  ReqGpuOrTpu : AcceleratorRequirement;
  (** [AcceleratorRequirement::Tpu { .. }] *)
  is_tpu : AcceleratorRequirement -> bool;
  requirement_debug : AcceleratorRequirement -> string;
  AcceleratorProfile : Type;
  AcceleratorFamily : Type;
  FamilyGpu : AcceleratorFamily;
  FamilyTpu : AcceleratorFamily;
  AcceleratorRegistry : Type;
  satisfying : AcceleratorRegistry -> AcceleratorRequirement -> list AcceleratorProfile;
  by_family : AcceleratorRegistry -> AcceleratorFamily -> list AcceleratorProfile;
  all_profiles : AcceleratorRegistry -> list AcceleratorProfile;
  has_accelerator : AcceleratorRegistry -> bool;
  CachedRegistry : Type;
  (** from a time to live in nanoseconds *)
  cached_new : Z -> CachedRegistry;
  (** the machine at the moment of a call, with what the cache holds then *)
  Machine : Type;
  cached_get : CachedRegistry -> Machine -> AcceleratorRegistry
}.

(** The variants are different. *)
Class AiHwaccelLaws `{AH : AiHwaccel} := {
  none_not_gpu : ReqNone <> ReqGpu;
  none_not_either : ReqNone <> ReqGpuOrTpu;
  none_not_tpu : is_tpu ReqNone = false
}.

Definition from_secs (s : Z) : Z := s * 1000000000.

Section Hardware.
Context `{AH : AiHwaccel} `{JN : JsonNumber} `{JL : !JsonLib} `{UL : UuidLib}
  `{BP : BuildProfile} `{CL : ChronoLib}.

Record HardwareContext : Type := mkContext { cached : CachedRegistry }.

Definition DEFAULT_CACHE_TTL_SECS : Z := 300.

Definition with_ttl (ttl : Z) : HardwareContext := mkContext (cached_new ttl).
Definition detect : HardwareContext := with_ttl (from_secs DEFAULT_CACHE_TTL_SECS).

Definition registry (h : HardwareContext) (m : Machine) : AcceleratorRegistry :=
  cached_get (cached h) m.

(** [StepDef] of this build: [base] holds the fields of the other builds, but for
    the sub-steps, which have the new field too. *)
Inductive HwStepDef : Type := mkHwStep {
  base : StepDef;
  hardware : AcceleratorRequirement;
  hw_sub_steps : list HwStepDef
}.

(** The step as the rest of the engine reads it. *)
Fixpoint plain (s : HwStepDef) : StepDef :=
  let b := base s in
  {| id := id b; name := name b; description := description b; timeout_ms := timeout_ms b;
     max_retries := max_retries b; retry_delay_ms := retry_delay_ms b; backoff := backoff b;
     rollbackable := rollbackable b; depends_on := depends_on b; step_type := step_type b;
     Step.config := Step.config b; condition := condition b; trigger_mode := trigger_mode b;
     sub_steps := map plain (hw_sub_steps s) |}.

Definition hw_step_new (fresh : StepId) (nm : string) : HwStepDef :=
  {| base := step_new fresh nm; hardware := ReqNone; hw_sub_steps := [] |}.

Definition step_with_hardware (s : HwStepDef) (r : AcceleratorRequirement) : HwStepDef :=
  {| base := base s; hardware := r; hw_sub_steps := hw_sub_steps s |}.

(** The loop of [HardwareContext::check_requirements] over the steps. *)
Fixpoint check_loop (reg : AcceleratorRegistry) (l : list HwStepDef) : result unit SzalError :=
  match l with
  | [] => Ok tt
  | s :: l =>
      if bool_decide (hardware s = ReqNone) then check_loop reg l
      else
        let matching_count := length (satisfying reg (hardware s)) in
        if bool_decide (matching_count = 0%nat) then
          Err (HardwareUnavailable (name (base s)) (requirement_debug (hardware s)))
        else check_loop reg l
  end.

Definition check_requirements (h : HardwareContext) (m : Machine) (l : list HwStepDef)
  : result unit SzalError := check_loop (registry h m) l.

Definition gpu_needed (l : list HwStepDef) : bool :=
  existsb (fun s => bool_decide (hardware s = ReqGpu) || bool_decide (hardware s = ReqGpuOrTpu)) l.
Definition tpu_needed (l : list HwStepDef) : bool :=
  existsb (fun s => is_tpu (hardware s) || bool_decide (hardware s = ReqGpuOrTpu)) l.

(** The devices of a family, [count().max(1)]. *)
Definition device_count (reg : AcceleratorRegistry) (fam : AcceleratorFamily) : nat :=
  Nat.max (length (by_family reg fam)) 1.

Definition effective_concurrency (h : HardwareContext) (m : Machine) (l : list HwStepDef)
    (base_concurrency : nat) : nat :=
  let reg := registry h m in
  let limit := base_concurrency in
  let limit := if gpu_needed l then Nat.min limit (device_count reg FamilyGpu) else limit in
  let limit := if tpu_needed l then Nat.min limit (device_count reg FamilyTpu) else limit in
  Nat.max limit 1.

(** [impl Debug for HardwareContext] *)
Definition fmt_context (h : HardwareContext) (m : Machine) : string :=
  let reg := registry h m in
  "HardwareContext { devices: " +:+ show_Z (Z.of_nat (length (all_profiles reg))) +:+
  ", has_accelerator: " +:+ (if has_accelerator reg then "true" else "false") +:+ " }".

(** ** The engine *)

(** [EngineConfig] of this build. *)
Record HwConfig : Type := mkHwConfig {
  base_config : EngineConfig;
  hardware_context : option HardwareContext
}.

Definition hw_config_default : HwConfig :=
  {| base_config := config_default; hardware_context := None |}.

Definition config_with_hardware (c : HwConfig) : HwConfig :=
  {| base_config := base_config c; hardware_context := Some detect |}.

(** A flow of this build: [f] holds all but its steps. *)
Definition plain_flow (f : FlowDef) (l : list HwStepDef) : FlowDef :=
  {| flow_id := flow_id f; flow_name := flow_name f;
     flow_description := flow_description f; flow_mode := flow_mode f;
     steps := plain <$> l; rollback_on_failure := rollback_on_failure f;
     flow_timeout_ms := flow_timeout_ms f; version := version f |}.

(** [if let Some(ref hw) = self.config.hardware { hw.check_requirements(&flow.steps)?; }];
    [m] is the machine at that moment. *)
Definition hardware_gate (hw : option HardwareContext) (m : Machine) (l : list HwStepDef)
    (rest : prog (result FlowResult SzalError)) : prog (result FlowResult SzalError) :=
  match hw with
  | Some h => match check_requirements h m l with Err er => ret (Err er) | Ok _ => rest end
  | None => rest
  end.

(** The entry points of the engine.  What follows the check is the run of the
    other builds; that one validates the flow once more, which calls nothing. *)
Definition hw_run (fuel : nat) (hw : option HardwareContext) (m : Machine) (e : Engine)
    (f : FlowDef) (l : list HwStepDef) : prog (result FlowResult SzalError) :=
  match validate (plain_flow f l) with
  | Err er => ret (Err er)
  | Ok _ => hardware_gate hw m l (run fuel e (plain_flow f l))
  end.

Definition hw_run_with_cancellation (hw : option HardwareContext) (m : Machine) (e : Engine)
    (f : FlowDef) (l : list HwStepDef) : prog (result FlowResult SzalError) :=
  match validate (plain_flow f l) with
  | Err er => ret (Err er)
  | Ok _ => hardware_gate hw m l (run_with_cancellation e (plain_flow f l))
  end.

Definition hw_run_distributed (hw : option HardwareContext) (m : Machine) (e : Engine)
    (f : FlowDef) (l : list HwStepDef) : prog (result FlowResult SzalError) :=
  match validate (plain_flow f l) with
  | Err er => ret (Err er)
  | Ok _ =>
      if negb (bool_decide (flow_mode f = FlowMode.Dag)) then ret (Err (not_dag (plain_flow f l)))
      else hardware_gate hw m l (run_distributed e (plain_flow f l))
  end.

(** ** The check *)

(** A step asks for nothing, or some device satisfies it. *)
Definition served (reg : AcceleratorRegistry) (s : HwStepDef) : Prop :=
  hardware s = ReqNone \/ exists d, d ∈ satisfying reg (hardware s).

Lemma check_loop_spec reg l :
  match check_loop reg l with
  | Ok _ => Forall (served reg) l
  | Err er => exists pre s post, l = pre ++ s :: post /\ Forall (served reg) pre /\
      ~ served reg s /\ er = HardwareUnavailable (name (base s)) (requirement_debug (hardware s))
  end.
Proof.
  induction l as [|s l IH]; cbn [check_loop]; [by apply Forall_nil|].
  assert (served reg s -> match check_loop reg l with
    | Ok _ => Forall (served reg) (s :: l)
    | Err er => exists pre s' post, s :: l = pre ++ s' :: post /\ Forall (served reg) pre /\
      ~ served reg s' /\ er = HardwareUnavailable (name (base s')) (requirement_debug (hardware s'))
    end) as Hgo.
  { intros Hs. destruct (check_loop reg l) as [u|er]; [by constructor|].
    destruct IH as (pre & s' & post & -> & Hp & Hs' & ->).
    exists (s :: pre), s', post. by repeat split; [constructor|..]. }
  case_bool_decide as E; [by apply Hgo; left|].
  destruct (satisfying reg (hardware s)) as [|d ds] eqn:Hd; cbn.
  - exists [], s, l. repeat split; [by apply Forall_nil|].
    intros [Hn|[d Hin]]; [done|]. rewrite Hd in Hin. by apply not_elem_of_nil in Hin.
  - apply Hgo. right. exists d. rewrite Hd. left.
Qed.

Lemma check_requirements_served h m l :
  Forall (served (registry h m)) l -> check_requirements h m l = Ok tt.
Proof.
  intros Hl. unfold check_requirements. pose proof (check_loop_spec (registry h m) l) as H.
  destruct (check_loop (registry h m) l) as [[]|er]; [done|].
  destruct H as (pre & s & post & -> & _ & Hs & _). exfalso.
  apply Hs. apply Forall_app in Hl as [_ Hl]. by inversion Hl.
Qed.

Lemma check_requirements_unserved h m pre s post :
  Forall (served (registry h m)) pre -> ~ served (registry h m) s ->
  check_requirements h m (pre ++ s :: post) =
    Err (HardwareUnavailable (name (base s)) (requirement_debug (hardware s))).
Proof.
  intros Hp Hs. unfold check_requirements.
  induction Hp as [|s' pre Hs' _ IH]; cbn [app check_loop].
  - rewrite bool_decide_false by (intros ?; apply Hs; by left).
    destruct (satisfying _ _) as [|d ds] eqn:Hd; [done|]. exfalso.
    apply Hs. right. exists d. rewrite Hd. left.
  - case_bool_decide as E; [done|]. destruct Hs' as [?|[d Hd]]; [done|].
    rewrite bool_decide_false; [done|]. intros Hn. apply length_zero_iff_nil in Hn.
    rewrite Hn in Hd. by apply not_elem_of_nil in Hd.
Qed.

(** The requirements of sub-steps are not looked at. *)
Lemma sub_steps_unchecked h m s subs l :
  check_requirements h m ({| base := base s; hardware := hardware s; hw_sub_steps := subs |} :: l)
  = check_requirements h m (s :: l).
Proof. reflexivity. Qed.

(** With every requirement met, the entry points do what they do in the other
    builds. *)
Lemma hw_runs_agree fuel h m e f l :
  Forall (served (registry h m)) l ->
  hw_run fuel (Some h) m e f l = run fuel e (plain_flow f l) /\
  hw_run_with_cancellation (Some h) m e f l = run_with_cancellation e (plain_flow f l) /\
  hw_run_distributed (Some h) m e f l = run_distributed e (plain_flow f l).
Proof.
  intros Hl. unfold hw_run, hw_run_with_cancellation, hw_run_distributed, run,
    run_with_cancellation, run_distributed, hardware_gate.
  rewrite (check_requirements_served h m l Hl).
  destruct (validate (plain_flow f l)); [|done]. repeat split.
  by destruct (negb (bool_decide (flow_mode f = FlowMode.Dag))) eqn:E; cbn; rewrite E.
Qed.

Lemma nothing_needed `{AL : !AiHwaccelLaws} l :
  Forall (fun s => hardware s = ReqNone) l -> gpu_needed l = false /\ tpu_needed l = false.
Proof.
  unfold gpu_needed, tpu_needed. induction 1 as [|s l Hs _ [IHg IHt]]; [done|]. cbn.
  rewrite IHg, IHt, Hs, none_not_tpu, !bool_decide_false
    by first [apply none_not_gpu|apply none_not_either].
  done.
Qed.
End Hardware.

(** ** A concrete crate *)

Module HwModel.
Inductive requirement := None_ | Gpu | Tpu (min_chips : Z) | GpuOrTpu.
Inductive family := GpuFamily | TpuFamily.

#[export] Instance requirement_dec : EqDecision requirement.
Proof. solve_decision. Defined.
#[export] Instance family_dec : EqDecision family.
Proof. solve_decision. Defined.

(** A machine is the list of its devices, by family. *)
Definition suits (r : requirement) (d : family) : bool :=
  match r, d with
  | None_, _ | GpuOrTpu, _ | Gpu, GpuFamily | Tpu _, TpuFamily => true
  | _, _ => false
  end.

Definition crate : AiHwaccel := {|
  AcceleratorRequirement := requirement;
  ReqNone := None_; ReqGpu := Gpu; ReqGpuOrTpu := GpuOrTpu;
  is_tpu r := match r with Tpu _ => true | _ => false end;
  requirement_debug r := match r with
                         | None_ => "None" | Gpu => "Gpu" | GpuOrTpu => "GpuOrTpu"
                         | Tpu n => "Tpu { min_chips: " +:+ show_Z n +:+ " }"
                         end;
  AcceleratorProfile := family; AcceleratorFamily := family;
  FamilyGpu := GpuFamily; FamilyTpu := TpuFamily;
  AcceleratorRegistry := list family;
  satisfying reg r := List.filter (suits r) reg;
  by_family reg fam := List.filter (fun d => bool_decide (d = fam)) reg;
  all_profiles reg := reg;
  has_accelerator reg := match reg with [] => false | _ => true end;
  CachedRegistry := Z; cached_new ttl := ttl;
  Machine := list family; cached_get _ m := m
|}.

Lemma crate_laws : AiHwaccelLaws (AH := crate).
Proof. by split. Qed.
End HwModel.

(** ** Properties *)

(** C16. Engine runs of the hardware build, for a valid flow.  When every top-level
    step that has a requirement finds a device for it, every schedule of the run
    ends as a run of the other builds does.  Otherwise each of the three entry
    points makes no call at all, no step runs, and the error names the first step
    without a device and its requirement. *)
Theorem hardware_respected `{AH : AiHwaccel} `{JN : JsonNumber} `{JL : !JsonLib} `{UL : UuidLib}
    `{BP : BuildProfile} `{CL : ChronoLib} fuel (h : HardwareContext) (m : Machine) e f
    (l : list HwStepDef) :
  validate (plain_flow f l) = Ok tt ->
  (Forall (served (registry h m)) l -> runnable (plain_flow f l) ->
   cfg_queue (engine_config e) = false -> forall c o,
   rtc (step (exec_ctx e (plain_flow f l)))
     (start_config (max_concurrency (engine_config e)) (hw_run fuel (Some h) m e f l)) c ->
   coord c = Done o -> engine_outcome e (plain_flow f l) o) /\
  (forall pre s post, l = pre ++ s :: post ->
   Forall (served (registry h m)) pre -> ~ served (registry h m) s ->
   let refusal := ret (Err (HardwareUnavailable (name (base s)) (requirement_debug (hardware s)))) in
   hw_run fuel (Some h) m e f l = refusal /\
   hw_run_with_cancellation (Some h) m e f l = refusal /\
   (flow_mode f = FlowMode.Dag -> hw_run_distributed (Some h) m e f l = refusal)).
Proof.
  intros Hv. split.
  - intros Hl Hr Hq c o Hreach Hdone.
    destruct (hw_runs_agree fuel h m e f l Hl) as (-> & _ & _) in Hreach.
    pose proof (coord_wp _ _ _ _ _ Hreach (pool_inv_start _ _ _)
      (wp_run e (plain_flow f l) fuel Hr Hv Hq)) as H.
    by rewrite Hdone in H.
  - intros pre s post -> Hp Hs. cbv zeta.
    unfold hw_run, hw_run_with_cancellation, hw_run_distributed, hardware_gate.
    rewrite Hv, (check_requirements_unserved h m pre s post Hp Hs).
    repeat split. intros Hm. by rewrite bool_decide_true.
Qed.


(** ** Witnesses *)

Module HwExamples.
Export EndToEndExamples.
#[export] Existing Instances HwModel.crate SerdeModel.serde_number SerdeModel.serde_lib
  StepExamples.ids StepExamples.release RunnerExamples.utc StorageModel.list_order.

(** The flow of [RunnerExamples], its steps on a GPU. *)
Definition on_gpu (s : StepDef) : HwStepDef :=
  {| base := s; hardware := HwModel.Gpu; hw_sub_steps := [] |}.
Definition gpu_steps : list HwStepDef := on_gpu <$> steps flow.

Lemma gpu_plain : plain_flow flow gpu_steps = flow.
Proof. reflexivity. Qed.

Lemma gpu_served : Forall (served (registry detect [HwModel.GpuFamily])) gpu_steps.
Proof.
  apply Forall_forall. intros s Hs. right. exists HwModel.GpuFamily.
  apply list_elem_of_fmap in Hs as (? & -> & _). left.
Qed.

Lemma gpu_reached :
  rtc (step (exec_ctx engine flow))
    (start_config (max_concurrency (engine_config engine))
      (hw_run 0 (Some detect) [HwModel.GpuFamily] engine flow gpu_steps)) final.
Proof.
  rewrite (proj1 (hw_runs_agree (AH := HwModel.crate) 0 detect [HwModel.GpuFamily] engine flow gpu_steps gpu_served)).
  exact final_reached.
Qed.

(** The requirement for either kind of device, on a machine of eight GPUs: the step
    is served by each of them, and the concurrency is one. *)
Lemma either_capped :
  let m := replicate 8 HwModel.GpuFamily in
  let s := step_with_hardware (hw_step_new 1%N "train") HwModel.GpuOrTpu in
  length (satisfying (registry detect m) (hardware s)) = 8%nat /\
  effective_concurrency detect m [s] 16 = 1%nat.
Proof. vm_compute. done. Qed.
End HwExamples.

Section Witnesses.
Import HwExamples.

Lemma hardware_respected_witness :
  engine_outcome engine flow (Returned (Ok (outcome_of true))) /\
  hw_run 0 (Some detect) [] engine flow gpu_steps =
    ret (Err (HardwareUnavailable "build" "Gpu")).
Proof.
  assert (validate (plain_flow flow gpu_steps) = Ok tt) as Hv by (rewrite gpu_plain; reflexivity).
  split.
  - destruct (hardware_respected (AH := HwModel.crate) 0 detect [HwModel.GpuFamily] engine flow
      gpu_steps Hv) as [Hrun _].
    rewrite gpu_plain in Hrun.
    exact (Hrun gpu_served flow_runnable eq_refl final _ gpu_reached final_done).
  - destruct (hardware_respected (AH := HwModel.crate) 0 detect ([] : list HwModel.family) engine
      flow gpu_steps Hv) as [_ Hrefuse].
    refine (proj1 (Hrefuse [] (on_gpu build) [on_gpu test] eq_refl (Forall_nil_2 _) _)).
    intros [?|[d Hd]]; [done|]. cbn in Hd. by apply not_elem_of_nil in Hd.
Defined.

End Witnesses.
