(* ===== verification/McpWorkflow.v ===== *)
(** * MCP tools for states, steps, flows and engines

    [state_tools.rs], [step_tools.rs], [flow_tools.rs] and [engine_tools.rs] of
    [rust-old/src/mcp/tools]: the tools that show the state machine, and that
    build and inspect definitions as JSON. *)

From Stdlib Require Import ZArith Lia Ascii.
From stdpp Require Import base tactics option list strings gmap.
From S2P Require Import Prelude RustStr Json State Error Step Condition Flow Bus EngineResult Storage.
From S2P Require Import Runner.
From S2P Require Import Mcp Serde SerdeTypes Codecs.

Open Scope Z_scope.

(** ** State tools *)

Section StateTools.
Context `{JN : JsonNumber} `{JL : !JsonLib} `{MJ : !McpJson}.

Definition all_workflow_states : list (string * WorkflowState.t) :=
  [("created", WorkflowState.Created);
   ("running", WorkflowState.Running);
   ("paused", WorkflowState.Paused);
   ("completed", WorkflowState.Completed);
   ("failed", WorkflowState.Failed);
   ("rolling_back", WorkflowState.RollingBack);
   ("rolled_back", WorkflowState.RolledBack);
   ("cancelled", WorkflowState.Cancelled)].

Definition parse_state (s : string) : option WorkflowState.t :=
  snd <$> List.find (fun p => bool_decide (p.1 = s)) all_workflow_states.

(** The names of the states that can follow. *)
Definition targets (state : WorkflowState.t) : list string :=
  (List.filter (fun p => WorkflowState.valid_transition state p.2) all_workflow_states).*1.

Definition state_check (args : Value) : mcp Value :=
  require state_str := get_str args "state" else missing "state" in
  require state := parse_state state_str else invalid ("invalid state: " +:+ state_str) in
  MRet (result_ok_json (object
    [("state", VString state_str);
     ("is_terminal", VBool (WorkflowState.is_terminal state));
     ("valid_transitions", json_strings (targets state))])).

Definition StateCheck : Tool := {|
  definition := tool_def "szal_state_check"
    "Check if a workflow state is terminal and list its valid transitions"
    (object [("state", prop_enum (all_workflow_states.*1))]) ["state"];
  tool_call := state_check
|}.

Definition state_transition (args : Value) : mcp Value :=
  require from := get_str args "from" ≫= parse_state else invalid "missing or invalid 'from' state" in
  require to := get_str args "to" ≫= parse_state else invalid "missing or invalid 'to' state" in
  MRet (result_ok_json (object
    [("from", index args "from"); ("to", index args "to");
     ("valid", VBool (WorkflowState.valid_transition from to))])).

Definition StateTransition : Tool := {|
  definition := tool_def "szal_state_transition"
    "Check if a state transition from one state to another is valid"
    (object [("from", prop_type "string"); ("to", prop_type "string")]) ["from"; "to"];
  tool_call := state_transition
|}.

Definition state_lifecycle (args : Value) : mcp Value :=
  MRet (result_ok_json (VArray ((fun p => object
    [("state", VString p.1); ("is_terminal", VBool (WorkflowState.is_terminal p.2));
     ("transitions_to", json_strings (targets p.2))]) <$> all_workflow_states))).

Definition StateLifecycle : Tool := {|
  definition := tool_def "szal_state_lifecycle"
    "Show the complete workflow state machine — all states, transitions, and terminal states"
    (object []) [];
  tool_call := state_lifecycle
|}.

(** The names are those the states are printed with. *)
Lemma parse_state_fmt s : parse_state (WorkflowState.fmt s) = Some s.
Proof. by destruct s. Qed.

Lemma all_states_fmt : all_workflow_states =
  (fun s => (WorkflowState.fmt s, s)) <$> WorkflowState.all_states.
Proof. done. Qed.

Lemma parse_state_some t s : parse_state t = Some s -> t = WorkflowState.fmt s.
Proof.
  unfold parse_state. intros (p & [Hin Ht%bool_decide_eq_true]%find_some & ->)%fmap_Some.
  subst t. rewrite all_states_fmt in Hin.
  apply list_elem_of_In, list_elem_of_fmap in Hin as (u & -> & _). done.
Qed.

Lemma elem_of_targets s n :
  n ∈ targets s <-> exists u, n = WorkflowState.fmt u /\ WorkflowState.valid_transition s u = true.
Proof.
  unfold targets. rewrite list_elem_of_fmap. split.
  - intros (p & -> & Hp%list_elem_of_In). apply filter_In in Hp as [Hin Hv].
    rewrite all_states_fmt in Hin. apply list_elem_of_In, list_elem_of_fmap in Hin as (u & -> & _).
    by exists u.
  - intros (u & -> & Hv). exists (WorkflowState.fmt u, u). split; [done|].
    apply list_elem_of_In, filter_In. split; [|done]. rewrite all_states_fmt.
    apply list_elem_of_In, list_elem_of_fmap. exists u. split; [done|].
    apply WorkflowState.all_states_complete.
Qed.
End StateTools.

(** ** Step tools *)

(** [serde_json::to_value(x).unwrap_or_default()] *)
Definition value_or_null `{JN : JsonNumber} (r : result Value string) : Value :=
  match r with Ok v => v | Err _ => Null end.

Section StepTools.
Context `{JN : JsonNumber} `{JL : !JsonLib} `{MJ : !McpJson} `{UL : UuidLib}
  `{DC : !DefinitionCodec}.

Definition with_description (s : StepDef) (d : string) : StepDef :=
  {| id := id s; name := name s; description := d;
     timeout_ms := timeout_ms s; max_retries := max_retries s;
     retry_delay_ms := retry_delay_ms s; backoff := backoff s;
     rollbackable := rollbackable s; step_type := step_type s;
     config := config s; condition := condition s;
     depends_on := depends_on s; trigger_mode := trigger_mode s;
     sub_steps := sub_steps s |}.

(** [r as u32] *)
Definition to_u32 (r : Z) : Z := Z.land r u32_max.

(** The loop over [depends_on]: elements that are not strings are passed over. *)
Fixpoint add_dependencies (deps : list Value) (s : StepDef) : result StepDef string :=
  match deps with
  | [] => Ok s
  | d :: deps =>
      match as_str d with
      | None => add_dependencies deps s
      | Some id_str =>
          match uuid_parse id_str with
          | Some i => add_dependencies deps (with_dependency s i)
          | None => Err id_str
          end
      end
  end.

Definition step_create (args : Value) : mcp Value :=
  require nm := get_str args "name" else missing "name" in
  let* fresh := call_io NewUuid in
  let s := step_new fresh nm in
  let s := match get_str args "description" with Some d => with_description s d | None => s end in
  let s := match get_u64 args "timeout_ms" with Some t => with_timeout s t | None => s end in
  let s := match get_u64 args "max_retries" with
           | Some r =>
               let delay := default 1000 (get_u64 args "retry_delay_ms") in
               with_retries s (to_u32 r) delay
           | None => s
           end in
  let s := if default false (get_bool args "rollbackable") then with_rollback s else s in
  let r := match get_array args "depends_on" with
           | Some deps => add_dependencies deps s
           | None => Ok s
           end in
  match r with
  | Err id_str => MRet (invalid ("invalid UUID: " +:+ id_str))
  | Ok s => MRet (result_ok_json (value_or_null (step_to_value s)))
  end.

Definition StepCreate : Tool := {|
  definition := tool_def "szal_step_create"
    "Create a workflow step definition with timeout, retry, and rollback config"
    (object
      [("name", prop "string" "Step name");
       ("description", prop "string" "Step description");
       ("timeout_ms", prop "integer" "Timeout in milliseconds (default: 30000)");
       ("max_retries", prop "integer" "Max retry attempts (default: 0)");
       ("retry_delay_ms", prop "integer" "Delay between retries in ms (default: 1000)");
       ("rollbackable", prop "boolean" "Whether step supports rollback (default: false)");
       ("depends_on", prop_items "string" "UUIDs of steps this depends on")]) ["name"];
  tool_call := step_create
|}.

Definition step_issues (s : StepDef) : list string :=
  (if bool_decide (name s = "") then ["name is empty"] else []) ++
  (if timeout_ms s =? 0 then ["timeout_ms is zero"] else []).

Definition step_validate (args : Value) : mcp Value :=
  require json_str := get_str args "step_json" else missing "step_json" in
  match step_from_str json_str with
  | Ok s =>
      let issues := step_issues s in
      if bool_decide (issues = []) then
        MRet (result_ok ("valid: step '" +:+ name s +:+ "' (id=" +:+ uuid_to_string (id s) +:+ ")"))
      else MRet (invalid ("issues: " +:+ String.concat ", " issues))
  | Err e => MRet (invalid ("invalid JSON: " +:+ e))
  end.

Definition StepValidate : Tool := {|
  definition := tool_def "szal_step_validate"
    "Validate a step definition JSON, checking all fields are well-formed"
    (object [("step_json", prop "string" "Step definition as JSON string")]) ["step_json"];
  tool_call := step_validate
|}.

Definition step_info (s : StepDef) : Value := object
  [("id", VString (uuid_to_string (id s)));
   ("name", VString (name s));
   ("description", VString (description s));
   ("timeout_ms", json_u64 (timeout_ms s));
   ("max_retries", json_u64 (max_retries s));
   ("retry_delay_ms", json_u64 (retry_delay_ms s));
   ("rollbackable", VBool (rollbackable s));
   ("dependency_count", json_nat (length (depends_on s)));
   ("depends_on", json_strings (uuid_to_string <$> depends_on s))].

Definition step_inspect (args : Value) : mcp Value :=
  require json_str := get_str args "step_json" else missing "step_json" in
  match step_from_str json_str with
  | Ok s => MRet (result_ok_json (step_info s))
  | Err e => MRet (invalid ("invalid JSON: " +:+ e))
  end.

Definition StepInspect : Tool := {|
  definition := tool_def "szal_step_inspect"
    "Inspect a step definition, returning its configuration details"
    (object [("step_json", prop "string" "Step definition as JSON string")]) ["step_json"];
  tool_call := step_inspect
|}.
End StepTools.

(** ** Flow tools *)

Section FlowTools.
Context `{JN : JsonNumber} `{JL : !JsonLib} `{MJ : !McpJson} `{UL : UuidLib}
  `{DC : !DefinitionCodec}.

Definition parse_flow_mode (s : string) : option FlowMode.t :=
  if bool_decide (s = "sequential") then Some FlowMode.Sequential
  else if bool_decide (s = "parallel") then Some FlowMode.Parallel
  else if bool_decide (s = "dag") then Some FlowMode.Dag
  else if bool_decide (s = "hierarchical") then Some FlowMode.Hierarchical
  else None.

Fixpoint add_steps (l : list Value) (f : FlowDef) : result FlowDef string :=
  match l with
  | [] => Ok f
  | v :: l =>
      match step_from_value v with
      | Ok s => add_steps l (add_step f s)
      | Err e => Err e
      end
  end.

Definition flow_create (args : Value) : mcp Value :=
  require nm := get_str args "name" else missing "name" in
  require mode := get_str args "mode" ≫= parse_flow_mode else invalid "missing or invalid mode" in
  let* fresh := call_io NewUuid in
  let f := flow_new fresh nm mode in
  let f := if default false (get_bool args "rollback_on_failure") then flow_with_rollback f else f in
  let f := match get_u64 args "timeout_ms" with Some t => flow_with_timeout f t | None => f end in
  let r := match get_array args "steps" with Some l => add_steps l f | None => Ok f end in
  match r with
  | Err e => MRet (invalid ("invalid step: " +:+ e))
  | Ok f => MRet (result_ok_json (value_or_null (flow_to_value f)))
  end.

Definition FlowCreate : Tool := {|
  definition := tool_def "szal_flow_create"
    "Create a workflow flow definition with execution mode and options"
    (object
      [("name", prop_type "string");
       ("mode", prop_enum ["sequential"; "parallel"; "dag"; "hierarchical"]);
       ("rollback_on_failure", prop_type "boolean");
       ("timeout_ms", prop_type "integer");
       ("steps", object [("type", VString "array"); ("items", prop_type "object")])])
    ["name"; "mode"];
  tool_call := flow_create
|}.

Definition flow_summary (f : FlowDef) : string :=
  "valid: flow '" +:+ flow_name f +:+ "' (" +:+ show_Z (Z.of_nat (length (steps f))) +:+
  " steps, mode=" +:+ FlowMode.fmt (flow_mode f) +:+ ")".

Definition flow_validate (args : Value) : mcp Value :=
  require json_str := get_str args "flow_json" else missing "flow_json" in
  match flow_from_str json_str with
  | Err e => MRet (invalid ("invalid JSON: " +:+ e))
  | Ok f =>
      match validate f with
      | Ok _ => MRet (result_ok (flow_summary f))
      | Err e => MRet (invalid ("validation failed: " +:+ fmt_error e))
      end
  end.

Definition FlowValidate : Tool := {|
  definition := tool_def "szal_flow_validate"
    "Validate a flow definition — checks for DAG cycles and missing dependencies"
    (object [("flow_json", prop_type "string")]) ["flow_json"];
  tool_call := flow_validate
|}.

(** [json!] of an [Option<u64>] *)
Definition json_opt_u64 (o : option Z) : Value :=
  match o with Some n => json_u64 n | None => Null end.

Definition flow_info (f : FlowDef) : Value := object
  [("id", VString (uuid_to_string (flow_id f)));
   ("name", VString (flow_name f));
   ("mode", VString (FlowMode.fmt (flow_mode f)));
   ("step_count", json_nat (length (steps f)));
   ("rollback_on_failure", VBool (rollback_on_failure f));
   ("timeout_ms", json_opt_u64 (flow_timeout_ms f));
   ("steps", VArray ((fun s => object
      [("id", VString (uuid_to_string (id s)));
       ("name", VString (name s));
       ("depends_on", json_strings (uuid_to_string <$> depends_on s))]) <$> steps f))].

Definition flow_from_json (args : Value) : mcp Value :=
  require json_str := get_str args "flow_json" else missing "flow_json" in
  match flow_from_str json_str with
  | Err e => MRet (invalid ("invalid JSON: " +:+ e))
  | Ok f => MRet (result_ok_json (flow_info f))
  end.

Definition FlowFromJson : Tool := {|
  definition := tool_def "szal_flow_from_json" "Parse and inspect a flow definition from JSON"
    (object [("flow_json", prop_type "string")]) ["flow_json"];
  tool_call := flow_from_json
|}.

Definition described (key : string) (l : list (string * string)) : Value :=
  VArray ((fun p => object [(key, VString p.1); ("description", VString p.2)]) <$> l).

Definition flow_list_modes (args : Value) : mcp Value :=
  MRet (result_ok_json (described "mode"
    [("sequential", "Steps run one after another");
     ("parallel", "Steps run concurrently with no dependencies");
     ("dag", "Steps run based on dependency graph (Kahn's algorithm), with cycle detection");
     ("hierarchical", "Manager step delegates to sub-steps dynamically")])).

Definition FlowListModes : Tool := {|
  definition := tool_def "szal_flow_list_modes"
    "List available workflow execution modes with descriptions" (object []) [];
  tool_call := flow_list_modes
|}.

Definition flow_add_step (args : Value) : mcp Value :=
  require flow_str := get_str args "flow_json" else missing "flow_json" in
  require step_str := get_str args "step_json" else missing "step_json" in
  match flow_from_str flow_str with
  | Err e => MRet (invalid ("invalid flow JSON: " +:+ e))
  | Ok f =>
      match step_from_str step_str with
      | Err e => MRet (invalid ("invalid step JSON: " +:+ e))
      | Ok s => MRet (result_ok_json (value_or_null (flow_to_value (add_step f s))))
      end
  end.

Definition FlowAddStep : Tool := {|
  definition := tool_def "szal_flow_add_step"
    "Add a step to an existing flow definition, returning the updated flow"
    (object [("flow_json", prop_type "string"); ("step_json", prop_type "string")])
    ["flow_json"; "step_json"];
  tool_call := flow_add_step
|}.
End FlowTools.

(** ** Engine tools *)

Section EngineTools.
Context `{JN : JsonNumber} `{JL : !JsonLib} `{MJ : !McpJson}.

Definition with_max_concurrency (n : nat) (c : EngineConfig) : EngineConfig := {|
  max_concurrency := n; global_timeout_ms := global_timeout_ms c;
  cfg_storage := cfg_storage c; cfg_metrics := cfg_metrics c; cfg_heartbeat := cfg_heartbeat c;
  cfg_queue := cfg_queue c; cfg_step_type_metrics := cfg_step_type_metrics c;
  cfg_progress_sink := cfg_progress_sink c; cfg_execution_store := cfg_execution_store c |}.
Definition with_global_timeout (ms : Z) (c : EngineConfig) : EngineConfig := {|
  max_concurrency := max_concurrency c; global_timeout_ms := Some ms;
  cfg_storage := cfg_storage c; cfg_metrics := cfg_metrics c; cfg_heartbeat := cfg_heartbeat c;
  cfg_queue := cfg_queue c; cfg_step_type_metrics := cfg_step_type_metrics c;
  cfg_progress_sink := cfg_progress_sink c; cfg_execution_store := cfg_execution_store c |}.

(** [c as usize] keeps a [u64] as it is. *)
Definition engine_create (args : Value) : mcp Value :=
  let c := config_default in
  let c := match get_u64 args "max_concurrency" with
           | Some n => with_max_concurrency (Z.to_nat n) c
           | None => c
           end in
  let c := match get_u64 args "global_timeout_ms" with
           | Some t => with_global_timeout t c
           | None => c
           end in
  MRet (result_ok_json (object
    [("max_concurrency", json_nat (max_concurrency c));
     ("global_timeout_ms", json_opt_u64 (global_timeout_ms c))])).

Definition EngineCreate : Tool := {|
  definition := tool_def "szal_engine_create"
    "Create an engine configuration with concurrency and timeout settings"
    (object [("max_concurrency", prop_type "integer"); ("global_timeout_ms", prop_type "integer")])
    [];
  tool_call := engine_create
|}.

Definition count_with_status (st : string) (steps : option (list Value)) : nat :=
  match steps with
  | Some l => length (List.filter (fun v => bool_decide (get_str v "status" = Some st)) l)
  | None => 0
  end.

Definition inspection (v : Value) : Value :=
  let steps := get_array v "steps" in
  object
    [("flow_name", VString (default "unknown" (get_str v "flow_name")));
     ("success", VBool (default false (get_bool v "success")));
     ("rolled_back", VBool (default false (get_bool v "rolled_back")));
     ("total_duration_ms", json_u64 (default 0 (get_u64 v "total_duration_ms")));
     ("step_count", json_nat (match steps with Some l => length l | None => 0 end));
     ("completed", json_nat (count_with_status "Completed" steps));
     ("failed", json_nat (count_with_status "Failed" steps))].

Definition result_inspect (args : Value) : mcp Value :=
  require json_str := get_str args "result_json" else missing "result_json" in
  match json_from_str json_str with
  | Err e => MRet (invalid ("invalid JSON: " +:+ json_message e))
  | Ok v => MRet (result_ok_json (inspection v))
  end.

Definition ResultInspect : Tool := {|
  definition := tool_def "szal_result_inspect"
    "Inspect a flow execution result — step counts, duration, success/failure"
    (object [("result_json", prop_type "string")]) ["result_json"];
  tool_call := result_inspect
|}.

Definition step_status_list (args : Value) : mcp Value :=
  MRet (result_ok_json (described "status"
    [("pending", "Step has not started");
     ("running", "Step is currently executing");
     ("completed", "Step finished successfully");
     ("failed", "Step execution failed");
     ("skipped", "Step was skipped");
     ("rolled_back", "Step was rolled back after failure")])).

Definition StepStatusList : Tool := {|
  definition := tool_def "szal_step_status_list" "List all possible step execution statuses"
    (object []) [];
  tool_call := step_status_list
|}.

Definition error_list (args : Value) : mcp Value :=
  MRet (result_ok_json (described "error"
    [("StepFailed", "A step failed with a specific reason");
     ("StepTimeout", "A step exceeded its timeout");
     ("InvalidFlow", "Flow configuration is invalid");
     ("RetryExhausted", "All retry attempts failed");
     ("RollbackFailed", "Rollback operation failed");
     ("CycleDetected", "DAG contains a cycle")])).

Definition ErrorList : Tool := {|
  definition := tool_def "szal_error_list" "List all workflow error types with descriptions"
    (object []) [];
  tool_call := error_list
|}.

Definition CARGO_PKG_VERSION : string := "1.2.0".
Definition CARGO_PKG_DESCRIPTION : string :=
  "Workflow engine — step/flow execution with branching, retry, rollback, and parallel stages".

Definition server_info (args : Value) : mcp Value :=
  MRet (result_ok_json (object
    [("name", VString "szal");
     ("version", VString CARGO_PKG_VERSION);
     ("description", VString CARGO_PKG_DESCRIPTION);
     ("mcp_backend", VString "bote");
     ("capabilities", object
        [("execution_modes", json_strings ["sequential"; "parallel"; "dag"; "hierarchical"]);
         ("features", json_strings
            ["retry"; "rollback"; "timeout"; "dag_cycle_detection"; "state_machine"])])])).

Definition ServerInfo : Tool := {|
  definition := tool_def "szal_server_info" "Show szal server info — version, capabilities"
    (object []) [];
  tool_call := server_info
|}.
End EngineTools.

(** ** The tools keep their promises *)

Section Promises.
Context `{JN : JsonNumber} `{JL : !JsonLib} `{LW : !JsonLaws} `{MJ : !McpJson} `{UL : UuidLib}
  `{DC : !DefinitionCodec}.

#[export] Instance StateCheck_laws : ToolLaws StateCheck.
Proof. tool_laws. Qed.
#[export] Instance StateTransition_laws : ToolLaws StateTransition.
Proof. tool_laws. Qed.
#[export] Instance StateLifecycle_laws : ToolLaws StateLifecycle.
Proof. tool_laws. Qed.
#[export] Instance StepCreate_laws : ToolLaws StepCreate.
Proof. tool_laws. Qed.
#[export] Instance StepValidate_laws : ToolLaws StepValidate.
Proof. tool_laws. Qed.
#[export] Instance StepInspect_laws : ToolLaws StepInspect.
Proof. tool_laws. Qed.
#[export] Instance FlowCreate_laws : ToolLaws FlowCreate.
Proof. tool_laws. Qed.
#[export] Instance FlowValidate_laws : ToolLaws FlowValidate.
Proof. tool_laws. Qed.
#[export] Instance FlowFromJson_laws : ToolLaws FlowFromJson.
Proof. tool_laws. Qed.
#[export] Instance FlowListModes_laws : ToolLaws FlowListModes.
Proof. tool_laws. Qed.
#[export] Instance FlowAddStep_laws : ToolLaws FlowAddStep.
Proof. tool_laws. Qed.
#[export] Instance EngineCreate_laws : ToolLaws EngineCreate.
Proof. tool_laws. Qed.
#[export] Instance ResultInspect_laws : ToolLaws ResultInspect.
Proof. tool_laws. Qed.
#[export] Instance StepStatusList_laws : ToolLaws StepStatusList.
Proof. tool_laws. Qed.
#[export] Instance ErrorList_laws : ToolLaws ErrorList.
Proof. tool_laws. Qed.
#[export] Instance ServerInfo_laws : ToolLaws ServerInfo.
Proof. tool_laws. Qed.
End Promises.

(** ** What the state tools answer *)

Section StateFacts.
Context `{JN : JsonNumber} `{JL : !JsonLib} `{LW : !JsonLaws}.

Lemma targets_nil s : targets s = [] <-> WorkflowState.is_terminal s = true.
Proof. by destruct s. Qed.
End StateFacts.

(** The state tools tell the state machine as it is: for each state, by its
    printed name, [szal_state_check] answers whether it is terminal and lists
    exactly the states the machine admits next, none exactly when it is
    terminal; [szal_state_transition] answers whether the move is admitted; and
    every other name is refused. *)
Theorem state_tools_faithful `{JN : JsonNumber} `{JL : !JsonLib} `{LW : !JsonLaws}
    `{MJ : !McpJson} :
  (forall s, exists l,
     state_check (object [("state", VString (WorkflowState.fmt s))]) =
       MRet (result_ok_json (object [("state", VString (WorkflowState.fmt s));
         ("is_terminal", VBool (WorkflowState.is_terminal s));
         ("valid_transitions", json_strings l)])) /\
     (forall u, WorkflowState.fmt u ∈ l <-> WorkflowState.valid_transition s u = true) /\
     (l = [] <-> WorkflowState.is_terminal s = true)) /\
  (forall s u, state_transition
      (object [("from", VString (WorkflowState.fmt s)); ("to", VString (WorkflowState.fmt u))]) =
    MRet (result_ok_json (object [("from", VString (WorkflowState.fmt s));
      ("to", VString (WorkflowState.fmt u));
      ("valid", VBool (WorkflowState.valid_transition s u))]))) /\
  (forall n args, (forall s, n <> WorkflowState.fmt s) -> get_str args "state" = Some n ->
    state_check args = MRet (invalid ("invalid state: " +:+ n))).
Proof.
  split; [|split].
  - intros s. exists (targets s). split; [|split; [|apply targets_nil]].
    + unfold state_check. read_fields. by rewrite parse_state_fmt.
    + intros u. rewrite elem_of_targets. split; [|by exists u].
      by intros (w & ->%WorkflowState.state_fmt_inj & Hv).
  - intros s u. unfold state_transition, index. read_fields. by rewrite !parse_state_fmt.
  - intros n args Hn Ha. unfold state_check. rewrite Ha.
    destruct (parse_state n) as [s|] eqn:E; [|done]. apply parse_state_some in E. by destruct (Hn s).
Qed.

(** ** What [szal_result_inspect] answers *)

(** The object collected from the entries of a struct. *)
Ltac collect_object :=
  cbn [rebuild map];
  repeat match goal with
    | |- context [VObject (json_object ?l)] => change (VObject (json_object l)) with (object l)
    | |- context [rebuild (json_u64 ?n)] => change (rebuild (json_u64 n)) with (json_u64 n)
    | |- context [map rebuild ?l] => change (map rebuild l) with (rebuild <$> l)
    end.

Section InspectFacts.
Context `{JN : JsonNumber} `{JL : !JsonLib} `{LW : !JsonLaws} `{MJ : !McpJson}
  `{ML : !McpJsonLaws} `{UL : UuidLib}.

Lemma status_variant_inj a b : status_variant a = status_variant b -> a = b.
Proof. by destruct a, b. Qed.

Lemma count_serialized st rs :
  count_with_status (status_variant st) (Some (rebuild <$> (write_step_result <$> rs))) =
  count_status st rs.
Proof.
  unfold count_with_status, count_status. induction rs as [|r rs IH]; [done|]. cbn [fmap list_fmap].
  rewrite filter_cons. cbn [List.filter].
  assert (get_str (rebuild (write_step_result r)) "status" = Some (status_variant (status r))) as ->.
  { unfold write_step_result. collect_object. by read_fields. }
  destruct (decide (status r = st)) as [<-|Hne].
  - rewrite bool_decide_eq_true_2 by done. cbn [length]. by rewrite IH.
  - rewrite bool_decide_eq_false_2; [done|]. by intros [= ?%status_variant_inj].
Qed.
End InspectFacts.

(** [szal_result_inspect] agrees with the counters of the engine: given the
    serialization of a flow result, it answers its name, its flags, its
    duration, and the numbers of its steps, completed steps and failed steps. *)
Theorem result_inspect_agrees `{JN : JsonNumber} `{JL : !JsonLib} `{LW : !JsonLaws}
    `{MJ : !McpJson} `{ML : !McpJsonLaws} `{UL : UuidLib} (fr : FlowResult) text :
  json_from_str text = Ok (to_value (write_flow_result fr)) -> in_u64 (total_duration_ms fr) ->
  result_inspect (object [("result_json", VString text)]) =
  MRet (result_ok_json (object
    [("flow_name", VString (result_flow fr));
     ("success", VBool (success fr));
     ("rolled_back", VBool (rolled_back fr));
     ("total_duration_ms", json_u64 (total_duration_ms fr));
     ("step_count", json_nat (length (result_steps fr)));
     ("completed", json_nat (completed_count fr));
     ("failed", json_nat (failed_count fr))])).
Proof.
  intros Ht Hms. unfold result_inspect. read_fields. rewrite Ht.
  unfold inspection, to_value, write_flow_result. collect_object. read_fields.
  rewrite as_u64_json by done. cbn [default].
  change "Completed" with (status_variant StepStatus.Completed).
  change "Failed" with (status_variant StepStatus.Failed).
  by rewrite !count_serialized, !length_fmap.
Qed.

(** ** Building a flow with the tools *)

(** The answer of a tool whose only calls ask for ids. *)
Fixpoint with_uuid {A} (fresh : Uuid) (m : mcp A) : option A :=
  match m with
  | MRet x => Some x
  | MPanic => None
  | MIo a k =>
      match a return (io_res a -> mcp A) -> (io_res a -> option A) -> option A with
      | NewUuid => fun _ rec => rec fresh
      | _ => fun _ _ => None
      end k (fun r => with_uuid fresh (k r))
  end.

Section Sessions.
Context `{JN : JsonNumber} `{JL : !JsonLib} `{LW : !JsonLaws} `{MJ : !McpJson} `{UL : UuidLib}
  `{DC : !DefinitionCodec}.

(** The text of a successful response. *)
Definition reply (fresh : Uuid) (t : Tool) (args : Value) : option string :=
  v ← with_uuid fresh (tool_call t args);
  e ← response_error v;
  if (e : bool) then None else response_text v.

Definition create_args (nm : string) (mode : FlowMode.t) : Value :=
  object [("name", VString nm); ("mode", VString (FlowMode.fmt mode))].
Definition add_args (flow_text step_text : string) : Value :=
  object [("flow_json", VString flow_text); ("step_json", VString step_text)].

(** [szal_flow_create], then [szal_flow_add_step] for each step, each call fed
    with the text the last one answered. *)
Definition build_flow (fresh : Uuid) (nm : string) (mode : FlowMode.t) (step_texts : list string)
  : option string :=
  foldl (fun text st => t ← text; reply fresh FlowAddStep (add_args t st))
    (reply fresh FlowCreate (create_args nm mode)) step_texts.

(** The text the tools answer for a flow reads back as that flow. *)
Definition round_trips (f : FlowDef) : Prop :=
  exists v, flow_to_value f = Ok v /\ flow_from_str (pretty v) = Ok f.

Lemma reply_json fresh t args v :
  with_uuid fresh (tool_call t args) = Some (result_ok_json v) ->
  reply fresh t args = Some (pretty v).
Proof.
  unfold reply. intros ->. cbn [mbind option_bind].
  destruct (says_result_ok_json v) as [Ht He _ _]. by rewrite He, Ht.
Qed.

Lemma parse_flow_mode_fmt m : parse_flow_mode (FlowMode.fmt m) = Some m.
Proof. by destruct m. Qed.

Lemma create_reply fresh nm mode v :
  flow_to_value (flow_new fresh nm mode) = Ok v ->
  reply fresh FlowCreate (create_args nm mode) = Some (pretty v).
Proof.
  intros Hv. apply reply_json. cbn [tool_call FlowCreate]. unfold flow_create, create_args.
  read_fields. rewrite parse_flow_mode_fmt. cbn. by rewrite Hv.
Qed.

Lemma add_reply fresh f s v text step_text :
  flow_from_str text = Ok f -> step_from_str step_text = Ok s ->
  flow_to_value (add_step f s) = Ok v ->
  reply fresh FlowAddStep (add_args text step_text) = Some (pretty v).
Proof.
  intros Hf Hs Hv. apply reply_json. cbn [tool_call FlowAddStep]. unfold flow_add_step, add_args.
  read_fields. by rewrite Hf, Hs, Hv.
Qed.

Lemma steps_added ss : forall f, steps (foldl add_step f ss) = steps f ++ ss.
Proof.
  induction ss as [|s ss IH]; intros f; cbn [foldl]; [by rewrite app_nil_r|].
  rewrite IH. cbn. by rewrite <- app_assoc.
Qed.

Lemma build_flow_reads fresh nm mode ts ss :
  Forall2 (fun t s => step_from_str t = Ok s) ts ss ->
  (forall k, round_trips (foldl add_step (flow_new fresh nm mode) (take k ss))) ->
  exists text, build_flow fresh nm mode ts = Some text /\
    flow_from_str text = Ok (foldl add_step (flow_new fresh nm mode) ss).
Proof.
  revert ts. induction ss as [|s ss IH] using rev_ind; intros ts Hss Hrt.
  - apply Forall2_nil_inv_r in Hss as ->. destruct (Hrt 0%nat) as (v & Hv & Hr).
    exists (pretty v). split; [by apply create_reply|done].
  - apply Forall2_app_inv_r in Hss as (ts' & l & Hss & Hl & ->).
    apply Forall2_cons_inv_r in Hl as (t & l' & Ht & Hl & ->). apply Forall2_nil_inv_r in Hl as ->.
    destruct (IH ts' Hss) as (text & Hb & Hr).
    { intros k. specialize (Hrt (min k (length ss))). rewrite <- take_take, take_app_length in Hrt.
      exact Hrt. }
    destruct (Hrt (length (ss ++ [s]))) as (v & Hv & Hr'). rewrite firstn_all in Hv, Hr'.
    rewrite foldl_snoc in Hv, Hr' |- *. unfold build_flow in *. rewrite foldl_snoc, Hb.
    cbn [mbind option_bind]. exists (pretty v). split; [|done]. by eapply add_reply.
Qed.
End Sessions.

(** The flow the tools build, over the codecs the types derive. *)
Section Built.
Context `{JN : JsonNumber} `{JL : !JsonLib} `{LW : !JsonLaws} `{MJ : !McpJson}
  `{ML : !McpJsonLaws} `{JT : !JsonText} `{TL : !JsonTextLaws} `{UL : UuidLib} `{UW : !UuidLaws}.

Lemma built_fields ss : forall f,
  flow_timeout_ms (foldl add_step f ss) = flow_timeout_ms f /\
  version (foldl add_step f ss) = version f.
Proof. induction ss as [|s ss IH]; intros f; [done|]. apply (IH (add_step f s)). Qed.

Lemma built_range fresh nm mode ts ss :
  Forall2 (fun t s => from_str read_step t = Ok s) ts ss ->
  flow_range (foldl add_step (flow_new fresh nm mode) ss).
Proof.
  intros Hss. destruct (built_fields ss (flow_new fresh nm mode)) as [Ht Hv].
  split; [|by rewrite Ht|rewrite Hv; cbn; unfold in_u32, u32_max, default_flow_version; lia].
  rewrite steps_added. change (steps (flow_new fresh nm mode)) with (@nil StepDef). cbn [app].
  clear Ht Hv. induction Hss as [|t s ts ss Hs _ IH]; [by apply Forall_nil|].
  rewrite forest_cons. apply Forall_app. split.
  - unfold from_str in Hs. destruct (json_tree t ≫= read_step) as [s'|] eqn:E; [|done].
    injection Hs as ->. apply bind_Some in E as (v & _ & Hv'). by eapply read_step_in_range.
  - exact IH.
Qed.

Lemma write_flow_depth f n :
  (json_depth (write_flow f) <= S n)%nat <->
  (json_depth (VArray (write_step <$> steps f)) <= n)%nat.
Proof.
  unfold write_flow. rewrite depth_object_le, !Forall_cons. cbn [snd].
  assert (json_depth (write_option json_u64 (flow_timeout_ms f)) <= n)%nat
    by (destruct (flow_timeout_ms f); cbn; lia).
  split; [by intros (_ & _ & _ & _ & H1 & _)|]. intros Hd.
  split_and!; first [exact Hd|assumption|by apply Forall_nil|cbn; lia].
Qed.

(** Fewer steps nest no deeper. *)
Lemma prefix_depth fresh nm mode ss k n :
  (json_depth (write_flow (foldl add_step (flow_new fresh nm mode) ss)) < n)%nat ->
  (json_depth (write_flow (foldl add_step (flow_new fresh nm mode) (take k ss))) < n)%nat.
Proof.
  destruct n as [|[|[|n]]]; [lia|cbn; lia| |].
  - rewrite !Nat.lt_succ_r, !write_flow_depth. cbn. lia.
  - rewrite !Nat.lt_succ_r, !write_flow_depth, !depth_array_le, !steps_added, !Forall_fmap.
    cbn [app steps flow_new]. apply Forall_take.
Qed.

Lemma forest_take l k P : Forall P (forest l) -> Forall P (forest (take k l)).
Proof.
  rewrite <- (take_drop k l) at 1. rewrite forest_app. by intros [? _]%Forall_app.
Qed.

Lemma built_round_trips fresh nm mode ts ss :
  Forall2 (fun t s => from_str read_step t = Ok s) ts ss ->
  Forall config_plain (forest ss) ->
  (json_depth (write_flow (foldl add_step (flow_new fresh nm mode) ss)) < 128)%nat ->
  forall k, round_trips (DC := serde_definitions) (foldl add_step (flow_new fresh nm mode) (take k ss)).
Proof.
  intros Hss Hp Hd k. eexists. split; [done|]. apply flow_printed.
  - apply (built_range _ _ _ (take k ts)). by apply Forall2_take.
  - rewrite steps_added. by apply forest_take.
  - by apply prefix_depth.
Qed.
End Built.

(** C37. Building a flow with the tools is building it with the library: creating
    a flow, adding steps one by one, each call fed with the text the last one
    answered, gives a text that reads as the flow with those steps in that
    order, and validating the text answers exactly what [validate] says of that
    flow.  The steps are any the tool reads whose configs are plain JSON; the
    flow nests less than 128 deep. *)
Theorem flow_tools_build `{JN : JsonNumber} `{JL : !JsonLib} `{LW : !JsonLaws}
    `{MJ : !McpJson} `{ML : !McpJsonLaws} `{JT : !JsonText} `{TL : !JsonTextLaws}
    `{UL : UuidLib} `{UW : !UuidLaws} fresh nm mode ts ss :
  Forall2 (fun t s => from_str read_step t = Ok s) ts ss ->
  Forall config_plain (forest ss) ->
  let f := foldl add_step (flow_new fresh nm mode) ss in
  (json_depth (write_flow f) < 128)%nat ->
  steps f = ss /\
  exists text, build_flow (DC := serde_definitions) fresh nm mode ts = Some text /\
    from_str read_flow text = Ok f /\
    flow_validate (DC := serde_definitions) (object [("flow_json", VString text)]) =
    MRet (match validate f with
          | Ok _ => result_ok (flow_summary f)
          | Err e => invalid ("validation failed: " +:+ fmt_error e)
          end).
Proof.
  intros Hss Hp f Hd. split.
  - apply steps_added.
  - destruct (build_flow_reads (DC := serde_definitions) fresh nm mode ts ss Hss
      (built_round_trips fresh nm mode ts ss Hss Hp Hd)) as (text & Hb & Hr).
    exists text. split; [done|]. split; [exact Hr|]. unfold flow_validate. read_fields.
    cbn in Hr. cbn [flow_from_str serde_definitions]. rewrite Hr. by destruct (validate _).
Qed.

(** ** The retries of a created step *)

(** The [u64] of the request becomes a [u32] by losing its upper half. *)
Lemma to_u32_mod r : 0 <= r -> to_u32 r = r mod 2 ^ 32.
Proof.
  intros Hr. unfold to_u32, u32_max. replace (2 ^ 32 - 1) with (Z.ones 32) by reflexivity.
  by apply Z.land_ones.
Qed.

Lemma step_create_wraps `{JN : JsonNumber} `{JL : !JsonLib} `{LW : !JsonLaws}
    `{MJ : !McpJson} `{ML : !McpJsonLaws} `{UL : UuidLib} `{DC : !DefinitionCodec} fresh nm r :
  in_u64 r ->
  with_uuid fresh (step_create (object [("name", VString nm); ("max_retries", json_u64 r)])) =
  Some (result_ok_json (value_or_null (step_to_value
    (with_retries (step_new fresh nm) (r mod 2 ^ 32) 1000)))).
Proof.
  intros Hr. unfold step_create. read_fields. rewrite as_u64_json by done. cbn.
  rewrite <- to_u32_mod by (unfold in_u64 in Hr; lia). done.
Qed.

(** ** Witnesses *)

Module McpWorkflowExamples.
Export McpModel.

Definition ids : UuidLib := {| uuid_to_string u := "id"; uuid_parse s := None |}.
#[export] Existing Instances serde_number serde_lib serde_laws ids.

Definition step : StepDef := step_new 2%N "test".
Definition created : FlowDef := flow_new 9%N "ci" FlowMode.Sequential.

Definition result : FlowResult := {|
  result_flow := "ci";
  result_steps := [{| step_id := 1%N; status := StepStatus.Completed; output := Null;
                      duration_ms := 5; attempts := 1; error := None |}];
  total_duration_ms := 5; success := true; rolled_back := false |}.
Definition parses (s : string) : Prelude.result Value JsonError := Ok (to_value (write_flow_result result)).
Definition json : McpJson := mcp_json parses.
End McpWorkflowExamples.

#[local] Existing Instances SerdeModel.serde_number SerdeModel.serde_lib SerdeModel.serde_laws
  McpWorkflowExamples.ids McpWorkflowExamples.json.

Lemma result_inspect_agrees_witness :
  exists v, result_inspect (object [("result_json", VString "the run")]) = MRet (result_ok_json v) /\
    get_u64 v "completed" = Some 1.
Proof.
  pose proof (McpModel.mcp_json_laws McpWorkflowExamples.parses).
  eexists. split; [apply (result_inspect_agrees McpWorkflowExamples.result "the run");
    [reflexivity|unfold in_u64, u64_max; cbn; lia]|reflexivity].
Defined.

Lemma flow_tools_build_witness :
  let JL := TextModel.text_lib in
  let MJ := TextModel.text_mcp in
  let JT := TextModel.text in
  let UL := StorageModel.unary_ids in
  let s := McpWorkflowExamples.step in
  let f := add_step McpWorkflowExamples.created s in
  exists text,
    build_flow (JL := JL) (MJ := MJ) (DC := serde_definitions (JT := JT) (UL := UL))
      9%N "ci" FlowMode.Sequential [TextModel.print (write_step s)] = Some text /\
    from_str (JL := JL) (MJ := MJ) (JT := JT) (read_flow (JL := JL) (MJ := MJ) (UL := UL)) text = Ok f.
Proof.
  intros JL MJ JT UL s f.
  pose proof TextModel.text_json_laws as LW. pose proof TextModel.text_mcp_laws as ML.
  pose proof TextModel.text_laws as TL. pose proof StorageModel.unary_laws as UW.
  destruct (flow_tools_build (JL := JL) (MJ := MJ) (JT := JT) (UL := UL) 9%N "ci"
    FlowMode.Sequential [TextModel.print (write_step s)] [s]) as (_ & text & Hb & Hr & _).
  - constructor; [|by apply Forall2_nil].
    refine (step_text_reads (JL := JL) (MJ := MJ) (JT := JT) (UL := UL) s _ _ _);
      [apply step_new_range|by repeat constructor|cbn; lia].
  - by repeat constructor.
  - cbn. lia.
  - exists text. split; [exact Hb|exact Hr].
Defined.

Lemma state_tools_faithful_witness :
  exists l, state_check (object [("state", VString "failed")]) =
       MRet (result_ok_json (object [("state", VString "failed"); ("is_terminal", VBool false);
         ("valid_transitions", json_strings l)])) /\
    "rolling_back" ∈ l.
Proof.
  destruct state_tools_faithful as [H _]. destruct (H WorkflowState.Failed) as (l & Hc & Hl & _).
  exists l. split; [exact Hc|]. by apply (Hl WorkflowState.RollingBack).
Defined.
