(* ===== verification/McpMath.v ===== *)
(** * The expression evaluator of the MCP server

    [math_tools.rs] of [rust-old/src/mcp/tools]: a tokenizer over characters and
    a recursive-descent evaluator over binary64.  The specification is the
    grammar of arithmetic expressions with the IEEE value of each phrase. *)

From Stdlib Require Import ZArith Lia Ascii.
From stdpp Require Import base tactics option list strings gmap.
From S2P Require Import Prelude RustStr Float Json Mcp.

Open Scope Z_scope.

(** ** Tokens *)

Inductive Token : Type := Num (n : f64) | Plus | Minus | Mul | Div | Mod | LParen | RParen.

Definition is_num_char (c : ascii) : bool := is_ascii_digit c || eqc c ".".

(** A minus is unary at the start, after an operator and after a parenthesis. *)
Definition is_unary (tokens : list Token) : bool :=
  match last tokens with
  | None => true
  | Some (Plus | Minus | Mul | Div | Mod | LParen) => true
  | Some _ => false
  end.

Definition number_error : string := "invalid float literal".

(** [fuel] bounds the turns; each takes a character at least. *)
Fixpoint tokenize_loop (fuel : nat) (l : list ascii) (tokens : list Token)
  : option (result (list Token) string) :=
  match l with
  | [] => Some (Ok tokens)
  | c :: r =>
      match fuel with
      | O => None
      | S fuel =>
          if eqc c " " then tokenize_loop fuel r tokens
          else if eqc c "+" then tokenize_loop fuel r (tokens ++ [Plus])
          else if eqc c "-" then
            if is_unary tokens then
              let '(num, r) := span is_num_char r in
              match parse_f64 ("-"%char :: num) with
              | Some n => tokenize_loop fuel r (tokens ++ [Num n])
              | None => Some (Err number_error)
              end
            else tokenize_loop fuel r (tokens ++ [Minus])
          else if eqc c "*" then tokenize_loop fuel r (tokens ++ [Mul])
          else if eqc c "/" then tokenize_loop fuel r (tokens ++ [Div])
          else if eqc c "%" then tokenize_loop fuel r (tokens ++ [Mod])
          else if eqc c "(" then tokenize_loop fuel r (tokens ++ [LParen])
          else if eqc c ")" then tokenize_loop fuel r (tokens ++ [RParen])
          else if is_num_char c then
            let '(num, r) := span is_num_char l in
            match parse_f64 num with
            | Some n => tokenize_loop fuel r (tokens ++ [Num n])
            | None => Some (Err number_error)
            end
          else Some (Err ("unexpected character: " +:+ from_bytes [c]))
      end
  end.

Definition tokenize (input : list ascii) : option (result (list Token) string) :=
  tokenize_loop (length input) input [].

(** ** The evaluator *)

(** A value and the tokens left, or an error. *)
Abbreviation evaluated := (option (result (f64 * list Token) string)).

Definition ebind (m : evaluated) (k : f64 -> list Token -> evaluated) : evaluated :=
  match m with
  | Some (Ok (v, ts)) => k v ts
  | Some (Err e) => Some (Err e)
  | None => None
  end.

Notation "'let^' ( v , ts ) := m 'in' k" := (ebind m (fun v ts => k))
  (at level 10, v name, ts name, m at level 100, k at level 200,
   format "'let^'  ( v ,  ts )  :=  m  'in' '//' k") : szal_scope.

Section Evaluator.
(** The whole expression: [pos] is where what is left of it starts. *)
Context (tokens : list Token).

Definition pos (ts : list Token) : Z := Z.of_nat (length tokens - length ts).

Definition unexpected (ts : list Token) : string :=
  "unexpected token at position " +:+ show_Z (pos ts).

Definition is_zero (x : f64) : bool := f64_eqb x f64_zero.

Fixpoint parse_add_sub (fuel : nat) (ts : list Token) : evaluated :=
  match fuel with
  | O => None
  | S fuel => let^ (left, ts) := parse_mul_div fuel ts in add_sub_loop fuel left ts
  end
(** the [while] of [parse_add_sub] *)
with add_sub_loop (fuel : nat) (left : f64) (ts : list Token) : evaluated :=
  match fuel with
  | O => None
  | S fuel =>
      match ts with
      | Plus :: ts =>
          let^ (right, ts) := parse_mul_div fuel ts in add_sub_loop fuel (f64_add left right) ts
      | Minus :: ts =>
          let^ (right, ts) := parse_mul_div fuel ts in add_sub_loop fuel (f64_sub left right) ts
      | _ => Some (Ok (left, ts))
      end
  end
with parse_mul_div (fuel : nat) (ts : list Token) : evaluated :=
  match fuel with
  | O => None
  | S fuel => let^ (left, ts) := parse_atom fuel ts in mul_div_loop fuel left ts
  end
(** the [while] of [parse_mul_div] *)
with mul_div_loop (fuel : nat) (left : f64) (ts : list Token) : evaluated :=
  match fuel with
  | O => None
  | S fuel =>
      match ts with
      | Mul :: ts =>
          let^ (right, ts) := parse_atom fuel ts in mul_div_loop fuel (f64_mul left right) ts
      | Div :: ts =>
          let^ (right, ts) := parse_atom fuel ts in
          if is_zero right then Some (Err "division by zero")
          else mul_div_loop fuel (f64_div left right) ts
      | Mod :: ts =>
          let^ (right, ts) := parse_atom fuel ts in
          if is_zero right then Some (Err "modulo by zero")
          else mul_div_loop fuel (f64_rem left right) ts
      | _ => Some (Ok (left, ts))
      end
  end
with parse_atom (fuel : nat) (ts : list Token) : evaluated :=
  match fuel with
  | O => None
  | S fuel =>
      match ts with
      | [] => Some (Err "unexpected end of expression")
      | Num n :: ts => Some (Ok (n, ts))
      | LParen :: ts =>
          let^ (val, ts) := parse_add_sub fuel ts in
          match ts with
          | RParen :: ts => Some (Ok (val, ts))
          | _ => Some (Err "missing closing parenthesis")
          end
      | _ => Some (Err (unexpected ts))
      end
  end.
End Evaluator.

Definition eval_fuel (ts : list Token) : nat := 3 * length ts + 3.

(** [eval_expr] after the tokenizer. *)
Definition eval_tokens (ts : list Token) : option (result f64 string) :=
  match parse_add_sub ts (eval_fuel ts) ts with
  | Some (Ok (v, [])) => Some (Ok v)
  | Some (Ok (_, rest)) => Some (Err (unexpected ts rest))
  | Some (Err e) => Some (Err e)
  | None => None
  end.

Definition eval_expr (input : string) : option (result f64 string) :=
  match tokenize (as_bytes input) with
  | Some (Ok ts) => eval_tokens ts
  | Some (Err e) => Some (Err e)
  | None => None
  end.

(** ** The tool *)

Section Tool.
Context `{JN : JsonNumber} `{JL : !JsonLib}.

Definition expression_char (c : ascii) : bool :=
  is_ascii_digit c || existsb (eqc c) (as_bytes " +-*/.%()").

(** An integer of a size that [i64] holds is printed as one. *)
Definition show_value (val : f64) : string :=
  if f64_integral val && f64_ltb (f64_abs val) (f64_of_Z (2 ^ 63))
  then show_Z (f64_to_i64 val) else show_f64 val.

Definition math_eval (args : Value) : mcp Value :=
  require expr := get_str args "expression" else missing "expression" in
  if negb (forallb expression_char (as_bytes expr)) then
    MRet (invalid ("expression contains invalid characters — only digits, +, -, *, /, %, (, ), . allowed"))
  else
    match eval_expr expr with
    | Some (Ok val) => MRet (result_ok (show_value val))
    | Some (Err e) => MRet (result_error_typed McpErrorCode.Internal e)
    | None => MPanic
    end.

Definition MathEval : Tool := {|
  definition := tool_def "szal_math_eval" "Evaluate a basic math expression (+, -, *, /, %, ^)"
    (object [("expression", prop "string" "Math expression to evaluate (e.g. '2 + 3 * 4')")])
    ["expression"];
  tool_call := math_eval
|}.

#[export] Instance MathEval_laws `{LW : !JsonLaws} : ToolLaws MathEval.
Proof. tool_laws. Qed.
End Tool.

Example eval_precedence : eval_expr "2 + 3 * (4 - -1) % 4" = Some (Ok (f64_of_Z 5)).
Proof. vm_compute. reflexivity. Qed.
Example eval_minus_paren : eval_expr "-(2)" = Some (Err number_error).
Proof. vm_compute. reflexivity. Qed.
Example eval_position : eval_expr "2 3" = Some (Err "unexpected token at position 1").
Proof. vm_compute. reflexivity. Qed.

(** ** Fuel *)

Section Fuel.
Context (tokens : list Token).

(** Succeeds leaving at most [n] tokens, or fails; but never runs out. *)
Definition ends (m : evaluated) (n : nat) : Prop :=
  match m with
  | Some (Ok (_, ts)) => (length ts <= n)%nat
  | Some (Err _) => True
  | None => False
  end.

Lemma ends_bind m k n n' :
  ends m n -> (forall v ts, (length ts <= n)%nat -> ends (k v ts) n') -> ends (ebind m k) n'.
Proof. destruct m as [[[v ts]|err]|]; cbn; auto. Qed.

Lemma ends_weaken m n n' : ends m n -> (n <= n')%nat -> ends m n'.
Proof. destruct m as [[[v ts]|err]|]; cbn; auto. lia. Qed.

Lemma eval_ends fuel :
  (forall ts, 3 * length ts + 3 <= fuel -> ends (parse_add_sub tokens fuel ts) (pred (length ts)))%nat /\
  (forall v ts, 3 * length ts + 2 <= fuel -> ends (add_sub_loop tokens fuel v ts) (length ts))%nat /\
  (forall ts, 3 * length ts + 2 <= fuel -> ends (parse_mul_div tokens fuel ts) (pred (length ts)))%nat /\
  (forall v ts, 3 * length ts + 1 <= fuel -> ends (mul_div_loop tokens fuel v ts) (length ts))%nat /\
  (forall ts, 3 * length ts + 1 <= fuel -> ends (parse_atom tokens fuel ts) (pred (length ts)))%nat.
Proof.
  induction fuel as [|fuel (IHas & IHal & IHmd & IHml & IHat)]; [split_and!; intros; lia|].
  split_and!.
  - intros ts Hf. cbn [parse_add_sub]. eapply ends_bind; [apply IHmd; lia|].
    intros v ts' Hl. eapply ends_weaken; [apply IHal; lia|lia].
  - intros v ts Hf. cbn [add_sub_loop].
    destruct ts as [|[] ts]; cbn [length] in *; try (cbn; lia);
      (eapply ends_bind; [apply IHmd; lia|]);
      intros w ts' Hl; (eapply ends_weaken; [apply IHal; lia|lia]).
  - intros ts Hf. cbn [parse_mul_div]. eapply ends_bind; [apply IHat; lia|].
    intros v ts' Hl. eapply ends_weaken; [apply IHml; lia|lia].
  - intros v ts Hf. cbn [mul_div_loop].
    destruct ts as [|[] ts]; cbn [length] in *; try (cbn; lia);
      (eapply ends_bind; [apply IHat; lia|]);
      intros w ts' Hl; try destruct (is_zero w); try done;
      (eapply ends_weaken; [apply IHml; lia|lia]).
  - intros ts Hf. cbn [parse_atom]. destruct ts as [|[] ts]; cbn [length] in *; try (cbn; lia).
    eapply ends_bind; [apply IHas; lia|]. intros v [|[] ts'] Hl; cbn in *; try done. lia.
Qed.

(** A result reached with some fuel is reached with more. *)
Definition keeps (m m' : evaluated) : Prop := forall r, m = Some r -> m' = Some r.

Lemma evaluated_keeps_bind m m' k k' :
  keeps m m' -> (forall v ts, keeps (k v ts) (k' v ts)) -> keeps (ebind m k) (ebind m' k').
Proof.
  unfold keeps. intros Hm Hk r. destruct m as [[[v ts]|err]|]; cbn; [| |done].
  - rewrite (Hm _ eq_refl). cbn. apply Hk.
  - by rewrite (Hm _ eq_refl).
Qed.

Lemma eval_keeps fuel :
  (forall ts, keeps (parse_add_sub tokens fuel ts) (parse_add_sub tokens (S fuel) ts)) /\
  (forall v ts, keeps (add_sub_loop tokens fuel v ts) (add_sub_loop tokens (S fuel) v ts)) /\
  (forall ts, keeps (parse_mul_div tokens fuel ts) (parse_mul_div tokens (S fuel) ts)) /\
  (forall v ts, keeps (mul_div_loop tokens fuel v ts) (mul_div_loop tokens (S fuel) v ts)) /\
  (forall ts, keeps (parse_atom tokens fuel ts) (parse_atom tokens (S fuel) ts)).
Proof.
  induction fuel as [|fuel (IHas & IHal & IHmd & IHml & IHat)]; [split_and!; by intros|].
  split_and!; intros.
  - cbn [parse_add_sub]. by apply evaluated_keeps_bind.
  - cbn [add_sub_loop]. destruct ts as [|[] ts]; try (by intros ?); by apply evaluated_keeps_bind.
  - cbn [parse_mul_div]. by apply evaluated_keeps_bind.
  - cbn [mul_div_loop]. destruct ts as [|[] ts]; try (by intros ?);
      (apply evaluated_keeps_bind; [done|]); intros w ts';
      first [apply IHml|destruct (is_zero w); [by intros ?|apply IHml]].
  - cbn [parse_atom]. destruct ts as [|[] ts]; try (by intros ?).
    apply evaluated_keeps_bind; [done|]. by intros ? ? ?.
Qed.

Lemma parse_add_sub_more fuel fuel' ts r :
  parse_add_sub tokens fuel ts = Some r -> (fuel <= fuel')%nat ->
  parse_add_sub tokens fuel' ts = Some r.
Proof. intros H Hf. induction Hf as [|fuel' _ IH]; [done|]. by apply eval_keeps. Qed.
End Fuel.

Lemma eval_tokens_total ts : is_Some (eval_tokens ts).
Proof.
  unfold eval_tokens.
  pose proof (proj1 (eval_ends ts (eval_fuel ts)) ts (Nat.le_refl _)) as H.
  destruct (parse_add_sub ts (eval_fuel ts) ts) as [[[v [|t rest]]|err]|]; [by eauto..|done].
Qed.

(** ** Specification *)

(** Expressions, with the IEEE value of each; division and remainder by a zero
    of either sign are errors, and the left operand comes first. *)
Inductive op : Type := Add | Sub | Times | Over | Rem.
Inductive exp : Type := Lit (n : f64) | Bin (o : op) (a b : exp).

Definition apply_op (o : op) (x y : f64) : result f64 string :=
  match o with
  | Add => Ok (f64_add x y)
  | Sub => Ok (f64_sub x y)
  | Times => Ok (f64_mul x y)
  | Over => if is_zero y then Err "division by zero" else Ok (f64_div x y)
  | Rem => if is_zero y then Err "modulo by zero" else Ok (f64_rem x y)
  end.

Fixpoint value_of (e : exp) : result f64 string :=
  match e with
  | Lit n => Ok n
  | Bin o a b => let? x := value_of a in let? y := value_of b in apply_op o x y
  end.

Definition token_of (o : op) : Token :=
  match o with Add => Plus | Sub => Minus | Times => Mul | Over => Div | Rem => Mod end.
Definition additive (o : op) : bool := match o with Add | Sub => true | _ => false end.

(** [sum = product (("+" | "-") product)*],
    [product = atom (("*" | "/" | "%") atom)*],
    [atom = number | "(" sum ")"]; chains associate to the left. *)
Inductive level : Type := Atom | Product | Sum.
Inductive derives : level -> list Token -> exp -> Prop :=
| d_num n : derives Atom [Num n] (Lit n)
| d_paren ts e : derives Sum ts e -> derives Atom (LParen :: ts ++ [RParen]) e
| d_atom ts e : derives Atom ts e -> derives Product ts e
| d_times ts1 ts2 o a b : additive o = false ->
    derives Product ts1 a -> derives Atom ts2 b ->
    derives Product (ts1 ++ token_of o :: ts2) (Bin o a b)
| d_product ts e : derives Product ts e -> derives Sum ts e
| d_plus ts1 ts2 o a b : additive o = true ->
    derives Sum ts1 a -> derives Product ts2 b ->
    derives Sum (ts1 ++ token_of o :: ts2) (Bin o a b).

(** *** Soundness: a value comes from an expression with that value *)

Section Sound.
Context (tokens : list Token).

(** [m] evaluated a prefix of [ts], given that [pre] is an expression of value
    what [m] started from. *)
Definition sound (lv : level) (pre ts : list Token) (m : evaluated) : Prop :=
  forall v ts', m = Some (Ok (v, ts')) ->
  exists used e, ts = used ++ ts' /\ derives lv (pre ++ used) e /\ value_of e = Ok v.

Lemma ebind_inv (m : evaluated) k v ts :
  ebind m k = Some (Ok (v, ts)) ->
  exists v' ts', m = Some (Ok (v', ts')) /\ k v' ts' = Some (Ok (v, ts)).
Proof. destruct m as [[[v' ts']|]|]; cbn; [eauto|done|done]. Qed.

Lemma exp_sound_return lv v pre ts e :
  derives lv pre e -> value_of e = Ok v -> sound lv pre ts (Some (Ok (v, ts))).
Proof. intros Hd He v' ts' [= <- <-]. exists [], e. by rewrite app_nil_r. Qed.

Lemma exp_sound_bind lv lv' pre pre' ts (m : evaluated) k :
  sound lv' [] ts m ->
  (forall v used ts' e, derives lv' used e -> value_of e = Ok v ->
     sound lv (pre ++ pre' ++ used) ts' (k v ts')) ->
  sound lv pre (pre' ++ ts) (ebind m k).
Proof.
  intros Hm Hk v ts' H. apply ebind_inv in H as (l & ts1 & H1 & H2).
  destruct (Hm _ _ H1) as (u1 & e1 & -> & D1 & V1).
  destruct (Hk _ _ _ _ D1 V1 _ _ H2) as (u2 & e2 & -> & D2 & V2).
  exists (pre' ++ u1 ++ u2), e2. split; [by rewrite <- !app_assoc|].
  by rewrite <- !app_assoc in D2.
Qed.

Lemma eval_sound fuel :
  (forall ts, sound Sum [] ts (parse_add_sub tokens fuel ts)) /\
  (forall v pre ts e, derives Sum pre e -> value_of e = Ok v ->
     sound Sum pre ts (add_sub_loop tokens fuel v ts)) /\
  (forall ts, sound Product [] ts (parse_mul_div tokens fuel ts)) /\
  (forall v pre ts e, derives Product pre e -> value_of e = Ok v ->
     sound Product pre ts (mul_div_loop tokens fuel v ts)) /\
  (forall ts, sound Atom [] ts (parse_atom tokens fuel ts)).
Proof.
  induction fuel as [|fuel (IHas & IHal & IHmd & IHml & IHat)]; [split_and!; by intros|].
  assert (forall o v w pre u e b, derives Sum pre e -> value_of e = Ok v -> additive o = true ->
    derives Product u b -> value_of b = Ok w ->
    derives Sum (pre ++ token_of o :: u) (Bin o e b) /\
    value_of (Bin o e b) = apply_op o v w) as Hadd.
  { intros o v w pre u e b He Hv Ho Hb Hw. split; [by apply d_plus|]. cbn. by rewrite Hv, Hw. }
  assert (forall o v w pre u e b, derives Product pre e -> value_of e = Ok v -> additive o = false ->
    derives Atom u b -> value_of b = Ok w ->
    derives Product (pre ++ token_of o :: u) (Bin o e b) /\
    value_of (Bin o e b) = apply_op o v w) as Hmul.
  { intros o v w pre u e b He Hv Ho Hb Hw. split; [by apply d_times|]. cbn. by rewrite Hv, Hw. }
  split_and!.
  - intros ts. cbn [parse_add_sub]. apply (exp_sound_bind _ Product [] []); [apply IHmd|].
    intros v u ts' e D V. by eapply IHal; [apply d_product|].
  - intros v pre ts e D V. cbn [add_sub_loop]. destruct ts as [|[] ts]; try by eapply exp_sound_return.
    + apply (exp_sound_bind _ Product pre [Plus]); [apply IHmd|]. intros w u ts' b Db Vb.
      destruct (Hadd Add v w pre u e b D V eq_refl Db Vb). by eapply IHal.
    + apply (exp_sound_bind _ Product pre [Minus]); [apply IHmd|]. intros w u ts' b Db Vb.
      destruct (Hadd Sub v w pre u e b D V eq_refl Db Vb). by eapply IHal.
  - intros ts. cbn [parse_mul_div]. apply (exp_sound_bind _ Atom [] []); [apply IHat|].
    intros v u ts' e D V. by eapply IHml; [apply d_atom|].
  - intros v pre ts e D V. cbn [mul_div_loop]. destruct ts as [|[] ts]; try by eapply exp_sound_return.
    + apply (exp_sound_bind _ Atom pre [Mul]); [apply IHat|]. intros w u ts' b Db Vb.
      destruct (Hmul Times v w pre u e b D V eq_refl Db Vb). by eapply IHml.
    + apply (exp_sound_bind _ Atom pre [Div]); [apply IHat|]. intros w u ts' b Db Vb.
      destruct (Hmul Over v w pre u e b D V eq_refl Db Vb) as [Dn Vn]. cbn in Vn.
      cbn [apply_op] in Vn. destruct (is_zero w); [done|]. by eapply IHml.
    + apply (exp_sound_bind _ Atom pre [Mod]); [apply IHat|]. intros w u ts' b Db Vb.
      destruct (Hmul Rem v w pre u e b D V eq_refl Db Vb) as [Dn Vn].
      cbn [apply_op] in Vn. destruct (is_zero w); [done|]. by eapply IHml.
  - intros ts. cbn [parse_atom]. destruct ts as [|[] ts]; try done.
    + intros v ts' [= <- <-]. exists [Num n], (Lit n). split; [done|]. split; [constructor|done].
    + intros v ts' H. apply ebind_inv in H as (w & ts1 & H1 & H2).
      destruct (IHas _ _ _ H1) as (u & e & -> & D & V).
      destruct ts1 as [|[] ts1]; try done. injection H2 as <- <-.
      exists (LParen :: u ++ [RParen]), e. split; [cbn; by rewrite <- app_assoc|].
      split; [by constructor|done].
Qed.
End Sound.

(** *** Completeness: every expression is evaluated to its value or its error *)

Section Complete.
Context (tokens : list Token).

(** [f] returns [r] once it has enough fuel. *)
Definition settles (f : nat -> evaluated) (r : result (f64 * list Token) string) : Prop :=
  exists n, forall m, (n <= m)%nat -> f m = Some r.

Lemma value_settles_step (f g : nat -> evaluated) r :
  (forall m, f (S m) = g m) -> settles g r -> settles f r.
Proof.
  intros Hfg [n Hn]. exists (S n). intros [|m] Hm; [lia|]. rewrite Hfg. apply Hn. lia.
Qed.

(** Evaluating a part with outcome [x], then going on with its value. *)
Definition then_settles (x : result f64 string) (rest : list Token)
    (k : nat -> f64 -> list Token -> evaluated) (r : result (f64 * list Token) string) : Prop :=
  match x with
  | Ok v => settles (fun m => k m v rest) r
  | Err e => r = Err e
  end.

Definition outcome_at (x : result f64 string) (rest : list Token)
  : result (f64 * list Token) string :=
  match x with Ok v => Ok (v, rest) | Err e => Err e end.

Lemma value_settles_bind (f : nat -> evaluated) k x rest r :
  settles f (outcome_at x rest) -> then_settles x rest k r ->
  settles (fun m => ebind (f m) (k m)) r.
Proof.
  intros [n Hn] Hk. destruct x as [v|e].
  - destruct Hk as [n' Hn']. exists (max n n'). intros m Hm.
    rewrite (Hn m) by lia. cbn. apply Hn'. lia.
  - exists n. intros m Hm. rewrite (Hn m Hm). cbn. by rewrite Hk.
Qed.

Lemma value_settles_done r : settles (fun _ => Some r) r.
Proof. by exists O. Qed.

Definition no_product (ts : list Token) : Prop :=
  match ts with (Mul | Div | Mod) :: _ => False | _ => True end.
Definition no_sum (ts : list Token) : Prop :=
  match ts with (Plus | Minus) :: _ => False | _ => True end.

Lemma mul_loop_stops x ts :
  no_product ts -> then_settles x ts (mul_div_loop tokens) (outcome_at x ts).
Proof.
  intros H. destruct x; [|done]. exists 1%nat. intros [|m] Hm; [lia|]. by destruct ts as [|[] ts].
Qed.
Lemma add_loop_stops x ts :
  no_sum ts -> then_settles x ts (add_sub_loop tokens) (outcome_at x ts).
Proof.
  intros H. destruct x; [|done]. exists 1%nat. intros [|m] Hm; [lia|]. by destruct ts as [|[] ts].
Qed.

(** A phrase of each level, then [rest]. *)
Definition complete (lv : level) (ts : list Token) (e : exp) : Prop :=
  forall rest,
  match lv with
  | Atom => settles (fun m => parse_atom tokens m (ts ++ rest)) (outcome_at (value_of e) rest)
  | Product => forall r, then_settles (value_of e) rest (mul_div_loop tokens) r ->
      settles (fun m => parse_mul_div tokens m (ts ++ rest)) r
  | Sum => forall r, no_product rest -> then_settles (value_of e) rest (add_sub_loop tokens) r ->
      settles (fun m => parse_add_sub tokens m (ts ++ rest)) r
  end.

(** One turn of each loop, after its left operand. *)
Lemma mul_turn o x b ts2 rest r :
  additive o = false -> complete Atom ts2 b ->
  then_settles (let? y := value_of b in apply_op o x y) rest (mul_div_loop tokens) r ->
  settles (fun m => mul_div_loop tokens m x (token_of o :: ts2 ++ rest)) r.
Proof.
  intros Ho Hb Hr. destruct o; [done|done| | |];
    (eapply value_settles_step; [reflexivity|]); (eapply value_settles_bind; [apply Hb|]);
    destruct (value_of b) as [y|]; cbn in *; try done; destruct (is_zero y); try done;
    rewrite Hr; apply value_settles_done.
Qed.

Lemma add_turn o x b ts2 rest r :
  additive o = true -> no_product rest -> complete Product ts2 b ->
  then_settles (let? y := value_of b in apply_op o x y) rest (add_sub_loop tokens) r ->
  settles (fun m => add_sub_loop tokens m x (token_of o :: ts2 ++ rest)) r.
Proof.
  intros Ho Hn Hb Hr. destruct o; try done;
    (eapply value_settles_step; [reflexivity|]);
    (eapply value_settles_bind; [apply Hb; by apply mul_loop_stops|]);
    by destruct (value_of b).
Qed.

Lemma exp_complete lv ts e : derives lv ts e -> complete lv ts e.
Proof.
  induction 1 as [n|ts e _ IH|ts e _ IH|ts1 ts2 o a b Ho _ IHa _ IHb|ts e _ IH
    |ts1 ts2 o a b Ho _ IHa _ IHb]; intros rest.
  - eapply value_settles_step; [reflexivity|apply value_settles_done].
  - eapply value_settles_step; [reflexivity|]. cbn [app]. rewrite <- app_assoc.
    eapply value_settles_bind; [apply (IH ([RParen] ++ rest)); [done|]; by apply add_loop_stops|].
    destruct (value_of e); [apply value_settles_done|done].
  - intros r Hr. eapply value_settles_step; [reflexivity|]. by eapply value_settles_bind.
  - intros r Hr. rewrite <- app_assoc. cbn [app]. apply IHa. cbn [value_of] in Hr.
    destruct (value_of a) as [x|]; [|done]. by apply (mul_turn o x b).
  - intros r Hn Hr. eapply value_settles_step; [reflexivity|].
    eapply value_settles_bind; [apply IH; by apply mul_loop_stops|]. done.
  - intros r Hn Hr. rewrite <- app_assoc. cbn [app]. apply IHa; [by destruct o|].
    cbn [value_of] in Hr. destruct (value_of a) as [x|]; [|done]. by apply (add_turn o x b).
Qed.
End Complete.

Lemma derives_value ts e : derives Sum ts e -> eval_tokens ts = Some (value_of e).
Proof.
  intros H. destruct (exp_complete ts Sum ts e H [] (outcome_at (value_of e) []) I) as [n Hn];
    [by apply add_loop_stops|].
  rewrite app_nil_r in Hn. pose proof (eval_tokens_total ts) as [r Hr]. rewrite Hr.
  unfold eval_tokens in Hr.
  destruct (parse_add_sub ts (eval_fuel ts) ts) as [r'|] eqn:E; [|done].
  pose proof (parse_add_sub_more ts _ (max n (eval_fuel ts)) _ _ E ltac:(lia)) as Hmax.
  rewrite Hn in Hmax by lia. injection Hmax as <-. by destruct (value_of e).
Qed.

Lemma value_derives ts v : eval_tokens ts = Some (Ok v) ->
  exists e, derives Sum ts e /\ value_of e = Ok v.
Proof.
  unfold eval_tokens.
  destruct (parse_add_sub ts (eval_fuel ts) ts) as [[[v' [|t rest]]|]|] eqn:E; try done.
  intros [= ->]. destruct (proj1 (eval_sound ts (eval_fuel ts)) ts v [] E) as (u & e & -> & D & V).
  exists e. by rewrite app_nil_r in *.
Qed.

(** *** The tokenizer *)

Lemma span_shorter p c l : p c = true -> (length (span p (c :: l)).2 <= length l)%nat.
Proof.
  intros Hc. cbn. rewrite Hc. pose proof (span_length p l). by destruct (span p l).
Qed.

Lemma tokenize_loop_total fuel : forall l ts,
  (length l <= fuel)%nat -> is_Some (tokenize_loop fuel l ts).
Proof.
  induction fuel as [|fuel IH]; intros [|c r] ts Hf; cbn [tokenize_loop length] in *; eauto; [lia|].
  assert (forall p num r', (num, r') = span p r -> (length r' <= fuel)%nat) as Hspan.
  { intros p num r' E. pose proof (span_length p r) as H. rewrite <- E in H. cbn in H. lia. }
  assert (forall num r', is_num_char c = true -> (num, r') = span is_num_char (c :: r) ->
    (length r' <= fuel)%nat) as Hnum.
  { intros num r' Hc E. pose proof (span_shorter is_num_char c r Hc) as H. rewrite <- E in H.
    cbn in H. lia. }
  assert (length r <= fuel)%nat as Hr by lia. clear Hf.
  destruct (eqc c " "); [eauto|]. destruct (eqc c "+"); [eauto|].
  destruct (eqc c "-").
  { destruct (is_unary ts); [|eauto]. destruct (span is_num_char r) as [num r'] eqn:E.
    destruct (parse_f64 _); [|eauto]. eapply IH, Hspan. by rewrite E. }
  destruct (eqc c "*"); [eauto|]. destruct (eqc c "/"); [eauto|]. destruct (eqc c "%"); [eauto|].
  destruct (eqc c "("); [eauto|]. destruct (eqc c ")"); [eauto|].
  destruct (is_num_char c) eqn:Ec; [|eauto]. destruct (span is_num_char (c :: r)) as [num r'] eqn:E.
  destruct (parse_f64 num); [|eauto]. by eapply IH, Hnum.
Qed.


#[local] Existing Instances SerdeModel.serde_number SerdeModel.serde_lib SerdeModel.serde_laws.

