(* ===== verification/McpConvert.v ===== *)
(** * The conversion tools of the MCP server

    [conversion_tools.rs] of [rust-old/src/mcp/tools]: numbers between bases,
    sizes and durations in words. *)

From Stdlib Require Import ZArith Lia Ascii.
From stdpp Require Import base tactics option list strings gmap.
From S2P Require Import Prelude RustStr Float Json Mcp.

Open Scope Z_scope.

(** ** Integers in a base *)

Definition u128_max : Z := 2 ^ 128 - 1.

(** [char::to_digit] *)
Definition to_digit (b : Z) (c : ascii) : option Z :=
  let d := if is_ascii_digit c then code c - 48
           else if between 97 122 c then code c - 87
           else if between 65 90 c then code c - 55
           else 36 in
  if d <? b then Some d else None.

Definition INVALID_DIGIT : string := "invalid digit found in string".
Definition TOO_LARGE : string := "number too large to fit in target type".
Definition EMPTY : string := "cannot parse integer from empty string".

Definition radix_step (b acc : Z) (c : ascii) : result Z string :=
  match to_digit b c with
  | None => Err INVALID_DIGIT
  | Some x =>
      if u128_max <? acc * b then Err TOO_LARGE
      else if u128_max <? acc * b + x then Err TOO_LARGE
      else Ok (acc * b + x)
  end.

Fixpoint radix_loop (b acc : Z) (l : list ascii) : result Z string :=
  match l with
  | [] => Ok acc
  | c :: l => let? acc := radix_step b acc c in radix_loop b acc l
  end.

(** [u128::from_str_radix] *)
Definition from_str_radix (l : list ascii) (b : Z) : result Z string :=
  match l with
  | [] => Err EMPTY
  | [c] => if eqc c "+" || eqc c "-" then Err INVALID_DIGIT else radix_loop b 0 l
  | c :: r => if eqc c "+" then radix_loop b 0 r else radix_loop b 0 l
  end.

(** The lower-case digits of a number: [format!("{n:x}")] and the like. *)
Definition to_char (d : Z) : ascii :=
  ascii_of_N (Z.to_N (if d <? 10 then 48 + d else 87 + d)).
Fixpoint digits_of (fuel : nat) (b n : Z) : list ascii :=
  match fuel with
  | O => []
  | S fuel => (if n <? b then [] else digits_of fuel b (n / b)) ++ [to_char (n mod b)]
  end.
Definition digits (b n : Z) : list ascii := digits_of (S (Z.to_nat (Z.log2 n))) b n.

Definition base_prefix (b : Z) : string :=
  if b =? 2 then "0b" else if b =? 8 then "0o" else if b =? 16 then "0x" else "".

Definition show_base (b n : Z) : string :=
  if b =? 10 then show_Z n else base_prefix b +:+ from_bytes (digits b n).

(** [str::trim_start_matches]; a turn takes the pattern off. *)
Fixpoint trim_start_matches_loop (fuel : nat) (p l : list ascii) : list ascii :=
  match fuel with
  | O => l
  | S fuel => if starts_with p l then trim_start_matches_loop fuel p (drop (length p) l) else l
  end.
Definition trim_start_matches (p : string) (l : list ascii) : list ascii :=
  trim_start_matches_loop (length l) (as_bytes p) l.

Definition strip_prefixes (l : list ascii) : list ascii :=
  trim_start_matches "0O" (trim_start_matches "0o" (trim_start_matches "0B"
    (trim_start_matches "0b" (trim_start_matches "0X" (trim_start_matches "0x" l))))).

(** [b as u32] of a [u64] *)
Definition as_u32 (b : Z) : Z := b mod 2 ^ 32.

Definition supported (b : Z) : bool := existsb (Z.eqb b) [2; 8; 10; 16].

(** ** The tools *)

Section Tools.
Context `{JN : JsonNumber} `{JL : !JsonLib} `{MJ : !McpJson}.

Definition base_convert (args : Value) : mcp Value :=
  require value := get_str args "value" else missing "value" in
  require from := get_u64 args "from_base" else missing "from_base" in
  require to := get_u64 args "to_base" else missing "to_base" in
  let from := as_u32 from in
  let to := as_u32 to in
  if negb (supported from) || negb (supported to) then MRet (invalid "supported bases: 2, 8, 10, 16")
  else
    match from_str_radix (strip_prefixes (as_bytes value)) from with
    | Ok n => MRet (result_ok_json (object
        [("input", VString value); ("from_base", json_u64 from); ("to_base", json_u64 to);
         ("result", VString (show_base to n))]))
    | Err e => MRet (invalid ("invalid number '" +:+ value +:+ "' for base " +:+
        show_Z from +:+ ": " +:+ e))
    end.

Definition BaseConvert : Tool := {|
  definition := tool_def "szal_base_convert"
    "Convert a number between bases (binary, octal, decimal, hexadecimal)"
    (object
      [("value", prop "string" "Number to convert");
       ("from_base", prop "integer" "Source base (2, 8, 10, 16)");
       ("to_base", prop "integer" "Target base (2, 8, 10, 16)")])
    ["value"; "from_base"; "to_base"];
  tool_call := base_convert
|}.

Definition BYTES_PER_KB : Z := 1024.
Definition BYTES_PER_MB : Z := 1048576.
Definition BYTES_PER_GB : Z := 1073741824.
Definition BYTES_PER_TB : Z := 1099511627776.

Definition per (bytes unit : Z) : f64 := f64_div (f64_of_Z bytes) (f64_of_Z unit).

Definition byte_format (args : Value) : mcp Value :=
  require bytes := get_u64 args "bytes" else missing "bytes" in
  let '(value, unit) :=
    if BYTES_PER_TB <=? bytes then (per bytes BYTES_PER_TB, "TB")
    else if BYTES_PER_GB <=? bytes then (per bytes BYTES_PER_GB, "GB")
    else if BYTES_PER_MB <=? bytes then (per bytes BYTES_PER_MB, "MB")
    else if BYTES_PER_KB <=? bytes then (per bytes BYTES_PER_KB, "KB")
    else (f64_of_Z bytes, "B") in
  MRet (result_ok_json (object
    [("bytes", json_u64 bytes);
     ("formatted", VString (show_fixed 2 value +:+ " " +:+ unit));
     ("kb", json_f64 (per bytes BYTES_PER_KB));
     ("mb", json_f64 (per bytes BYTES_PER_MB));
     ("gb", json_f64 (per bytes BYTES_PER_GB))])).

Definition ByteFormat : Tool := {|
  definition := tool_def "szal_byte_format"
    "Convert bytes to human-readable format (KB, MB, GB, TB)"
    (object [("bytes", prop "integer" "Number of bytes")]) ["bytes"];
  tool_call := byte_format
|}.

Definition SECS_PER_MINUTE : Z := 60.
Definition SECS_PER_HOUR : Z := 3600.
Definition SECS_PER_DAY : Z := 86400.

Definition duration_parts (total : Z) : list string :=
  let days := total / SECS_PER_DAY in
  let hours := total mod SECS_PER_DAY / SECS_PER_HOUR in
  let minutes := total mod SECS_PER_HOUR / SECS_PER_MINUTE in
  let remaining := total mod SECS_PER_MINUTE in
  let parts :=
    (if 0 <? days then [show_Z days +:+ "d"] else []) ++
    (if 0 <? hours then [show_Z hours +:+ "h"] else []) ++
    (if 0 <? minutes then [show_Z minutes +:+ "m"] else []) in
  if (0 <? remaining) || bool_decide (parts = [])
  then parts ++ [show_Z remaining +:+ "s"] else parts.

Definition duration_format (args : Value) : mcp Value :=
  require secs := get_f64 args "seconds" else missing "seconds" in
  let total := f64_to_u64 secs in
  MRet (result_ok_json (object
    [("seconds", json_f64 secs);
     ("formatted", VString (String.concat " " (duration_parts total)));
     ("days", json_u64 (total / SECS_PER_DAY));
     ("hours", json_u64 (total / SECS_PER_HOUR));
     ("minutes", json_u64 (total / SECS_PER_MINUTE))])).

Definition DurationFormat : Tool := {|
  definition := tool_def "szal_duration_format"
    "Convert seconds to human-readable duration (Xd Xh Xm Xs) and reverse"
    (object [("seconds", prop "number" "Duration in seconds")]) ["seconds"];
  tool_call := duration_format
|}.

Context `{LW : !JsonLaws}.
#[export] Instance BaseConvert_laws : ToolLaws BaseConvert.
Proof. tool_laws. Qed.
#[export] Instance ByteFormat_laws : ToolLaws ByteFormat.
Proof. tool_laws. Qed.
#[export] Instance DurationFormat_laws : ToolLaws DurationFormat.
Proof. tool_laws. Qed.
End Tools.

Example duration_example : String.concat " " (duration_parts 93784) = "1d 2h 3m 4s".
Proof. reflexivity. Qed.
Example hex_example : from_str_radix (strip_prefixes (as_bytes "0xFF")) 16 = Ok 255.
Proof. reflexivity. Qed.
(** A hexadecimal number that starts as a binary one loses its digits. *)
Example hex_misread : from_str_radix (strip_prefixes (as_bytes "0b1")) 16 = Ok 1.
Proof. reflexivity. Qed.

(** ** Reading back what was printed *)

Lemma radix_loop_app b l1 : forall acc l2,
  radix_loop b acc (l1 ++ l2) = let? acc := radix_loop b acc l1 in radix_loop b acc l2.
Proof.
  induction l1 as [|c l1 IH]; intros acc l2; [done|]. cbn [app radix_loop].
  destruct (radix_step b acc c); [apply IH|done].
Qed.

Lemma code_to_char d : 0 <= d < 36 -> code (to_char d) = if d <? 10 then 48 + d else 87 + d.
Proof.
  intros Hd. unfold code, to_char. rewrite N_ascii_embedding.
  - rewrite Z2N.id; [done|]. destruct (d <? 10); lia.
  - destruct (d <? 10) eqn:E; lia.
Qed.

Lemma to_digit_char b d : 0 <= d < b -> b <= 16 -> to_digit b (to_char d) = Some d.
Proof.
  intros Hd Hb. unfold to_digit, is_ascii_digit, between. rewrite code_to_char by lia.
  destruct (d <? 10) eqn:E.
  - replace ((48 <=? 48 + d) && (48 + d <=? 57)) with true by lia.
    replace (48 + d - 48) with d by lia. by replace (d <? b) with true by lia.
  - replace ((48 <=? 87 + d) && (87 + d <=? 57)) with false by lia.
    replace ((97 <=? 87 + d) && (87 + d <=? 122)) with true by lia.
    replace (87 + d - 87) with d by lia. by replace (d <? b) with true by lia.
Qed.

Lemma radix_digits b fuel : forall n,
  2 <= b <= 16 -> 0 <= n <= u128_max -> n < 2 ^ Z.of_nat fuel ->
  radix_loop b 0 (digits_of fuel b n) = Ok n.
Proof.
  induction fuel as [|fuel IH]; intros n Hb Hn Hf; cbn [digits_of]; [cbn; f_equal; lia|].
  rewrite radix_loop_app.
  assert (n = b * (n / b) + n mod b) as Hdiv by (apply Z.div_mod; lia).
  assert (0 <= n mod b < b) as Hmod by (apply Z.mod_pos_bound; lia).
  assert (radix_loop b 0 (if n <? b then [] else digits_of fuel b (n / b)) = Ok (n / b)) as ->.
  { destruct (n <? b) eqn:E; [cbn; f_equal; symmetry; apply Z.div_small; lia|].
    assert (0 <= n / b <= n) by (split; [apply Z.div_pos; lia|apply Z.div_le_upper_bound; nia]).
    apply IH; [done|lia|]. rewrite Nat2Z.inj_succ, Z.pow_succ_r in Hf by lia.
    apply Z.div_lt_upper_bound; nia. }
  cbn [result_bind radix_loop]. unfold radix_step. rewrite to_digit_char by lia.
  replace (u128_max <? n / b * b) with false by (symmetry; apply Z.ltb_ge; nia).
  replace (u128_max <? n / b * b + n mod b) with false by (symmetry; apply Z.ltb_ge; lia).
  cbn. f_equal. lia.
Qed.

Lemma log2_fuel n : 0 <= n -> n < 2 ^ Z.of_nat (S (Z.to_nat (Z.log2 n))).
Proof.
  intros Hn. rewrite Nat2Z.inj_succ, Z2Nat.id by apply Z.log2_nonneg.
  destruct (Z.eq_dec n 0) as [->|]; [done|]. apply Z.log2_spec. lia.
Qed.

(** The digits are never none, and the first one is zero only for zero. *)
Lemma digits_head b fuel : forall n,
  2 <= b <= 16 -> 0 <= n -> n < 2 ^ Z.of_nat fuel -> (0 < fuel)%nat ->
  exists d l, digits_of fuel b n = to_char d :: l /\ 0 <= d < b /\ (d = 0 -> n = 0 /\ l = []).
Proof.
  induction fuel as [|fuel IH]; intros n Hb Hn Hf Hpos; [lia|]. cbn [digits_of].
  assert (0 <= n mod b < b) as Hmod by (apply Z.mod_pos_bound; lia).
  destruct (n <? b) eqn:E.
  - exists (n mod b), []. split; [done|]. split; [done|]. rewrite Z.mod_small by lia. auto.
  - rewrite Nat2Z.inj_succ, Z.pow_succ_r in Hf by lia.
    assert (0 < n / b) as Hdiv by (apply Z.div_str_pos; lia).
    assert (n / b < 2 ^ Z.of_nat fuel) as Hlt by (apply Z.div_lt_upper_bound; nia).
    assert (0 < fuel)%nat as Hfuel by (destruct fuel; [cbn in Hlt; lia|lia]).
    destruct (IH (n / b)) as (d & l & -> & Hd & H0); [lia..|].
    exists d, (l ++ [to_char (n mod b)]). split; [done|]. split; [done|]. lia.
Qed.

(** [n.to_string()] writes the same digits. *)
Lemma decimal_digits_of fuel : forall n acc,
  0 <= n -> n < 2 ^ Z.of_nat fuel -> (0 < fuel)%nat ->
  as_bytes (decimal_digits fuel n acc) = digits_of fuel 10 n ++ as_bytes acc.
Proof.
  induction fuel as [|fuel IH]; intros n acc Hn Hf Hpos; [lia|]. cbn [decimal_digits digits_of].
  assert (0 <= n mod 10 < 10) as Hmod by (apply Z.mod_pos_bound; lia).
  assert (digit_char (n mod 10) = to_char (n mod 10)) as ->.
  { unfold digit_char, to_char. by replace (n mod 10 <? 10) with true by lia. }
  destruct (n <? 10) eqn:E; [done|]. rewrite <- app_assoc.
  rewrite Nat2Z.inj_succ, Z.pow_succ_r in Hf by lia.
  assert (n / 10 < 2 ^ Z.of_nat fuel) as Hlt by (apply Z.div_lt_upper_bound; lia).
  assert (0 < n / 10) by (apply Z.div_str_pos; lia).
  apply IH; [lia|done|]. destruct fuel; [cbn in Hlt; lia|lia].
Qed.

Lemma show_Z_digits n : 0 <= n -> as_bytes (show_Z n) = digits 10 n.
Proof.
  intros Hn. unfold show_Z, digits. replace (n <? 0) with false by lia.
  rewrite decimal_digits_of, app_nil_r; [done|done|by apply log2_fuel|lia].
Qed.

Lemma show_base_bytes b n : 0 <= n -> b ∈ [2; 8; 10; 16] ->
  as_bytes (show_base b n) = as_bytes (base_prefix b) ++ digits b n.
Proof.
  intros Hn Hb. unfold show_base. destruct (b =? 10) eqn:E.
  - apply Z.eqb_eq in E as ->. by rewrite show_Z_digits.
  - autorewrite with szal. done.
Qed.

Lemma trim_loop_stays fuel p l : starts_with p l = false -> trim_start_matches_loop fuel p l = l.
Proof. intros H. destruct fuel; cbn; [done|]. by rewrite H. Qed.

Lemma trim_stays p l : starts_with (as_bytes p) l = false -> trim_start_matches p l = l.
Proof. apply trim_loop_stays. Qed.

Lemma trim_once p l :
  p <> "" -> starts_with (as_bytes p) l = false -> trim_start_matches p (as_bytes p ++ l) = l.
Proof.
  intros Hp Hl. unfold trim_start_matches. destruct p as [|c p]; [done|].
  rewrite length_app. cbn [as_bytes String.list_ascii_of_string length Nat.add].
  cbn [trim_start_matches_loop]. change (c :: as_bytes p) with (as_bytes (String c p)).
  rewrite starts_with_app, drop_app_length. by apply trim_loop_stays.
Qed.

(** The digits of a number start with none of the prefixes. *)
Lemma digits_plain b n c :
  2 <= b <= 16 -> 0 <= n -> starts_with ["0"%char; c] (digits b n) = false.
Proof.
  intros Hb Hn. destruct (digits_head b _ n Hb Hn (log2_fuel n Hn) ltac:(lia)) as (d & l & E & Hd & H0).
  unfold digits. rewrite E. cbn [starts_with]. destruct (Z.eq_dec d 0) as [->|Hne].
  - destruct H0 as [_ ->]; [done|]. by rewrite andb_false_r.
  - replace (eqc "0" (to_char d)) with false; [done|]. symmetry. apply bool_decide_eq_false.
    intros Ec. apply (f_equal code) in Ec. rewrite code_to_char in Ec by lia.
    change (code "0") with 48 in Ec. destruct (d <? 10) eqn:?; lia.
Qed.

(** What a prefix leaves is what the digits alone leave. *)
Lemma strip_base b n : 0 <= n -> b ∈ [2; 8; 10; 16] ->
  strip_prefixes (as_bytes (base_prefix b) ++ digits b n) = digits b n.
Proof.
  intros Hn Hb. assert (2 <= b <= 16) as Hrange.
  { repeat (apply elem_of_cons in Hb as [->|Hb]; [lia|]). by apply not_elem_of_nil in Hb. }
  pose proof (fun c => digits_plain b n c Hrange Hn) as Hp. generalize dependent (digits b n).
  intros l Hp. unfold strip_prefixes.
  assert (forall p, p ∈ ["0x"; "0X"; "0b"; "0B"; "0o"; "0O"] -> trim_start_matches p l = l /\
    trim_start_matches p (as_bytes p ++ l) = l) as Hl.
  { intros p Hin. repeat (apply elem_of_cons in Hin as [->|Hin];
      [split; [by apply trim_stays, Hp|by apply trim_once; [|apply Hp]]|]).
    by apply not_elem_of_nil in Hin. }
  assert (forall p q, p ∈ ["0x"; "0X"; "0b"; "0B"; "0o"; "0O"] -> q ∈ ["0b"; "0o"; "0x"] -> p <> q ->
    trim_start_matches p (as_bytes q ++ l) = as_bytes q ++ l) as Hother.
  { intros p q Hin Hq Hne. apply trim_stays.
    repeat (apply elem_of_cons in Hin as [->|Hin];
      [repeat (apply elem_of_cons in Hq as [->|Hq]; [done|]); by apply not_elem_of_nil in Hq|]).
    by apply not_elem_of_nil in Hin. }
  pose proof (fun p H => proj1 (Hl p H)) as Hstay. pose proof (fun p H => proj2 (Hl p H)) as Honce.
  repeat (apply elem_of_cons in Hb as [->|Hb]; [cbn [base_prefix Z.eqb Pos.eqb app as_bytes]|]);
    [..|by apply not_elem_of_nil in Hb].
  - rewrite (Hother "0x" "0b"), (Hother "0X" "0b"), (Honce "0b") by set_solver.
    by rewrite !Hstay by set_solver.
  - rewrite (Hother "0x" "0o"), (Hother "0X" "0o"), (Hother "0b" "0o"), (Hother "0B" "0o"),
      (Honce "0o") by set_solver. by rewrite !Hstay by set_solver.
  - cbn [String.list_ascii_of_string app]. by rewrite !Hstay by set_solver.
  - rewrite (Honce "0x") by set_solver. by rewrite !Hstay by set_solver.
Qed.

Lemma from_str_radix_digits b n : 2 <= b <= 16 -> 0 <= n <= u128_max ->
  from_str_radix (digits b n) b = Ok n.
Proof.
  intros Hb Hn. pose proof (log2_fuel n (proj1 Hn)) as Hf.
  destruct (digits_head b _ n Hb (proj1 Hn) Hf ltac:(lia)) as (d & l & E & Hd & _).
  pose proof (radix_digits b _ n Hb Hn Hf) as Hr. unfold digits. rewrite E in *.
  assert (forall c, code c < 48 -> eqc (to_char d) c = false) as Hc.
  { intros c Hc. apply bool_decide_eq_false. intros <-. rewrite code_to_char in Hc by lia.
    destruct (d <? 10) eqn:?; lia. }
  unfold from_str_radix. rewrite (Hc "+"%char), (Hc "-"%char) by done. by destruct l.
Qed.

(** The base conversion is exact: the text of a 128-bit number in one of
    the four bases, with its prefix, is converted to the text of the same
    number in the other base, whatever the two bases, so that converting back
    gives the first text again. *)
Theorem base_convert_roundtrip `{JN : JsonNumber} `{JL : !JsonLib} `{LW : !JsonLaws}
    `{MJ : !McpJson} `{ML : !McpJsonLaws} b1 b2 n :
  b1 ∈ [2; 8; 10; 16] -> b2 ∈ [2; 8; 10; 16] -> 0 <= n <= u128_max ->
  let request a from to := object
    [("value", VString a); ("from_base", json_u64 from); ("to_base", json_u64 to)] in
  let answer a from to r := MRet (result_ok_json (object
    [("input", VString a); ("from_base", json_u64 from); ("to_base", json_u64 to);
     ("result", VString r)])) in
  base_convert (request (show_base b1 n) b1 b2) = answer (show_base b1 n) b1 b2 (show_base b2 n) /\
  base_convert (request (show_base b2 n) b2 b1) = answer (show_base b2 n) b2 b1 (show_base b1 n).
Proof.
  intros H1 H2 Hn request answer.
  assert (forall b, b ∈ [2; 8; 10; 16] -> supported b = true /\ as_u32 b = b /\ in_u64 b /\
    2 <= b <= 16) as Hb.
  { intros b Hb. repeat (apply elem_of_cons in Hb as [->|Hb];
      [split_and!; try done; unfold in_u64, u64_max; lia|]). by apply not_elem_of_nil in Hb. }
  assert (forall b c, b ∈ [2; 8; 10; 16] -> c ∈ [2; 8; 10; 16] ->
    base_convert (request (show_base b n) b c) = answer (show_base b n) b c (show_base c n)) as Hgo.
  { intros b c Hbin Hcin. destruct (Hb b Hbin) as (Sb & Ub & Rb & Lb).
    destruct (Hb c Hcin) as (Sc & Uc & Rc & _).
    unfold base_convert, request, answer. read_fields. rewrite !as_u64_json by done.
    rewrite Ub, Uc, Sb, Sc. cbn [negb orb].
    rewrite show_base_bytes, strip_base, from_str_radix_digits by (done || lia). done. }
  auto.
Qed.

(** ** Reading durations *)

Definition unit_seconds (c : ascii) : option Z :=
  if eqc c "d" then Some SECS_PER_DAY
  else if eqc c "h" then Some SECS_PER_HOUR
  else if eqc c "m" then Some SECS_PER_MINUTE
  else if eqc c "s" then Some 1
  else None.

(** A number and its unit, in seconds. *)
Definition read_part (l : list ascii) : option Z :=
  match span is_ascii_digit l with
  | (ds, [u]) =>
      match from_str_radix ds 10, unit_seconds u with
      | Ok n, Some s => Some (n * s)
      | _, _ => None
      end
  | _ => None
  end.

Fixpoint read_parts (ps : list (list ascii)) : option Z :=
  match ps with
  | [] => Some 0
  | p :: ps => n ← read_part p; m ← read_parts ps; Some (n + m)
  end.

Definition read_duration (s : string) : option Z :=
  read_parts (split_bytes " " (as_bytes s)).

Definition no_space (l : list ascii) : Prop := forallb (fun a => negb (eqc a " ")) l = true.

Lemma split_concat ps : ps <> [] -> Forall (fun p => no_space (as_bytes p)) ps ->
  split_bytes " " (as_bytes (String.concat " " ps)) = as_bytes <$> ps.
Proof.
  intros Hne Hps. induction Hps as [|p ps Hp Hps IH]; [done|].
  destruct ps as [|q ps]; [by apply split_bytes_none|].
  change (String.concat " " (p :: q :: ps)) with (p +:+ " " +:+ String.concat " " (q :: ps)).
  rewrite !as_bytes_app. change (as_bytes " ") with [" "%char]. cbn [app].
  rewrite split_bytes_app by done. by rewrite IH.
Qed.

Lemma digits_of_digits fuel : forall n, 0 <= n -> forallb is_ascii_digit (digits_of fuel 10 n) = true.
Proof.
  induction fuel as [|fuel IH]; intros n Hn; cbn [digits_of]; [done|]. rewrite forallb_app.
  assert (0 <= n mod 10 < 10) as Hmod by (apply Z.mod_pos_bound; lia).
  apply andb_true_iff. split; [destruct (n <? 10); [done|]; apply IH, Z.div_pos; lia|].
  cbn. unfold is_ascii_digit, between. rewrite code_to_char by lia.
  replace (n mod 10 <? 10) with true by lia. lia.
Qed.

Lemma show_Z_no_space n : 0 <= n -> no_space (as_bytes (show_Z n)).
Proof.
  intros Hn. unfold no_space. rewrite show_Z_digits by done.
  pose proof (digits_of_digits (S (Z.to_nat (Z.log2 n))) n Hn) as H. unfold digits.
  rewrite forallb_forall in H |- *. intros c Hc. apply H in Hc. apply negb_true_iff.
  apply bool_decide_eq_false. by intros ->.
Qed.

Lemma read_part_shown n u s :
  0 <= n <= u128_max -> unit_seconds u = Some s -> is_ascii_digit u = false ->
  read_part (as_bytes (show_Z n +:+ String u "")) = Some (n * s).
Proof.
  intros Hn Hu Hd. unfold read_part. rewrite as_bytes_app, show_Z_digits by lia.
  change (as_bytes (String u "")) with [u].
  rewrite span_all by (try (apply digits_of_digits; lia); cbn; by rewrite Hd).
  by rewrite from_str_radix_digits, Hu by lia.
Qed.

(** A part for a count, or none for zero. *)
Definition part (n : Z) (u : ascii) : list string :=
  if 0 <? n then [show_Z n +:+ String u ""] else [].

Lemma read_parts_app l k :
  read_parts (l ++ k) = (n ← read_parts l; m ← read_parts k; Some (n + m)).
Proof.
  induction l as [|p l IH]; cbn [app read_parts]; [by destruct (read_parts k)|].
  destruct (read_part p) as [x|]; [|done]. cbn [mbind option_bind]. rewrite IH.
  destruct (read_parts l); [|done]. cbn. destruct (read_parts k); [|done]. cbn. f_equal. lia.
Qed.

Lemma read_part_of n u s :
  0 <= n <= u128_max -> unit_seconds u = Some s -> is_ascii_digit u = false ->
  read_parts (as_bytes <$> part n u) = Some (n * s).
Proof.
  intros Hn Hu Hd. unfold part. destruct (0 <? n) eqn:E; cbn [fmap list_fmap read_parts].
  - rewrite (read_part_shown n u s) by done. cbn. f_equal. lia.
  - by assert (n = 0) as -> by lia.
Qed.

Lemma part_no_space n u : 0 <= n -> eqc u " " = false ->
  Forall (fun p => no_space (as_bytes p)) (part n u).
Proof.
  intros Hn Hu. unfold part. destruct (0 <? n); [|done]. apply Forall_singleton.
  unfold no_space. rewrite as_bytes_app, forallb_app. apply andb_true_iff.
  split; [by apply show_Z_no_space|]. cbn. by rewrite Hu.
Qed.

(** Days, hours below 24, minutes and seconds below 60 make up the whole. *)
Lemma duration_sum t : 0 <= t ->
  t = t / 86400 * 86400 + t mod 86400 / 3600 * 3600 + t mod 3600 / 60 * 60 + t mod 60.
Proof. intros. Z.div_mod_to_equations. lia. Qed.

(** A duration can be read back: the text [szal_duration_format] writes for
    a number of seconds, as days, hours, minutes and seconds with the zero parts
    left out, denotes that number; and it is never empty. *)
Theorem duration_roundtrip t :
  in_u64 t -> read_duration (String.concat " " (duration_parts t)) = Some t /\
    duration_parts t <> [].
Proof.
  intros Ht. unfold in_u64, u64_max in Ht.
  set (d := t / 86400). set (h := t mod 86400 / 3600). set (m := t mod 3600 / 60). set (s := t mod 60).
  assert (t = d * 86400 + h * 3600 + m * 60 + s) as Hsum by (apply duration_sum; lia).
  assert (0 <= d <= u128_max /\ 0 <= h <= u128_max /\ 0 <= m <= u128_max /\ 0 <= s <= u128_max)
    as (Hd & Hh & Hm & Hs).
  { change u128_max with 340282366920938463463374607431768211455.
    unfold d, h, m, s. Z.div_mod_to_equations. lia. }
  set (parts := part d "d" ++ part h "h" ++ part m "m").
  assert (duration_parts t = if (0 <? s) || bool_decide (parts = [])
    then parts ++ [show_Z s +:+ "s"] else parts) as -> by done.
  assert (read_parts (as_bytes <$> parts) = Some (d * 86400 + h * 3600 + m * 60)) as Hread.
  { unfold parts. rewrite !fmap_app, !read_parts_app, (read_part_of d "d" 86400),
      (read_part_of h "h" 3600), (read_part_of m "m" 60) by done.
    cbn. f_equal. lia. }
  assert (Forall (fun p => no_space (as_bytes p)) parts) as Hsp.
  { unfold parts. rewrite !Forall_app. split_and!; apply part_no_space; done || lia. }
  assert (no_space (as_bytes (show_Z s +:+ "s"))) as Hss.
  { unfold no_space. rewrite as_bytes_app, forallb_app. apply andb_true_iff.
    split; [apply show_Z_no_space; lia|done]. }
  destruct ((0 <? s) || bool_decide (parts = [])) eqn:E.
  - split; [|by destruct parts]. unfold read_duration.
    rewrite split_concat; [|by destruct parts|by apply Forall_app; split; [|apply Forall_singleton]].
    rewrite fmap_app, read_parts_app, Hread. cbn [fmap list_fmap read_parts].
    rewrite (read_part_shown s "s" 1) by done. cbn. f_equal. lia.
  - apply orb_false_iff in E as [E1 E2%bool_decide_eq_false]. split; [|done].
    unfold read_duration. rewrite split_concat, Hread by done. f_equal. lia.
Qed.

#[local] Existing Instances SerdeModel.serde_number SerdeModel.serde_lib SerdeModel.serde_laws.

Lemma base_convert_roundtrip_witness :
  let _ := McpModel.mcp_json McpModel.no_json in
  base_convert (object [("value", VString "0xff"); ("from_base", json_u64 16); ("to_base", json_u64 2)]) =
  MRet (result_ok_json (object [("input", VString "0xff"); ("from_base", json_u64 16);
    ("to_base", json_u64 2); ("result", VString "0b11111111")])).
Proof.
  pose proof (McpModel.mcp_json_laws McpModel.no_json) as H.
  exact (proj1 (base_convert_roundtrip (ML := H) 16 2 255
    ltac:(set_solver) ltac:(set_solver) ltac:(unfold u128_max; lia))).
Defined.

Lemma duration_roundtrip_witness :
  duration_parts 93784 = ["1d"; "2h"; "3m"; "4s"] /\ read_duration "1d 2h 3m 4s" = Some 93784.
Proof.
  split; [reflexivity|]. apply (duration_roundtrip 93784). unfold in_u64, u64_max. lia.
Defined.
