(* ===== verification/McpText.v ===== *)
(** * The text tools of the MCP server

    [template_tools.rs], [encoding_tools.rs], [json_tools.rs] and the URL
    encoding of [net_tools.rs], in [rust-old/src/mcp/tools]; the word counter,
    which also reads files, is in [McpFiles]. *)

From Stdlib Require Import ZArith Lia Ascii.
From stdpp Require Import base tactics option list strings gmap.
From S2P Require Import Prelude RustStr Json Step Condition Mcp McpConvert.

Open Scope Z_scope.

(** ** Text of the standard library *)

(** A byte that does not start a character. *)
Definition is_continuation : ascii -> bool := between 128 191.

(** The characters of a text, by their bytes. *)
Fixpoint utf8_chars (l : list ascii) : list (list ascii) :=
  match l with
  | [] => []
  | a :: l =>
      match utf8_chars l with
      | (b :: c) :: cs => if is_continuation b then (a :: b :: c) :: cs else [a] :: (b :: c) :: cs
      | cs => [a] :: cs
      end
  end.

(** [str::from_utf8]: the well-formed byte sequences of the Unicode standard. *)
Fixpoint utf8_valid_loop (fuel : nat) (l : list ascii) : bool :=
  match fuel, l with
  | _, [] => true
  | O, _ => false
  | S fuel, a :: l =>
      if is_ascii a then utf8_valid_loop fuel l
      else if between 194 223 a then
        match l with b :: l => is_continuation b && utf8_valid_loop fuel l | _ => false end
      else if between 224 239 a then
        match l with
        | b :: c :: l =>
            (if code a =? 224 then between 160 191 b
             else if code a =? 237 then between 128 159 b else is_continuation b) &&
            is_continuation c && utf8_valid_loop fuel l
        | _ => false
        end
      else if between 240 244 a then
        match l with
        | b :: c :: d :: l =>
            (if code a =? 240 then between 144 191 b
             else if code a =? 244 then between 128 143 b else is_continuation b) &&
            is_continuation c && is_continuation d && utf8_valid_loop fuel l
        | _ => false
        end
      else false
  end.
Definition utf8_valid (l : list ascii) : bool := utf8_valid_loop (length l) l.

(** [str::split] by a text that is not empty: [cur] is the piece read so far. *)
Fixpoint split_loop (fuel : nat) (p cur l : list ascii) : list (list ascii) :=
  match fuel with
  | O => [rev cur ++ l]
  | S fuel =>
      match l with
      | [] => [rev cur]
      | c :: l' =>
          if starts_with p l then rev cur :: split_loop fuel p [] (drop (length p) l)
          else split_loop fuel p (c :: cur) l'
      end
  end.

(** An empty pattern matches before, between and after the characters. *)
Definition split_text (p l : list ascii) : list (list ascii) :=
  match p with
  | [] => [] :: utf8_chars l ++ [[]]
  | _ => split_loop (length l) p [] l
  end.

(** [parts.join(sep)] *)
Fixpoint join_text (sep : list ascii) (ps : list (list ascii)) : list ascii :=
  match ps with
  | [] => []
  | [p] => p
  | p :: ps => p ++ sep ++ join_text sep ps
  end.

(** [str::replace] *)
Definition replace_text (p w l : list ascii) : list ascii := join_text w (split_text p l).

(** [text.replacen(search, replace, 1)] *)
Definition replace_once (p w l : list ascii) : list ascii :=
  match find_bytes p l with
  | Some n => take n l ++ w ++ drop (n + length p) l
  | None => l
  end.

(** [str::parse::<usize>] *)
Definition parse_usize (l : list ascii) : option Z :=
  match from_str_radix l 10 with
  | Ok n => if n <=? usize_max then Some n else None
  | Err _ => None
  end.

(** ** Template and text tools *)

Section TextTools.
Context `{JN : JsonNumber} `{JL : !JsonLib} `{MJ : !McpJson}.

Definition template_render (args : Value) : mcp Value :=
  require template := get_str args "template" else missing "template" in
  require vars := get_object args "variables" else missing "variables" in
  match render_template template (VObject vars) with
  | Some text => MRet (result_ok text)
  | None => MPanic
  end.

Definition TemplateRender : Tool := {|
  definition := tool_def "szal_template_render"
    "Render a mustache-style template with {{variable}} substitution"
    (object
      [("template", prop "string" "Template string with {{var}} placeholders");
       ("variables", prop "object" "Key-value pairs for substitution")])
    ["template"; "variables"];
  tool_call := template_render
|}.

Definition text_replace (args : Value) : mcp Value :=
  require text := get_str args "text" else missing "text" in
  require search := get_str args "search" else missing "search" in
  require replace_with := get_str args "replace" else missing "replace" in
  let all := default true (get_bool args "all") in
  let f := if all then replace_text else replace_once in
  MRet (result_ok (from_bytes (f (as_bytes search) (as_bytes replace_with) (as_bytes text)))).

Definition TextReplace : Tool := {|
  definition := tool_def "szal_text_replace" "Search and replace text in a string"
    (object
      [("text", prop "string" "Input text");
       ("search", prop "string" "Text to find");
       ("replace", prop "string" "Replacement text");
       ("all", prop "boolean" "Replace all occurrences (default: true)")])
    ["text"; "search"; "replace"];
  tool_call := text_replace
|}.

Definition NEWLINE : string := String (ascii_of_nat 10) "".

Definition text_split (args : Value) : mcp Value :=
  require text := get_str args "text" else missing "text" in
  let delim := default NEWLINE (get_str args "delimiter") in
  let parts := from_bytes <$> split_text (as_bytes delim) (as_bytes text) in
  MRet (result_ok (pretty (json_strings parts))).

Definition TextSplit : Tool := {|
  definition := tool_def "szal_text_split" "Split text by a delimiter and return as JSON array"
    (object
      [("text", prop "string" "Text to split");
       ("delimiter", prop "string" "Delimiter (default: newline)")]) ["text"];
  tool_call := text_split
|}.

Definition text_join (args : Value) : mcp Value :=
  require arr := get_array args "parts" else missing "parts" in
  let parts := omap as_str arr in
  let sep := default NEWLINE (get_str args "separator") in
  MRet (result_ok (from_bytes (join_text (as_bytes sep) (as_bytes <$> parts)))).

Definition TextJoin : Tool := {|
  definition := tool_def "szal_text_join"
    "Join array elements into a single string with a separator"
    (object
      [("parts", prop_items "string" "Array of strings to join");
       ("separator", prop "string" "Separator (default: newline)")]) ["parts"];
  tool_call := text_join
|}.
End TextTools.

(** ** Encoding tools *)

(** [base64]'s standard engine. *)
Class Base64 := {
  base64_encode : list ascii -> string;
  base64_decode : string -> result (list ascii) string
}.
Class Base64Laws `{B64 : Base64} : Prop := {
  base64_decode_encode l : base64_decode (base64_encode l) = Ok l
}.

Section EncodingTools.
Context `{JN : JsonNumber} `{JL : !JsonLib} `{MJ : !McpJson} `{UL : UuidLib} `{B64 : Base64}.

Definition MAX_UUID_COUNT : Z := 100.

Fixpoint new_uuids (n : nat) : mcp (list string) :=
  match n with
  | O => MRet []
  | S n =>
      let* u := call_io NewUuid in
      let* us := new_uuids n in
      MRet (uuid_to_string u :: us)
  end.

Definition uuid_gen (args : Value) : mcp Value :=
  let count := Z.min (default 1 (get_u64 args "count")) MAX_UUID_COUNT in
  let* uuids := new_uuids (Z.to_nat count) in
  if count =? 1 then
    match uuids with u :: _ => MRet (result_ok u) | [] => MPanic end
  else MRet (result_ok_json (json_strings uuids)).

Definition UuidGen : Tool := {|
  definition := tool_def "szal_uuid" "Generate one or more UUID v4 identifiers"
    (object [("count", prop "integer" "Number of UUIDs to generate (default: 1, max: 100)")]) [];
  tool_call := uuid_gen
|}.

Definition base64_tool (args : Value) : mcp Value :=
  require input := get_str args "input" else missing "input" in
  let op := default "encode" (get_str args "operation") in
  if bool_decide (op = "encode") then MRet (result_ok (base64_encode (as_bytes input)))
  else if bool_decide (op = "decode") then
    match base64_decode input with
    | Ok bytes =>
        if utf8_valid bytes then MRet (result_ok (from_bytes bytes))
        else MRet (result_error_typed McpErrorCode.Internal "decoded bytes are not valid UTF-8")
    | Err e => MRet (result_error_typed McpErrorCode.Internal ("base64 decode error: " +:+ e))
    end
  else MRet (invalid ("invalid operation: " +:+ op)).

Definition Base64Tool : Tool := {|
  definition := tool_def "szal_base64" "Encode or decode a string using base64"
    (object
      [("input", prop "string" "Input string");
       ("operation", prop_enum_desc ["encode"; "decode"]
          "Operation to perform (default: encode)")]) ["input"];
  tool_call := base64_tool
|}.

(** [format!("{:02X}", byte)] *)
Definition hex_upper (d : Z) : ascii := ascii_of_N (Z.to_N (if d <? 10 then 48 + d else 55 + d)).
Definition percent (c : ascii) : list ascii :=
  ["%"%char; hex_upper (code c / 16); hex_upper (code c mod 16)].

Definition unreserved (c : ascii) : bool :=
  is_ascii_alphanumeric c || existsb (eqc c) (as_bytes "-_.~").

Definition url_encode (l : list ascii) : list ascii :=
  flat_map (fun c => if unreserved c then [c] else percent c) l.

(** The characters after a [%], at most two of them. *)
Definition url_escape (hex : list ascii) : list ascii :=
  match from_str_radix hex 16 with
  | Ok n => [ascii_of_N (Z.to_N n)]
  | Err _ => "%"%char :: hex
  end.

Fixpoint url_decode (cs : list (list ascii)) : list ascii :=
  match cs with
  | [] => []
  | c :: cs =>
      if bool_decide (c = ["%"%char]) then
        match cs with
        | [] => url_escape []
        | [c1] => url_escape c1
        | c1 :: c2 :: cs => url_escape (c1 ++ c2) ++ url_decode cs
        end
      else if bool_decide (c = ["+"%char]) then " "%char :: url_decode cs
      else c ++ url_decode cs
  end.

Definition url_tool (args : Value) : mcp Value :=
  require input := get_str args "input" else missing "input" in
  let op := default "encode" (get_str args "operation") in
  if bool_decide (op = "encode") then
    MRet (result_ok (from_bytes (url_encode (as_bytes input))))
  else if bool_decide (op = "decode") then
    let bytes := url_decode (utf8_chars (as_bytes input)) in
    if utf8_valid bytes then MRet (result_ok (from_bytes bytes))
    else MRet (invalid "decoded bytes are not valid UTF-8")
  else MRet (invalid ("invalid operation: " +:+ op)).

Definition UrlEncode : Tool := {|
  definition := tool_def "szal_url_encode" "URL encode or decode a string"
    (object
      [("input", prop "string" "String to encode/decode");
       ("operation", prop_enum_desc ["encode"; "decode"] "Operation (default: encode)")]) ["input"];
  tool_call := url_tool
|}.
End EncodingTools.

(** ** JSON tools *)

Section JsonTools.
Context `{JN : JsonNumber} `{JL : !JsonLib} `{MJ : !McpJson}.

(** [current.get(idx)] and [current.get(segment)] *)
Definition value_nth (v : Value) (i : Z) : option Value :=
  match v with VArray a => a !! Z.to_nat i | _ => None end.

Definition get_segment (v : Value) (segment : list ascii) : result Value string :=
  match parse_usize segment with
  | Some idx =>
      ok_or (value_nth v idx)
        ("index " +:+ show_Z idx +:+ " not found at '" +:+ from_bytes segment +:+ "'")
  | None => ok_or (value_get v (from_bytes segment)) ("key '" +:+ from_bytes segment +:+ "' not found")
  end.

Fixpoint follow_path (v : Value) (segments : list (list ascii)) : result Value string :=
  match segments with
  | [] => Ok v
  | s :: segments => let? v := get_segment v s in follow_path v segments
  end.

Definition json_path (args : Value) : mcp Value :=
  require json_str := get_str args "json" else missing "json" in
  require path := get_str args "path" else missing "path" in
  match json_from_str json_str with
  | Err e => MRet (invalid ("invalid JSON: " +:+ json_message e))
  | Ok value =>
      match follow_path value (split_bytes "." (as_bytes path)) with
      | Ok v => MRet (result_ok_json v)
      | Err e => MRet (result_error_typed McpErrorCode.NotFound e)
      end
  end.

Definition JsonPath : Tool := {|
  definition := tool_def "szal_json_path"
    "Extract a value from JSON using a dot-separated path (e.g. 'a.b.c' or 'a.0.b')"
    (object
      [("json", prop "string" "JSON string");
       ("path", prop "string" "Dot-separated path (e.g. 'data.items.0.name')")])
    ["json"; "path"];
  tool_call := json_path
|}.

Definition type_name (v : Value) : string :=
  match v with
  | Null => "null"
  | VBool _ => "boolean"
  | VNumber _ => "number"
  | VString _ => "string"
  | VArray _ => "array"
  | VObject _ => "object"
  end.

(** The derived [PartialEq] of [Value]. *)
Fixpoint value_eqb (v w : Value) : bool :=
  match v, w with
  | Null, Null => true
  | VBool b, VBool c => Bool.eqb b c
  | VNumber n, VNumber m => number_eqb n m
  | VString s, VString t => bool_decide (s = t)
  | VArray a, VArray b =>
      (fix list_eqb (a b : list Value) : bool :=
         match a, b with
         | [], [] => true
         | v :: a, w :: b => value_eqb v w && list_eqb a b
         | _, _ => false
         end) a b
  | VObject a, VObject b =>
      (fix map_eqb (a b : list (string * Value)) : bool :=
         match a, b with
         | [], [] => true
         | (k, v) :: a, (l, w) :: b => bool_decide (k = l) && value_eqb v w && map_eqb a b
         | _, _ => false
         end) a b
  | _, _ => false
  end.

Definition json_diff (args : Value) : mcp Value :=
  require a_str := get_str args "a" else missing "a" in
  require b_str := get_str args "b" else missing "b" in
  match json_from_str a_str with
  | Err e => MRet (invalid ("invalid JSON in 'a': " +:+ json_message e))
  | Ok a =>
      match json_from_str b_str with
      | Err e => MRet (invalid ("invalid JSON in 'b': " +:+ json_message e))
      | Ok b => MRet (result_ok_json (object
          [("equal", VBool (value_eqb a b)); ("a_type", VString (type_name a));
           ("b_type", VString (type_name b))]))
      end
  end.

Definition JsonDiff : Tool := {|
  definition := tool_def "szal_json_diff" "Compare two JSON values and report differences"
    (object [("a", prop "string" "First JSON string"); ("b", prop "string" "Second JSON string")])
    ["a"; "b"];
  tool_call := json_diff
|}.

Definition json_validate (args : Value) : mcp Value :=
  require json_str := get_str args "json" else missing "json" in
  match json_from_str json_str with
  | Ok val => MRet (result_ok_json (object
      [("valid", VBool true); ("type", VString (type_name val));
       ("size_bytes", json_nat (String.length json_str))]))
  | Err e => MRet (result_ok_json (object
      [("valid", VBool false); ("error", VString (json_message e));
       ("line", json_u64 (json_line e)); ("column", json_u64 (json_column e))]))
  end.

Definition JsonValidate : Tool := {|
  definition := tool_def "szal_json_validate"
    "Validate a JSON string — check if it parses correctly and report structure"
    (object [("json", prop "string" "JSON string to validate")]) ["json"];
  tool_call := json_validate
|}.
End JsonTools.

(** ** The tools keep their promises *)

Section Promises.
Context `{JN : JsonNumber} `{JL : !JsonLib} `{LW : !JsonLaws} `{MJ : !McpJson} `{UL : UuidLib}
  `{B64 : Base64}.

#[export] Instance TemplateRender_laws : ToolLaws TemplateRender.
Proof. tool_laws. Qed.
#[export] Instance TextReplace_laws : ToolLaws TextReplace.
Proof. tool_laws. Qed.
#[export] Instance TextSplit_laws : ToolLaws TextSplit.
Proof. tool_laws. Qed.
#[export] Instance TextJoin_laws : ToolLaws TextJoin.
Proof. tool_laws. Qed.
#[export] Instance Base64Tool_laws : ToolLaws Base64Tool.
Proof. tool_laws. Qed.
#[export] Instance UrlEncode_laws : ToolLaws UrlEncode.
Proof. tool_laws. Qed.
#[export] Instance JsonPath_laws : ToolLaws JsonPath.
Proof. tool_laws. Qed.
#[export] Instance JsonDiff_laws : ToolLaws JsonDiff.
Proof. tool_laws. Qed.
#[export] Instance JsonValidate_laws : ToolLaws JsonValidate.
Proof. tool_laws. Qed.
End Promises.

Section Uuids.
Context `{JN : JsonNumber} `{JL : !JsonLib} `{LW : !JsonLaws} `{MJ : !McpJson} `{UL : UuidLib}.

Lemma mwp_new_uuids n : forall h,
  mwp h (new_uuids n) (fun _ o => exists us, o = Some us /\ length us = n).
Proof.
  induction n as [|n IH]; intros h; cbn [new_uuids]; [by exists []|].
  cbn [call_io mcp_bind mwp]. intros u _. apply mwp_bind. eapply mwp_mono; [|apply IH].
  intros h' o (us & -> & <-). by eexists.
Qed.

#[export] Instance UuidGen_laws : ToolLaws UuidGen.
Proof.
  split; [declares| |refuses]. intros args h. unfold_tool. apply mwp_bind.
  eapply mwp_mono; [|apply mwp_new_uuids]. intros h' o (us & -> & Hn).
  repeat tool_step; intros ? [= <-]; auto with szal.
Qed.
End Uuids.

(** ** Splitting and joining *)

Lemma starts_with_drop p l : starts_with p l = true -> l = p ++ drop (length p) l.
Proof.
  revert l. induction p as [|a p IH]; intros [|b l]; cbn; try done.
  intros [E%bool_decide_eq_true H]%andb_prop. subst b. by rewrite <- IH.
Qed.

Lemma join_text_cons sep p ps : ps <> [] -> join_text sep (p :: ps) = p ++ sep ++ join_text sep ps.
Proof. by destruct ps. Qed.

Lemma split_loop_some fuel p cur l : split_loop fuel p cur l <> [].
Proof.
  revert cur l. induction fuel as [|fuel IH]; intros cur [|c l]; cbn; try done.
  by destruct (starts_with p (c :: l)).
Qed.

Lemma join_split_loop p fuel : forall cur l,
  join_text p (split_loop fuel p cur l) = rev cur ++ l.
Proof.
  induction fuel as [|fuel IH]; intros cur [|c l]; cbn [split_loop]; try done;
    [cbn; by rewrite app_nil_r|].
  destruct (starts_with p (c :: l)) eqn:E.
  - rewrite join_text_cons by apply split_loop_some. rewrite IH. cbn [rev app].
    f_equal. symmetry. by apply starts_with_drop.
  - rewrite IH. cbn. by rewrite <- app_assoc.
Qed.

Lemma concat_utf8_chars l : concat (utf8_chars l) = l.
Proof.
  induction l as [|a l IH]; [done|]. cbn [utf8_chars].
  destruct (utf8_chars l) as [|[|b c] cs]; cbn in *; [by rewrite IH..|].
  destruct (is_continuation b); cbn; by rewrite IH.
Qed.

Lemma join_text_nil ps : join_text [] ps = concat ps.
Proof.
  induction ps as [|p ps IH]; [done|]. destruct ps as [|q ps]; [cbn; by rewrite app_nil_r|].
  rewrite join_text_cons by done. rewrite IH. done.
Qed.

Lemma join_split_text p l : join_text p (split_text p l) = l.
Proof.
  unfold split_text. destruct p as [|a p]; [|apply join_split_loop].
  rewrite join_text_nil. cbn. rewrite concat_app, concat_utf8_chars. cbn. by rewrite app_nil_r.
Qed.

Lemma omap_strings `{JN : JsonNumber} (l : list string) : omap as_str (VString <$> l) = l.
Proof. induction l as [|x l IH]; [done|]. cbn. by f_equal. Qed.
Lemma as_bytes_pieces (l : list (list ascii)) : as_bytes <$> (from_bytes <$> l) = l.
Proof. induction l as [|x l IH]; [done|]. cbn. rewrite as_from_bytes. by f_equal. Qed.

(** Splitting and joining are inverse: joining the pieces
    [szal_text_split] cuts a text into, by the delimiter it was cut with, gives
    the text back, whatever the text and the delimiter (the empty one
    included); and replacing a text by itself changes nothing. *)
Theorem split_join_roundtrip `{JN : JsonNumber} `{JL : !JsonLib} `{LW : !JsonLaws}
    `{MJ : !McpJson} text delim :
  let request := object [("text", VString text); ("delimiter", VString delim)] in
  exists parts,
    text_split request = MRet (result_ok (pretty (json_strings parts))) /\
    text_join (object [("parts", json_strings parts); ("separator", VString delim)]) =
      MRet (result_ok text) /\
    text_replace (object [("text", VString text); ("search", VString delim);
      ("replace", VString delim)]) = MRet (result_ok text).
Proof.
  intros request. exists (from_bytes <$> split_text (as_bytes delim) (as_bytes text)).
  split; [|split].
  - unfold text_split, request. by read_fields.
  - unfold text_join, json_strings. read_fields. by rewrite omap_strings, as_bytes_pieces, join_split_text, from_as_bytes.
  - unfold text_replace. read_fields. unfold replace_text. by rewrite join_split_text, from_as_bytes.
Qed.

(** ** URL encoding *)

Lemma hex_upper_digit d : 0 <= d < 16 -> to_digit 16 (hex_upper d) = Some d.
Proof.
  intros Hd. assert (d ∈ [0;1;2;3;4;5;6;7;8;9;10;11;12;13;14;15]) as Hin.
  { rewrite !elem_of_cons. lia. }
  repeat (apply elem_of_cons in Hin as [->|Hin]; [reflexivity|]). by apply not_elem_of_nil in Hin.
Qed.

Lemma code_range c : 0 <= code c < 256.
Proof. unfold code. pose proof (N_ascii_bounded c). lia. Qed.

Lemma ascii_of_code c : ascii_of_N (Z.to_N (code c)) = c.
Proof. unfold code. rewrite N2Z.id. apply ascii_N_embedding. Qed.

(** A byte is read back from its escape. *)
Lemma url_escape_percent c :
  url_escape [hex_upper (code c / 16); hex_upper (code c mod 16)] = [c].
Proof.
  pose proof (code_range c) as Hc.
  assert (0 <= code c / 16 < 16) as Hd by (Z.div_mod_to_equations; lia).
  assert (0 <= code c mod 16 < 16) as Hm by (apply Z.mod_pos_bound; lia).
  unfold url_escape, from_str_radix.
  assert (eqc (hex_upper (code c / 16)) "+" = false) as ->.
  { apply bool_decide_eq_false. intros E. pose proof (hex_upper_digit _ Hd) as H. by rewrite E in H. }
  cbn [radix_loop result_bind]. unfold radix_step. rewrite !hex_upper_digit by done.
  rewrite Z.mul_0_l, Z.add_0_l. change (u128_max <? 0) with false. cbv iota.
  replace (u128_max <? code c / 16) with false by (unfold u128_max; lia). cbn [result_bind].
  replace (u128_max <? code c / 16 * 16) with false by (unfold u128_max; lia).
  replace (u128_max <? code c / 16 * 16 + code c mod 16) with false by (unfold u128_max; lia).
  cbn [result_bind radix_loop]. replace (code c / 16 * 16 + code c mod 16) with (code c); [by rewrite ascii_of_code|].
  pose proof (Z.div_mod (code c) 16). lia.
Qed.

Lemma utf8_chars_ascii l : forallb is_ascii l = true -> utf8_chars l = (fun c => [c]) <$> l.
Proof.
  induction l as [|a l IH]; [done|]. cbn [forallb]. intros [_ Hl]%andb_prop.
  cbn [utf8_chars fmap list_fmap]. rewrite (IH Hl). destruct l as [|b l]; [done|].
  cbn [fmap list_fmap]. apply andb_prop in Hl as [Hb _].
  replace (is_continuation b) with false; [done|]. unfold is_continuation, is_ascii, between in *. lia.
Qed.

Lemma hex_upper_ascii d : 0 <= d < 16 -> is_ascii (hex_upper d) = true.
Proof.
  intros Hd. unfold is_ascii, code, hex_upper. rewrite N_ascii_embedding.
  - rewrite Z2N.id; destruct (d <? 10) eqn:?; lia.
  - destruct (d <? 10) eqn:?; lia.
Qed.

Lemma unreserved_plain c : unreserved c = true -> is_ascii c = true /\ c <> "%"%char /\ c <> "+"%char.
Proof.
  destruct c as [[] [] [] [] [] [] [] []]; vm_compute; try done; by split.
Qed.

Lemma url_encode_ascii l : forallb is_ascii (url_encode l) = true.
Proof.
  induction l as [|c l IH]; [done|]. unfold url_encode in *. cbn [flat_map]. rewrite forallb_app, IH.
  apply andb_true_iff. split; [|done]. destruct (unreserved c) eqn:E.
  - apply unreserved_plain in E as [E _]. cbn. by rewrite E.
  - pose proof (code_range c). unfold percent. cbn [forallb].
    rewrite !hex_upper_ascii; [done|apply Z.mod_pos_bound; lia|Z.div_mod_to_equations; lia].
Qed.

Lemma url_decode_encode l : url_decode ((fun c => [c]) <$> url_encode l) = l.
Proof.
  induction l as [|c l IH]; [done|]. unfold url_encode in *. cbn [flat_map]. rewrite fmap_app.
  generalize dependent ((fun c => [c]) <$> flat_map (fun c => if unreserved c then [c] else percent c) l).
  intros rest IH. destruct (unreserved c) eqn:E.
  - apply unreserved_plain in E as (_ & Hp & Hs). cbn [fmap list_fmap app url_decode].
    rewrite !bool_decide_eq_false_2 by congruence. cbn [app]. by rewrite IH.
  - unfold percent. cbn [fmap list_fmap app url_decode]. rewrite bool_decide_eq_true_2 by done.
    change ([hex_upper (code c / 16)] ++ [hex_upper (code c mod 16)])
      with [hex_upper (code c / 16); hex_upper (code c mod 16)].
    rewrite url_escape_percent. cbn [app]. by rewrite IH.
Qed.

(** Encoded text can be decoded: for every text (well-formed UTF-8), what
    [szal_url_encode] and [szal_base64] answer to an [encode] request is decoded
    by a [decode] request to the same text. *)
Theorem encodings_roundtrip `{JN : JsonNumber} `{JL : !JsonLib} `{LW : !JsonLaws}
    `{MJ : !McpJson} `{B64 : Base64} `{BL : !Base64Laws} text :
  utf8_valid (as_bytes text) = true ->
  let request t op := object [("input", VString t); ("operation", VString op)] in
  forall tool, tool ∈ [url_tool; base64_tool] ->
  exists encoded,
    tool (request text "encode") = MRet (result_ok encoded) /\
    tool (request encoded "decode") = MRet (result_ok text).
Proof.
  intros Hv request tool Ht. repeat (apply elem_of_cons in Ht as [->|Ht]); [..|by apply not_elem_of_nil in Ht].
  - exists (from_bytes (url_encode (as_bytes text))). unfold url_tool, request. read_fields.
    split; [done|]. rewrite as_from_bytes, utf8_chars_ascii by apply url_encode_ascii.
    rewrite url_decode_encode, Hv, from_as_bytes. done.
  - exists (base64_encode (as_bytes text)). unfold base64_tool, request. read_fields.
    split; [done|]. cbn. by rewrite base64_decode_encode, Hv, from_as_bytes.
Qed.

(** ** Paths *)

(** A member of an object or an element of an array. *)
Inductive path_step : Type := Key (k : string) | Index (i : Z).

Definition no_dot (l : list ascii) : Prop := forallb (fun a => negb (eqc a ".")) l = true.

(** A key with no dot that is not a number, and an index that [usize] holds. *)
Definition plain_step (s : path_step) : Prop :=
  match s with
  | Key k => no_dot (as_bytes k) /\ parse_usize (as_bytes k) = None
  | Index i => 0 <= i <= usize_max
  end.

Definition show_step (s : path_step) : string :=
  match s with Key k => k | Index i => show_Z i end.

Section Paths.
Context `{JN : JsonNumber} `{JL : !JsonLib} `{LW : !JsonLaws} `{MJ : !McpJson}.

(** The value at a path. *)
Fixpoint locate (v : Value) (path : list path_step) : option Value :=
  match path with
  | [] => Some v
  | Key k :: path => w ← value_get v k; locate w path
  | Index i :: path => w ← value_nth v i; locate w path
  end.

Lemma parse_usize_show i : 0 <= i <= usize_max -> parse_usize (as_bytes (show_Z i)) = Some i.
Proof.
  intros Hi. assert (usize_max <= u128_max) by done. unfold parse_usize.
  rewrite show_Z_digits, from_str_radix_digits by lia. by replace (i <=? usize_max) with true by lia.
Qed.

Lemma show_step_no_dot s : plain_step s -> no_dot (as_bytes (show_step s)).
Proof.
  destruct s as [k|i]; cbn [plain_step show_step]; [by intros []|]. intros Hi. unfold no_dot.
  rewrite show_Z_digits by lia.
  pose proof (digits_of_digits (S (Z.to_nat (Z.log2 i))) i ltac:(lia)) as H. unfold digits.
  rewrite forallb_forall in H |- *. intros c Hc. apply H in Hc. apply negb_true_iff.
  apply bool_decide_eq_false. by intros ->.
Qed.

Lemma split_dots path : path <> [] -> Forall plain_step path ->
  split_bytes "." (as_bytes (String.concat "." (show_step <$> path))) =
  (fun s => as_bytes (show_step s)) <$> path.
Proof.
  intros Hne Hp. induction Hp as [|s path Hs Hp IH]; [done|]. cbn [fmap list_fmap].
  apply show_step_no_dot in Hs. destruct path as [|t path]; [by apply split_bytes_none|].
  change (String.concat "." (show_step s :: (show_step <$> t :: path)))
    with (show_step s +:+ "." +:+ String.concat "." (show_step <$> t :: path)).
  rewrite !as_bytes_app. change (as_bytes ".") with ["."%char]. cbn [app].
  rewrite split_bytes_app by done. by rewrite IH.
Qed.

Lemma follow_locate path : forall v, Forall plain_step path ->
  match follow_path v ((fun s => as_bytes (show_step s)) <$> path) with
  | Ok w => locate v path = Some w
  | Err _ => locate v path = None
  end.
Proof.
  induction path as [|s path IH]; intros v Hp; [done|]. apply Forall_cons in Hp as [Hs Hp].
  cbn [fmap list_fmap follow_path locate]. unfold get_segment.
  destruct s as [k|i]; cbn [show_step plain_step] in *.
  - destruct Hs as [_ ->]. rewrite from_as_bytes.
    destruct (value_get v k) as [w|]; cbn; [by apply IH|done].
  - rewrite parse_usize_show by done. destruct (value_nth v i) as [w|]; cbn; [by apply IH|done].
Qed.
End Paths.

(** A member whose name is a number cannot be reached. *)
Lemma numeric_key_unreachable `{JN : JsonNumber} `{JL : !JsonLib} o :
  follow_path (VObject o) [as_bytes "0"] = Err "index 0 not found at '0'".
Proof. reflexivity. Qed.

(** [szal_json_path] extracts the value at a path: for any path of array
    indices and of keys that hold no dot and are not numbers, the answer is the
    value that the members and elements named one after the other lead to, and
    a [not_found] error exactly when one of them does not exist. *)
Theorem json_path_extracts `{JN : JsonNumber} `{JL : !JsonLib} `{LW : !JsonLaws}
    `{MJ : !McpJson} text v path :
  json_from_str text = Ok v -> path <> [] -> Forall plain_step path ->
  let answer := json_path (object
    [("json", VString text); ("path", VString (String.concat "." (show_step <$> path)))]) in
  match locate v path with
  | Some w => answer = MRet (result_ok_json w)
  | None => exists e, answer = MRet (result_error_typed McpErrorCode.NotFound e)
  end.
Proof.
  intros Ht Hne Hp answer. unfold answer, json_path. read_fields. rewrite Ht, split_dots by done.
  pose proof (follow_locate path v Hp) as H.
  destruct (follow_path _ _); rewrite H; [done|by eexists].
Qed.

(** ** Witnesses *)

Module McpTextExamples.
Export McpModel.
Definition document : Value :=
  VObject [("items", VArray [Null; VObject [("name", VString "szal")]])].
Definition parses (s : string) : result Value JsonError := Ok document.
Definition json : McpJson := mcp_json parses.
Definition plain_base64 : Base64 := {|
  base64_encode := from_bytes; base64_decode s := Ok (as_bytes s) |}.
Definition plain_base64_laws : Base64Laws (B64 := plain_base64).
Proof. split. intros l. cbn. by rewrite as_from_bytes. Defined.
End McpTextExamples.

#[local] Existing Instances SerdeModel.serde_number SerdeModel.serde_lib SerdeModel.serde_laws
  McpTextExamples.json McpTextExamples.plain_base64 McpTextExamples.plain_base64_laws.

Lemma split_join_roundtrip_witness :
  exists parts,
    text_split (object [("text", VString "a, b"); ("delimiter", VString ", ")]) =
      MRet (result_ok (pretty (json_strings parts))) /\
    text_join (object [("parts", json_strings parts); ("separator", VString ", ")]) =
      MRet (result_ok "a, b").
Proof.
  destruct (split_join_roundtrip "a, b" ", ") as (parts & H1 & H2 & _). by exists parts.
Defined.

Lemma encodings_roundtrip_witness :
  exists encoded,
    url_tool (object [("input", VString "a b+c%"); ("operation", VString "encode")]) =
      MRet (result_ok encoded) /\
    url_tool (object [("input", VString encoded); ("operation", VString "decode")]) =
      MRet (result_ok "a b+c%").
Proof.
  apply (encodings_roundtrip "a b+c%" eq_refl). by left.
Defined.

Lemma json_path_extracts_witness :
  json_path (object [("json", VString "{}"); ("path", VString "items.1.name")]) =
    MRet (result_ok_json (VString "szal")).
Proof.
  assert (Forall plain_step [Key "items"; Index 1; Key "name"]) as Hp.
  { apply Forall_cons; split; [by split|]. apply Forall_cons; split; [cbn; unfold usize_max; lia|].
    apply Forall_singleton. by split. }
  exact (json_path_extracts "{}" McpTextExamples.document [Key "items"; Index 1; Key "name"] eq_refl
    ltac:(done) Hp).
Defined.
