(* ===== verification/McpPaths.v ===== *)
(** * The sandbox of the MCP tools

    [validate_path] of [rust-old/src/mcp/mod.rs], which confines the paths the
    tools are given to the working directory, and what it means that a tool
    keeps to it. *)

From Stdlib Require Import ZArith Lia Ascii.
From stdpp Require Import base tactics option list strings.
From S2P Require Import Prelude RustStr Json RustPath Mcp.

Open Scope Z_scope.

Definition join_path (base path : string) : string :=
  from_bytes (path_join (as_bytes base) (as_bytes path)).

(** [metadata] follows links; a path it fails on is taken for a new file, whose
    directory must exist. *)
Definition resolve (resolved : string) : mcp (result string string) :=
  let* meta := call_io (StatFile resolved) in
  match meta with
  | Ok _ =>
      let* canonical := call_io (Canonicalize resolved) in
      MRet match canonical with
           | Ok p => Ok p
           | Err e => Err ("failed to resolve path: " +:+ e)
           end
  | Err _ =>
      match parent (as_bytes resolved) with
      | None => MRet (Err "invalid path")
      | Some dir =>
          let* canonical_parent := call_io (Canonicalize (from_bytes dir)) in
          MRet match canonical_parent with
               | Ok p => Ok (join_path p (from_bytes (default [] (file_name (as_bytes resolved)))))
               | Err e => Err ("failed to resolve parent path: " +:+ e)
               end
      end
  end.

Definition validate_path (path : string) : mcp (result string string) :=
  let* cwd := call_io CurrentDir in
  match cwd with
  | Err e => MRet (Err ("failed to get cwd: " +:+ e))
  | Ok cwd =>
      let* cwd := call_io (Canonicalize cwd) in
      match cwd with
      | Err e => MRet (Err ("failed to resolve cwd: " +:+ e))
      | Ok cwd =>
          let resolved := if is_absolute (as_bytes path) then path else join_path cwd path in
          let* canonical := resolve resolved in
          match canonical with
          | Err e => MRet (Err e)
          | Ok canonical =>
              if negb (path_starts_with (as_bytes canonical) (as_bytes cwd)) then
                MRet (Err ("path '" +:+ path +:+ "' is outside working directory"))
              else MRet (Ok canonical)
          end
      end
  end.

(** ** What the tools may touch *)

(** A path below the working directory, as this run saw it. *)
Definition in_cwd (h : list event) (path : string) : Prop :=
  is_absolute (as_bytes path) = true /\
  exists dir cwd, Event CurrentDir (Ok dir) ∈ h /\ Event (Canonicalize dir) (Ok cwd) ∈ h /\
    inside (as_bytes cwd) (as_bytes path).

(** The files of the system that [szal_system_info] reads. *)
Definition system_files : list string := ["/etc/hostname"; "/proc/uptime"].

(** A name that is looked up in [PATH]. *)
Definition plain_command (command : string) : bool :=
  negb (contains (as_bytes "..") (as_bytes command)) && negb (contains ["/"%char] (as_bytes command)).

(** Contents, attributes and listings are those of paths in the working
    directory, and commands are found in [PATH].  Resolving a path and asking
    whether it exists are not restricted. *)
Definition permitted (h : list event) (a : io) : Prop :=
  match a with
  | ReadToString p => in_cwd h p \/ p ∈ system_files
  | ReadBytes p | StatSymlink p | OpenDir p => in_cwd h p
  | WriteFile p _ | AppendFile p _ => in_cwd h p
  | RunCommand command _ _ _ => plain_command command = true
  | _ => True
  end.

Definition sandboxed (h : list event) : Prop := forall a r, Event a r ∈ h -> permitted h a.

Class Confined `{JN : JsonNumber} (t : Tool) : Prop :=
  confined args h : sandboxed h -> mwp h (tool_call t args) (fun h' _ => sandboxed h').

Lemma in_cwd_grows h h' p : h `prefix_of` h' -> in_cwd h p -> in_cwd h' p.
Proof.
  intros [k ->] (Ha & d & c & Hd & Hc & Hi). split; [done|]. exists d, c.
  split_and!; [apply elem_of_app; by left..|done].
Qed.

Lemma permitted_grows h h' a : h `prefix_of` h' -> permitted h a -> permitted h' a.
Proof.
  intros Hp. destruct a; cbn; try done; try by apply in_cwd_grows.
  intros [H|H]; [left; by eapply in_cwd_grows|by right].
Qed.

Lemma sandboxed_nil : sandboxed [].
Proof. intros a r H. by apply not_elem_of_nil in H. Qed.

Lemma sandboxed_snoc h a r : sandboxed h -> permitted h a -> sandboxed (h ++ [Event a r]).
Proof.
  intros Hs Ha b s Hb. eapply permitted_grows; [by apply prefix_app_r|].
  apply elem_of_app in Hb as [Hb|Hb]; [by eapply Hs|].
  apply list_elem_of_singleton in Hb.
  assert (event_io (Event b s) = event_io (Event a r)) as [= ->] by (by rewrite Hb). done.
Qed.

Lemma canonical_join_empty base :
  canonical base = true -> canonical (path_join base []) = true.
Proof.
  intros Hb. unfold canonical. rewrite components_join by (done || by apply canonical_absolute).
  cbn. by rewrite app_nil_r.
Qed.

(** What resolution gives is canonical. *)
Lemma mwp_resolve h p : sandboxed h ->
  mwp h (resolve p) (fun h' o =>
    sandboxed h' /\ h `prefix_of` h' /\ exists r, o = Some r /\
      forall c, r = Ok c -> canonical (as_bytes c) = true).
Proof.
  intros Hs. unfold resolve, join_path. cbn [call_io mcp_bind mwp]. intros meta _.
  set (h1 := h ++ _).
  assert (Hs1 : sandboxed h1) by (by apply sandboxed_snoc).
  assert (Hp : h `prefix_of` h1) by (by apply prefix_app_r).
  destruct meta as [meta|e]; cbn [call_io mcp_bind mwp].
  - intros r Hr. split; [by apply sandboxed_snoc|]. split; [by apply prefix_app_r|].
    eexists; split; [done|]. destruct r; [|done]. by intros c [= <-].
  - destruct (parent (as_bytes p)) as [dir|]; cbn [mwp]; [|split_and!; [done..|by eexists]].
    intros r Hr. split; [by apply sandboxed_snoc|]. split; [by apply prefix_app_r|].
    eexists; split; [done|]. destruct r as [d|]; [|done]. intros c [= <-].
    rewrite !as_from_bytes. destruct (file_name _) as [n|] eqn:Hn; cbn.
    + apply canonical_join; [done|by eapply file_name_ok].
    + by apply canonical_join_empty.
Qed.

(** A path that is accepted is in the working directory. *)
Lemma mwp_validate_path h p : sandboxed h ->
  mwp h (validate_path p) (fun h' o =>
    sandboxed h' /\ h `prefix_of` h' /\ exists r, o = Some r /\
      forall c, r = Ok c -> in_cwd h' c).
Proof.
  intros Hs. unfold validate_path. cbn [call_io mcp_bind mwp]. intros dir _.
  set (h1 := h ++ _).
  assert (Hs1 : sandboxed h1) by (by apply sandboxed_snoc).
  assert (Hp1 : h `prefix_of` h1) by (by apply prefix_app_r).
  destruct dir as [dir|e]; cbn [mcp_bind mwp]; [|split_and!; [done..|by eexists]].
  intros cwd Hcwd. set (h2 := h1 ++ _).
  assert (Hs2 : sandboxed h2) by (by apply sandboxed_snoc).
  assert (Hp2 : h1 `prefix_of` h2) by (by apply prefix_app_r).
  destruct cwd as [cwd|e]; cbn [mcp_bind mwp]; [|split_and!; [done|by etrans|by eexists]].
  apply mwp_bind. eapply mwp_mono; [|by apply mwp_resolve].
  cbn beta. intros h3 o (Hs3 & Hp3 & r & -> & Hr). cbn in Hcwd.
  assert (Hp : h `prefix_of` h3) by (etrans; [|exact Hp3]; by etrans).
  destruct r as [c|e]; cbn [mwp]; [|split_and!; [done..|by eexists]].
  destruct (path_starts_with _ _) eqn:Hpre; cbn [negb mwp]; [|split_and!; [done..|by eexists]].
  split; [done|]. split; [done|]. eexists; split; [done|]. intros c' [= <-].
  specialize (Hr c eq_refl). split; [by apply canonical_absolute|].
  exists dir, cwd. split; [|split].
  - destruct Hp3 as [k ->]. unfold h2, h1. rewrite !elem_of_app, !list_elem_of_singleton. auto.
  - destruct Hp3 as [k ->]. unfold h2. rewrite !elem_of_app, !list_elem_of_singleton. auto.
  - by apply canonical_inside.
Qed.

Lemma in_cwd_join h path name :
  in_cwd h path -> entry_ok (as_bytes name) = true -> in_cwd h (join_path path name).
Proof.
  intros (Ha & d & c & Hd & Hc & Hi) He. unfold in_cwd, join_path. rewrite as_from_bytes.
  split.
  - apply is_absolute_inv in Ha as [body ->]. unfold path_join.
    unfold entry_ok in He. destruct (is_absolute (as_bytes name)); [done|]. by destruct (_ || _).
  - exists d, c. split_and!; [done..|]. by apply inside_join.
Qed.

(** Whatever it answers, [validate_path] answers. *)
Lemma mwp_validate_any (Q : list event -> option (result string string) -> Prop) h p :
  (forall h' r, Q h' (Some r)) -> mwp h (validate_path p) Q.
Proof.
  intros HQ. unfold validate_path, resolve, join_path. cbn [call_io mcp_bind mwp].
  intros [d|e] _; cbn [call_io mcp_bind mwp]; [|done]. intros [c|e] _; cbn [call_io mcp_bind mwp]; [|done].
  intros [m|e] _; cbn [call_io mcp_bind mwp].
  - intros [q|e] _; cbn [mcp_bind mwp]; [|done]. by destruct (negb _); cbn.
  - destruct (parent _); cbn [call_io mcp_bind mwp]; [|done].
    intros [q|e'] _; cbn [mcp_bind mwp]; [|done]. by destruct (negb _); cbn.
Qed.

Ltac tool_step ::=
  match goal with
  | |- mwp _ (match ?c with _ => _ end) _ => destruct c
  | |- mwp _ (mcp_bind (call_io _) _) _ => cbn [call_io mcp_bind mwp]; intros ? _
  | |- mwp _ (mcp_bind _ _) _ => apply mwp_bind
  | |- mwp _ (validate_path _) _ => apply mwp_validate_any; intros ? ?
  | |- mwp _ (MIo _ _) _ => cbn [mwp]; intros ? _
  | |- mwp _ (call_io _) _ => cbn [mwp call_io]; intros ? _
  | |- mwp _ (MRet _) _ => cbn [mwp]
  end.

(** Proofs that a tool keeps to the sandbox: one rule per call, the premises
    being that the call is permitted. *)
Lemma mwp_io_sandboxed {A} h a (k : io_res a -> mcp A) :
  permitted h a -> sandboxed h ->
  (forall h' r, h `prefix_of` h' -> sandboxed h' -> mwp h' (k r) (fun h' _ => sandboxed h')) ->
  mwp h (mcp_bind (call_io a) k) (fun h' _ => sandboxed h').
Proof.
  intros Ha Hs Hk. cbn. intros r _. apply Hk; [by apply prefix_app_r|by apply sandboxed_snoc].
Qed.

Lemma mwp_validated_sandboxed {A} h p (k : result string string -> mcp A) :
  sandboxed h ->
  (forall h' r, h `prefix_of` h' -> sandboxed h' -> (forall c, r = Ok c -> in_cwd h' c) ->
   mwp h' (k r) (fun h' _ => sandboxed h')) ->
  mwp h (mcp_bind (validate_path p) k) (fun h' _ => sandboxed h').
Proof.
  intros Hs Hk. apply mwp_bind. eapply mwp_mono; [|by apply mwp_validate_path].
  intros h' o (Hs' & Hp & r & -> & Hr). by apply Hk.
Qed.

Ltac confine_step :=
  match goal with
  | |- mwp _ (match ?c with _ => _ end) _ => destruct c
  | |- mwp _ (mcp_bind (match ?c with _ => _ end) _) _ => destruct c
  | |- mwp _ (mcp_bind (validate_path _) _) _ =>
      apply mwp_validated_sandboxed; [assumption|intros ? [?|?] ? ? ?; cbn beta iota]
  | |- mwp _ (mcp_bind (call_io ?a) ?k) _ =>
      apply (mwp_io_sandboxed _ a k); [cbn [permitted]; try solve [done|eauto|left; eauto]|assumption|intros ? ? ? ?]
  | |- mwp _ (MRet _) _ => cbn [mwp]
  | |- mwp _ MPanic _ => cbn [mwp]
  end.
Ltac confines :=
  intros ? ? ?; unfold_tool; repeat confine_step; try assumption; try done.

(** Validating a path asks for the working directory, resolves paths and looks
    whether there is something at the end of them. *)
Definition probe (a : io) : bool :=
  match a with CurrentDir | Canonicalize _ | StatFile _ => true | _ => false end.

Lemma mwp_validate_probes (P : io -> Prop) h p :
  (forall a, probe a = true -> P a) -> (forall a r, Event a r ∈ h -> P a) ->
  mwp h (validate_path p) (fun h' _ => forall a r, Event a r ∈ h' -> P a).
Proof.
  intros HP Hh.
  assert (Hsnoc : forall h a r, probe a = true -> (forall a r, Event a r ∈ h -> P a) ->
    forall b s, Event b s ∈ h ++ [Event a r] -> P b).
  { intros h0 a r Ha H b s [Hb|Hb]%elem_of_app; [by eapply H|].
    apply list_elem_of_singleton in Hb.
    assert (event_io (Event b s) = event_io (Event a r)) as [= ->] by (by rewrite Hb). auto. }
  unfold validate_path, resolve, join_path. cbn [call_io mcp_bind mwp].
  repeat match goal with
    | |- forall r, io_legal _ r -> _ => intros r _
    | |- mwp _ (mcp_bind (match ?c with _ => _ end) _) _ => destruct c; cbn [call_io mcp_bind mwp]
    | |- mwp _ (match ?c with _ => _ end) _ => destruct c; cbn [call_io mcp_bind mwp]
    end; repeat (exact Hh || (apply Hsnoc; [reflexivity|])).
Qed.
