(* ===== verification/McpFiles.v ===== *)
(** * The file tools of the MCP server

    [file_tools.rs], [hash_tools.rs] and the word counter of [template_tools.rs],
    in [rust-old/src/mcp/tools]: the tools that read and write files, inside the
    sandbox of [McpPaths].  The digests are those of the crates [sha2] and
    [md5]. *)

From Stdlib Require Import ZArith Lia Ascii.
From stdpp Require Import base tactics option list strings gmap.
From S2P Require Import Prelude RustStr Json RustPath Step Bus Prog Mcp McpConvert McpText McpPaths.

Open Scope Z_scope.

(** [match validate_path(p).await { Ok(p) => p, Err(e) => return ... }] *)
Notation "'validated' x ':=' p 'in' k" :=
  (mcp_bind (validate_path p) (fun r => match r with
    | Ok x => k
    | Err e => MRet (result_error_typed McpErrorCode.PermissionDenied e)
    end))
  (at level 10, x name, p at level 100, k at level 200,
   format "'validated'  x  ':='  p  'in' '//' k") : szal_scope.

(** [f(path)?] turned into a response *)
Definition io_error `{JN : JsonNumber} `{JL : !JsonLib} (text : string) : Value :=
  result_error_typed McpErrorCode.IoError text.

(** ** Slices *)

(** [str::is_char_boundary] *)
Definition is_char_boundary (l : list ascii) (i : nat) : bool :=
  match l !! i with
  | Some b => bool_decide (i = 0%nat) || negb (is_continuation b)
  | None => bool_decide (i = length l)
  end.

(** [&s[..i]] *)
Definition slice_to (l : list ascii) (i : nat) : option (list ascii) :=
  if is_char_boundary l i then Some (take i l) else None.

(** [s.char_indices()] *)
Fixpoint char_indices_from (i : nat) (cs : list (list ascii)) : list (nat * list ascii) :=
  match cs with
  | [] => []
  | c :: cs => (i, c) :: char_indices_from (i + length c) cs
  end.
Definition char_indices (l : list ascii) : list (nat * list ascii) :=
  char_indices_from 0 (utf8_chars l).

Definition end_of_last (l : list ascii) : nat :=
  match last (char_indices l) with Some (i, c) => (i + length c)%nat | None => 0%nat end.

(** ** The tools *)

Section FileTools.
Context `{JN : JsonNumber} `{JL : !JsonLib} `{MJ : !McpJson} `{CL : ChronoLib}.

Definition DEFAULT_MAX_READ_BYTES : Z := 1048576.
Definition MAX_DIR_ENTRIES : Z := 10000.
Definition DEFAULT_DIR_ENTRIES : Z := 500.
Definition MAX_DIR_DEPTH : nat := 20.

Definition truncate_to (content : string) (max_bytes : Z) : option string :=
  let l := as_bytes content in
  head ← slice_to l (Z.to_nat max_bytes);
  from_bytes <$> slice_to l (end_of_last head).

Definition file_read (args : Value) : mcp Value :=
  require path := get_str args "path" else missing "path" in
  validated path := path in
  let max_bytes := default DEFAULT_MAX_READ_BYTES (get_u64 args "max_bytes") in
  let* r := call_io (ReadToString path) in
  match r with
  | Ok content =>
      if max_bytes <? Z.of_nat (String.length content) then
        match truncate_to content max_bytes with
        | Some text => MRet (result_ok text)
        | None => MPanic
        end
      else MRet (result_ok content)
  | Err e => MRet (io_error ("failed to read " +:+ path +:+ ": " +:+ e))
  end.

Definition FileRead : Tool := {|
  definition := tool_def "szal_file_read" "Read a file's contents as text"
    (object
      [("path", prop "string" "File path to read");
       ("max_bytes", prop "integer" "Max bytes to read (default: 1MB)")]) ["path"];
  tool_call := file_read
|}.

Definition file_write (args : Value) : mcp Value :=
  require path := get_str args "path" else missing "path" in
  validated path := path in
  require content := get_str args "content" else missing "content" in
  let append := default false (get_bool args "append") in
  let* r := if append then call_io (AppendFile path content) else call_io (WriteFile path content) in
  match r with
  | Ok _ => MRet (result_ok ("wrote " +:+ show_Z (Z.of_nat (String.length content)) +:+
                             " bytes to " +:+ path))
  | Err e => MRet (io_error ("failed to write " +:+ path +:+ ": " +:+ e))
  end.

Definition FileWrite : Tool := {|
  definition := tool_def "szal_file_write" "Write text content to a file (creates or overwrites)"
    (object
      [("path", prop "string" "File path to write");
       ("content", prop "string" "Content to write");
       ("append", prop "boolean" "Append instead of overwrite (default: false)")])
    ["path"; "content"];
  tool_call := file_write
|}.

(** *** Listing *)

Definition kind_name (k : file_kind) : string :=
  match k with Directory => "directory" | Symlink => "symlink" | _ => "file" end.

(** The entry as it is reported; the size of a file whose attributes can be read. *)
Definition entry_info (path : string) (entry : DirEntry) (ft : file_kind) : Value :=
  let info := json_object
    [("name", VString (entry_name entry));
     ("path", VString (join_path path (entry_name entry)));
     ("type", VString (kind_name ft))] in
  VObject match ft, entry_metadata entry with
          | RegularFile, Ok meta => map_insert "size" (json_u64 (meta_len meta)) info
          | _, _ => info
          end.

Section Entries.
(** The directory that is open, and [collect_dir] for the ones in it. *)
Context (path : string) (recursive : bool) (max : nat)
  (collect_sub : string -> list Value -> mcp (list Value * result unit string)) (dir : nat).

(** The [while] over the entries: every turn but the last adds one to
    [entries], which hold [max] at most. *)
Fixpoint list_entries (fuel : nat) (entries : list Value) : mcp (list Value * result unit string) :=
  match fuel with
  | O => MPanic
  | S fuel =>
      let* next := call_io (NextEntry dir) in
      match next with
      | Err e => MRet (entries, Err e)
      | Ok None => MRet (entries, Ok tt)
      | Ok (Some entry) =>
          if (max <=? length entries)%nat then MRet (entries, Ok tt)
          else
            match entry_kind entry with
            | Err e => MRet (entries, Err e)
            | Ok ft =>
                let entries := entries ++ [entry_info path entry ft] in
                if recursive && bool_decide (ft = Directory) && (length entries <? max)%nat then
                  let* r := collect_sub (join_path path (entry_name entry)) entries in
                  list_entries fuel r.1
                else list_entries fuel entries
            end
      end
  end.
End Entries.

(** [levels] is what is left of [MAX_DIR_DEPTH + 1 - depth].  An error leaves
    the entries collected before; in a subdirectory it is passed over. *)
Fixpoint collect_dir (levels : nat) (recursive : bool) (max : nat) (path : string)
    (entries : list Value) : mcp (list Value * result unit string) :=
  match levels with
  | O => MRet (entries, Ok tt)
  | S levels =>
      let* opened := call_io (OpenDir path) in
      match opened with
      | Err e => MRet (entries, Err e)
      | Ok dir => list_entries path recursive max (collect_dir levels true max) dir
                    (S (max - length entries)) entries
      end
  end.

Definition dir_limit (args : Value) : nat :=
  Z.to_nat (Z.min (default DEFAULT_DIR_ENTRIES (get_u64 args "max_entries")) MAX_DIR_ENTRIES).

Definition dir_list (args : Value) : mcp Value :=
  let path := default "." (get_str args "path") in
  validated path := path in
  let recursive := default false (get_bool args "recursive") in
  let* r := collect_dir (S MAX_DIR_DEPTH) recursive (dir_limit args) path [] in
  match r.2 with
  | Err e => MRet (io_error ("failed to list " +:+ path +:+ ": " +:+ e))
  | Ok _ => MRet (result_ok_json (VArray r.1))
  end.

Definition DirList : Tool := {|
  definition := tool_def "szal_dir_list" "List files and directories in a path"
    (object
      [("path", prop "string" "Directory path (default: current dir)");
       ("recursive", prop "boolean" "Recurse into subdirectories (default: false)");
       ("max_entries", prop "integer" "Max entries to return (default: 500)")]) [];
  tool_call := dir_list
|}.

(** *** Attributes *)

Definition file_stat (args : Value) : mcp Value :=
  require path := get_str args "path" else missing "path" in
  validated path := path in
  let* r := call_io (StatSymlink path) in
  match r with
  | Ok meta => MRet (result_ok_json (object
      [("path", VString path);
       ("type", VString (kind_name (meta_kind meta)));
       ("size", json_u64 (meta_len meta));
       ("readonly", VBool (meta_readonly meta));
       ("modified", json_opt_string (rfc3339 <$> meta_modified meta))]))
  | Err e => MRet (io_error ("failed to stat " +:+ path +:+ ": " +:+ e))
  end.

Definition FileStat : Tool := {|
  definition := tool_def "szal_file_stat"
    "Get metadata for a file or directory (size, permissions, timestamps)"
    (object [("path", prop "string" "File or directory path")]) ["path"];
  tool_call := file_stat
|}.

Definition path_exists (args : Value) : mcp Value :=
  require path := get_str args "path" else missing "path" in
  validated file := path in
  let* r := call_io (StatFile file) in
  let '(exists_, is_file, is_dir) := match r with
    | Ok meta => (true, bool_decide (meta_kind meta = RegularFile),
                  bool_decide (meta_kind meta = Directory))
    | Err _ => (false, false, false)
    end in
  MRet (result_ok_json (object
    [("path", VString file); ("exists", VBool exists_);
     ("is_file", VBool is_file); ("is_dir", VBool is_dir)])).

Definition PathExists : Tool := {|
  definition := tool_def "szal_path_exists" "Check if a file or directory exists"
    (object [("path", prop_type "string")]) ["path"];
  tool_call := path_exists
|}.

(** *** Counting *)

(** [text.lines().count()] and the other counts *)
Definition word_count_of (text : string) : Value :=
  let l := as_bytes text in
  object
    [("lines", json_nat (length (lines l)));
     ("words", json_nat (length (split_whitespace l)));
     ("chars", json_nat (length (utf8_chars l)));
     ("bytes", json_nat (String.length text))].

Definition word_count (args : Value) : mcp Value :=
  match get_str args "text" with
  | Some text => MRet (result_ok_json (word_count_of text))
  | None =>
      require path := get_str args "file" else invalid "provide either 'text' or 'file'" in
      validated file := path in
      let* r := call_io (ReadToString file) in
      match r with
      | Ok text => MRet (result_ok_json (word_count_of text))
      | Err e => MRet (io_error ("failed to read " +:+ file +:+ ": " +:+ e))
      end
  end.

Definition WordCount : Tool := {|
  definition := tool_def "szal_wc" "Count lines, words, and characters in text"
    (object
      [("text", prop "string" "Text to count (mutually exclusive with file)");
       ("file", prop "string" "File path to count (mutually exclusive with text)")]) [];
  tool_call := word_count
|}.
End FileTools.

(** ** Hash tools *)

Class Digests := {
  sha256_digest : list ascii -> list ascii;
  md5_digest : list ascii -> list ascii
}.

Section HashTools.
Context `{JN : JsonNumber} `{JL : !JsonLib} `{MJ : !McpJson} `{DG : Digests}.

(** [write!(hex, "{b:02x}")] for every byte *)
Definition hex (bytes : list ascii) : string :=
  from_bytes (flat_map (fun b => [to_char (code b / 16); to_char (code b mod 16)]) bytes).

Definition hash_answer (algorithm : string) (digest : list ascii -> list ascii)
    (data : list ascii) : Value :=
  result_ok_json (object
    [("algorithm", VString algorithm); ("hash", VString (hex (digest data)));
     ("input_bytes", json_nat (length data))]).

Definition sha256 (args : Value) : mcp Value :=
  match get_str args "input" with
  | Some input => MRet (hash_answer "sha256" sha256_digest (as_bytes input))
  | None =>
      require path := get_str args "file" else invalid "provide either 'input' or 'file'" in
      validated file := path in
      let* r := call_io (ReadBytes file) in
      match r with
      | Ok data => MRet (hash_answer "sha256" sha256_digest data)
      | Err e => MRet (io_error ("failed to read " +:+ file +:+ ": " +:+ e))
      end
  end.

Definition Sha256 : Tool := {|
  definition := tool_def "szal_sha256" "Compute SHA-256 hash of a string or file contents"
    (object
      [("input", prop "string" "String to hash (mutually exclusive with file)");
       ("file", prop "string" "File path to hash (mutually exclusive with input)")]) [];
  tool_call := sha256
|}.

Definition md5 (args : Value) : mcp Value :=
  require input := get_str args "input" else missing "input" in
  MRet (hash_answer "md5" md5_digest (as_bytes input)).

Definition Md5 : Tool := {|
  definition := tool_def "szal_md5" "Compute MD5 hash of a string (for checksums, not security)"
    (object [("input", prop "string" "String to hash")]) ["input"];
  tool_call := md5
|}.

Definition random_token (args : Value) : mcp Value :=
  let bytes := Z.min (default 32 (get_u64 args "bytes")) 256 in
  let* f := call_io OpenRandom in
  match f with
  | Err e => MRet (io_error ("failed to open /dev/urandom: " +:+ e))
  | Ok _ =>
      let* r := call_io (RandomBytes (Z.to_nat bytes)) in
      match r with
      | Err e => MRet (io_error ("failed to read random bytes: " +:+ e))
      | Ok buf => MRet (result_ok (hex buf))
      end
  end.

Definition RandomToken : Tool := {|
  definition := tool_def "szal_random_token" "Generate a cryptographically random hex token"
    (object [("bytes", prop "integer"
       "Number of random bytes (default: 32, output is 2x hex chars)")]) [];
  tool_call := random_token
|}.
End HashTools.

(** ** Promises *)

Lemma response_io_error `{LW : JsonLaws} text : response (io_error text).
Proof. apply response_typed. Qed.
Lemma refusal_io_error `{LW : JsonLaws} text : refusal (io_error text).
Proof. apply refusal_typed. Qed.
#[export] Hint Resolve response_io_error refusal_io_error : szal.

Lemma response_hash `{LW : JsonLaws} `{MJ : !McpJson} algorithm digest data :
  response (hash_answer algorithm digest data).
Proof. apply response_ok_json. Qed.
#[export] Hint Resolve response_hash : szal.

Section Listing.
Context `{JN : JsonNumber} `{JL : !JsonLib} `{MJ : !McpJson}.
Context (max : nat).

(** What a listing of [path] does: it adds entries, [max] in all at most, does
    not panic, and stays in the sandbox. *)
Definition listed (h : list event) (path : string) (entries : list Value)
    (h' : list event) (o : option (list Value * result unit string)) : Prop :=
  h `prefix_of` h' /\ (in_cwd h path -> sandboxed h -> sandboxed h') /\
  exists es r, o = Some (es, r) /\ entries `prefix_of` es /\ (length es <= max)%nat.

Lemma listed_stop h path entries r :
  (length entries <= max)%nat -> listed h path entries h (Some (entries, r)).
Proof. intros Hl. split_and!; [done..|]. by eexists _, _. Qed.

Lemma listed_later h h1 path entries es h' o :
  h `prefix_of` h1 -> (in_cwd h path -> sandboxed h -> sandboxed h1) -> entries `prefix_of` es ->
  listed h1 path es h' o -> listed h path entries h' o.
Proof.
  intros Hp Hs He (Hp' & Hs' & es' & r & -> & He' & Hl). split_and!.
  - by etrans.
  - intros Hc H. apply Hs'; [by eapply in_cwd_grows|by apply Hs].
  - exists es', r. split_and!; [done|by etrans|done].
Qed.

Lemma mwp_list_entries path recursive sub dir
    (Hsub : forall h p es, (length es <= max)%nat -> mwp h (sub p es) (listed h p es)) fuel :
  forall h entries, (length entries <= max < fuel + length entries)%nat ->
  mwp h (list_entries path recursive max sub dir fuel entries) (listed h path entries).
Proof.
  induction fuel as [|fuel IH]; intros h entries Hl; [lia|].
  cbn [list_entries call_io mcp_bind mwp]. intros next Hnext. set (h1 := h ++ _).
  assert (Hp1 : h `prefix_of` h1) by (by apply prefix_app_r).
  assert (Hs1 : in_cwd h path -> sandboxed h -> sandboxed h1) by (intros _ Hs; by apply sandboxed_snoc).
  assert (Hstop : forall r, listed h path entries h1 (Some (entries, r)))
    by (intros r; eapply listed_later; [exact Hp1|exact Hs1|done|]; apply listed_stop; lia).
  destruct next as [[entry|]|e]; [|apply Hstop..].
  destruct (max <=? length entries)%nat eqn:Hmax; [apply Hstop|]. apply Nat.leb_gt in Hmax.
  destruct (entry_kind entry) as [ft|e]; [|apply Hstop].
  set (es := entries ++ [entry_info path entry ft]).
  assert (Hes : length es = S (length entries)) by (unfold es; rewrite length_app; cbn; lia).
  assert (He : entries `prefix_of` es) by (by apply prefix_app_r).
  cbv zeta. destruct (_ && _) eqn:Hsubdir.
  - apply mwp_bind. eapply mwp_mono; [|apply Hsub; lia].
    intros h2 o (Hp2 & Hs2 & es2 & r & -> & He2 & Hl2).
    eapply mwp_mono; [|apply IH].
    + intros h3 o. apply listed_later; [by etrans| |by etrans].
      intros Hc Hs. apply Hs2; [|by apply Hs1]. apply in_cwd_join; [by eapply in_cwd_grows|done].
    + cbn. apply prefix_length in He2. lia.
  - eapply mwp_mono; [|apply IH; lia]. intros h3 o. by apply listed_later.
Qed.

Lemma mwp_collect_dir levels : forall h recursive path entries, (length entries <= max)%nat ->
  mwp h (collect_dir levels recursive max path entries) (listed h path entries).
Proof.
  induction levels as [|levels IH]; intros h recursive path entries Hl; [by apply listed_stop|].
  cbn [collect_dir call_io mcp_bind mwp]. intros opened _.
  set (h1 := h ++ _).
  assert (Hp1 : h `prefix_of` h1) by (by apply prefix_app_r).
  assert (Hs1 : in_cwd h path -> sandboxed h -> sandboxed h1)
    by (intros Hc Hs; by apply sandboxed_snoc).
  destruct opened as [dir|e].
  - eapply mwp_mono; [|apply mwp_list_entries; [intros; by apply IH|lia]].
    intros h2 o. by apply listed_later.
  - eapply listed_later; [exact Hp1|exact Hs1|done|]. by apply listed_stop.
Qed.

Lemma mwp_collect_any (Q : list event -> option (list Value * result unit string) -> Prop)
    h levels recursive path entries :
  (length entries <= max)%nat -> (forall h' r, Q h' (Some r)) ->
  mwp h (collect_dir levels recursive max path entries) Q.
Proof.
  intros Hl HQ. eapply mwp_mono; [|by apply mwp_collect_dir].
  intros h' o (_ & _ & es & r & -> & _). apply HQ.
Qed.
End Listing.

Lemma dir_limit_le `{JN : JsonNumber} `{JL : !JsonLib} `{MJ : !McpJson} args :
  (length (@nil Value) <= dir_limit args)%nat.
Proof. cbn. lia. Qed.

Section Promises.
Context `{JN : JsonNumber} `{JL : !JsonLib} `{LW : !JsonLaws} `{MJ : !McpJson}
  `{CL : ChronoLib} `{DG : Digests}.

#[export] Instance FileRead_laws : ToolLaws FileRead.
Proof. tool_laws. Qed.
#[export] Instance FileWrite_laws : ToolLaws FileWrite.
Proof. tool_laws. Qed.
#[export] Instance FileStat_laws : ToolLaws FileStat.
Proof. tool_laws. Qed.
#[export] Instance PathExists_laws : ToolLaws PathExists.
Proof. tool_laws. Qed.
#[export] Instance WordCount_laws : ToolLaws WordCount.
Proof. tool_laws. Qed.
#[export] Instance Sha256_laws : ToolLaws Sha256.
Proof. tool_laws. Qed.
#[export] Instance Md5_laws : ToolLaws Md5.
Proof. tool_laws. Qed.
#[export] Instance RandomToken_laws : ToolLaws RandomToken.
Proof. tool_laws. Qed.

(** The answer of the listing, and that it is in the sandbox. *)
Lemma mwp_dir_list args h : mwp h (dir_list args) (fun _ o => exists v, o = Some v /\
  (refusal v \/ exists es, v = result_ok_json (VArray es) /\ (length es <= dir_limit args)%nat)).
Proof.
  unfold dir_list. cbv zeta. apply mwp_bind, mwp_validate_any. intros h' [path|e]; cbn [mwp].
  - apply mwp_bind. eapply mwp_mono; [|apply mwp_collect_dir, dir_limit_le].
    intros h2 o (_ & _ & es & [[]|e] & -> & _ & Hl); cbn; eexists; (split; [done|]).
    + right. by exists es.
    + left. apply refusal_io_error.
  - eexists. split; [done|]. left. apply refusal_typed.
Qed.

#[export] Instance DirList_laws : ToolLaws DirList.
Proof.
  split; [declares| |refuses].
  intros args h. eapply mwp_mono; [|apply mwp_dir_list].
  intros h' o (w & -> & Hw) v [= <-]. destruct Hw as [Hw|(es & -> & _)]; [by left|].
  apply response_ok_json.
Qed.

#[export] Instance DirList_confined : Confined DirList.
Proof.
  intros args h Hs. unfold tool_call, DirList, dir_list. cbv zeta.
  apply mwp_validated_sandboxed; [done|]. intros h1 [path|e] _ Hs1 Hc; [|done].
  apply mwp_bind. eapply mwp_mono; [|apply mwp_collect_dir, dir_limit_le].
  intros h2 o (_ & Hs2 & es & r & -> & _). cbn. assert (sandboxed h2) by (apply Hs2; auto).
  by destruct r.
Qed.

#[export] Instance FileRead_confined : Confined FileRead.
Proof. confines. Qed.
#[export] Instance FileWrite_confined : Confined FileWrite.
Proof. confines. Qed.
#[export] Instance FileStat_confined : Confined FileStat.
Proof. confines. Qed.
#[export] Instance PathExists_confined : Confined PathExists.
Proof. confines. Qed.
#[export] Instance WordCount_confined : Confined WordCount.
Proof. confines. Qed.
#[export] Instance Sha256_confined : Confined Sha256.
Proof. confines. Qed.
#[export] Instance Md5_confined : Confined Md5.
Proof. confines. Qed.
#[export] Instance RandomToken_confined : Confined RandomToken.
Proof. confines. Qed.
End Promises.

(** ** Reading *)

Lemma last_char_index cs : forall i, cs <> [] -> Forall (fun c => c <> []) cs ->
  exists j c, last (char_indices_from i cs) = Some (j, c) /\
    (j + length c = i + length (concat cs))%nat.
Proof.
  induction cs as [|c cs IH]; intros i Hne Hall; [done|].
  apply Forall_cons in Hall as [Hc Hall]. destruct cs as [|d cs].
  - exists i, c. cbn. rewrite app_nil_r. done.
  - destruct (IH (i + length c)%nat) as (j & e & Hl & He); [done..|].
    exists j, e. split; [done|]. rewrite He. cbn. rewrite !length_app. lia.
Qed.

Lemma utf8_chars_not_empty l : Forall (fun c => c <> []) (utf8_chars l).
Proof.
  induction l as [|a l IH]; cbn; [done|].
  destruct (utf8_chars l) as [|[|b c] cs]; [by constructor|by constructor|].
  destruct (is_continuation b); constructor; done || by apply Forall_cons in IH as [_ ?].
Qed.

Lemma end_of_last_length l : end_of_last l = length l.
Proof.
  unfold end_of_last, char_indices. destruct (decide (utf8_chars l = [])) as [H|H].
  - rewrite H. cbn. by rewrite <- (concat_utf8_chars l), H.
  - destruct (last_char_index _ 0 H (utf8_chars_not_empty l)) as (j & c & -> & ->).
    by rewrite concat_utf8_chars.
Qed.

(** The end is recomputed from the characters, and is the limit itself. *)
Lemma truncate_to_spec content m :
  0 <= m < Z.of_nat (String.length content) ->
  truncate_to content m =
    if is_char_boundary (as_bytes content) (Z.to_nat m)
    then Some (from_bytes (take (Z.to_nat m) (as_bytes content))) else None.
Proof.
  intros Hm. unfold truncate_to, slice_to.
  destruct (is_char_boundary _ _) eqn:Hb; [|done]. cbn.
  rewrite end_of_last_length, length_take, Nat.min_l, Hb; [done|].
  assert (length (as_bytes content) = String.length content) as ->; [|lia].
  unfold as_bytes. clear. induction content as [|a s IH]; cbn; congruence.
Qed.


(** [szal_dir_list] always answers, and with at most as many entries as were
    asked for, which is at most ten thousand. *)
Theorem dir_list_bounded `{JN : JsonNumber} `{JL : !JsonLib} `{LW : !JsonLaws}
    `{MJ : !McpJson} args h :
  mwp h (dir_list args) (fun _ o => exists v, o = Some v /\
    (refusal v \/ exists es, v = result_ok_json (VArray es) /\
      (length es <= dir_limit args)%nat /\ Z.of_nat (length es) <= MAX_DIR_ENTRIES)).
Proof.
  eapply mwp_mono; [|apply mwp_dir_list]. intros h' o (v & -> & Hv). exists v. split; [done|].
  destruct Hv as [Hv|(es & -> & Hl)]; [by left|]. right. exists es. split_and!; [done..|].
  unfold dir_limit in Hl. assert (0 <= MAX_DIR_ENTRIES) by done. lia.
Qed.

(** *** Digests are written in hexadecimal *)

Fixpoint unhex (l : list ascii) : option (list ascii) :=
  match l with
  | [] => Some []
  | [_] => None
  | a :: b :: l =>
      x ← to_digit 16 a; y ← to_digit 16 b; r ← unhex l;
      Some (ascii_of_N (Z.to_N (16 * x + y)) :: r)
  end.

Lemma unhex_hex l : unhex (as_bytes (hex l)) = Some l.
Proof.
  unfold hex. rewrite as_from_bytes. induction l as [|c l IH]; [done|]. cbn [flat_map app].
  pose proof (code_range c). cbn [unhex].
  assert (0 <= code c / 16 < 16) by (split; [by apply Z.div_pos; lia|apply Z.div_lt_upper_bound; lia]).
  assert (0 <= code c mod 16 < 16) by (by apply Z.mod_pos_bound).
  rewrite !to_digit_char by lia.
  cbn [mbind option_bind]. rewrite IH. cbn [mbind option_bind].
  rewrite <- Z_div_mod_eq_full. by rewrite ascii_of_code.
Qed.

(** ** Witnesses *)

Module McpFilesExamples.
Import McpModel.
#[local] Existing Instances serde_number serde_lib serde_laws.
Definition json : McpJson := mcp_json no_json.
#[local] Existing Instances json.
Definition json_laws : McpJsonLaws := mcp_json_laws no_json.
#[local] Existing Instances json_laws.

(** A directory with one file, whose text is a character of two bytes. *)
Definition eacute : string := from_bytes [ascii_of_nat 195; ascii_of_nat 169].
Definition disk (h : list event) (a : io) : io_res a :=
  match a with
  | CurrentDir => Ok "/work"
  | Canonicalize p => if canonical (as_bytes p) then Ok p else Err "no such file"
  | StatFile p => Ok (mkMetadata RegularFile 2 false None)
  | ReadToString p => Ok eacute
  | OpenDir p => Ok 0%nat
  | NextEntry d => Ok (Some (mkDirEntry "a" (Ok RegularFile) (Err "gone")))
  | a => denied a
  end.

Lemma disk_legal h a : io_legal a (disk h a).
Proof.
  destruct a; try exact I.
  - unfold disk. cbn [io_legal]. destruct (canonical (as_bytes path)) eqn:E; [exact E|exact I].
  - reflexivity.
  - destruct timeout; [exact I|discriminate].
Qed.

Definition read_args (max : Z) : Value :=
  object [("path", VString "a"); ("max_bytes", json_u64 max)].

(** The text and the error code of what is answered; [None] is a panic. *)
Definition answer (m : mcp Value) : option (option string * option string) :=
  (fun v => (response_text v, response_code v)) <$> (mcp_run disk [] m).2.

Example reads : answer (file_read (read_args 2)) = Some (Some eacute, None).
Proof. vm_compute. reflexivity. Qed.
(** Cutting the character panics. *)
Example reads_half : answer (file_read (read_args 1)) = None.
Proof. vm_compute. reflexivity. Qed.
Example outside_refused : answer (file_read (object [("path", VString "/etc/passwd")])) =
  Some (Some "path '/etc/passwd' is outside working directory", Some "permission_denied").
Proof. vm_compute. reflexivity. Qed.
End McpFilesExamples.

Import McpModel McpFilesExamples.
#[local] Existing Instances serde_number serde_lib serde_laws json json_laws.


Lemma dir_list_bounded_witness :
  exists v, (mcp_run disk [] (dir_list (object [("max_entries", json_u64 3)]))).2 = Some v /\
    (refusal v \/ exists es, v = result_ok_json (VArray es) /\ Z.of_nat (length es) <= 10000).
Proof.
  destruct (mwp_run disk [] _ _ disk_legal
    (dir_list_bounded (object [("max_entries", json_u64 3)]) [])) as (v & Hv & H).
  exists v. split; [exact Hv|]. destruct H as [H|(es & -> & _ & Hl)]; [by left|].
  right. by exists es.
Defined.
