(* ===== verification/McpProcess.v ===== *)
(** * The process and system tools of the MCP server

    [process_tools.rs] and [system_tools.rs], in [rust-old/src/mcp/tools]:
    running a command, and asking the system about itself. *)

From Stdlib Require Import ZArith Lia Ascii.
From stdpp Require Import base tactics option list strings gmap.
From S2P Require Import Prelude RustStr Json RustPath Step Bus Prog Mcp McpConvert McpText McpPaths.
From S2P Require Import McpFiles.

Open Scope Z_scope.

(** [cmd.output().await] of a command without a time limit *)
Definition run_command (program : string) (args : list string) (cwd : option string)
  : mcp (result Output string) :=
  let* r := call_io (RunCommand program args cwd None) in
  match r with
  | Some r => MRet r
  | None => MPanic
  end.

(** ** Process tools *)

Section ProcessTools.
Context `{JN : JsonNumber} `{JL : !JsonLib} `{MJ : !McpJson}.

Definition DEFAULT_EXEC_TIMEOUT_MS : Z := 30000.

Definition exec_output (out : Output) : Value := object
  [("exit_code", json_i64 (default (-1) (out_code out)));
   ("stdout", VString (out_stdout out));
   ("stderr", VString (out_stderr out));
   ("success", VBool (out_success out))].

Definition exec_command (command : string) (cmd_args : list string) (cwd : option string)
    (timeout_ms : Z) : mcp Value :=
  let* r := call_io (RunCommand command cmd_args cwd (Some timeout_ms)) in
  match r with
  | Some (Ok output) => MRet (result_ok_json (exec_output output))
  | Some (Err e) => MRet (io_error ("command failed: " +:+ e))
  | None => MRet (result_error_typed McpErrorCode.Timeout
      ("command timed out after " +:+ show_Z timeout_ms +:+ "ms"))
  end.

Definition exec (args : Value) : mcp Value :=
  require command := get_str args "command" else missing "command" in
  if contains (as_bytes "..") (as_bytes command) || contains ["/"%char] (as_bytes command) then
    MRet (result_error_typed McpErrorCode.PermissionDenied
      "command must be a plain executable name, not a path — use PATH lookup")
  else
    let cmd_args := match get_array args "args" with Some arr => omap as_str arr | None => [] end in
    let timeout_ms := default DEFAULT_EXEC_TIMEOUT_MS (get_u64 args "timeout_ms") in
    match get_str args "cwd" with
    | Some cwd =>
        validated dir := cwd in
        exec_command command cmd_args (Some dir) timeout_ms
    | None => exec_command command cmd_args None timeout_ms
    end.

Definition Exec : Tool := {|
  definition := tool_def "szal_exec"
    "Execute a shell command and return stdout, stderr, and exit code"
    (object
      [("command", prop "string" "Command to execute");
       ("args", prop_items "string" "Command arguments");
       ("cwd", prop "string" "Working directory (optional)");
       ("timeout_ms", prop "integer" "Timeout in milliseconds (default: 30000)")]) ["command"];
  tool_call := exec
|}.

Definition pid (args : Value) : mcp Value :=
  let* id := call_io ProcessId in
  MRet (result_ok (show_Z id)).

Definition Pid : Tool := {|
  definition := tool_def "szal_pid" "Get the current process ID" (object []) [];
  tool_call := pid
|}.

Definition which (args : Value) : mcp Value :=
  require command := get_str args "command" else missing "command" in
  let* output := run_command "which" [command] None in
  let not_found := object [("command", VString command); ("found", VBool false)] in
  match output with
  | Ok out =>
      if out_success out then
        MRet (result_ok_json (object
          [("command", VString command); ("found", VBool true);
           ("path", VString (str_trim (out_stdout out)))]))
      else MRet (result_ok_json not_found)
  | Err _ => MRet (result_ok_json not_found)
  end.

Definition Which : Tool := {|
  definition := tool_def "szal_which" "Check if a command exists on PATH"
    (object [("command", prop "string" "Command name to look up")]) ["command"];
  tool_call := which
|}.
End ProcessTools.

(** ** System tools *)

(** [std::env::consts] *)
Class BuildTarget := { OS : string; ARCH : string }.
(** [DateTime::timestamp] and [timestamp_millis] *)
Class ChronoClock := { unix_secs : Timestamp -> Z; unix_millis : Timestamp -> Z }.

Section SystemTools.
Context `{JN : JsonNumber} `{JL : !JsonLib} `{MJ : !McpJson} `{CL : ChronoLib}
  `{BT : BuildTarget} `{CC : ChronoClock}.

Definition hostname_of (r : result string string) : string :=
  str_trim match r with Ok s => s | Err _ => "unknown" end.

Definition uptime_of (r : result string string) : option f64 :=
  match r with
  | Ok s => match split_whitespace (as_bytes s) with w :: _ => parse_f64_text w | [] => None end
  | Err _ => None
  end.

Definition system_info (args : Value) : mcp Value :=
  let* hostname := call_io (ReadToString "/etc/hostname") in
  let* cpus := call_io Parallelism in
  let* uptime := call_io (ReadToString "/proc/uptime") in
  MRet (result_ok_json (object
    [("hostname", VString (hostname_of hostname));
     ("os", VString OS);
     ("arch", VString ARCH);
     ("cpus", json_u64 match cpus with Ok n => n | Err _ => 0 end);
     ("uptime_secs", match uptime_of uptime with Some x => json_f64 x | None => Null end)])).

Definition SystemInfo : Tool := {|
  definition := tool_def "szal_system_info"
    "Get system hostname, OS, architecture, CPU count, and uptime" (object []) [];
  tool_call := system_info
|}.

Definition cwd (args : Value) : mcp Value :=
  let* r := call_io CurrentDir in
  match r with
  | Ok p => MRet (result_ok p)
  | Err e => MRet (io_error e)
  end.

Definition Cwd : Tool := {|
  definition := tool_def "szal_cwd" "Get the current working directory" (object []) [];
  tool_call := cwd
|}.

Definition env_get (args : Value) : mcp Value :=
  require name := get_str args "name" else missing "name" in
  let* r := call_io (EnvVar name) in
  match r with
  | Some val => MRet (result_ok val)
  | None => MRet (result_error_typed McpErrorCode.NotFound
      ("environment variable not set: " +:+ name))
  end.

Definition EnvGet : Tool := {|
  definition := tool_def "szal_env_get" "Get the value of an environment variable"
    (object [("name", prop "string" "Environment variable name")]) ["name"];
  tool_call := env_get
|}.

Definition timestamp_now (args : Value) : mcp Value :=
  let* now := call_io UtcNow in
  MRet (result_ok_json (object
    [("iso8601", VString (rfc3339 now));
     ("unix_secs", json_i64 (unix_secs now));
     ("unix_ms", json_i64 (unix_millis now))])).

Definition Timestamp : Tool := {|
  definition := tool_def "szal_timestamp"
    "Get the current timestamp in ISO 8601 and Unix epoch formats" (object []) [];
  tool_call := timestamp_now
|}.
End SystemTools.

(** ** Promises *)

Lemma mwp_run_any (Q : list event -> option (result Output string) -> Prop) h program args cwd :
  (forall h' r, Q h' (Some r)) -> mwp h (run_command program args cwd) Q.
Proof.
  intros HQ. unfold run_command. cbn. intros [r|] Hr; [by apply HQ|done].
Qed.

(** The one call of a command, when it is permitted. *)
Lemma mwp_run_sandboxed {A} h program args cwd (k : result Output string -> mcp A) :
  plain_command program = true -> sandboxed h ->
  (forall h' r, h `prefix_of` h' -> sandboxed h' -> mwp h' (k r) (fun h' _ => sandboxed h')) ->
  mwp h (mcp_bind (run_command program args cwd) k) (fun h' _ => sandboxed h').
Proof.
  intros Hc Hs Hk. unfold run_command. cbn. intros [r|] Hr; [|done]. cbn.
  apply Hk; [by apply prefix_app_r|by apply sandboxed_snoc].
Qed.

Ltac tool_step ::=
  match goal with
  | |- mwp _ (match ?c with _ => _ end) _ => destruct c
  | |- mwp _ (mcp_bind (call_io _) _) _ => cbn [call_io mcp_bind mwp]; intros ? _
  | |- mwp _ (mcp_bind _ _) _ => apply mwp_bind
  | |- mwp _ (validate_path _) _ => apply mwp_validate_any; intros ? ?
  | |- mwp _ (run_command _ _ _) _ => apply mwp_run_any; intros ? ?
  | |- mwp _ (exec_command _ _ _ _) _ => unfold exec_command
  | |- mwp _ (MIo _ _) _ => cbn [mwp]; intros ? _
  | |- mwp _ (call_io _) _ => cbn [mwp call_io]; intros ? _
  | |- mwp _ (MRet _) _ => cbn [mwp]
  | |- forall r : io_res _, io_legal _ r -> _ => intros ? _
  end.

Section Promises.
Context `{JN : JsonNumber} `{JL : !JsonLib} `{LW : !JsonLaws} `{MJ : !McpJson}
  `{CL : ChronoLib} `{BT : BuildTarget} `{CC : ChronoClock}.

#[export] Instance Exec_laws : ToolLaws Exec.
Proof. tool_laws. Qed.
#[export] Instance Pid_laws : ToolLaws Pid.
Proof. tool_laws. Qed.
#[export] Instance Which_laws : ToolLaws Which.
Proof. tool_laws. Qed.
#[export] Instance SystemInfo_laws : ToolLaws SystemInfo.
Proof. tool_laws. Qed.
#[export] Instance Cwd_laws : ToolLaws Cwd.
Proof. tool_laws. Qed.
#[export] Instance EnvGet_laws : ToolLaws EnvGet.
Proof. tool_laws. Qed.
#[export] Instance Timestamp_laws : ToolLaws Timestamp.
Proof. tool_laws. Qed.
End Promises.

Ltac confine_step ::=
  match goal with
  | |- mwp _ (match ?c with _ => _ end) _ => destruct c eqn:?
  | |- mwp _ (mcp_bind (match ?c with _ => _ end) _) _ => destruct c
  | |- mwp _ (mcp_bind (validate_path _) _) _ =>
      apply mwp_validated_sandboxed; [assumption|intros ? [?|?] ? ? ?; cbn beta iota]
  | |- mwp _ (mcp_bind (run_command _ _ _) _) _ =>
      apply mwp_run_sandboxed; [done|assumption|intros ? ? ? ?]
  | |- mwp _ (mcp_bind (call_io ?a) ?k) _ =>
      apply (mwp_io_sandboxed _ a k);
        [cbn [permitted]; try solve [done|eauto|left; eauto]|assumption|intros ? ? ? ?]
  | |- mwp _ (exec_command _ _ _ _) _ => unfold exec_command
  | |- mwp _ (MRet _) _ => cbn [mwp]
  | |- mwp _ MPanic _ => cbn [mwp]
  end.

Section Sandbox.
Context `{JN : JsonNumber} `{JL : !JsonLib} `{LW : !JsonLaws} `{MJ : !McpJson}
  `{CL : ChronoLib} `{BT : BuildTarget} `{CC : ChronoClock}.

Lemma plain_of_checks command :
  contains (as_bytes "..") (as_bytes command) || contains ["/"%char] (as_bytes command) = false ->
  plain_command command = true.
Proof. unfold plain_command. by intros [-> ->]%orb_false_iff. Qed.

#[export] Instance Exec_confined : Confined Exec.
Proof. confines; by apply plain_of_checks. Qed.
#[export] Instance Which_confined : Confined Which.
Proof. confines. Qed.
#[export] Instance SystemInfo_confined : Confined SystemInfo.
Proof.
  intros args h Hs. unfold tool_call, SystemInfo, system_info.
  repeat (confine_step; try (right; set_solver)). done.
Qed.
#[export] Instance Cwd_confined : Confined Cwd.
Proof. confines. Qed.
#[export] Instance Pid_confined : Confined Pid.
Proof. confines. Qed.
#[export] Instance EnvGet_confined : Confined EnvGet.
Proof. confines. Qed.
#[export] Instance Timestamp_confined : Confined Timestamp.
Proof. confines. Qed.
End Sandbox.

Section ExecCalls.
Context `{JN : JsonNumber} `{JL : !JsonLib} `{LW : !JsonLaws} `{MJ : !McpJson}.

(** The call of [exec], and what is made of its outcome. *)
Definition exec_call (args : Value) (h : list event) (a : io) : Prop :=
  match a with
  | RunCommand p l c t =>
      get_str args "command" = Some p /\ plain_command p = true /\
      l = match get_array args "args" with Some l => omap as_str l | None => [] end /\
      t = Some (default DEFAULT_EXEC_TIMEOUT_MS (get_u64 args "timeout_ms")) /\
      match c with
      | Some dir => in_cwd h dir
      | None => get_str args "cwd" = None
      end
  | a => probe a = true
  end.

Definition exec_done (args : Value) (h : list event) (o : option Value) : Prop :=
  (forall a r, Event a r ∈ h -> exec_call args h a) /\
  exists v, o = Some v /\
    (refusal v \/ exists h0 p l c t out,
       h = h0 ++ [Event (RunCommand p l c t) (Some (Ok out))] /\
       (forall a r, Event a r ∈ h0 -> probe a = true) /\ v = result_ok_json (exec_output out)).

Lemma mwp_exec_command args h p l c t :
  (forall a r, Event a r ∈ h -> probe a = true) ->
  exec_call args h (RunCommand p l c (Some t)) ->
  mwp h (exec_command p l c t) (exec_done args).
Proof.
  intros Hh Ha. unfold exec_command. cbn [call_io mcp_bind mwp]. intros r _.
  assert (Hcalls : forall a s, Event a s ∈ h ++ [Event (RunCommand p l c (Some t)) r] ->
    exec_call args (h ++ [Event (RunCommand p l c (Some t)) r]) a).
  { intros a s [Hin|Hin]%elem_of_app.
    - apply Hh in Hin. by destruct a.
    - apply list_elem_of_singleton in Hin.
      assert (event_io (Event a s) = RunCommand p l c (Some t)) as Hs by (by rewrite Hin).
      cbn in Hs. subst a. destruct Ha as (? & ? & ? & ? & Hc). split_and!; try done.
      destruct c; [|done]. eapply in_cwd_grows; [|done]. by apply prefix_app_r. }
  destruct r as [[out|e]|]; cbn [mwp]; (split; [exact Hcalls|]); eexists; (split; [done|]).
  - right. by exists h, p, l, c, (Some t), out.
  - left. apply refusal_io_error.
  - left. apply refusal_typed.
Qed.

End ExecCalls.


(** ** Witnesses *)

Module McpProcessExamples.
Export McpModel.
#[local] Existing Instances serde_number serde_lib serde_laws.
Definition json : McpJson := mcp_json no_json.
#[local] Existing Instances json.

Definition echo_args : Value :=
  object [("command", VString "echo"); ("args", VArray [VString "hi"])].
(** A system on which every command prints its arguments. *)
Definition shell (h : list event) (a : io) : io_res a :=
  match a with
  | RunCommand _ args _ _ => Some (Ok (mkOutput true (Some 0) (String.concat " " args) ""))
  | a => denied a
  end.

Lemma shell_legal h a : io_legal a (shell h a).
Proof. destruct a; try exact (denied_legal _). by destruct timeout. Qed.
End McpProcessExamples.

Import McpProcessExamples.
#[local] Existing Instances serde_number serde_lib serde_laws json.

