(* ===== verification/McpGit.v ===== *)
(** * The git tools of the MCP server

    [rust-old/src/mcp/tools/git_tools.rs]: commands of [git] and the reading of
    what they print. *)

From Stdlib Require Import ZArith Lia Ascii Sorted.
From stdpp Require Import base tactics option list strings gmap.
From S2P Require Import Prelude RustStr Json RustPath Step Bus Storage Prog Mcp McpConvert McpText.
From S2P Require Import McpPaths McpFiles McpProcess.

Open Scope Z_scope.

Definition DEFAULT_LOG_COUNT : Z := 10.
Definition MAX_LOG_COUNT : Z := 100.

(** Values that look like options are refused. *)
Definition is_option (s : string) : bool := starts_with ["-"%char] (as_bytes s).
Arguments is_option : simpl never.

Definition validate_git_ref (s : string) : result unit string :=
  if is_option s then Err ("invalid ref: '" +:+ s +:+ "' — must not start with '-'") else Ok tt.

Definition git_cmd (args : list string) (cwd : option string) : mcp (result string string) :=
  let* r := run_command "git" args cwd in
  MRet match r with
       | Ok out => if out_success out then Ok (str_trim (out_stdout out))
                   else Err (str_trim (out_stderr out))
       | Err e => Err ("git not available: " +:+ e)
       end.

(** [unwrap_or_default()] *)
Definition or_empty (r : result string string) : string :=
  match r with Ok s => s | Err _ => "" end.

Definition text_lines (s : string) : list string := from_bytes <$> lines (as_bytes s).

(** ** Status *)

(** Counts of modified, staged and untracked files. *)
Record status_counts : Type := mkCounts { modified : nat; staged : nat; untracked : nat }.

Definition count_line (c : status_counts) (line : list ascii) : status_counts :=
  match line with
  | x :: y :: _ =>
      if eqc x "?" && eqc y "?" then mkCounts (modified c) (staged c) (S (untracked c))
      else if eqc x " " then mkCounts (S (modified c)) (staged c) (untracked c)
      else if eqc y " " then mkCounts (modified c) (S (staged c)) (untracked c)
      else mkCounts (S (modified c)) (S (staged c)) (untracked c)
  | _ => c
  end.
Definition count_status (status : string) : status_counts :=
  fold_left count_line (lines (as_bytes status)) (mkCounts 0 0 0).

Section GitTools.
Context `{JN : JsonNumber} `{JL : !JsonLib} `{MJ : !McpJson}.

Definition status_answer (branch status : string) : Value :=
  let c := count_status status in
  object
    [("branch", VString branch);
     ("clean", VBool (bool_decide (status = "")));
     ("modified", json_nat (modified c));
     ("staged", json_nat (staged c));
     ("untracked", json_nat (untracked c))].

Definition git_status (args : Value) : mcp Value :=
  let cwd := get_str args "path" in
  let* branch := git_cmd ["rev-parse"; "--abbrev-ref"; "HEAD"] cwd in
  let* status := git_cmd ["status"; "--porcelain"] cwd in
  MRet (result_ok_json (status_answer (or_empty branch) (or_empty status))).

Definition GitStatus : Tool := {|
  definition := tool_def "szal_git_status"
    "Get git status (branch, modified/staged/untracked files)"
    (object [("path", prop "string" "Repository path (default: current dir)")]) [];
  tool_call := git_status
|}.

(** ** Log *)

Definition log_format : string := "--format=%H|%h|%an|%ae|%aI|%s".

Definition commit (parts : list string) : option Value :=
  match parts with
  | [h; s; a; e; d; m] => Some (object
      [("hash", VString h); ("short_hash", VString s); ("author", VString a);
       ("email", VString e); ("date", VString d); ("message", VString m)])
  | _ => None
  end.

Definition read_commit (line : list ascii) : option Value :=
  commit (from_bytes <$> splitn 6 "|" line).

Definition read_log (output : string) : list Value :=
  omap read_commit (lines (as_bytes output)).

Definition git_log (args : Value) : mcp Value :=
  let cwd := get_str args "path" in
  let count := Z.min (default DEFAULT_LOG_COUNT (get_u64 args "count")) MAX_LOG_COUNT in
  let* log := git_cmd ["log"; "-" +:+ show_Z count; log_format] cwd in
  match log with
  | Ok output => MRet (result_ok_json (VArray (read_log output)))
  | Err e => MRet (io_error e)
  end.

Definition GitLog : Tool := {|
  definition := tool_def "szal_git_log" "Get recent git commits"
    (object
      [("path", prop "string" "Repository path (default: current dir)");
       ("count", prop "integer" "Number of commits (default: 10, max: 100)")]) [];
  tool_call := git_log
|}.

(** ** Diff *)

(** The refs to compare; the second one is looked at after the first one only. *)
Definition diff_refs (args : Value) : result (list string) string :=
  match get_str args "ref1" with
  | None => Ok []
  | Some r1 =>
      let? _ := validate_git_ref r1 in
      match get_str args "ref2" with
      | None => Ok [r1]
      | Some r2 => let? _ := validate_git_ref r2 in Ok [r1; r2]
      end
  end.

Definition diff_options (args : Value) : list string :=
  (if default false (get_bool args "staged") then ["--cached"] else []) ++
  (if default false (get_bool args "stat_only") then ["--stat"] else []).

Definition git_diff (args : Value) : mcp Value :=
  let cwd := get_str args "path" in
  match diff_refs args with
  | Err e => MRet (result_error_typed McpErrorCode.PermissionDenied e)
  | Ok refs =>
      let* r := git_cmd ("diff" :: diff_options args ++ refs) cwd in
      match r with
      | Ok diff => MRet (result_ok (if bool_decide (diff = "") then "no changes" else diff))
      | Err e => MRet (io_error e)
      end
  end.

Definition GitDiff : Tool := {|
  definition := tool_def "szal_git_diff" "Get git diff (staged, unstaged, or between refs)"
    (object
      [("path", prop "string" "Repository path (default: current dir)");
       ("staged", prop "boolean" "Show staged changes (default: false)");
       ("ref1", prop "string" "First ref for comparison");
       ("ref2", prop "string" "Second ref for comparison");
       ("stat_only", prop "boolean" "Show only file stats, not full diff (default: false)")]) [];
  tool_call := git_diff
|}.

(** ** Branches *)

Definition branch_args (all : bool) : list string :=
  if all then ["branch"; "-a"; "--format=%(refname:short)"]
  else ["branch"; "--format=%(refname:short)"].

Definition git_branch (args : Value) : mcp Value :=
  let cwd := get_str args "path" in
  let all := default false (get_bool args "all") in
  let* current := git_cmd ["rev-parse"; "--abbrev-ref"; "HEAD"] cwd in
  let* branches := git_cmd (branch_args all) cwd in
  let branch_list := text_lines (or_empty branches) in
  MRet (result_ok_json (object
    [("current", VString (or_empty current));
     ("branches", json_strings branch_list);
     ("count", json_nat (length branch_list))])).

Definition GitBranch : Tool := {|
  definition := tool_def "szal_git_branch" "List git branches and show current branch"
    (object
      [("path", prop "string" "Repository path (default: current dir)");
       ("all", prop "boolean" "Include remote branches (default: false)")]) [];
  tool_call := git_branch
|}.

(** ** Blame *)

(** [line.strip_prefix("author ")] *)
Definition author_of (line : list ascii) : option string :=
  if starts_with (as_bytes "author ") line then Some (from_bytes (drop 7 line)) else None.

Definition add_author (m : gmap string nat) (author : string) : gmap string nat :=
  <[author := S (default 0%nat (m !! author))]> m.
Definition count_authors (authors : list string) : gmap string nat := fold_left add_author authors ∅.

(** [sort_by_key(|(_, count)| Reverse( *count))]: stable, the larger counts first. *)
Fixpoint insert_by_count (x : string * nat) (l : list (string * nat)) : list (string * nat) :=
  match l with
  | [] => [x]
  | y :: l => if (y.2 <=? x.2)%nat then x :: y :: l else y :: insert_by_count x l
  end.
Definition sort_by_count (l : list (string * nat)) : list (string * nat) :=
  foldr insert_by_count [] l.

Definition blame_answer `{HO : HashOrder} (file output : string) : Value :=
  let authors := count_authors (omap author_of (lines (as_bytes output))) in
  let total_lines := sum_list (hash_values authors) in
  object
    [("file", VString file);
     ("total_lines", json_nat total_lines);
     ("authors", VArray ((fun p => object [("name", VString p.1); ("lines", json_nat p.2)]) <$>
        sort_by_count (hash_iter authors)))].

Definition git_blame `{HO : HashOrder} (args : Value) : mcp Value :=
  require file := get_str args "file" else missing "file" in
  if is_option file then
    MRet (result_error_typed McpErrorCode.PermissionDenied "file must not start with '-'")
  else if contains (as_bytes "..") (as_bytes file) then
    MRet (result_error_typed McpErrorCode.PermissionDenied "file must not contain '..'")
  else
    let cwd := get_str args "path" in
    let* r := git_cmd ["blame"; "--porcelain"; file] cwd in
    match r with
    | Ok output => MRet (result_ok_json (blame_answer file output))
    | Err e => MRet (io_error e)
    end.

Definition GitBlame `{HO : HashOrder} : Tool := {|
  definition := tool_def "szal_git_blame" "Show git blame for a file (who last modified each line)"
    (object
      [("file", prop "string" "File path to blame");
       ("path", prop "string" "Repository path (default: current dir)")]) ["file"];
  tool_call := git_blame
|}.
End GitTools.

(** ** Promises *)

Lemma mwp_git_any (Q : list event -> option (result string string) -> Prop) h args cwd :
  (forall h' r, Q h' (Some r)) -> mwp h (git_cmd args cwd) Q.
Proof. intros HQ. unfold git_cmd. apply mwp_bind, mwp_run_any. intros h' r. apply HQ. Qed.

Lemma mwp_git_sandboxed {A} h args cwd (k : result string string -> mcp A) :
  sandboxed h ->
  (forall h' r, h `prefix_of` h' -> sandboxed h' -> mwp h' (k r) (fun h' _ => sandboxed h')) ->
  mwp h (mcp_bind (git_cmd args cwd) k) (fun h' _ => sandboxed h').
Proof.
  intros Hs Hk. unfold git_cmd, run_command. cbn. intros [r|] Hr; [|done]. cbn.
  apply Hk; [by apply prefix_app_r|by apply sandboxed_snoc].
Qed.

Ltac git_step :=
  match goal with
  | |- mwp _ (git_cmd _ _) _ => apply mwp_git_any; intros ? ?
  | |- mwp _ (mcp_bind (git_cmd _ _) _) _ =>
      apply mwp_git_sandboxed; [assumption|intros ? ? ? ?]
  | _ => confine_step
  end.
Ltac git_confines := intros ? ? ?; unfold_tool; repeat git_step; done.
Ltac git_responds :=
  intros ? ?; unfold_tool; repeat ((apply mwp_git_any; intros ? ?) || tool_step);
  intros ? [= <-]; unfold missing, invalid; auto with szal.

Section Promises.
Context `{JN : JsonNumber} `{JL : !JsonLib} `{LW : !JsonLaws} `{MJ : !McpJson} `{HO : HashOrder}.

#[export] Instance GitStatus_laws : ToolLaws GitStatus.
Proof. split; [declares|git_responds|refuses]. Qed.
#[export] Instance GitLog_laws : ToolLaws GitLog.
Proof. split; [declares|git_responds|refuses]. Qed.
#[export] Instance GitDiff_laws : ToolLaws GitDiff.
Proof. split; [declares|git_responds|refuses]. Qed.
#[export] Instance GitBranch_laws : ToolLaws GitBranch.
Proof. split; [declares|git_responds|refuses]. Qed.
#[export] Instance GitBlame_laws : ToolLaws GitBlame.
Proof. split; [declares|git_responds|refuses]. Qed.

#[export] Instance GitStatus_confined : Confined GitStatus.
Proof. git_confines. Qed.
#[export] Instance GitLog_confined : Confined GitLog.
Proof. git_confines. Qed.
#[export] Instance GitDiff_confined : Confined GitDiff.
Proof. git_confines. Qed.
#[export] Instance GitBranch_confined : Confined GitBranch.
Proof. git_confines. Qed.
#[export] Instance GitBlame_confined : Confined GitBlame.
Proof. git_confines. Qed.
End Promises.

(** ** What is run *)

(** The arguments the program itself gives. *)
Inductive fixed_args : list string -> Prop :=
| FixedHead : fixed_args ["rev-parse"; "--abbrev-ref"; "HEAD"]
| FixedStatus : fixed_args ["status"; "--porcelain"]
| FixedLog n : n <= MAX_LOG_COUNT -> fixed_args ["log"; "-" +:+ show_Z n; log_format]
| FixedDiff o : o ⊆ ["--cached"; "--stat"] -> fixed_args ("diff" :: o)
| FixedBranch all : fixed_args (branch_args all)
| FixedBlame : fixed_args ["blame"; "--porcelain"].

(** A run of [git] on them, and on values of the request after them that are not
    options. *)
Definition git_call (a : io) : Prop :=
  match a with
  | RunCommand program args _ None =>
      program = "git" /\ exists fixed user, args = fixed ++ user /\ fixed_args fixed /\
        Forall (fun u => is_option u = false) user
  | _ => False
  end.

Definition only_git (h : list event) : Prop := forall a r, Event a r ∈ h -> git_call a.

Lemma mwp_git_calls {A} h fixed user cwd (k : result string string -> mcp A)
    (Q : list event -> option A -> Prop) :
  fixed_args fixed -> Forall (fun u => is_option u = false) user -> only_git h ->
  (forall h' r, only_git h' -> mwp h' (k r) Q) ->
  mwp h (mcp_bind (git_cmd (fixed ++ user) cwd) k) Q.
Proof.
  intros Hf Hu Hh Hk. unfold git_cmd, run_command. cbn. intros [r|] Hr; [|done]. cbn.
  apply Hk. intros a s [Ha|Ha]%elem_of_app; [by eapply Hh|].
  apply list_elem_of_singleton in Ha.
  assert (event_io (Event a s) = RunCommand "git" (fixed ++ user) cwd None) as Hs by (by rewrite Ha).
  cbn in Hs. subst a. split; [done|]. by exists fixed, user.
Qed.

Lemma mwp_git_fixed {A} h fixed cwd (k : result string string -> mcp A)
    (Q : list event -> option A -> Prop) :
  fixed_args fixed -> only_git h -> (forall h' r, only_git h' -> mwp h' (k r) Q) ->
  mwp h (mcp_bind (git_cmd fixed cwd) k) Q.
Proof.
  intros Hf Hh Hk. rewrite <- (app_nil_r fixed). by apply mwp_git_calls.
Qed.

Section Calls.
Context `{JN : JsonNumber} `{JL : !JsonLib} `{MJ : !McpJson} `{HO : HashOrder}.

Lemma diff_refs_plain args refs :
  diff_refs args = Ok refs -> Forall (fun u => is_option u = false) refs.
Proof.
  unfold diff_refs, validate_git_ref.
  destruct (get_str args "ref1") as [r1|]; [|by intros [= <-]].
  destruct (is_option r1) eqn:H1; [done|]. cbn.
  destruct (get_str args "ref2") as [r2|]; [|intros [= <-]; by repeat constructor].
  destruct (is_option r2) eqn:H2; [done|]. cbn. intros [= <-]. by repeat constructor.
Qed.

Lemma diff_options_fixed args : fixed_args ("diff" :: diff_options args).
Proof.
  constructor. unfold diff_options.
  destruct (default false (get_bool args "staged")), (default false (get_bool args "stat_only"));
    cbn; set_solver.
Qed.

Lemma only_git_nil : only_git [].
Proof. by intros a r H%not_elem_of_nil. Qed.
End Calls.

(** C33. The git tools run [git] and nothing else, on arguments the program fixes; a
    value of the request is given to it only after those and never where it
    could be read as an option. *)
Theorem git_no_injection `{JN : JsonNumber} `{JL : !JsonLib} `{MJ : !McpJson}
    `{HO : HashOrder} t args :
  t ∈ [GitStatus; GitLog; GitDiff; GitBranch; GitBlame] ->
  mwp [] (tool_call t args) (fun h _ => only_git h).
Proof.
  intros Ht. repeat (apply elem_of_cons in Ht as [->|Ht]); [..|by apply not_elem_of_nil in Ht];
    unfold_tool.
  - repeat (apply mwp_git_fixed; [constructor|assumption || apply only_git_nil|intros ? ? ?]). done.
  - apply mwp_git_fixed; [constructor; lia|apply only_git_nil|intros h [r|e] ?]; done.
  - destruct (diff_refs args) as [refs|e] eqn:Hr; [|apply only_git_nil].
    rewrite (app_comm_cons _ _ "diff").
    apply mwp_git_calls; [apply diff_options_fixed|by eapply diff_refs_plain|apply only_git_nil|].
    intros h [r|e] ?; done.
  - repeat (apply mwp_git_fixed; [constructor|assumption || apply only_git_nil|intros ? ? ?]). done.
  - destruct (get_str args "file") as [file|]; [|apply only_git_nil].
    destruct (is_option file) eqn:Ho; [apply only_git_nil|].
    destruct (contains _ _); [apply only_git_nil|].
    apply (mwp_git_calls [] ["blame"; "--porcelain"] [file]); [constructor|by repeat constructor|
      apply only_git_nil|]. intros h [r|e] ?; done.
Qed.

(** ** What is read of the log *)

Record log_commit : Type := mkCommit {
  c_hash : string; c_short : string; c_author : string; c_email : string; c_date : string;
  c_message : string
}.

(** A line of [git log] in the format it is asked for. *)
Definition print_commit (c : log_commit) : list ascii :=
  as_bytes (c_hash c) ++ "|"%char :: as_bytes (c_short c) ++ "|"%char ::
  as_bytes (c_author c) ++ "|"%char :: as_bytes (c_email c) ++ "|"%char ::
  as_bytes (c_date c) ++ "|"%char :: as_bytes (c_message c).

(** No separator in the fields before the message. *)
Definition commit_ok (c : log_commit) : Prop :=
  Forall (fun f => has_no "|" (as_bytes f)) [c_hash c; c_short c; c_author c; c_email c; c_date c] /\
  line_ok (print_commit c).

Definition commit_value `{JN : JsonNumber} `{JL : !JsonLib} (c : log_commit) : Value := object
  [("hash", VString (c_hash c)); ("short_hash", VString (c_short c));
   ("author", VString (c_author c)); ("email", VString (c_email c));
   ("date", VString (c_date c)); ("message", VString (c_message c))].

Lemma read_print_commit `{JN : JsonNumber} `{JL : !JsonLib} c :
  commit_ok c -> read_commit (print_commit c) = Some (commit_value c).
Proof.
  intros [Hf _]. repeat apply Forall_cons in Hf as [? Hf]. unfold read_commit, print_commit.
  rewrite !splitn_next by done. cbn. by rewrite !from_as_bytes.
Qed.

Lemma print_commit_not_empty c : print_commit c <> [].
Proof. unfold print_commit. by destruct (as_bytes (c_hash c)). Qed.

Lemma read_log_printed `{JN : JsonNumber} `{JL : !JsonLib} cs :
  Forall commit_ok cs ->
  read_log (from_bytes (join_bytes LF (print_commit <$> cs))) = commit_value <$> cs.
Proof.
  intros Hcs. unfold read_log. rewrite as_from_bytes, lines_join.
  - induction Hcs as [|c cs Hc _ IH]; [done|]. cbn. rewrite (read_print_commit _ Hc). by f_equal.
  - apply Forall_fmap. eapply Forall_impl; [exact Hcs|]. by intros c [_ ?].
  - rewrite fmap_last. destruct (last cs); cbn; [|done]. intros [= H]. by apply print_commit_not_empty in H.
Qed.

(** [szal_git_log] answers the commits that [git] printed, in their order and
    field by field, when only messages contain the separator. *)
Theorem git_log_roundtrip `{JN : JsonNumber} `{JL : !JsonLib} `{MJ : !McpJson} args cs out
    (o : list event -> forall a, io_res a) :
  Forall commit_ok cs ->
  (forall h l c, o h (RunCommand "git" l c None) = Some (Ok out)) -> out_success out = true ->
  str_trim (out_stdout out) = from_bytes (join_bytes LF (print_commit <$> cs)) ->
  (mcp_run o [] (git_log args)).2 = Some (result_ok_json (VArray (commit_value <$> cs))).
Proof.
  intros Hcs Ho Hs Ht. unfold git_log, git_cmd, run_command. cbn [call_io mcp_bind mcp_run].
  rewrite Ho. cbn [mcp_bind mcp_run]. rewrite Hs, Ht. cbn [mcp_run snd].
  by rewrite read_log_printed.
Qed.

(** ** What is counted of a blame *)

Lemma count_authors_lookup l : forall m a,
  default 0%nat (fold_left add_author l m !! a) =
  (default 0%nat (m !! a) + length (filter (eq a) l))%nat.
Proof.
  induction l as [|b l IH]; intros m a; cbn [fold_left]; [cbn; lia|].
  rewrite IH. unfold add_author. rewrite filter_cons. destruct (decide (a = b)) as [->|Hab].
  - rewrite lookup_insert_eq. cbn. lia.
  - by rewrite lookup_insert_ne.
Qed.

Lemma count_authors_positive l : forall m a n,
  (forall b k, m !! b = Some k -> (0 < k)%nat) ->
  fold_left add_author l m !! a = Some n -> (0 < n)%nat.
Proof.
  induction l as [|b l IH]; intros m a n Hm; cbn [fold_left]; [by apply Hm|].
  apply IH. intros c k. unfold add_author. destruct (decide (c = b)) as [->|Hc].
  - rewrite lookup_insert_eq. intros [= <-]. lia.
  - rewrite lookup_insert_ne by done. apply Hm.
Qed.

Lemma insert_by_count_perm x l : insert_by_count x l ≡ₚ x :: l.
Proof.
  induction l as [|y l IH]; cbn; [done|]. destruct (_ <=? _)%nat; [done|].
  rewrite IH. apply Permutation_swap.
Qed.

Lemma sort_by_count_perm l : sort_by_count l ≡ₚ l.
Proof.
  induction l as [|x l IH]; cbn; [done|]. rewrite insert_by_count_perm. by constructor.
Qed.

Definition by_count (x y : string * nat) : Prop := (y.2 <= x.2)%nat.

Lemma sort_by_count_sorted l : StronglySorted by_count (sort_by_count l).
Proof.
  induction l as [|x l IH]; [constructor|].
  change (sort_by_count (x :: l)) with (insert_by_count x (sort_by_count l)). revert IH. generalize (sort_by_count l) as k. intros k IH.
  induction IH as [|y k Hl IHl Hy]; cbn; [by repeat constructor|].
  destruct (y.2 <=? x.2)%nat eqn:E.
  - apply Nat.leb_le in E. constructor; [by constructor|]. constructor; [done|].
    eapply Forall_impl; [exact Hy|]. unfold by_count. intros z. lia.
  - apply Nat.leb_gt in E. constructor; [done|]. rewrite insert_by_count_perm.
    constructor; [unfold by_count; lia|done].
Qed.

Lemma sum_list_perm (l k : list nat) : l ≡ₚ k -> sum_list l = sum_list k.
Proof. induction 1; cbn; lia. Qed.

Lemma sum_hash_values `{HO : HashOrder} (m : gmap string nat) :
  sum_list (hash_values m) = sum_list (map_to_list m).*2.
Proof. apply sum_list_perm. unfold hash_values. by rewrite hash_iter_perm. Qed.

Lemma sum_add_author l : forall m,
  sum_list (map_to_list (fold_left add_author l m)).*2 =
  (sum_list (map_to_list m).*2 + length l)%nat.
Proof.
  induction l as [|b l IH]; intros m; cbn [fold_left length]; [lia|]. rewrite IH.
  enough (sum_list (map_to_list (add_author m b)).*2 = S (sum_list (map_to_list m).*2)) by lia.
  unfold add_author. rewrite <- insert_delete_eq.
  rewrite (sum_list_perm _ (S (default 0%nat (m !! b)) :: (map_to_list (delete b m)).*2))
    by (by rewrite map_to_list_insert by (by rewrite lookup_delete_eq)).
  destruct (m !! b) as [n|] eqn:Hb; cbn.
  - rewrite (sum_list_perm (map_to_list m).*2 (n :: (map_to_list (delete b m)).*2)); [done|].
    rewrite <- (insert_id m b n Hb) at 1. rewrite <- insert_delete_eq.
    by rewrite map_to_list_insert by (by rewrite lookup_delete_eq).
  - by rewrite delete_id.
Qed.

(** [szal_git_blame] answers each author of an [author] header of the output
    once, with the number of such headers, the larger numbers first, and the
    total of the headers. *)
Theorem blame_counts `{JN : JsonNumber} `{JL : !JsonLib} `{HO : HashOrder} file output :
  let authors := omap author_of (lines (as_bytes output)) in
  exists ps,
    blame_answer file output = object
      [("file", VString file); ("total_lines", json_nat (length authors));
       ("authors", VArray ((fun p => object
          [("name", VString p.1); ("lines", json_nat p.2)]) <$> ps))] /\
    NoDup ps.*1 /\ StronglySorted by_count ps /\
    forall a n, (a, n) ∈ ps <-> n = length (filter (eq a) authors) /\ a ∈ authors.
Proof.
  intros authors. exists (sort_by_count (hash_iter (count_authors authors))).
  assert (Hperm : sort_by_count (hash_iter (count_authors authors)) ≡ₚ map_to_list (count_authors authors))
    by (rewrite sort_by_count_perm; apply hash_iter_perm).
  split; [|split; [|split; [apply sort_by_count_sorted|]]].
  - unfold blame_answer. fold authors. rewrite sum_hash_values. unfold count_authors.
    by rewrite sum_add_author.
  - rewrite Hperm. apply NoDup_fst_map_to_list.
  - intros a n. rewrite Hperm, elem_of_map_to_list.
    pose proof (count_authors_lookup authors ∅ a) as Hc. rewrite lookup_empty in Hc. cbn in Hc.
    fold (count_authors authors) in Hc. split.
    + intros Hn. rewrite Hn in Hc. cbn in Hc. split; [done|].
      assert (0 < n)%nat by (by eapply count_authors_positive, Hn).
      destruct (filter (eq a) authors) as [|b l] eqn:Hf; [cbn in Hc; lia|].
      assert (b ∈ filter (eq a) authors) as Hb by (rewrite Hf; by left).
      by apply list_elem_of_filter in Hb as [-> ?].
    + intros [-> Ha]. destruct (count_authors authors !! a) as [k|] eqn:Hk; [by rewrite <- Hc|].
      cbn in Hc. assert (a ∈ filter (eq a) authors) as Hf by (by apply list_elem_of_filter).
      destruct (filter (eq a) authors); [by apply not_elem_of_nil in Hf|done].
Qed.

(** ** Witnesses and examples *)

Module McpGitExamples.
Export McpModel.
#[local] Existing Instances serde_number serde_lib serde_laws.
Definition json : McpJson := mcp_json no_json.
#[local] Existing Instances json.
#[export] Instance sorted_order : HashOrder := {|
  hash_iter V m := map_to_list m; hash_iter_perm V m := reflexivity _
|}.

Definition first_commit : log_commit := mkCommit "f1e2" "f1" "Ann" "a@b.c" "2026-01-01" "one | two".
Definition printed : string := from_bytes (print_commit first_commit ++ [LF]).
Definition repository (h : list event) (a : io) : io_res a :=
  match a with
  | RunCommand _ _ _ _ => Some (Ok (mkOutput true (Some 0) printed ""))
  | a => denied a
  end.

(** A first line with a modified file loses the space it starts with, and the
    file counts as staged. *)
Example first_line_staged :
  count_status (" M a" +:+ NEWLINE +:+ " M b") = mkCounts 2 0 0 /\
  count_status (str_trim (" M a" +:+ NEWLINE +:+ " M b")) = mkCounts 1 1 0.
Proof. vm_compute. auto. Qed.

(** An author's name with the separator in it shifts the fields. *)
Example author_separator :
  from_bytes <$> splitn 6 "|" (print_commit (mkCommit "h" "s" "A|B" "e" "d" "m")) =
  ["h"; "s"; "A"; "B"; "e"; "d|m"].
Proof. vm_compute. reflexivity. Qed.

(** [--porcelain] prints the header of a commit once, for its first line: two
    lines of one commit count as one. *)
Example blame_headers :
  omap author_of (lines (as_bytes ("f1 1 1 2" +:+ NEWLINE +:+ "author Ann" +:+ NEWLINE +:+
    "	x" +:+ NEWLINE +:+ "f1 2 2" +:+ NEWLINE +:+ "	y"))) = ["Ann"].
Proof. vm_compute. reflexivity. Qed.
End McpGitExamples.

Import McpGitExamples.
#[local] Existing Instances serde_number serde_lib serde_laws json.

Lemma git_no_injection_witness :
  mwp [] (tool_call GitBlame (object [("file", VString "-x")])) (fun h _ => only_git h).
Proof.
  apply git_no_injection. do 4 right. by left.
Defined.

Lemma git_log_roundtrip_witness :
  (mcp_run repository [] (git_log (object []))).2 =
  Some (result_ok_json (VArray [commit_value first_commit])).
Proof.
  apply (git_log_roundtrip (object []) [first_commit] (mkOutput true (Some 0) printed "") repository).
  - constructor; [|constructor]. split; [repeat constructor|split; reflexivity].
  - reflexivity.
  - reflexivity.
  - vm_compute. reflexivity.
Defined.
