(* ===== verification/McpNet.v ===== *)
(** * The network tools of the MCP server

    [net_tools.rs] of [rust-old/src/mcp/tools], but the URL encoding of
    [McpText], and [NetworkPool] of [rust-old/src/mcp/pool.rs].  The rate limiter
    is majra's. *)

From Stdlib Require Import ZArith Lia Ascii.
From stdpp Require Import base tactics option list strings gmap.
From S2P Require Import Prelude RustStr Json RustPath Step Bus Prog Mcp McpConvert McpText McpPaths.
From S2P Require Import McpFiles McpProcess.

Open Scope Z_scope.

(** ** The pool of rate limiters *)

Class RateLimiter := {
  Limiter : Type;
  (** requests a second and the size of a burst *)
  limiter_new : Z -> Z -> Limiter;
  (** a request under a key at a time *)
  limiter_check : Limiter -> Bus.Timestamp -> string -> bool * Limiter
}.

Section Pool.
Context `{RL : RateLimiter}.

Record NetworkPool : Type := mkPool { http : Limiter; dns : Limiter; port : Limiter }.

Definition pool_new : NetworkPool :=
  mkPool (limiter_new 10 50) (limiter_new 100 200) (limiter_new 50 100).

Definition check_http (p : NetworkPool) (now : Bus.Timestamp) (host : string) : bool * NetworkPool :=
  let '(ok, l) := limiter_check (http p) now host in (ok, mkPool l (dns p) (port p)).
Definition check_dns (p : NetworkPool) (now : Bus.Timestamp) (domain : string) : bool * NetworkPool :=
  let '(ok, l) := limiter_check (dns p) now domain in (ok, mkPool (http p) l (port p)).
Definition check_port (p : NetworkPool) (now : Bus.Timestamp) (key : string) : bool * NetworkPool :=
  let '(ok, l) := limiter_check (port p) now key in (ok, mkPool (http p) (dns p) l).

(** The answer to [CheckRate]. *)
Definition pool_check (l : limiter) : NetworkPool -> Bus.Timestamp -> string -> bool * NetworkPool :=
  match l with
  | HttpLimiter => check_http
  | DnsLimiter => check_dns
  | PortLimiter => check_port
  end.

Definition limiter_of (l : limiter) (p : NetworkPool) : Limiter :=
  match l with HttpLimiter => http p | DnsLimiter => dns p | PortLimiter => port p end.

(** Each category has its own limiter. *)
Lemma pool_check_spec l p now key :
  (pool_check l p now key).1 = (limiter_check (limiter_of l p) now key).1 /\
  forall k, limiter_of k (pool_check l p now key).2 =
    match l, k with
    | HttpLimiter, HttpLimiter | DnsLimiter, DnsLimiter | PortLimiter, PortLimiter =>
        (limiter_check (limiter_of l p) now key).2
    | _, _ => limiter_of k p
    end.
Proof.
  destruct l; cbn; unfold check_http, check_dns, check_port; destruct (limiter_check _ now key);
    (split; [done|]); by intros [].
Qed.
End Pool.

(** ** Addresses that are refused *)

Definition blocked_hosts : list string :=
  ["169.254.169.254"; "metadata.google.internal"; "metadata.goog"].

(** [url.split(c).next()] *)
Definition before (c : ascii) (l : list ascii) : list ascii := (span (fun a => negb (eqc a c)) l).1.

Definition host_part (url : list ascii) : list ascii :=
  before ":" (before "/" (trim_start_matches "https://" (trim_start_matches "http://" url))).

(** [s.parse::<u8>()] and [<u16>] *)
Definition parse_uint (max : Z) (l : list ascii) : option Z :=
  match from_str_radix l 10 with Ok n => if n <=? max then Some n else None | Err _ => None end.

Definition private_172 (host : list ascii) : bool :=
  match split_bytes "." host !! 1%nat ≫= parse_uint 255 with
  | Some n => (16 <=? n) && (n <=? 31)
  | None => false
  end.

Definition is_private (host : list ascii) : bool :=
  existsb (fun s => bool_decide (host = as_bytes s)) ["localhost"; "127.0.0.1"; "::1"; "0.0.0.0"] ||
  starts_with (as_bytes "10.") host || starts_with (as_bytes "192.168.") host ||
  (starts_with (as_bytes "172.") host && private_172 host).

Definition is_safe_url (url : string) : result unit string :=
  let host := host_part (as_bytes url) in
  if existsb (fun b => eq_ignore_ascii_case host (as_bytes b)) blocked_hosts then
    Err ("requests to " +:+ from_bytes host +:+ " are blocked")
  else if is_private host then
    Err ("requests to private/internal addresses are blocked: " +:+ from_bytes host)
  else Ok tt.

(** ** HTTP *)

Definition DEFAULT_HTTP_TIMEOUT_SECS : Z := 30.
Definition DEFAULT_PORT_CHECK_TIMEOUT_MS : Z := 3000.

Definition allowed_scheme (url : string) : bool :=
  starts_with (as_bytes "http://") (as_bytes url) || starts_with (as_bytes "https://") (as_bytes url).

(** The key of the rate limit: what is between the first two slashes and the
    next one. *)
Definition rate_key (url : string) : string :=
  match split_text (as_bytes "://") (as_bytes url) !! 1%nat with
  | Some rest => from_bytes (before "/" rest)
  | None => url
  end.

Definition has_newline (s : string) : bool :=
  contains [LF] (as_bytes s) || contains [CR] (as_bytes s).

(** Reading what [curl] prints: the header lines, the body and the status. *)
Fixpoint read_head (ls : list (list ascii)) : list (list ascii) * list (list ascii) :=
  match ls with
  | [] => ([], [])
  | l :: ls =>
      if bool_decide (l = []) then ([], ls)
      else let '(h, b) := read_head ls in (l :: h, b)
  end.

Record http_response : Type := mkResponse {
  status_code : Z; resp_headers : list (list ascii); resp_body : list ascii
}.

Definition read_response (raw : string) : http_response :=
  let ls := lines (as_bytes raw) in
  let '(h, b) := read_head (removelast ls) in
  mkResponse (default 0 (last ls ≫= parse_uint 65535)) h (join_bytes LF b).

Section NetTools.
Context `{JN : JsonNumber} `{JL : !JsonLib} `{MJ : !McpJson}.

(** The options for the headers; the values that are not strings are passed
    over. *)
Fixpoint header_args (headers : list (string * Value)) : result (list string) string :=
  match headers with
  | [] => Ok []
  | (k, v) :: headers =>
      match as_str v with
      | None => header_args headers
      | Some val =>
          if has_newline k || has_newline val then
            Err ("header '" +:+ k +:+ "' contains invalid newline characters")
          else let? rest := header_args headers in Ok ("-H" :: (k +:+ ": " +:+ val) :: rest)
      end
  end.

Definition curl_args (args : Value) (url : string) (headers : list string) : list string :=
  let method := default "GET" (get_str args "method") in
  let timeout := default DEFAULT_HTTP_TIMEOUT_SECS (get_u64 args "timeout_secs") in
  ["-s"; "-S"; "-w"; NEWLINE +:+ "%{http_code}"; "-X"; method;
   "--max-time"; show_Z timeout; "-D"; "-"] ++ headers ++
  match get_str args "body" with Some body => ["-d"; body] | None => [] end ++ [url].

Definition response_info (r : http_response) : Value := object
  [("status_code", json_u64 (status_code r));
   ("headers", json_strings (from_bytes <$> resp_headers r));
   ("body", VString (from_bytes (resp_body r)))].

Definition http_request (args : Value) : mcp Value :=
  require url := get_str args "url" else missing "url" in
  if negb (allowed_scheme url) then MRet (invalid "only http:// and https:// URLs are allowed")
  else
    match is_safe_url url with
    | Err e => MRet (result_error_typed McpErrorCode.PermissionDenied e)
    | Ok _ =>
        let* allowed := call_io (CheckRate HttpLimiter (rate_key url)) in
        if negb allowed then
          MRet (result_error_typed McpErrorCode.Timeout
            ("rate limit exceeded for host: " +:+ rate_key url))
        else
          match header_args (default [] (get_object args "headers")) with
          | Err e => MRet (invalid e)
          | Ok headers =>
              let* r := run_command "curl" (curl_args args url headers) None in
              match r with
              | Ok output =>
                  if negb (out_success output) && bool_decide (out_stderr output <> "") then
                    MRet (io_error ("curl failed: " +:+ out_stderr output))
                  else MRet (result_ok_json (response_info (read_response (out_stdout output))))
              | Err e => MRet (io_error ("failed to execute curl: " +:+ e))
              end
          end
    end.

Definition HttpRequest : Tool := {|
  definition := tool_def "szal_http"
    "Make an HTTP request via curl and return status, headers, and body"
    (object
      [("url", prop "string" "URL to request");
       ("method", prop_enum_desc ["GET"; "POST"; "PUT"; "DELETE"; "PATCH"; "HEAD"]
          "HTTP method (default: GET)");
       ("headers", prop "object" "Request headers as key-value pairs");
       ("body", prop "string" "Request body (for POST/PUT/PATCH)");
       ("timeout_secs", prop "integer" "Timeout in seconds (default: 30)")]) ["url"];
  tool_call := http_request
|}.

(** ** Names and ports *)

Definition dns_lookup (args : Value) : mcp Value :=
  require hostname := get_str args "hostname" else missing "hostname" in
  let* allowed := call_io (CheckRate DnsLimiter hostname) in
  if negb allowed then
    MRet (result_error_typed McpErrorCode.Timeout ("rate limit exceeded for DNS: " +:+ hostname))
  else
    let* r := call_io (LookupHost (hostname +:+ ":0")) in
    match r with
    | Ok ips => MRet (result_ok_json (object
        [("hostname", VString hostname); ("addresses", json_strings ips)]))
    | Err e => MRet (io_error ("DNS lookup failed for " +:+ hostname +:+ ": " +:+ e))
    end.

Definition DnsLookup : Tool := {|
  definition := tool_def "szal_dns_lookup" "Perform a DNS lookup for a hostname"
    (object [("hostname", prop "string" "Hostname to resolve")]) ["hostname"];
  tool_call := dns_lookup
|}.

Definition port_check (args : Value) : mcp Value :=
  let host := default "127.0.0.1" (get_str args "host") in
  require p := get_u64 args "port" else missing "port" in
  if negb (p <=? 65535) then MRet (invalid ("port " +:+ show_Z p +:+ " out of range (0-65535)"))
  else
    let timeout_ms := default DEFAULT_PORT_CHECK_TIMEOUT_MS (get_u64 args "timeout_ms") in
    let key := host +:+ ":" +:+ show_Z p in
    let* allowed := call_io (CheckRate PortLimiter key) in
    if negb allowed then
      MRet (result_error_typed McpErrorCode.Timeout
        ("rate limit exceeded for port check: " +:+ key))
    else
      let* open := call_io (TcpConnect key timeout_ms) in
      MRet (result_ok_json (object
        [("host", VString host); ("port", json_u64 p); ("open", VBool open)])).

Definition PortCheck : Tool := {|
  definition := tool_def "szal_port_check" "Check if a TCP port is open on a host"
    (object
      [("host", prop "string" "Host to check (default: 127.0.0.1)");
       ("port", prop "integer" "TCP port number");
       ("timeout_ms", prop "integer" "Connection timeout in ms (default: 3000)")]) ["port"];
  tool_call := port_check
|}.
End NetTools.

Section Promises.
Context `{JN : JsonNumber} `{JL : !JsonLib} `{LW : !JsonLaws} `{MJ : !McpJson}.

#[export] Instance HttpRequest_laws : ToolLaws HttpRequest.
Proof. tool_laws. Qed.
#[export] Instance DnsLookup_laws : ToolLaws DnsLookup.
Proof. tool_laws. Qed.
#[export] Instance PortCheck_laws : ToolLaws PortCheck.
Proof. tool_laws. Qed.
#[export] Instance HttpRequest_confined : Confined HttpRequest.
Proof. confines. Qed.
#[export] Instance DnsLookup_confined : Confined DnsLookup.
Proof. confines. Qed.
#[export] Instance PortCheck_confined : Confined PortCheck.
Proof. confines. Qed.
End Promises.

(** ** What is requested *)

Lemma contains_byte c l : contains [c] l = negb (forallb (fun a => negb (eqc a c)) l).
Proof.
  unfold contains. induction l as [|a l IH]; cbn [find_bytes starts_with forallb].
  - rewrite bool_decide_eq_false_2; [done|]. by intros [].
  - rewrite andb_true_r. assert (eqc c a = eqc a c) as -> by (apply bool_decide_ext; naive_solver).
    destruct (eqc a c); cbn; [done|].
    rewrite <- IH. apply bool_decide_ext. by rewrite fmap_is_Some.
Qed.

Lemma has_newline_app s t : has_newline (s +:+ t) = has_newline s || has_newline t.
Proof.
  unfold has_newline. rewrite as_bytes_app, !contains_byte, !forallb_app.
  by repeat destruct (forallb _ _).
Qed.

Section Requests.
Context `{JN : JsonNumber} `{JL : !JsonLib} `{LW : !JsonLaws} `{MJ : !McpJson}.

Lemma header_args_no_newline l : forall headers,
  header_args l = Ok headers -> Forall (fun a => has_newline a = false) headers.
Proof.
  induction l as [|[k v] l IH]; intros headers; cbn; [by intros [= <-]|].
  destruct (as_str v) as [val|]; [|by apply IH].
  destruct (has_newline k) eqn:Hk; [done|]. destruct (has_newline val) eqn:Hv; [done|]. cbn.
  destruct (header_args l) as [rest|]; [|done]. cbn. intros [= <-].
  constructor; [done|]. constructor; [|by apply IH].
  by rewrite !has_newline_app, Hk, Hv.
Qed.

Definition http_call (args : Value) (h : list event) (a : io) : Prop :=
  match a with
  | CheckRate l key => l = HttpLimiter /\ rate_key <$> get_str args "url" = Some key
  | RunCommand p l c t =>
      p = "curl" /\ c = None /\ t = None /\ exists url headers,
        get_str args "url" = Some url /\ allowed_scheme url = true /\ is_safe_url url = Ok tt /\
        Event (CheckRate HttpLimiter (rate_key url)) true ∈ h /\
        header_args (default [] (get_object args "headers")) = Ok headers /\
        Forall (fun a => has_newline a = false) headers /\ l = curl_args args url headers
  | _ => False
  end.
End Requests.

(** The calls of a run, and a refusal or what the one command printed. *)
Definition http_done `{JN : JsonNumber} `{JL : !JsonLib} `{LW : !JsonLaws} `{MJ : !McpJson}
    (args : Value) (h : list event) (o : option Value) : Prop :=
  (forall a r, Event a r ∈ h -> http_call args h a) /\
  exists v, o = Some v /\ (refusal v \/ exists h0 l out,
    h = h0 ++ [Event (RunCommand "curl" l None None) (Some (Ok out))] /\
    (forall a r, Event a r ∈ h0 -> exists key, a = CheckRate HttpLimiter key) /\
    (out_success out = true \/ out_stderr out = "") /\
    v = result_ok_json (response_info (read_response (out_stdout out)))).

Section Answers.
Context `{JN : JsonNumber} `{JL : !JsonLib} `{LW : !JsonLaws} `{MJ : !McpJson}.

Lemma http_refused args h code text :
  (forall a r, Event a r ∈ h -> http_call args h a) ->
  http_done args h (Some (result_error_typed code text)).
Proof. intros Hh. split; [done|]. eexists. split; [done|]. left. apply refusal_typed. Qed.

Lemma elem_of_one a r b (s : io_res b) : Event b s ∈ [Event a r] -> b = a.
Proof.
  intros H%list_elem_of_singleton.
  by assert (event_io (Event b s) = event_io (Event a r)) as [= ->] by (by rewrite H).
Qed.

(** The call of [curl] after the URL passed its checks and the limiter. *)
Lemma mwp_curl args url headers :
  get_str args "url" = Some url -> allowed_scheme url = true -> is_safe_url url = Ok tt ->
  header_args (default [] (get_object args "headers")) = Ok headers ->
  mwp [Event (CheckRate HttpLimiter (rate_key url)) true]
    (run_command "curl" (curl_args args url headers) None) (fun h o =>
    (forall a r, Event a r ∈ h -> http_call args h a) /\ exists r, o = Some r /\
    h = [Event (CheckRate HttpLimiter (rate_key url)) true;
         Event (RunCommand "curl" (curl_args args url headers) None None) (Some r)]).
Proof.
  intros Hurl Hscheme Hsafe Hheaders. unfold run_command. cbn. intros [r|] Hr; [|done].
  split; [|by exists r]. intros a s [Ha|Ha%elem_of_one]%elem_of_cons.
  - assert (a = CheckRate HttpLimiter (rate_key url)) as -> by
      (eapply elem_of_one; apply list_elem_of_singleton; exact Ha). cbn. by rewrite Hurl.
  - subst a. cbn. split_and!; [done..|]. exists url, headers. split_and!; try done; [by left|].
    by eapply header_args_no_newline.
Qed.
End Answers.


(** ** What is read of the answer *)

(** What [curl] prints for a response: its headers, an empty line, its body and
    the status on a line of its own. *)
Definition print_response (r : http_response) : list ascii :=
  flat_map (fun h => h ++ [CR; LF]) (resp_headers r) ++ [CR; LF] ++
  resp_body r ++ LF :: as_bytes (show_Z (status_code r)).

Definition response_ok (r : http_response) : Prop :=
  Forall (fun h => h <> [] /\ has_no LF h /\ ends_with CR h = false) (resp_headers r) /\
  has_no CR (resp_body r) /\ 0 <= status_code r <= 65535.

Lemma split_header h l :
  has_no LF h -> split_bytes LF (h ++ [CR; LF] ++ l) = (h ++ [CR]) :: split_bytes LF l.
Proof.
  intros Hh. rewrite (app_assoc h [CR]) || idtac.
  replace (h ++ [CR; LF] ++ l) with ((h ++ [CR]) ++ LF :: l) by (by rewrite <- app_assoc).
  apply split_bytes_app. by rewrite forallb_app, Hh.
Qed.

Lemma strip_return_added h : strip_return (h ++ [CR]) = h.
Proof.
  unfold strip_return, ends_with. rewrite last_snoc, bool_decide_eq_true_2 by done.
  apply removelast_last.
Qed.

Lemma strip_lines_cons p q ps : strip_lines (p :: q :: ps) = strip_return p :: strip_lines (q :: ps).
Proof. done. Qed.

Lemma has_no_ends c l : has_no c l -> ends_with c l = false.
Proof.
  unfold has_no, ends_with. intros H. apply bool_decide_eq_false. intros Hl.
  apply last_Some in Hl as [k ->]. rewrite forallb_app in H. cbn in H.
  unfold eqc in H. rewrite bool_decide_eq_true_2 in H by done. cbn in H.
  by destruct (forallb _ k).
Qed.

Lemma has_no_pieces c sep l p : has_no c l -> p ∈ split_bytes sep l -> has_no c p.
Proof.
  unfold has_no. revert p. induction l as [|a l IH]; intros p; cbn [split_bytes].
  - by intros _ ->%list_elem_of_singleton.
  - cbn [forallb]. intros [Ha Hl]%andb_prop. destruct (eqc a sep).
    + intros [->|Hp]%elem_of_cons; [done|by apply IH].
    + destruct (split_bytes_cons sep l) as (q & qs & E). rewrite E in *.
      intros [->|Hp]%elem_of_cons; [|by apply IH; [|right]].
      cbn. rewrite Ha. apply IH; [done|by left].
Qed.

Lemma digits_no c n : is_ascii_digit c = false -> 0 <= n -> has_no c (as_bytes (show_Z n)).
Proof.
  intros Hc Hn. rewrite show_Z_digits by done. unfold has_no.
  pose proof (digits_of_digits (S (Z.to_nat (Z.log2 n))) n Hn) as H. unfold digits.
  revert H. generalize (digits_of (S (Z.to_nat (Z.log2 n))) 10 n) as l. intros l.
  rewrite !forallb_forall. intros H a Ha. specialize (H a Ha). unfold eqc.
  case_bool_decide; [|done]. by subst a; rewrite Hc in H.
Qed.

Lemma code_line n : 0 <= n <= 65535 ->
  as_bytes (show_Z n) <> [] /\ parse_uint 65535 (as_bytes (show_Z n)) = Some n /\
  split_bytes LF (as_bytes (show_Z n)) = [as_bytes (show_Z n)].
Proof.
  intros Hn. assert (H : from_str_radix (as_bytes (show_Z n)) 10 = Ok n).
  { rewrite show_Z_digits by lia. apply from_str_radix_digits; [lia|]. unfold u128_max. lia. }
  split_and!.
  - intros E. by rewrite E in H.
  - unfold parse_uint. rewrite H. by destruct (Z.leb_spec n 65535); [|lia].
  - apply split_bytes_none, digits_no; [done|lia].
Qed.

Lemma strip_lines_body ps code :
  Forall (has_no CR) ps -> code <> [] -> strip_lines (ps ++ [code]) = ps ++ [code].
Proof.
  intros Hps Hc. induction Hps as [|p ps Hp _ IH].
  - cbn. by rewrite bool_decide_eq_false_2.
  - destruct ps as [|q ps]; cbn [app] in *; rewrite strip_lines_cons, IH, strip_return_ok;
      done || by apply has_no_ends.
Qed.

(** The lines of a printed response. *)
Lemma lines_response r : response_ok r ->
  lines (print_response r) =
  resp_headers r ++ [] :: split_bytes LF (resp_body r) ++ [as_bytes (show_Z (status_code r))].
Proof.
  intros (Hh & Hb & Hs). destruct (code_line _ Hs) as (Hcode & _ & Hsplit).
  unfold lines, print_response.
  assert (Hbody : split_bytes LF ([CR; LF] ++ resp_body r ++ LF :: as_bytes (show_Z (status_code r))) =
    [CR] :: split_bytes LF (resp_body r) ++ [as_bytes (show_Z (status_code r))]).
  { etrans; [exact (split_header [] _ eq_refl)|]. by rewrite split_bytes_app_sep, Hsplit. }
  induction Hh as [|h hs (Hne & Hlf & Hcr) _ IH]; cbn [flat_map].
  - cbn [app] in *. rewrite Hbody. destruct (split_bytes_cons LF (resp_body r)) as (p & ps & E).
    rewrite E. cbn [app]. rewrite strip_lines_cons. change (strip_return [CR]) with (@nil ascii). f_equal.
    rewrite (app_comm_cons ps), <- E. apply strip_lines_body; [|done].
    apply list.Forall_forall. intros q Hq. by eapply has_no_pieces.
  - rewrite <- !app_assoc. rewrite split_header by done.
    destruct (split_bytes_cons LF (flat_map (fun h => h ++ [CR; LF]) hs ++ [CR; LF] ++ resp_body r ++
      LF :: as_bytes (show_Z (status_code r)))) as (p & ps & E).
    rewrite E in IH |- *. rewrite strip_lines_cons, strip_return_added. cbn [app]. by f_equal.
Qed.

Lemma read_head_app hs ls :
  Forall (fun h => h <> []) hs -> read_head (hs ++ [] :: ls) = (hs, ls).
Proof.
  induction 1 as [|h hs Hh _ IH]; [done|]. cbn. by rewrite bool_decide_eq_false_2, IH.
Qed.

(** Reading what [curl] prints gives back the status, the headers and the body,
    byte for byte, of a response whose body has no carriage return. *)
Theorem http_response_roundtrip r :
  response_ok r -> read_response (from_bytes (print_response r)) = r.
Proof.
  intros Hr. unfold read_response. rewrite as_from_bytes, (lines_response r Hr).
  destruct Hr as (Hh & _ & Hs). destruct (code_line _ Hs) as (_ & Hparse & _).
  rewrite !app_comm_cons, app_assoc, removelast_last, last_snoc. cbn [mbind option_bind].
  rewrite Hparse, read_head_app.
  - rewrite join_split. by destruct r.
  - eapply Forall_impl; [exact Hh|]. by intros h [? _].
Qed.

(** A carriage return at the end of a line of the body is lost. *)
Example body_return_lost :
  resp_body (read_response (from_bytes (print_response
    (mkResponse 200 [] (as_bytes "a" ++ [CR; LF] ++ as_bytes "b"))))) = as_bytes "a" ++ LF :: as_bytes "b".
Proof. vm_compute. reflexivity. Qed.

(** *** Hosts that are let through *)

(** The text before a colon or a slash is taken for the host: user information,
    an address in brackets or in another notation and upper case pass. *)
Example passing_hosts :
  is_safe_url <$> ["http://user:pw@127.0.0.1/"; "http://[::1]/"; "http://LOCALHOST/";
    "http://127.0.0.2/"; "http://localhost?x"; "http://2130706433/"] = replicate 6 (Ok tt).
Proof. vm_compute. reflexivity. Qed.
Example refused_hosts :
  (fun u => match is_safe_url u with Ok _ => true | Err _ => false end) <$>
    ["http://localhost:80/x"; "https://10.1.2.3"; "http://172.20.0.1/"; "http://METADATA.goog/"] =
  replicate 4 false.
Proof. vm_compute. reflexivity. Qed.

(** ** Witnesses *)

Module McpNetExamples.
Export McpModel.
#[local] Existing Instances serde_number serde_lib serde_laws.
Definition json : McpJson := mcp_json no_json.
#[local] Existing Instances json.

Definition page : http_response :=
  mkResponse 200 (as_bytes <$> ["HTTP/1.1 200 OK"; "A: b"]) (as_bytes "hello" ++ [LF]).
Definition curl (h : list event) (a : io) : io_res a :=
  match a with
  | RunCommand _ _ _ _ => Some (Ok (mkOutput true (Some 0) (from_bytes (print_response page)) ""))
  | a => denied a
  end.
Definition get_page : Value := object [("url", VString "https://example.org/")].

Lemma curl_legal h a : io_legal a (curl h a).
Proof. destruct a; try exact (denied_legal _). by destruct timeout. Qed.
End McpNetExamples.

Import McpNetExamples.
#[local] Existing Instances serde_number serde_lib serde_laws json.


Lemma http_response_roundtrip_witness :
  read_response (from_bytes (print_response page)) = page.
Proof.
  apply http_response_roundtrip. split; [|split; [reflexivity|cbn; lia]].
  repeat constructor; done.
Defined.
