(* ===== verification/McpTenant.v ===== *)
(** * Tenants of the MCP server

    [rust-old/src/mcp/tenant.rs]: the registry of tenants and the two checks a
    dispatcher can make of a request.  The registry behind its lock is its
    contents; that the lock is poisoned is not modelled. *)

From Stdlib Require Import ZArith Lia Ascii.
From stdpp Require Import base tactics option list strings gmap.
From S2P Require Import Prelude RustStr Json Step Bus Mcp McpNet.

Open Scope Z_scope.

Record TenantQuota : Type := mkQuota {
  max_requests_per_sec : f64;
  max_concurrent_flows : Z
}.

Record TenantCtx : Type := mkTenant {
  tenant_id : string;
  display_name : option string;
  quota : TenantQuota;
  allowed_tools : option (gset string)
}.

Definition TenantRegistry : Type := gmap string TenantCtx.

Definition tenants_new : TenantRegistry := ∅.
Definition register (ctx : TenantCtx) (r : TenantRegistry) : TenantRegistry :=
  <[tenant_id ctx := ctx]> r.
Definition get_tenant (i : string) (r : TenantRegistry) : option TenantCtx := r !! i.
Definition deregister (i : string) (r : TenantRegistry) : TenantRegistry := delete i r.

Section Checks.
Context `{RL : RateLimiter}.

(** [TENANT_LIMITER] *)
Definition tenant_limiter : Limiter := limiter_new 100 500.

Definition check_tenant_quota (r : TenantRegistry) (l : Limiter) (now : Bus.Timestamp) (i : string)
  : result unit string * Limiter :=
  match get_tenant i r with
  | None => (Ok tt, l)
  | Some _ =>
      let '(ok, l) := limiter_check l now i in
      (if ok then Ok tt else Err ("rate limit exceeded for tenant " +:+ i), l)
  end.
End Checks.

Definition check_tenant_tool_access (r : TenantRegistry) (i tool : string) : result unit string :=
  match get_tenant i r with
  | None => Ok tt
  | Some ctx =>
      match allowed_tools ctx with
      | None => Ok tt
      | Some allowed =>
          if bool_decide (tool ∈ allowed) then Ok tt
          else Err ("tenant " +:+ i +:+ " is not permitted to use tool " +:+ tool)
      end
  end.

(** ** Histories *)

Inductive tenant_op : Type := Register (ctx : TenantCtx) | Deregister (i : string).

Definition tenant_step (r : TenantRegistry) (o : tenant_op) : TenantRegistry :=
  match o with Register ctx => register ctx r | Deregister i => deregister i r end.
Definition tenants_after (ops : list tenant_op) : TenantRegistry :=
  fold_left tenant_step ops tenants_new.

(** The last registration of [i] that no deregistration follows. *)
Definition op_id (o : tenant_op) : string :=
  match o with Register ctx => tenant_id ctx | Deregister i => i end.
Definition last_tenant (i : string) (ops : list tenant_op) : option TenantCtx :=
  match last (filter (fun o => op_id o = i) ops) with
  | Some (Register ctx) => Some ctx
  | _ => None
  end.

Lemma tenants_after_lookup ops i : get_tenant i (tenants_after ops) = last_tenant i ops.
Proof.
  unfold get_tenant, tenants_after, last_tenant. induction ops as [|o ops IH] using rev_ind; [done|].
  rewrite fold_left_app, filter_app. cbn [fold_left]. rewrite filter_cons, filter_nil.
  case_decide as Hi.
  - rewrite last_snoc. destruct o as [ctx|j]; cbn in *; subst.
    + apply lookup_insert_eq.
    + apply lookup_delete_eq.
  - rewrite app_nil_r, <- IH. destruct o as [ctx|j]; cbn in *.
    + by apply lookup_insert_ne.
    + by apply lookup_delete_ne.
Qed.

(** After any registrations and deregistrations, what a tenant may use depends
    on its own operations only: a tenant that is registered is refused exactly
    the tools outside of the list in its last registration, if there is one, and
    everybody else is refused nothing; the rate limiter is asked for the
    registered tenants, under their own ids. *)
Theorem tenant_isolation `{RL : RateLimiter} ops i tool l now :
  (is_Some (get_tenant i (tenants_after ops)) ->
     tenant_id <$> get_tenant i (tenants_after ops) = Some i) /\
  (check_tenant_tool_access (tenants_after ops) i tool =
   match last_tenant i ops ≫= allowed_tools with
   | Some allowed =>
       if bool_decide (tool ∈ allowed) then Ok tt
       else Err ("tenant " +:+ i +:+ " is not permitted to use tool " +:+ tool)
   | None => Ok tt
   end) /\
  check_tenant_quota (tenants_after ops) l now i =
  match last_tenant i ops with
  | Some _ => (if (limiter_check l now i).1 then Ok tt else Err ("rate limit exceeded for tenant " +:+ i),
               (limiter_check l now i).2)
  | None => (Ok tt, l)
  end.
Proof.
  unfold check_tenant_tool_access, check_tenant_quota. rewrite tenants_after_lookup.
  split; [|split].
  - unfold last_tenant. destruct (last _) as [[ctx|j]|] eqn:Hl; [|by intros []..].
    intros _. cbn. apply last_Some_elem_of, list_elem_of_filter in Hl as [<- _]. done.
  - destruct (last_tenant i ops) as [ctx|]; [|done]. cbn. by destruct (allowed_tools ctx).
  - destruct (last_tenant i ops); [|done]. by destruct (limiter_check l now i).
Qed.

Lemma get_registered ctx r : get_tenant (tenant_id ctx) (register ctx r) = Some ctx.
Proof. apply lookup_insert_eq. Qed.

(** The quota a tenant was registered with has no part in the check. *)
Lemma quota_ignored `{RL : RateLimiter} r l now ctx q :
  check_tenant_quota (register ctx r) l now (tenant_id ctx) =
  check_tenant_quota (register {| tenant_id := tenant_id ctx; display_name := display_name ctx;
    quota := q; allowed_tools := allowed_tools ctx |} r) l now (tenant_id ctx).
Proof.
  unfold check_tenant_quota. rewrite get_registered.
  by rewrite (get_registered {| tenant_id := tenant_id ctx; display_name := display_name ctx;
    quota := q; allowed_tools := allowed_tools ctx |}).
Qed.
