(* ===== verification/McpTools.v ===== *)
(** * The tools of the MCP server, together

    [all_tools] of [rust-old/src/mcp/tools/mod.rs] and [register_tools] of
    [rust-old/src/mcp/mod.rs], and what holds of every tool.  The registry and
    the dispatcher are those of the crate [bote]. *)

From Stdlib Require Import ZArith Lia Ascii.
From stdpp Require Import base tactics option list strings gmap.
From S2P Require Import Prelude RustStr Json Step Condition Bus Storage Prog RustPath.
From S2P Require Import Mcp McpWorkflow McpMath McpConvert McpText McpPaths McpFiles McpProcess.
From S2P Require Import McpGit McpNet Codecs.

Open Scope Z_scope.

(** ** The dispatcher *)

Class Bote `{JN : JsonNumber} := {
  ToolRegistry : Type;
  Dispatcher : Type;
  AuditSink : Type;
  EventSink : Type;
  registry_new : ToolRegistry;
  registry_register : ToolRegistry -> ToolDef -> ToolRegistry;
  dispatcher_new : ToolRegistry -> Dispatcher;
  set_audit : Dispatcher -> AuditSink -> Dispatcher;
  set_events : Dispatcher -> EventSink -> Dispatcher;
  handle : Dispatcher -> string -> (Value -> mcp Value) -> Dispatcher;
  (** the definition of a name, in a registry and behind a dispatcher, and the
      handler of a name *)
  registered : ToolRegistry -> string -> option ToolDef;
  described_by : Dispatcher -> string -> option ToolDef;
  handler_of : Dispatcher -> string -> option (Value -> mcp Value)
}.

(** A registry holds the last definition of a name, a dispatcher the registry it
    was made with and the last handler of a name. *)
Class BoteLaws `{BO : Bote} : Prop := {
  registered_new n : registered registry_new n = None;
  registered_register r d n : registered (registry_register r d) n =
    if decide (n = tool_name d) then Some d else registered r n;
  described_new r n : described_by (dispatcher_new r) n = registered r n;
  described_audit d a n : described_by (set_audit d a) n = described_by d n;
  described_events d e n : described_by (set_events d e) n = described_by d n;
  described_handle d m f n : described_by (handle d m f) n = described_by d n;
  handler_new r n : handler_of (dispatcher_new r) n = None;
  handler_audit d a n : handler_of (set_audit d a) n = handler_of d n;
  handler_events d e n : handler_of (set_events d e) n = handler_of d n;
  handler_handle d m f n : handler_of (handle d m f) n =
    if decide (n = m) then Some f else handler_of d n
}.

Section Registry.
Context `{JN : JsonNumber} `{JL : !JsonLib} `{MJ : !McpJson} `{UL : UuidLib}
  `{DC : !DefinitionCodec} `{B64 : Base64} `{CL : ChronoLib} `{DG : Digests}
  `{BT : BuildTarget} `{CC : ChronoClock} `{HO : HashOrder} `{BO : !Bote}.

Definition all_tools : list Tool :=
  [StepCreate; StepValidate; StepInspect;
   FlowCreate; FlowValidate; FlowFromJson; FlowListModes; FlowAddStep;
   StateCheck; StateTransition; StateLifecycle;
   EngineCreate; ResultInspect; StepStatusList; ErrorList; ServerInfo;
   SystemInfo; Cwd; EnvGet; McpProcess.Timestamp;
   UuidGen; Base64Tool;
   JsonPath; JsonDiff; JsonValidate;
   FileRead; FileWrite; DirList; FileStat; PathExists;
   Exec; Pid; Which;
   Sha256; Md5; RandomToken;
   TemplateRender; WordCount; TextReplace; TextSplit; TextJoin;
   HttpRequest; DnsLookup; PortCheck; UrlEncode;
   MathEval;
   BaseConvert; ByteFormat; DurationFormat;
   GitStatus; GitLog; GitDiff; GitBranch; GitBlame].

(** The dispatcher before the handlers are added. *)
Definition described_dispatcher (audit : option AuditSink) (events : option EventSink) : Dispatcher :=
  let registry := fold_left (fun r t => registry_register r (definition t)) all_tools registry_new in
  let dispatcher := dispatcher_new registry in
  let dispatcher := match audit with Some a => set_audit dispatcher a | None => dispatcher end in
  match events with Some e => set_events dispatcher e | None => dispatcher end.

Definition register_tools_with (audit : option AuditSink) (events : option EventSink) : Dispatcher :=
  fold_left (fun d t => handle d (tool_name (definition t)) (tool_call t)) all_tools
    (described_dispatcher audit events).

Definition register_tools : Dispatcher := register_tools_with None None.

Definition tool_names : list string := (fun t => tool_name (definition t)) <$> all_tools.

Lemma tool_names_unique : NoDup tool_names.
Proof. apply (bool_decide_unpack _). vm_compute. exact I. Qed.
End Registry.

(** ** Every tool *)

(** A tool that always answers. *)
Class Answers `{JN : JsonNumber} (t : Tool) : Prop :=
  answers args h : mwp h (tool_call t args) (fun _ o => is_Some o).

Ltac tool_answers :=
  intros ? ?; unfold_tool;
  repeat ((apply mwp_git_any; intros ? ?) || tool_step); try done; by eexists.

Section Every.
Context `{JN : JsonNumber} `{JL : !JsonLib} `{LW : !JsonLaws} `{MJ : !McpJson} `{UL : UuidLib}
  `{DC : !DefinitionCodec} `{B64 : Base64} `{CL : ChronoLib} `{DG : Digests}
  `{BT : BuildTarget} `{CC : ChronoClock} `{HO : HashOrder}.

Lemma all_lawful : Forall ToolLaws all_tools.
Proof. unfold all_tools. repeat (constructor; [apply _|]). constructor. Qed.

Lemma mwp_new_uuids_sandboxed n : forall h,
  sandboxed h -> mwp h (new_uuids n) (fun h' _ => sandboxed h').
Proof.
  induction n as [|n IH]; intros h Hs; [done|]. cbn. intros u _. apply mwp_bind.
  eapply mwp_mono; [|apply IH; by apply sandboxed_snoc]. by intros h' [].
Qed.

#[export] Instance UuidGen_confined : Confined UuidGen.
Proof.
  intros args h Hs. unfold tool_call, UuidGen, uuid_gen. cbv zeta. apply mwp_bind.
  eapply mwp_mono; [|by apply mwp_new_uuids_sandboxed]. intros h' [[|u us]|] Hs'; [..|done];
    by destruct (_ =? 1).
Qed.

Lemma eval_expr_total expr : is_Some (eval_expr expr).
Proof.
  unfold eval_expr, tokenize.
  destruct (tokenize_loop_total _ (as_bytes expr) [] (Nat.le_refl _)) as [[ts|e] ->]; [|by eexists].
  apply eval_tokens_total.
Qed.

#[export] Instance MathEval_answers : Answers MathEval.
Proof.
  intros args h. unfold_tool. repeat first [by eexists|
    match goal with |- context [eval_expr ?e] => destruct (eval_expr_total e) as [[] ->] end|tool_step].
Qed.
#[export] Instance TemplateRender_answers : Answers TemplateRender.
Proof.
  intros args h. unfold_tool. repeat first [by eexists|
    match goal with |- context [render_template ?t ?v] =>
      destruct (render_template_total t v) as [? ->] end|tool_step].
Qed.
#[export] Instance UuidGen_answers : Answers UuidGen.
Proof.
  intros args h. unfold_tool. apply mwp_bind.
  eapply mwp_mono; [|apply mwp_new_uuids]. intros h' o (us & -> & Hn).
  destruct (_ =? 1) eqn:E; [|by eexists]. destruct us; [|by eexists]. cbn in Hn. lia.
Qed.
#[export] Instance DirList_answers : Answers DirList.
Proof.
  intros args h. eapply mwp_mono; [|apply mwp_dir_list]. intros h' o (v & -> & _). by eexists.
Qed.

Lemma all_answer :
  Forall (fun t => tool_name (definition t) = "szal_file_read" \/ Answers t) all_tools.
Proof.
  unfold all_tools. repeat (constructor; [first [right; apply _|by left|right; tool_answers]|]).
  constructor.
Qed.

Lemma all_confined : Forall Confined all_tools.
Proof.
  unfold all_tools. repeat (constructor; [first [apply _|confines]|]). constructor.
Qed.
End Every.


(** ** Registration *)

Section Dispatch.
Context `{BL : BoteLaws}.

Definition named (n : string) (ts : list Tool) : option Tool :=
  List.find (fun t => bool_decide (n = tool_name (definition t))) (rev ts).

Lemma find_snoc ts t n : named n (ts ++ [t]) =
  if decide (n = tool_name (definition t)) then Some t else named n ts.
Proof.
  unfold named. rewrite rev_unit. cbn. case_bool_decide; by case_decide.
Qed.

Lemma registered_all ts : forall n,
  registered (fold_left (fun r t => registry_register r (definition t)) ts registry_new) n =
  definition <$> named n ts.
Proof.
  induction ts as [|t ts IH] using rev_ind; intros n; [apply registered_new|].
  rewrite fold_left_app, find_snoc. cbn [fold_left]. rewrite registered_register, IH.
  by destruct (decide _).
Qed.

Lemma handled_all ts d : forall n,
  handler_of (fold_left (fun d t => handle d (tool_name (definition t)) (tool_call t)) ts d) n =
    (match named n ts with Some t => Some (tool_call t) | None => handler_of d n end) /\
  described_by (fold_left (fun d t => handle d (tool_name (definition t)) (tool_call t)) ts d) n =
    described_by d n.
Proof.
  induction ts as [|t ts IH] using rev_ind; intros n; [done|].
  rewrite fold_left_app, find_snoc. cbn [fold_left].
  rewrite handler_handle, described_handle. destruct (IH n) as [-> ->]. by destruct (decide _).
Qed.

Lemma named_in ts t : NoDup ((fun t => tool_name (definition t)) <$> ts) -> t ∈ ts ->
  named (tool_name (definition t)) ts = Some t.
Proof.
  induction ts as [|u ts IH] using rev_ind; intros Hnd Ht; [by apply not_elem_of_nil in Ht|].
  rewrite fmap_app in Hnd. apply NoDup_app in Hnd as (Hnd & Hdis & _).
  rewrite find_snoc. apply elem_of_app in Ht as [Ht|Ht%list_elem_of_singleton].
  - rewrite decide_False; [by apply IH|]. intros Heq.
    apply (Hdis (tool_name (definition t))); [by apply list_elem_of_fmap; exists t|].
    rewrite Heq. by left.
  - subst. by rewrite decide_True.
Qed.

Lemma named_none ts n : n ∉ (fun t => tool_name (definition t)) <$> ts -> named n ts = None.
Proof.
  induction ts as [|u ts IH] using rev_ind; intros Hn; [done|].
  rewrite fmap_app in Hn. rewrite find_snoc, decide_False.
  - apply IH. set_solver.
  - set_solver.
Qed.
End Dispatch.

(** The dispatcher that [register_tools_with] returns serves, under the name of
    each tool, the definition and the handler of that tool, and nothing under
    other names, with or without sinks: no two tools share a name. *)
Theorem tools_registered `{BL : BoteLaws} `{JL : !JsonLib} `{MJ : !McpJson} `{UL : UuidLib}
    `{DC : !DefinitionCodec} `{B64 : Base64} `{CL : ChronoLib} `{DG : Digests}
    `{BT : BuildTarget} `{CC : ChronoClock} `{HO : HashOrder} audit events :
  let d := register_tools_with audit events in
  (forall t, t ∈ all_tools ->
     described_by d (tool_name (definition t)) = Some (definition t) /\
     handler_of d (tool_name (definition t)) = Some (tool_call t)) /\
  (forall n, n ∉ tool_names -> described_by d n = None /\ handler_of d n = None) /\
  NoDup tool_names /\ length all_tools = 54%nat.
Proof.
  intros d. set (base := described_dispatcher audit events).
  assert (Hbase : forall n, handler_of base n = None /\ described_by base n = definition <$> named n all_tools).
  { intros n. unfold base, described_dispatcher. destruct audit, events;
      rewrite ?handler_events, ?handler_audit, ?handler_new, ?described_events, ?described_audit,
        ?described_new, registered_all; done. }
  assert (Hd : forall n, handler_of d n = tool_call <$> named n all_tools /\
    described_by d n = definition <$> named n all_tools).
  { intros n. destruct (handled_all all_tools base n) as [Hh Hb]. destruct (Hbase n) as [Hh0 Hb0].
    rewrite Hh0 in Hh. rewrite Hb0 in Hb. split; [|exact Hb]. etrans; [exact Hh|].
    by destruct (named n all_tools). }
  split; [|split; [|split; [apply tool_names_unique|done]]].
  - intros t Ht. destruct (Hd (tool_name (definition t))) as [-> ->].
    by rewrite (named_in _ _ tool_names_unique Ht).
  - intros n Hn. destruct (Hd n) as [-> ->]. by rewrite named_none.
Qed.

(** ** Witnesses *)

Module McpToolsExamples.
Export McpModel.
#[local] Existing Instances serde_number serde_lib serde_laws.
Definition json : McpJson := mcp_json no_json.
#[local] Existing Instances json.
#[local] Instance ids : UuidLib := {| uuid_to_string u := "id"; uuid_parse s := None |}.
#[local] Instance codec : DefinitionCodec := {|
  step_from_str s := Err "no"; step_from_value v := Err "no"; step_to_value s := Err "no";
  flow_from_str s := Err "no"; flow_to_value f := Err "no"
|}.
#[local] Instance plain64 : Base64 := {|
  base64_encode := from_bytes; base64_decode s := Ok (as_bytes s)
|}.
#[local] Instance clock : ChronoLib := {| rfc3339 t := "now" |}.
#[local] Instance digests : Digests := {| sha256_digest l := l; md5_digest l := l |}.
#[local] Instance target : BuildTarget := {| OS := "linux"; ARCH := "x86_64" |}.
#[local] Instance seconds : ChronoClock := {| unix_secs t := t; unix_millis t := t * 1000 |}.
#[local] Instance sorted_order : HashOrder := {|
  hash_iter V m := map_to_list m; hash_iter_perm V m := reflexivity _
|}.

(** A dispatcher that is the two tables it promises. *)
#[local] Instance tables : Bote := {|
  ToolRegistry := string -> option ToolDef;
  Dispatcher := (string -> option ToolDef) * (string -> option (Value -> mcp Value));
  AuditSink := unit;
  EventSink := unit;
  registry_new n := None;
  registry_register r d n := if decide (n = tool_name d) then Some d else r n;
  dispatcher_new r := (r, fun n => None);
  set_audit d a := d;
  set_events d e := d;
  handle d m f := (d.1, fun n => if decide (n = m) then Some f else d.2 n);
  registered r := r;
  described_by d := d.1;
  handler_of d := d.2
|}.
#[local] Instance tables_laws : BoteLaws.
Proof. by split. Qed.
End McpToolsExamples.

Import McpToolsExamples.
#[local] Existing Instances serde_number serde_lib serde_laws json ids codec plain64 clock digests
  target seconds sorted_order tables tables_laws.


Lemma tools_registered_witness :
  handler_of register_tools "szal_pid" = Some pid /\ handler_of register_tools "szal_rm" = None.
Proof.
  destruct (tools_registered None None) as (Hin & Hout & _ & _). split.
  - apply (Hin Pid). do 31 right. by left.
  - apply Hout. apply (bool_decide_unpack _). vm_compute. exact I.
Defined.
