(* ===== verification/TenantCodec.v ===== *)
(** * The JSON form of tenants

    The codecs derived for [TenantQuota] and [TenantCtx] of
    [rust-old/src/mcp/tenant.rs], and what survives them. *)

From Stdlib Require Import ZArith Lia Ascii.
From stdpp Require Import base tactics option list strings gmap.
From S2P Require Import Prelude RustStr Json Storage Mcp McpTenant Serde SerdeTypes.

Open Scope Z_scope.

Section TenantCodec.
Context `{JN : JsonNumber} `{JL : !JsonLib} `{MJ : !McpJson} `{HO : HashOrder}.

(** An [f64] that is not finite is written as [null]; any number is read. *)
Definition read_f64 (v : Value) : option f64 := value_as_f64 v.

Definition write_quota (q : TenantQuota) : Value :=
  VObject [("max_requests_per_sec", json_f64 (max_requests_per_sec q));
           ("max_concurrent_flows", json_u64 (max_concurrent_flows q))].

Definition quota_fields (src : source) : option TenantQuota :=
  rate' ← field src 0 "max_requests_per_sec" read_f64 required;
  flows' ← field src 1 "max_concurrent_flows" read_u32 required;
  Some (mkQuota rate' flows').
Definition read_quota (v : Value) : option TenantQuota := read_struct 2 quota_fields v.

(** A [HashSet] is written in its order and collected again. *)
Definition write_set (s : gset string) : Value :=
  json_strings (hash_iter (gset_to_gmap tt s)).*1.
Definition read_set (v : Value) : option (gset string) := list_to_set <$> read_vec read_string v.

Definition write_tenant (ctx : TenantCtx) : Value :=
  VObject [("tenant_id", VString (tenant_id ctx));
           ("display_name", write_option VString (display_name ctx));
           ("quota", write_quota (quota ctx));
           ("allowed_tools", write_option write_set (allowed_tools ctx))].

Definition tenant_fields (src : source) : option TenantCtx :=
  id' ← field src 0 "tenant_id" read_string required;
  name' ← field src 1 "display_name" (read_option read_string) optional;
  quota' ← field src 2 "quota" read_quota required;
  tools' ← field src 3 "allowed_tools" (read_option read_set) optional;
  Some (mkTenant id' name' quota' tools').
Definition read_tenant (v : Value) : option TenantCtx := read_struct 4 tenant_fields v.

(** ** Reading back *)

Context `{LW : !JsonLaws} `{ML : !McpJsonLaws}.
Context (t : Value -> Value) (Ht : transport t).

Lemma set_written s : list_to_set (hash_iter (gset_to_gmap () s)).*1 = (s : gset string).
Proof.
  apply set_eq. intros k. rewrite elem_of_list_to_set, list_elem_of_fmap. split.
  - intros ([k' []] & -> & H). rewrite hash_iter_perm in H.
    apply elem_of_map_to_list, lookup_gset_to_gmap_Some in H as [H _]. exact H.
  - intros H. exists (k, tt). split; [done|]. rewrite hash_iter_perm.
    by apply elem_of_map_to_list, lookup_gset_to_gmap_Some.
Qed.

Lemma read_set_across s : read_set (t (write_set s)) = Some s.
Proof.
  unfold read_set, write_set, json_strings.
  rewrite (read_vec_across t Ht VString read_string (fun x => x)).
  - cbn. by rewrite list_fmap_id, set_written.
  - apply Forall_forall. intros x _. by apply read_string_across.
Qed.

(** A field of a struct that is written with distinct names *)
Ltac open_struct fields :=
  apply read_struct_across; [done|apply (bool_decide_unpack _); vm_compute; exact I|];
  intros o' Hf; unfold fields; rewrite !Hf; find_field; clear Hf.

Lemma read_quota_across q rate :
  in_u32 (max_concurrent_flows q) ->
  value_as_f64 (t (json_f64 (max_requests_per_sec q))) = Some rate ->
  read_quota (t (write_quota q)) = Some (mkQuota rate (max_concurrent_flows q)).
Proof.
  intros Hq Hr. open_struct (@quota_fields). unfold read_f64. rewrite Hr. cbn.
  by rewrite (read_u32_across t Ht).
Qed.

Lemma read_tenant_across ctx rate :
  in_u32 (max_concurrent_flows (quota ctx)) ->
  value_as_f64 (t (json_f64 (max_requests_per_sec (quota ctx)))) = Some rate ->
  read_tenant (t (write_tenant ctx)) =
    Some (mkTenant (tenant_id ctx) (display_name ctx)
            (mkQuota rate (max_concurrent_flows (quota ctx))) (allowed_tools ctx)).
Proof.
  intros Hq Hr. open_struct (@tenant_fields).
  rewrite (read_string_across t Ht), (read_quota_across _ rate) by done. cbn.
  rewrite (read_option_across t Ht VString read_string (fun x => x)).
  - rewrite (read_option_across t Ht write_set read_set (fun x => x)).
    + cbn. by rewrite !option_fmap_id.
    + intros s _. rewrite read_set_across. split; [done|]. unfold write_set, json_strings.
      by rewrite (transport_array t Ht).
  - intros s _. rewrite (transport_string t Ht). done.
Qed.

(** A quota without a limit, or with one that is no number, is not read back. *)
Lemma infinite_rate_lost q :
  f64_is_finite (max_requests_per_sec q) = false -> read_quota (t (write_quota q)) = None.
Proof.
  intros Hq. open_struct (@quota_fields). unfold read_f64, json_f64.
  rewrite from_f64_not_finite by done. by rewrite (transport_null t Ht).
Qed.
End TenantCodec.
