(* ===== verification/ConformKit.v ===== *)
(** * Conformance: reading the repository's tests

    The unit tests of the crate are programs over its public functions.  The files
    [Conform*] translate them, test by test, to programs over the model's
    definitions: a test is the list of its assertions, and passes when all of them
    evaluate to [true].  They check the model against what the authors assert of
    the code, on the concrete instances of the libraries below. *)

From Stdlib Require Import ZArith Lia Ascii.
From stdpp Require Import base tactics option list strings gmap.
From S2P Require Import Prelude RustStr Json Step Storage Mcp Serde Codecs.

Open Scope Z_scope.

#[export] Existing Instances SerdeModel.serde_number TextModel.text_lib TextModel.text_mcp
  TextModel.text StorageModel.unary_ids StorageModel.list_order.

(** ** Tests *)

Definition checks : Type := list bool.

Definition passes (test : checks) : bool := forallb (fun b => b) test.

(** [assert!(r.unwrap())], [assert!(!r.unwrap())], [assert!(r.is_err())] *)
Definition holds {E} (r : result bool E) : bool := match r with Ok b => b | Err _ => false end.
Definition refuted {E} (r : result bool E) : bool :=
  match r with Ok b => negb b | Err _ => false end.
Definition errs {A E} (r : result A E) : bool := match r with Ok _ => false | Err _ => true end.

(** [assert_eq!(a, b)] *)
Definition same {A} `{EqDecision A} (a b : A) : bool := bool_decide (a = b).

(** [assert_eq!(o, Some(a))] and a test of what a result or an option holds *)
Definition some_is {A} (p : A -> bool) (o : option A) : bool :=
  match o with Some x => p x | None => false end.
Definition none_is {A} (o : option A) : bool := match o with Some _ => false | None => true end.
Definition ok_is {A E} (p : A -> bool) (r : result A E) : bool :=
  match r with Ok x => p x | Err _ => false end.
Definition err_is {A E} (p : E -> bool) (r : result A E) : bool :=
  match r with Ok _ => false | Err e => p e end.

(** ** JSON *)

(** [json!({ ... })] and [json!(n)] *)
Definition object (l : list (string * Value)) : Value := VObject (json_object l).
Definition int (n : Z) : Value := VNumber (SerdeModel.PosInt n).

(** [v["a"]["b"]] *)
Definition at_key (v : Value) (path : list string) : Value :=
  fold_left (fun v k => default Null (value_get v k)) path v.

(** [assert_eq!(v[..], "text")] and the like *)
Definition is_text (s : string) (v : Value) : bool :=
  match v with VString t => same t s | _ => false end.
Definition is_null (v : Value) : bool := match v with Null => true | _ => false end.
Definition is_int (n : Z) (v : Value) : bool := some_is (Z.eqb n) (as_u64 v).
Definition is_true (v : Value) : bool := match v with VBool b => b | _ => false end.
Definition is_false (v : Value) : bool := match v with VBool b => negb b | _ => false end.

(** [s.contains(sub)] *)
Definition contains (sub s : string) : bool :=
  match find_bytes (as_bytes sub) (as_bytes s) with Some _ => true | None => false end.
