(* ===== verification/ConformCondition.v ===== *)
(** * Conformance: conditions

    The tests of [rust-old/src/condition.rs], which the model passes. *)

From Stdlib Require Import ZArith Lia Ascii.
From stdpp Require Import base tactics option list strings gmap.
From S2P Require Import Prelude RustStr Json Step CondLexer CondParser Condition.
From S2P Require Import Storage Mcp Serde Codecs ConformKit.

Open Scope Z_scope.

Definition path_resolution : checks :=
  let ctx := object [("steps", object [("build", object [("status", VString "completed")])])] in
  [holds (evaluate "steps.build.status == 'completed'" ctx)].

Definition missing_path_returns_null : checks :=
  let ctx := object [] in
  [refuted (evaluate "steps.build.status == 'completed'" ctx);
   refuted (evaluate "steps.build.status" ctx)].

Definition string_comparison : checks :=
  let ctx := object [] in
  [holds (evaluate "'completed' == 'completed'" ctx);
   refuted (evaluate "'completed' == 'failed'" ctx)].

Definition number_comparison : checks :=
  let ctx := object [] in
  [holds (evaluate "42 == 42" ctx);
   refuted (evaluate "42 == 43" ctx)].

Definition float_number_comparison : checks :=
  let ctx := object [] in
  [holds (evaluate "3.14 == 3.14" ctx);
   refuted (evaluate "3.14 == 3.15" ctx)].

Definition boolean_literals : checks :=
  let ctx := object [] in
  [holds (evaluate "true" ctx);
   refuted (evaluate "false" ctx)].

Definition and_operator : checks :=
  let ctx := object [] in
  [holds (evaluate "true && true" ctx);
   refuted (evaluate "true && false" ctx);
   refuted (evaluate "false && true" ctx);
   refuted (evaluate "false && false" ctx)].

Definition or_operator : checks :=
  let ctx := object [] in
  [holds (evaluate "true || true" ctx);
   holds (evaluate "true || false" ctx);
   holds (evaluate "false || true" ctx);
   refuted (evaluate "false || false" ctx)].

Definition not_equal : checks :=
  let ctx := object [] in
  [holds (evaluate "'a' != 'b'" ctx);
   refuted (evaluate "'a' != 'a'" ctx)].

Definition parentheses : checks :=
  let ctx := object [] in
  [holds (evaluate "(true || false) && true" ctx);
   refuted (evaluate "(true || false) && false" ctx);
   holds (evaluate "true || (false && false)" ctx)].

Definition complex_step_conditions : checks :=
  let ctx := object [("steps", object [("build", object [("status", VString "completed")]);
                                       ("test", object [("status", VString "completed")])])] in
  let ctx_fail := object [("steps", object [("build", object [("status", VString "completed")]);
                                            ("test", object [("status", VString "failed")])])] in
  [holds (evaluate "steps.build.status == 'completed' && steps.test.status == 'completed'" ctx);
   refuted (evaluate "steps.build.status == 'completed' && steps.test.status == 'completed'" ctx_fail)].

Definition missing_step : checks :=
  let ctx := object [("steps", object [("build", object [("status", VString "completed")])])] in
  [refuted (evaluate "steps.missing.status == 'completed'" ctx)].

Definition malformed_expression : checks :=
  let ctx := object [] in
  [errs (evaluate "== 'foo'" ctx)].

Definition unterminated_string : checks :=
  let ctx := object [] in
  [errs (evaluate "'unterminated" ctx)].

Definition unmatched_paren : checks :=
  let ctx := object [] in
  [errs (evaluate "(true" ctx)].

Definition empty_expression_is_true : checks :=
  let ctx := object [] in
  [holds (evaluate "" ctx);
   holds (evaluate " " ctx)].

Definition cross_type_comparison_is_false : checks :=
  let ctx := object [] in
  [refuted (evaluate "42 == 'forty-two'" ctx);
   refuted (evaluate "true == 'true'" ctx);
   refuted (evaluate "true == 1" ctx)].

Definition null_equals_null : checks :=
  let ctx := object [] in
  [holds (evaluate "missing.a == missing.b" ctx)].

Definition build_context_structure : checks :=
  let build := step_new 1%N "build" in
  let test := step_new 2%N "test" in
  let steps := [build; test] in
  let results :=
    [{| step_id := id build; status := StepStatus.Completed;
        output := object [("artifact", VString "build.tar.gz")];
        duration_ms := 1200; attempts := 1; error := None |};
     {| step_id := id test; status := StepStatus.Failed; output := Null;
        duration_ms := 500; attempts := 2; error := Some "assertion failed" |}] in
  let ctx := build_step_context results steps in
  [is_text "completed" (at_key ctx ["steps"; "build"; "status"]);
   is_text "build.tar.gz" (at_key ctx ["steps"; "build"; "output"; "artifact"]);
   is_null (at_key ctx ["steps"; "build"; "error"]);
   is_text "failed" (at_key ctx ["steps"; "test"; "status"]);
   is_text "assertion failed" (at_key ctx ["steps"; "test"; "error"]);
   holds (evaluate "steps.build.status == 'completed'" ctx);
   refuted (evaluate "steps.test.status == 'completed'" ctx);
   holds (evaluate "steps.test.status == 'failed'" ctx)].

Definition build_context_skips_unknown_step_ids : checks :=
  let build := step_new 1%N "build" in
  let steps := [build] in
  let results :=
    [{| step_id := id build; status := StepStatus.Completed; output := Null;
        duration_ms := 100; attempts := 1; error := None |};
     {| step_id := 7%N; status := StepStatus.Failed; output := Null;
        duration_ms := 0; attempts := 1; error := Some "orphan" |}] in
  let ctx := build_step_context results steps in
  [is_text "completed" (at_key ctx ["steps"; "build"; "status"]);
   match at_key ctx ["steps"] with VObject o => same (length o) 1%nat | _ => false end].

Definition and_binds_tighter_than_or : checks :=
  let ctx := object [] in
  [holds (evaluate "false || true && true" ctx);
   holds (evaluate "true || true && false" ctx);
   refuted (evaluate "false || false && true" ctx)].

Definition trailing_tokens_are_error : checks :=
  let ctx := object [] in
  [errs (evaluate "true true" ctx)].

Definition and_short_circuits_on_false : checks :=
  let ctx := object [] in
  [refuted (evaluate "false && missing.path" ctx)].

Definition or_short_circuits_on_true : checks :=
  let ctx := object [] in
  [holds (evaluate "true || missing.path" ctx)].

Definition string_literal_with_unicode : checks :=
  let ctx := object [("greeting", VString "héllo")] in
  [holds (evaluate "greeting == 'héllo'" ctx);
   refuted (evaluate "greeting == 'hello'" ctx)].

Definition render_template_with_unicode : checks :=
  let ctx := object [("name", VString "André")] in
  [same (render_template "Hello {{name}}!" ctx) (Some "Hello André!")].

Definition render_template_with_unicode_literal_text : checks :=
  let ctx := object [("x", VString "y")] in
  [same (render_template "café {{x}}" ctx) (Some "café y")].

Definition greater_than : checks :=
  let ctx := object [] in
  [holds (evaluate "10 > 5" ctx);
   refuted (evaluate "5 > 10" ctx);
   refuted (evaluate "5 > 5" ctx)].

Definition greater_than_or_equal : checks :=
  let ctx := object [] in
  [holds (evaluate "10 >= 5" ctx);
   holds (evaluate "5 >= 5" ctx);
   refuted (evaluate "4 >= 5" ctx)].

Definition less_than : checks :=
  let ctx := object [] in
  [holds (evaluate "5 < 10" ctx);
   refuted (evaluate "10 < 5" ctx);
   refuted (evaluate "5 < 5" ctx)].

Definition less_than_or_equal : checks :=
  let ctx := object [] in
  [holds (evaluate "5 <= 10" ctx);
   holds (evaluate "5 <= 5" ctx);
   refuted (evaluate "6 <= 5" ctx)].

Definition comparison_with_paths : checks :=
  let ctx := object [("a", int 10); ("b", int 5)] in
  [holds (evaluate "a > b" ctx);
   refuted (evaluate "b > a" ctx);
   holds (evaluate "a >= 10" ctx);
   holds (evaluate "b < a" ctx)].

Definition comparison_with_floats : checks :=
  let ctx := object [] in
  [holds (evaluate "3.14 > 2.71" ctx);
   holds (evaluate "2.71 < 3.14" ctx);
   holds (evaluate "3.14 >= 3.14" ctx)].

Definition string_comparison_ordering : checks :=
  let ctx := object [] in
  [holds (evaluate "'banana' > 'apple'" ctx);
   holds (evaluate "'apple' < 'banana'" ctx);
   holds (evaluate "'apple' <= 'apple'" ctx)].

Definition cross_type_comparison_returns_false : checks :=
  let ctx := object [] in
  [refuted (evaluate "42 > 'hello'" ctx);
   refuted (evaluate "'hello' < 42" ctx)].

Definition not_operator : checks :=
  let ctx := object [] in
  [refuted (evaluate "!true" ctx);
   holds (evaluate "!false" ctx)].

Definition not_with_path : checks :=
  let ctx := object [("enabled", VBool false); ("missing", Null)] in
  [holds (evaluate "!enabled" ctx);
   holds (evaluate "!missing" ctx)].

Definition not_with_comparison : checks :=
  let ctx := object [] in
  [holds (evaluate "!(5 > 10)" ctx);
   refuted (evaluate "!(10 > 5)" ctx)].

Definition double_not : checks :=
  let ctx := object [] in
  [holds (evaluate "!!true" ctx);
   refuted (evaluate "!!false" ctx)].

Definition not_in_compound_expression : checks :=
  let ctx := object [("status", VString "failed")] in
  [holds (evaluate "!(status == 'completed') && status == 'failed'" ctx);
   refuted (evaluate "!status == 'completed'" ctx)].

Definition compiled_condition_reuse : checks :=
  let cond := compile "n > 5" in
  [ok_is (fun c => holds (evaluate_compiled c (object [("n", int 10)]))) cond;
   ok_is (fun c => refuted (evaluate_compiled c (object [("n", int 3)]))) cond;
   ok_is (fun c => same (Condition.source c) "n > 5") cond].

Definition compiled_empty_is_true : checks :=
  let cond := compile "   " in
  [ok_is (fun c => holds (evaluate_compiled c (object []))) cond;
   ok_is (fun c => same (Condition.source c) "") cond].

Definition compiled_malformed_errors : checks :=
  [errs (compile "== 'x'"); errs (compile "true true"); errs (compile "'unterminated")].

Definition cache_memoizes_compilation : checks :=
  let cache := cache_new in
  let '(r1, cache1) := cache_evaluate cache "n > 5" (object [("n", int 10)]) in
  let '(r2, cache2) := cache_evaluate cache1 "n > 5" (object [("n", int 3)]) in
  let '(r3, cache3) := cache_evaluate cache2 "n > 5" (object [("n", int 100)]) in
  let '(r4, cache4) := cache_evaluate cache3 "n < 5" (object [("n", int 1)]) in
  [cache_is_empty cache; holds r1; refuted r2; holds r3; same (cache_len cache3) 1%nat;
   holds r4; same (cache_len cache4) 2%nat].

Definition cache_caches_errors : checks :=
  let cache := cache_new in
  let ctx := object [] in
  let '(r1, cache1) := cache_evaluate cache "== bad" ctx in
  let '(r2, cache2) := cache_evaluate cache1 "== bad" ctx in
  [errs r1; errs r2; same (cache_len cache2) 1%nat].

Definition cache_matches_direct_evaluate : checks :=
  let cache := cache_new in
  let ctx := object [("steps", object [("build", object [("status", VString "completed")])])] in
  let expr := "steps.build.status == 'completed'" in
  [match (cache_evaluate cache expr ctx).1, evaluate expr ctx with
   | Ok a, Ok b => Bool.eqb a b
   | _, _ => false
   end].

Definition condition_tests : list checks :=
  [path_resolution; missing_path_returns_null; string_comparison; number_comparison;
   float_number_comparison; boolean_literals; and_operator; or_operator; not_equal; parentheses;
   complex_step_conditions; missing_step; malformed_expression; unterminated_string;
   unmatched_paren; empty_expression_is_true; cross_type_comparison_is_false; null_equals_null;
   build_context_structure; build_context_skips_unknown_step_ids; and_binds_tighter_than_or;
   trailing_tokens_are_error; and_short_circuits_on_false; or_short_circuits_on_true;
   string_literal_with_unicode; render_template_with_unicode;
   render_template_with_unicode_literal_text; greater_than; greater_than_or_equal; less_than;
   less_than_or_equal; comparison_with_paths; comparison_with_floats; string_comparison_ordering;
   cross_type_comparison_returns_false; not_operator; not_with_path; not_with_comparison;
   double_not; not_in_compound_expression; compiled_condition_reuse; compiled_empty_is_true;
   compiled_malformed_errors; cache_memoizes_compilation; cache_caches_errors;
   cache_matches_direct_evaluate].

Lemma condition_tests_pass : forallb passes condition_tests = true.
Proof. vm_compute. reflexivity. Qed.
