(* ===== verification/ConformDefs.v ===== *)
(** * Conformance: definitions, events and stores

    The tests of [rust-old/src/tests/mod.rs], [state.rs], [step.rs], [flow.rs], [storage.rs],
    [migration.rs], [bus.rs], [stream.rs] and [sql_store.rs], which the model
    passes.  The generated inputs of the property tests are not drawn but
    quantified: [..._any] and the lemmas after the tests hold for all of them. *)

From Stdlib Require Import ZArith Lia Ascii.
From stdpp Require Import base tactics option list strings gmap.
From S2P Require Import Prelude RustStr Json State Error Bus Stream Step Flow Migration.
From S2P Require Import EngineResult Storage SqlStore SqlBackend.
From S2P Require Import RustPath Mcp Serde SerdeTypes Codecs Hub EventBus ConformKit.

Open Scope Z_scope.

(** [serde_json::from_str(&serde_json::to_string(..))] *)
Definition through_text {A} (write : A -> Value) (read : Value -> option A) (a : A)
  : result A string := from_str read (value_to_string (write a)).

(** The tests of the crate, in [rust-old/src/tests/mod.rs] *)
Module CrateTests.
Definition full_sequential_flow : checks :=
  let flow := add_step (add_step (add_step (flow_new 9%N "deploy-pipeline" FlowMode.Sequential)
    (Step.with_timeout (step_new 1%N "build") 60000)) (with_retries (step_new 2%N "test") 2 1000))
    (Step.with_rollback (step_new 3%N "deploy")) in
  [same (length (steps flow)) 3%nat; negb (errs (validate flow))].

Definition dag_flow_with_diamond : checks :=
  let build := step_new 1%N "build" in
  let test_unit := with_dependency (step_new 2%N "unit-test") (id build) in
  let test_integ := with_dependency (step_new 3%N "integ-test") (id build) in
  let deploy := with_dependency (with_dependency (step_new 4%N "deploy") (id test_unit))
    (id test_integ) in
  let flow := fold_left add_step [build; test_unit; test_integ; deploy]
    (flow_new 9%N "diamond" FlowMode.Dag) in
  [negb (errs (validate flow))].

Definition workflow_state_lifecycle : checks :=
  let s := WorkflowState.Created in
  [WorkflowState.valid_transition s WorkflowState.Running; negb (WorkflowState.is_terminal s)].

Definition error_display : checks :=
  let err := RetryExhausted "deploy" 3 in
  [contains "deploy" (fmt_error err); contains "3" (fmt_error err)].

Lemma crate_tests_pass :
  forallb passes [full_sequential_flow; dag_flow_with_diamond; workflow_state_lifecycle;
    error_display] = true.
Proof. vm_compute. reflexivity. Qed.
End CrateTests.

Module StateTests.
Import WorkflowState.

Definition terminal_states : checks :=
  [is_terminal Completed; negb (is_terminal Failed); is_terminal RolledBack;
   is_terminal Cancelled; negb (is_terminal Running); negb (is_terminal RollingBack)].

Definition valid_transitions : checks :=
  [valid_transition Created Running; valid_transition Running Completed;
   valid_transition Running RollingBack; valid_transition Failed RollingBack;
   negb (valid_transition Completed Running); negb (valid_transition Created Completed)].

Definition no_transition_from_terminal : checks :=
  let terminals := [Completed; RolledBack; Cancelled] in
  let all := [Created; Running; Paused; Completed; Failed; RollingBack; RolledBack; Cancelled] in
  t ← terminals; target ← all; [negb (valid_transition t target)].

Definition serde_roundtrip : checks :=
  let state := RollingBack in
  [ok_is (same state) (through_text (fun s => VString (state_variant s)) read_state state)].

Definition display : checks := [same (fmt RollingBack) "rolling_back"].

Definition fully_terminal_states_have_no_outgoing (from to : WorkflowState.t) : checks :=
  let fully_terminal := match from with Completed | RolledBack | Cancelled => true | _ => false end in
  if fully_terminal then [negb (valid_transition from to)] else [].

Definition display_never_empty (state : WorkflowState.t) : checks :=
  [negb (same (fmt state) "")].

Definition serde_roundtrip_any (state : WorkflowState.t) : checks :=
  [ok_is (same state) (through_text (fun s => VString (state_variant s)) read_state state)].

Lemma state_tests_pass :
  forallb passes [terminal_states; valid_transitions; no_transition_from_terminal;
                  serde_roundtrip; display] = true.
Proof. vm_compute. reflexivity. Qed.

Lemma state_proptests_pass from to :
  forallb passes [fully_terminal_states_have_no_outgoing from to; display_never_empty from;
                  serde_roundtrip_any from] = true.
Proof. by destruct from, to; vm_compute. Qed.
End StateTests.

Module StepTests.
Definition step_builder : checks :=
  let step := with_rollback (with_retries (with_timeout (step_new 1%N "deploy") 60000) 3 5000) in
  [same (name step) "deploy"; timeout_ms step =? 60000; max_retries step =? 3; rollbackable step].

Definition step_dependencies : checks :=
  let a := step_new 1%N "build" in
  let b := with_dependency (step_new 2%N "test") (id a) in
  [same (length (depends_on b)) 1%nat; same (depends_on b !! 0%nat) (Some (id a))].

Definition status_display : checks :=
  [same (StepStatus.fmt StepStatus.Completed) "completed";
   same (StepStatus.fmt StepStatus.RolledBack) "rolled_back"].

Definition serde_roundtrip : checks :=
  let step := step_new 1%N "test" in
  [ok_is (fun back => same (name back) "test") (through_text write_step read_step step)].

Definition serde_roundtrip_any (fresh : StepId) (nm : string) (timeout retries delay : Z) : Prop :=
  let step := with_retries (with_timeout (step_new fresh nm) timeout) retries delay in
  exists back, through_text write_step read_step step = Ok back /\
    name back = nm /\ timeout_ms back = timeout /\ max_retries back = retries /\
    retry_delay_ms back = delay.

Definition builder_preserves_id (fresh : StepId) (nm : string) : Prop :=
  let step := step_new fresh nm in
  id (with_rollback (with_retries (with_timeout step 5000) 2 1000)) = id step.

Lemma step_tests_pass :
  forallb passes [step_builder; step_dependencies; status_display; serde_roundtrip] = true.
Proof. vm_compute. reflexivity. Qed.
End StepTests.

Module FlowTests.
Definition flow_sequential : checks :=
  let flow := add_step (add_step (add_step (flow_new 9%N "deploy" FlowMode.Sequential)
    (step_new 1%N "build")) (step_new 2%N "test")) (step_new 3%N "deploy") in
  [same (length (steps flow)) 3%nat; same (flow_mode flow) FlowMode.Sequential].

Definition flow_dag_valid : checks :=
  let build := step_new 1%N "build" in
  let test := with_dependency (step_new 2%N "test") (id build) in
  let deploy := with_dependency (step_new 3%N "deploy") (id test) in
  let flow := add_step (add_step (add_step (flow_new 9%N "pipeline" FlowMode.Dag)
    build) test) deploy in
  [negb (errs (validate flow))].

Definition flow_dag_cycle_detected : checks :=
  let a := with_dependency (step_new 1%N "a") 2%N in
  let b := with_dependency (step_new 2%N "b") 1%N in
  [errs (validate (add_step (add_step (flow_new 9%N "broken" FlowMode.Dag) a) b))].

Definition flow_mode_display : checks :=
  [same (FlowMode.fmt FlowMode.Sequential) "sequential"; same (FlowMode.fmt FlowMode.Dag) "dag"].

Definition flow_builder : checks :=
  let flow := flow_with_timeout (flow_with_rollback (flow_new 9%N "test" FlowMode.Parallel)) 120000 in
  [rollback_on_failure flow; same (flow_timeout_ms flow) (Some 120000)].

(** A flow with a dependency, in mode [m]. *)
Definition bad (m : FlowMode.t) : FlowDef :=
  let a := step_new 1%N "a" in
  let b := with_dependency (step_new 2%N "b") (id a) in
  add_step (add_step (flow_new 9%N "bad" m) a) b.

Definition flow_sequential_rejects_depends_on : checks := [errs (validate (bad FlowMode.Sequential))].
Definition flow_parallel_rejects_depends_on : checks := [errs (validate (bad FlowMode.Parallel))].

Definition flow_version_defaults_and_builder : checks :=
  let flow := flow_new 9%N "v" FlowMode.Sequential in
  [version flow =? 1; version (with_version flow 5) =? 5].

(** The text is the one printed for this value. *)
Definition flow_deserializes_without_version_field : checks :=
  let legacy := object
    [("id", VString (uuid_to_string 0%N)); ("name", VString "legacy"); ("description", VString "");
     ("mode", VString "Sequential"); ("steps", VArray []); ("rollback_on_failure", VBool false);
     ("timeout_ms", Null)] in
  let flow := from_str read_flow (value_to_string legacy) in
  [ok_is (fun flow => version flow =? 1) flow; ok_is (fun flow => same (flow_name flow) "legacy") flow].

Definition flow_version_serde_roundtrip : checks :=
  let flow := with_version (flow_new 9%N "v" FlowMode.Dag) 7 in
  [ok_is (fun back => version back =? 7) (through_text write_flow read_flow flow)].

Definition flow_serde_roundtrip : checks :=
  let build := step_new 1%N "build" in
  let test := with_dependency (step_new 2%N "test") (id build) in
  let flow := add_step (add_step (flow_with_rollback (flow_new 9%N "pipeline" FlowMode.Dag))
    build) test in
  let back := through_text write_flow read_flow flow in
  [ok_is (fun back => same (flow_name back) "pipeline") back;
   ok_is (fun back => same (length (steps back)) 2%nat) back; ok_is rollback_on_failure back].

Lemma flow_tests_pass :
  forallb passes [flow_sequential; flow_dag_valid; flow_dag_cycle_detected; flow_mode_display;
    flow_builder; flow_sequential_rejects_depends_on; flow_parallel_rejects_depends_on;
    flow_version_defaults_and_builder; flow_deserializes_without_version_field;
    flow_version_serde_roundtrip; flow_serde_roundtrip] = true.
Proof. vm_compute. reflexivity. Qed.
End FlowTests.

Module StorageTests.
Definition in_memory_insert_and_get : checks :=
  let flow := add_step (flow_new 9%N "deploy" FlowMode.Sequential) (step_new 1%N "build") in
  let storage := storage_insert flow storage_new in
  [some_is (fun f => same (flow_name f) "deploy") (get_by_name storage "deploy");
   negb (none_is (get_by_id storage (uuid_to_string (flow_id flow))));
   none_is (get_by_name storage "missing")].

Definition in_memory_list : checks :=
  let storage := storage_insert (flow_new 2%N "b" FlowMode.Parallel)
    (storage_insert (flow_new 1%N "a" FlowMode.Sequential) storage_new) in
  let names := storage_list storage in
  [same (length names) 2%nat; bool_decide ("a" ∈ names); bool_decide ("b" ∈ names)].

Definition in_memory_remove : checks :=
  let storage := storage_insert (flow_new 1%N "x" FlowMode.Sequential) storage_new in
  let '(removed, storage) := storage_remove "x" storage in
  [negb (none_is removed); none_is (get_by_name storage "x")].

Definition record (i f : string) (st : WorkflowState.t) (started : string) : ExecutionRecord :=
  {| execution_id := i; record_flow := f; record_state := st; record_result := None;
     started_at := started; finished_at := None |}.

Definition execution_store_save_and_get : checks :=
  let store := mem_save (record "exec-1" "deploy" WorkflowState.Running "2026-04-03T00:00:00Z")
    executions_new in
  let rec_ := mem_get "exec-1" store in
  [some_is (fun r => same (record_flow r) "deploy") rec_;
   some_is (fun r => same (record_state r) WorkflowState.Running) rec_;
   some_is (fun r => none_is (record_result r)) rec_].

Definition execution_store_list_filters : checks :=
  let store :=
    mem_save (record "e3" "deploy" WorkflowState.RolledBack "")
      (mem_save (record "e2" "test" WorkflowState.Failed "")
        (mem_save (record "e1" "deploy" WorkflowState.Completed "") executions_new)) in
  [same (length (mem_list None store)) 3%nat; same (length (mem_list (Some "deploy") store)) 2%nat;
   same (length (mem_list (Some "test") store)) 1%nat;
   same (length (mem_list (Some "missing") store)) 0%nat].

Definition execution_store_remove : checks :=
  let store := mem_save (record "e1" "x" WorkflowState.Created "") executions_new in
  let '(removed, store) := mem_remove "e1" store in
  [negb (none_is removed); none_is (mem_get "e1" store)].

Lemma storage_tests_pass :
  forallb passes [in_memory_insert_and_get; in_memory_list; in_memory_remove;
    execution_store_save_and_get; execution_store_list_filters; execution_store_remove] = true.
Proof. vm_compute. reflexivity. Qed.
End StorageTests.

Module MigrationTests.
Definition flow_v (v : Z) : FlowDef :=
  add_step (with_version (flow_new 9%N "pipeline" FlowMode.Sequential) v) (step_new 1%N "deploy").

(** [flow.steps[0].name = ..], and [flow.description = ..] *)
Definition rename (nm : string) (s : StepDef) : StepDef :=
  {| id := id s; name := nm; description := description s; timeout_ms := timeout_ms s;
     max_retries := max_retries s; retry_delay_ms := retry_delay_ms s; backoff := backoff s;
     rollbackable := rollbackable s; depends_on := depends_on s; step_type := step_type s;
     config := config s; condition := condition s; trigger_mode := trigger_mode s;
     sub_steps := sub_steps s |}.
Definition with_steps (f : FlowDef) (l : list StepDef) : FlowDef :=
  {| flow_id := flow_id f; flow_name := flow_name f; flow_description := flow_description f;
     flow_mode := flow_mode f; steps := l; rollback_on_failure := rollback_on_failure f;
     flow_timeout_ms := flow_timeout_ms f; version := version f |}.
Definition with_description (f : FlowDef) (d : string) : FlowDef :=
  {| flow_id := flow_id f; flow_name := flow_name f; flow_description := d;
     flow_mode := flow_mode f; steps := steps f; rollback_on_failure := rollback_on_failure f;
     flow_timeout_ms := flow_timeout_ms f; version := version f |}.

(** A registry whose building and use do not panic *)
Definition migrated (ms : list FlowMigration)
    (run : MigrationRegistry -> option (result FlowDef SzalError))
  : option (result FlowDef SzalError) := with_migrations registry_new ms ≫= run.
Definition some_ok {A E} (p : A -> bool) (o : option (result A E)) : bool := some_is (ok_is p) o.
Definition some_err {A E} (p : E -> bool) (o : option (result A E)) : bool := some_is (err_is p) o.
Definition migration_failed (e : SzalError) : bool :=
  match e with MigrationFailed _ => true | _ => false end.

Definition migrate_single_step : checks :=
  let out := migrated [fn_migration 1 2 (fun flow =>
      Ok (with_steps flow (alter (rename "release") 0%nat (steps flow))))]
    (fun registry => migrate_to registry (flow_v 1) 2) in
  [some_ok (fun out => version out =? 2) out;
   some_ok (fun out => some_is (fun s => same (name s) "release") (steps out !! 0%nat)) out].

Definition migrate_chains_multiple_versions : checks :=
  let out := migrated
    [fn_migration 1 2 (fun flow => Ok (with_description flow "v2"));
     fn_migration 2 3 (fun flow => Ok (add_step flow (step_new 2%N "verify")))]
    (fun registry => migrate_latest registry (flow_v 1)) in
  [some_ok (fun out => version out =? 3) out;
   some_ok (fun out => same (flow_description out) "v2") out;
   some_ok (fun out => same (length (steps out)) 2%nat) out;
   some_ok (fun out => some_is (fun s => same (name s) "verify") (steps out !! 1%nat)) out].

Definition already_at_target_is_noop : checks :=
  [some_ok (fun out => version out =? 2)
     (migrated [fn_migration 1 2 Ok] (fun registry => migrate_to registry (flow_v 2) 2))].

Definition empty_registry_migrate_latest_noop : checks :=
  [some_ok (fun out => version out =? 1) (migrate_latest registry_new (flow_v 1));
   none_is (latest_version registry_new)].

Definition downgrade_is_rejected : checks :=
  [some_err migration_failed
     (migrated [fn_migration 1 2 Ok] (fun registry => migrate_to registry (flow_v 3) 2))].

Definition missing_migration_path_errors : checks :=
  [some_err (fun e => match e with
                      | MigrationFailed m => contains "no migration registered" m
                      | _ => false
                      end)
     (migrated [fn_migration 1 2 Ok] (fun registry => migrate_to registry (flow_v 1) 3))].

Definition overshoot_target_errors : checks :=
  [some_err migration_failed
     (migrated [fn_migration 1 3 Ok] (fun registry => migrate_to registry (flow_v 1) 2))].

Definition migration_error_propagates : checks :=
  [some_err (fun _ => true)
     (migrated [fn_migration 1 2 (fun _ => Err (MigrationFailed "boom"))]
       (fun registry => migrate_to registry (flow_v 1) 2))].

(** [#[should_panic]] *)
Definition duplicate_source_version_panics : checks :=
  [none_is (with_migrations registry_new [fn_migration 1 2 Ok; fn_migration 1 3 Ok])].
Definition non_increasing_version_panics : checks :=
  [none_is (with_migrations registry_new [fn_migration 2 2 Ok])].

Lemma migration_tests_pass :
  forallb passes [migrate_single_step; migrate_chains_multiple_versions; already_at_target_is_noop;
    empty_registry_migrate_latest_noop; downgrade_is_rejected; missing_migration_path_errors;
    overshoot_target_errors; migration_error_propagates; duplicate_source_version_panics;
    non_increasing_version_panics] = true.
Proof. vm_compute. reflexivity. Qed.
End MigrationTests.

Module BusTests.
#[local] Existing Instance EventBusExamples.clock.

Definition event_topic_flow (now : Timestamp) : checks :=
  let e := Event.flow_started now "deploy" in
  [same (Event.topic e) "szal/flow/deploy/flow_started"].

Definition event_topic_step (now : Timestamp) : checks :=
  let e := Event.step_completed now "build" "abc-123" 500 1 in
  [same (Event.topic e) "szal/step/build/step_completed"].

Definition event_serde_roundtrip (now : Timestamp) : checks :=
  let e := Event.step_failed now "deploy" "id-1" "timeout" 3 in
  let back := through_text write_event read_event e in
  [ok_is (fun e => same (Event.event_type e) EventType.StepFailed) back;
   ok_is (fun e => same (Event.attempt e) (Some 3)) back].

Definition event_type_display : checks :=
  [same (EventType.fmt EventType.FlowStarted) "flow_started";
   same (EventType.fmt EventType.StepRetry) "step_retry"].

Definition builder_with_flow (now : Timestamp) : checks :=
  let e := Event.flow_started now "deploy" in [same (Event.flow_name e) (Some "deploy")].

Definition builder_with_step (now : Timestamp) : checks :=
  let e := Event.step_started now "build" "id-1" in
  [same (Event.step_name e) (Some "build"); same (Event.step_id e) (Some "id-1")].

Definition builder_with_duration (now : Timestamp) : checks :=
  let e := Event.step_completed now "s" "id" 500 1 in [same (Event.duration_ms e) (Some 500)].

Definition builder_with_attempt (now : Timestamp) : checks :=
  let e := Event.step_retry now "s" "id" 3 in [same (Event.attempt e) (Some 3)].

Definition builder_with_error (now : Timestamp) : checks :=
  let e := Event.flow_failed now "f" "oops" in [same (Event.error e) (Some "oops")].

Definition builder_chaining (now : Timestamp) : checks :=
  let e := Event.step_failed now "s" "id" "e" 2 in
  [same (Event.event_type e) EventType.StepFailed; same (Event.step_name e) (Some "s");
   same (Event.step_id e) (Some "id"); same (Event.error e) (Some "e");
   same (Event.attempt e) (Some 2)].

Definition flow_rolled_back_topic (now : Timestamp) : checks :=
  let e := Event.flow_rolled_back now "deploy" in
  [same (Event.topic e) "szal/flow/deploy/flow_rolled_back"].

Definition event_bus_publish_subscribe (now : Timestamp) : checks :=
  let PS := PubSubModel.majra in
  let '(sub, bus) := event_bus_subscribe "szal/flow/#" event_bus_new in
  let bus := event_bus_publish (Event.flow_started now "test") bus in
  let got := inbox (PL := PubSubModel.majra_laws) sub bus in
  [some_is (fun msg => same msg.1 "szal/flow/test/flow_started") (got !! 0%nat)].

Lemma bus_tests_pass :
  forallb passes (event_type_display ::
    ((fun t => t 7) <$>
      [event_topic_flow; event_topic_step; event_serde_roundtrip; builder_with_flow;
       builder_with_step; builder_with_duration; builder_with_attempt; builder_with_error;
       builder_chaining; flow_rolled_back_topic; event_bus_publish_subscribe])) = true.
Proof. vm_compute. reflexivity. Qed.
End BusTests.

Module StreamTests.
Definition newline : string := String LF "".
Definition quoted (s : string) : string :=
  let quote := String (ascii_of_nat 34) "" in quote +:+ s +:+ quote.

Definition progress (nm : string) (data : Value) : StepProgress :=
  mkProgress nm (nm +:+ "-id") data.

Definition sse_frame_basic : checks :=
  let data := "{" +:+ quoted "x" +:+ ":1}" in
  let frame := sse_frame (Some "step_progress") (Some "s1") data in
  [same frame ("event: step_progress" +:+ newline +:+ "id: s1" +:+ newline +:+
               "data: " +:+ data +:+ newline +:+ newline)].

Definition sse_frame_multiline_data : checks :=
  let frame := sse_frame None None ("a" +:+ newline +:+ "b" +:+ newline +:+ "c") in
  [same frame ("data: a" +:+ newline +:+ "data: b" +:+ newline +:+ "data: c" +:+ newline +:+ newline)].

Definition sse_frame_omits_absent_fields : checks :=
  let frame := sse_frame None (Some "9") "hi" in
  [same frame ("id: 9" +:+ newline +:+ "data: hi" +:+ newline +:+ newline)].

(** The text of the data is the instance's. *)
Definition progress_to_sse_shape : checks :=
  let p := progress "upload" (object [("percent", int 50)]) in
  let frame := progress_frame p in
  [starts_with (as_bytes ("event: step_progress" +:+ newline)) (as_bytes frame);
   contains ("id: upload-id" +:+ newline) frame;
   contains (value_to_string (write_progress p)) frame;
   starts_with (rev (as_bytes (newline +:+ newline))) (rev (as_bytes frame))].

#[local] Existing Instance HubExamples.tokio.

Definition got (r : received StepProgress) (p : StepProgress -> bool) : bool :=
  match r with Got x => p x | _ => false end.

Definition hub_delivers_to_subscriber : checks :=
  let hub := hub_new 16 in
  let '(rx, hub) := hub_subscribe hub in
  let hub := hub_publish (progress "a" (object [("percent", int 10)])) hub in
  let hub := hub_publish (progress "b" (object [("percent", int 20)])) hub in
  let '(first, hub) := hub_recv rx hub in
  let '(second, hub) := hub_recv rx hub in
  [got first (fun p => same (progress_step p) "a");
   got second (fun p => is_int 20 (at_key (progress_data p) ["percent"]))].

Definition hub_fans_out_to_multiple_subscribers : checks :=
  let hub := hub_new 16 in
  let '(rx1, hub) := hub_subscribe hub in
  let '(rx2, hub) := hub_subscribe hub in
  let count := subscriber_count hub in
  let hub := hub_publish (progress "x" Null) hub in
  let '(r1, hub) := hub_recv rx1 hub in
  let '(r2, hub) := hub_recv rx2 hub in
  [same count 2%nat; got r1 (fun p => same (progress_step p) "x");
   got r2 (fun p => same (progress_step p) "x")].

Definition hub_send_without_subscribers_is_ok : checks :=
  let hub := hub_publish (progress "orphan" Null) (hub_new 4) in
  [same (subscriber_count hub) 0%nat].

Definition hub_capacity_clamped : checks :=
  let '(_, hub) := hub_subscribe (hub_new 0) in
  [same (subscriber_count hub) 1%nat].

Lemma stream_tests_pass :
  forallb passes [sse_frame_basic; sse_frame_multiline_data; sse_frame_omits_absent_fields;
    progress_to_sse_shape; hub_delivers_to_subscriber; hub_fans_out_to_multiple_subscribers;
    hub_send_without_subscribers_is_ok; hub_capacity_clamped] = true.
Proof. vm_compute. reflexivity. Qed.
End StreamTests.

Module SqlTests.
(** A file of SQLite, with the table. *)
#[local] Existing Instance serde_records.
#[local] Instance sqlite_calls : Sqlx SqlModel.db := SqlModel.sqlx sqlite.
#[local] Instance sqlite_backend : SqlDb SqlModel.db := backend sqlite.

Definition temp_store : SqlModel.db := (migrate (None : SqlModel.db)).2.

Definition record (i f : string) (st : WorkflowState.t) : ExecutionRecord :=
  StorageTests.record i f st "2026-06-10T00:00:00Z".

(** [.save(..).await.unwrap()], one after the other *)
Fixpoint saved (rs : list ExecutionRecord) (d : SqlModel.db) : bool * SqlModel.db :=
  match rs with
  | [] => (true, d)
  | r :: rs => let '(res, d) := sql_save r d in
               let '(ok, d) := saved rs d in (negb (errs res) && ok, d)
  end.

Definition save_get_roundtrip : checks :=
  let '(ok, store) := saved [record "e1" "deploy" WorkflowState.Running] temp_store in
  let got := (sql_get "e1" store).1 in
  [ok; ok_is (some_is (fun r => same (record_flow r) "deploy")) got;
   ok_is (some_is (fun r => same (record_state r) WorkflowState.Running)) got;
   ok_is none_is (sql_get "missing" store).1].

Definition upsert_updates_existing : checks :=
  let '(ok, store) := saved [record "e1" "deploy" WorkflowState.Running;
                             record "e1" "deploy" WorkflowState.Completed] temp_store in
  [ok; ok_is (some_is (fun r => same (record_state r) WorkflowState.Completed)) (sql_get "e1" store).1;
   ok_is (fun l => same (length l) 1%nat) (sql_list None store).1].

Definition list_filters_by_flow : checks :=
  let '(ok, store) := saved [record "e1" "deploy" WorkflowState.Completed;
                             record "e2" "test" WorkflowState.Failed;
                             record "e3" "deploy" WorkflowState.RolledBack] temp_store in
  let listed nm n := ok_is (fun l => same (length l) n) (sql_list nm store).1 in
  [ok; listed None 3%nat; listed (Some "deploy") 2%nat; listed (Some "test") 1%nat;
   listed (Some "missing") 0%nat].

Definition remove_returns_and_deletes : checks :=
  let '(ok, store) := saved [record "e1" "x" WorkflowState.Created] temp_store in
  let '(removed, store) := sql_remove "e1" store in
  [ok; ok_is (some_is (fun r => same (execution_id r) "e1")) removed;
   ok_is none_is (sql_get "e1" store).1; ok_is none_is (sql_remove "e1" store).1].

Lemma sql_tests_pass :
  forallb passes [save_get_roundtrip; upsert_updates_existing; list_filters_by_flow;
    remove_returns_and_deletes] = true.
Proof. vm_compute. reflexivity. Qed.
End SqlTests.
