(* ===== verification/ConformProps.v ===== *)
(** * Conformance: property tests, fuzz targets and examples

    The property tests of [rust-old/src/flow.rs] and [rust-old/src/step.rs], and
    the targets of [rust-old/fuzz/], draw their inputs at random; here they are
    functions of those inputs, and hold for all of them.  The programs of
    [rust-old/examples/] run, and print what they print. *)

From Stdlib Require Import ZArith Lia Ascii.
From stdpp Require Import base tactics option list strings gmap relations.
From S2P Require Import Prelude RustStr Json State Error Step Flow Migration Storage.
From S2P Require Import RustPath Mcp McpText Serde SerdeTypes Codecs ConformKit ConformDefs.

Open Scope Z_scope.

(** ** Flows in dependency order

    A flow whose steps depend on earlier steps only is what every generator
    builds. *)

Section Ordered.
Context `{JN : JsonNumber}.

(** [before] are the ids of the steps so far. *)
Fixpoint ordered (before : list StepId) (l : list StepDef) : Prop :=
  match l with
  | [] => True
  | s :: l => Forall (fun d => d ∈ before) (depends_on s) /\ ordered (before ++ [id s]) l
  end.

Lemma ordered_lookup l : forall before i s d,
  ordered before l -> l !! i = Some s -> d ∈ depends_on s ->
  d ∈ before \/ exists j s', (j < i)%nat /\ l !! j = Some s' /\ id s' = d.
Proof.
  induction l as [|s0 l IH]; intros before i s d Ho Hi Hd; [done|].
  destruct Ho as [H0 Ho]. destruct i as [|i]; cbn in Hi.
  - injection Hi as <-. rewrite Forall_forall in H0. auto.
  - destruct (IH _ _ _ _ Ho Hi Hd) as [Hin|(j & s' & Hj & Hs' & Hid)].
    + apply elem_of_app in Hin as [?|Hin]; [by left|]. apply list_elem_of_singleton in Hin.
      right. exists 0%nat, s0. repeat split; [lia|done].
    + right. exists (S j), s'. repeat split; [lia|done|done].
Qed.

Lemma edge_back l u v i :
  ordered [] l -> NoDup (id <$> l) -> (id <$> l) !! i = Some u -> flow_edge l u v ->
  exists j, (j < i)%nat /\ (id <$> l) !! j = Some v.
Proof.
  intros Ho Hn Hi (s & Hs & Hu & Hv)%flow_edge_unique; [|done].
  apply list_elem_of_lookup in Hs as [k Hk].
  assert (k = i) as ->.
  { apply (NoDup_lookup _ _ _ u Hn); [|done]. by rewrite list_lookup_fmap, Hk, <- Hu. }
  destruct (ordered_lookup l [] i s v Ho Hk Hv) as [H|(j & s' & Hj & Hs' & <-)];
    [by apply not_elem_of_nil in H|].
  exists j. split; [done|]. by rewrite list_lookup_fmap, Hs'.
Qed.

Lemma path_back l u v : ordered [] l -> NoDup (id <$> l) -> tc (flow_edge l) u v ->
  forall i, (id <$> l) !! i = Some u -> exists j, (j < i)%nat /\ (id <$> l) !! j = Some v.
Proof.
  intros Ho Hn Ht. induction Ht as [u v He|u w v He _ IH]; intros i Hi.
  - by eapply edge_back.
  - destruct (edge_back l u w i Ho Hn Hi He) as (j & Hj & Hw).
    destruct (IH j Hw) as (k & Hk & Hv). exists k. split; [lia|done].
Qed.

(** A DAG flow in dependency order is valid. *)
Lemma ordered_dag_valid (f : FlowDef) :
  flow_mode f = FlowMode.Dag -> NoDup (id <$> steps f) -> ordered [] (steps f) ->
  Forall (fun s => trigger_mode s = TriggerMode.All) (steps f) -> validate f = Ok tt.
Proof.
  intros Hm Hn Ho Ht. apply spec_validate_ok. split; try congruence.
  - intros _ u Hu.
    assert (u ∈ id <$> steps f) as [i Hi]%list_elem_of_lookup.
    { assert (exists v, flow_edge (steps f) u v) as (v & Hv) by (inversion Hu; eauto).
      apply flow_edge_unique in Hv as (s & Hs & <- & _); [|done]. by apply list_elem_of_fmap_2. }
    destruct (path_back _ u u Ho Hn Hu i Hi) as (j & Hj & Hu').
    assert (j = i) as -> by (by eapply NoDup_lookup). lia.
  - intros _ s d Hs Hd. apply list_elem_of_lookup in Hs as [i Hi].
    destruct (ordered_lookup _ [] i s d Ho Hi Hd) as [H|(j & s' & _ & Hs' & <-)];
      [by apply not_elem_of_nil in H|].
    by eapply list_elem_of_fmap_2, list_elem_of_lookup_2.
  - rewrite Forall_forall in Ht. intros s Hs Ha. rewrite (Ht s Hs) in Ha. done.
Qed.
End Ordered.

(** ** The property tests of flow.rs

    The ids are those [Uuid::new_v4] returns, one after the other; [n] is their
    number. *)

Module FlowProptests.
Section Generators.
Context `{JN : JsonNumber}.

(** The loop of [linear_dag_never_cycles] from [i] on *)
Fixpoint linear_steps (i : nat) (prev_id : option StepId) (ids : list StepId) : list StepDef :=
  match ids with
  | [] => []
  | u :: ids =>
      let step := step_new u ("s" +:+ show_Z (Z.of_nat i)) in
      let step := match prev_id with Some pid => with_dependency step pid | None => step end in
      step :: linear_steps (S i) (Some (id step)) ids
  end.

Definition flow_of (fresh : FlowId) (nm : string) (mode : FlowMode.t) (l : list StepDef) : FlowDef :=
  fold_left add_step l (flow_new fresh nm mode).

Definition linear_dag_never_cycles (fresh : FlowId) (ids : list StepId) : bool :=
  negb (errs (validate (flow_of fresh "linear" FlowMode.Dag (linear_steps 0 None ids)))).

Definition leaf (root_id : StepId) (i : nat) (u : StepId) : StepDef :=
  with_dependency (step_new u ("leaf" +:+ show_Z (Z.of_nat i))) root_id.

Definition fanout_dag_never_cycles (fresh : FlowId) (root_id : StepId) (ids : list StepId) : bool :=
  let root := step_new root_id "root" in
  negb (errs (validate (flow_of fresh "fanout" FlowMode.Dag (root :: imap (leaf root_id) ids)))).

Definition sequential_always_valid (fresh : FlowId) (ids : list StepId) : bool :=
  let steps := imap (fun i u => step_new u ("s" +:+ show_Z (Z.of_nat i))) ids in
  negb (errs (validate (flow_of fresh "seq" FlowMode.Sequential steps))).

Lemma steps_flow_of fresh nm mode l :
  steps (flow_of fresh nm mode l) = l /\ flow_mode (flow_of fresh nm mode l) = mode.
Proof.
  unfold flow_of. change l with (steps (flow_new fresh nm mode) ++ l) at 2.
  change mode with (flow_mode (flow_new fresh nm mode)) at 4.
  generalize (flow_new fresh nm mode) as f. induction l as [|s l IH]; intros f; cbn.
  - by rewrite app_nil_r.
  - destruct (IH (add_step f s)) as [-> ->]. cbn. by rewrite <- app_assoc.
Qed.

(** Generated flows are in dependency order. *)
Lemma linear_ordered ids : forall i prev before,
  (forall p, prev = Some p -> p ∈ before) -> ordered before (linear_steps i prev ids).
Proof.
  induction ids as [|u ids IH]; intros i prev before Hp; [done|]. cbn. split.
  - destruct prev as [p|]; [|by apply Forall_nil]. apply Forall_singleton. by apply Hp.
  - apply IH. intros p [= <-]. apply elem_of_app. right. destruct prev; left.
Qed.

Lemma linear_plain ids : forall i prev,
  id <$> linear_steps i prev ids = ids /\
  Forall (fun s => trigger_mode s = TriggerMode.All) (linear_steps i prev ids).
Proof.
  induction ids as [|u ids IH]; intros i prev; [by split; [|apply Forall_nil]|]. cbn.
  destruct (IH (S i) (Some (id (match prev with
    | Some pid => with_dependency (step_new u ("s" +:+ show_Z (Z.of_nat i))) pid
    | None => step_new u ("s" +:+ show_Z (Z.of_nat i)) end)))) as [-> Ha].
  split; [by destruct prev|]. constructor; [by destruct prev|done].
Qed.

Lemma leaves_ordered root ids : forall i before,
  root ∈ before -> ordered before (imap (fun k => leaf root (i + k)) ids).
Proof.
  induction ids as [|u ids IH]; intros i before Hr; [done|]. cbn. split.
  - by apply Forall_singleton.
  - erewrite imap_ext; [apply (IH (S i)); apply elem_of_app; by left|].
    intros k x _. cbn. f_equal. lia.
Qed.

Lemma imap_ids (g : nat -> StepId -> StepDef) ids :
  (forall i u, id (g i u) = u) -> id <$> imap g ids = ids.
Proof.
  intros Hg. rewrite fmap_imap. rewrite <- (list_fmap_id ids) at 2. rewrite <- imap_const.
  apply imap_ext. intros i u _. apply Hg.
Qed.

Lemma imap_all (P : StepDef -> Prop) (g : nat -> StepId -> StepDef) ids :
  (forall i u, P (g i u)) -> Forall P (imap g ids).
Proof.
  intros Hg. apply Forall_lookup. intros i s Hs. rewrite list_lookup_imap in Hs.
  destruct (ids !! i); [|done]. injection Hs as <-. apply Hg.
Qed.

Lemma flow_proptests_hold fresh root ids :
  NoDup (root :: ids) ->
  linear_dag_never_cycles fresh ids = true /\
  fanout_dag_never_cycles fresh root ids = true /\
  sequential_always_valid fresh ids = true.
Proof.
  intros Hn. assert (NoDup ids) as Hi by (by inversion Hn).
  unfold linear_dag_never_cycles, fanout_dag_never_cycles, sequential_always_valid. cbv zeta.
  assert (forall nm l, NoDup (id <$> l) -> ordered [] l ->
    Forall (fun s => trigger_mode s = TriggerMode.All) l ->
    validate (flow_of fresh nm FlowMode.Dag l) = Ok tt) as Hdag.
  { intros nm l Hl Ho Ht. destruct (steps_flow_of fresh nm FlowMode.Dag l) as [Hs Hm].
    apply ordered_dag_valid; by rewrite ?Hs, ?Hm. }
  split; [|split].
  - destruct (linear_plain ids 0 None) as [Hid Ha].
    rewrite Hdag; [done|by rewrite Hid|by apply linear_ordered|done].
  - rewrite Hdag; [done| | |].
    + cbn. by rewrite imap_ids.
    + cbn. split; [by apply Forall_nil|]. apply (leaves_ordered root ids 0). by left.
    + constructor; [done|]. by apply imap_all.
  - match goal with |- context [flow_of fresh "seq" _ ?l] => set (steps' := l) end.
    destruct (steps_flow_of fresh "seq" FlowMode.Sequential steps') as [Hs Hm].
    assert (forall s, s ∈ steps' -> depends_on s = [] /\ trigger_mode s = TriggerMode.All) as Hp
      by (apply Forall_forall, imap_all; by split).
    rewrite spec_validate_ok; [done|]. split; rewrite ?Hs, ?Hm; try done.
    + intros _ s Hin. by apply Hp.
    + intros s Hin Ha. destruct (Hp s Hin) as [_ Ht]. by rewrite Ht in Ha.
Qed.
End Generators.
End FlowProptests.

(** ** The property tests of step.rs *)

Lemma step_proptests_hold fresh nm timeout retries delay :
  in_u64 timeout -> in_u32 retries -> in_u64 delay ->
  StepTests.serde_roundtrip_any fresh nm timeout retries delay /\
  StepTests.builder_preserves_id fresh nm.
Proof.
  intros Ht Hr Hd. split; [|done]. unfold StepTests.serde_roundtrip_any, through_text. cbv zeta.
  eexists. split; [apply (step_text_reads
    (ML := TextModel.text_mcp_laws) (TL := TextModel.text_laws) (UW := StorageModel.unary_laws))|done].
  - cbn. apply Forall_cons. split; [by split|by apply Forall_nil].
  - cbn. apply Forall_cons. split; [done|by apply Forall_nil].
  - cbn. lia.
Qed.

(** ** The fuzz targets *)

Section Fuzz.
(** [data[i] as usize % n] *)
Definition byte_mod (b : ascii) (n : nat) : nat := Nat.modulo (Z.to_nat (code b)) n.

(** The loop of fuzz_flow_validate.rs from [i] on; [None] is an index out of
    bounds. *)
Fixpoint fuzz_steps (mode : FlowMode.t) (data : list ascii) (i : nat) (step_ids : list StepId)
    (fresh : list StepId) : option (list StepDef) :=
  match fresh with
  | [] => Some []
  | u :: fresh =>
      let step := step_new u ("s" +:+ show_Z (Z.of_nat i)) in
      let data_idx := (2 + i)%nat in
      step ← (if bool_decide (mode = FlowMode.Dag) && (data_idx <? length data)%nat &&
                 negb (bool_decide (step_ids = [])) then
                b ← data !! data_idx;
                dep ← step_ids !! byte_mod b (length step_ids);
                Some (with_dependency step dep)
              else Some step);
      l ← fuzz_steps mode data (S i) (step_ids ++ [id step]) fresh;
      Some (step :: l)
  end.

Definition fuzz_mode (b : ascii) : FlowMode.t :=
  match byte_mod b 4 with
  | 0%nat => FlowMode.Sequential
  | 1%nat => FlowMode.Parallel
  | 2%nat => FlowMode.Dag
  | _ => FlowMode.Hierarchical
  end.

(** [ids] are the ids [Uuid::new_v4] will return.  [None] is a panic; the inner
    option is the early return. *)
Definition fuzz_flow_validate (fresh : FlowId) (ids : list StepId) (data : list ascii)
  : option (option (result unit SzalError)) :=
  match data with
  | b0 :: b1 :: _ =>
      let step_count := S (byte_mod b0 32) in
      let mode := fuzz_mode b1 in
      l ← fuzz_steps mode data 0 [] (take step_count ids);
      Some (Some (validate (FlowProptests.flow_of fresh "fuzz" mode l)))
  | _ => Some None
  end.

Definition STATES : list WorkflowState.t :=
  [WorkflowState.Created; WorkflowState.Running; WorkflowState.Paused; WorkflowState.Completed;
   WorkflowState.Failed; WorkflowState.RollingBack; WorkflowState.RolledBack;
   WorkflowState.Cancelled].

(** The loop of fuzz_state_transitions.rs: the state it ends in *)
Fixpoint fuzz_walk (current : WorkflowState.t) (data : list ascii) : option WorkflowState.t :=
  match data with
  | [] => Some current
  | byte :: data =>
      target ← STATES !! byte_mod byte (length STATES);
      fuzz_walk (if WorkflowState.valid_transition current target then target else current) data
  end.

Definition fuzz_state_transitions (data : list ascii) : option (option WorkflowState.t) :=
  match data with
  | [] => Some None
  | b :: data =>
      current ← STATES !! byte_mod b (length STATES);
      Some <$> fuzz_walk current data
  end.
End Fuzz.

Lemma byte_mod_lt b n : n <> 0%nat -> (byte_mod b n < n)%nat.
Proof. apply Nat.mod_upper_bound. Qed.

(** The steps a target builds are in dependency order, and nothing panics. *)
Lemma fuzz_steps_ordered mode data fresh : forall i step_ids,
  exists l, fuzz_steps mode data i step_ids fresh = Some l /\ id <$> l = fresh /\
    ordered step_ids l /\ Forall (fun s => trigger_mode s = TriggerMode.All) l /\
    (mode <> FlowMode.Dag -> Forall (fun s => depends_on s = [] /\ sub_steps s = []) l).
Proof.
  induction fresh as [|u fresh IH]; intros i step_ids; cbn [fuzz_steps].
  { exists []. repeat split; intros; by apply Forall_nil. }
  set (step := step_new u _). cbv zeta.
  assert (exists s, (if bool_decide (mode = FlowMode.Dag) && (2 + i <? length data)%nat &&
        negb (bool_decide (step_ids = [])) then
        b ← data !! (2 + i)%nat; dep ← step_ids !! byte_mod b (length step_ids);
        Some (with_dependency step dep)
      else Some step) = Some s /\ id s = u /\ Forall (fun d => d ∈ step_ids) (depends_on s) /\
      trigger_mode s = TriggerMode.All /\ sub_steps s = [] /\
      (mode <> FlowMode.Dag -> depends_on s = [])) as (s & Hs & Hid & Hd & Ht & Hsub & Hn).
  { destruct (bool_decide (mode = FlowMode.Dag)) eqn:Em; cbn [andb];
      [|exists step; repeat split; by apply Forall_nil].
    destruct (2 + i <? length data)%nat eqn:El; cbn [andb];
      [|exists step; repeat split; by apply Forall_nil].
    destruct step_ids as [|x xs]; [exists step; repeat split; by apply Forall_nil|].
    apply Nat.ltb_lt in El. destruct (lookup_lt_is_Some_2 data _ El) as [b Hb].
    destruct (lookup_lt_is_Some_2 (x :: xs) _ (byte_mod_lt b (length (x :: xs)) ltac:(done))) as [dep Hdep].
    exists (with_dependency step dep). cbn [negb bool_decide decide]. rewrite bool_decide_false by done.
    cbn [negb]. rewrite Hb. cbn [mbind option_bind]. rewrite Hdep. repeat split.
    - apply Forall_singleton. by eapply list_elem_of_lookup_2.
    - apply bool_decide_eq_true in Em. done. }
  rewrite Hs. cbn [mbind option_bind]. rewrite Hid.
  destruct (IH (S i) (step_ids ++ [u])) as (l & -> & Hids & Ho & Hts & Hns).
  exists (s :: l). cbn. rewrite Hid, Hids. repeat split; [done..|by constructor|].
  intros Hm. constructor; [split; [by apply Hn|done]|by apply Hns].
Qed.

(** fuzz_flow_validate.rs: nothing panics, and every flow it builds is valid. *)
Lemma fuzz_flow_validate_holds fresh ids data :
  NoDup ids ->
  fuzz_flow_validate fresh ids data = Some (if (length data <? 2)%nat then None else Some (Ok tt)).
Proof.
  intros Hn. unfold fuzz_flow_validate. destruct data as [|b0 [|b1 data]]; [done..|].
  set (mode := fuzz_mode b1). set (ids' := take _ ids).
  destruct (fuzz_steps_ordered mode (b0 :: b1 :: data) ids' 0 []) as (l & -> & Hids & Ho & Ht & Hd).
  cbn [mbind option_bind length Nat.ltb Nat.leb]. do 2 f_equal.
  destruct (FlowProptests.steps_flow_of fresh "fuzz" mode l) as [Hs Hm].
  assert (NoDup (id <$> l)) as Hl by (rewrite Hids; by eapply sublist_NoDup, sublist_take).
  destruct (decide (mode = FlowMode.Dag)) as [Hdag|Hdag].
  - apply ordered_dag_valid; by rewrite ?Hs, ?Hm.
  - specialize (Hd Hdag). rewrite Forall_forall in Hd, Ht.
    apply spec_validate_ok. split; rewrite ?Hs, ?Hm; try done.
    + intros _ s Hin. by apply Hd.
    + intros _ s Hin. unfold forest in Hin. apply list_elem_of_In, in_flat_map in Hin.
      destruct Hin as (r & Hr & Hin). apply list_elem_of_In in Hr. destruct (Hd r Hr) as [Hdr Hsub].
      rewrite subtree_unfold, Hsub in Hin. by destruct Hin as [<-|[]].
    + intros s Hin Ha. rewrite (Ht s Hin) in Ha. done.
Qed.

(** fuzz_state_transitions.rs: nothing panics, and the walk ends in a state that
    valid transitions lead to. *)
Lemma fuzz_walk_reaches data : forall current,
  exists last, fuzz_walk current data = Some last /\
    rtc (fun a b => WorkflowState.valid_transition a b = true) current last.
Proof.
  induction data as [|b data IH]; intros current; cbn [fuzz_walk]; [by exists current|].
  destruct (lookup_lt_is_Some_2 STATES _ (byte_mod_lt b (length STATES) ltac:(done))) as [target ->].
  cbn [mbind option_bind]. destruct (WorkflowState.valid_transition current target) eqn:E.
  - destruct (IH target) as (last & -> & Hl). exists last. split; [done|]. by eapply rtc_l.
  - apply IH.
Qed.

Lemma fuzz_state_transitions_holds data : is_Some (fuzz_state_transitions data).
Proof.
  unfold fuzz_state_transitions. destruct data as [|b data]; [by eexists|].
  destruct (lookup_lt_is_Some_2 STATES _ (byte_mod_lt b (length STATES) ltac:(done))) as [current ->].
  cbn [mbind option_bind]. destruct (fuzz_walk_reaches data current) as (last & -> & _). by eexists.
Qed.

(** fuzz_flow_deser.rs and fuzz_step_deser.rs: what is read from any text has its
    integers in range, so the flow can be validated. *)
Section Deser.
Context `{JN : JsonNumber} `{JL : !JsonLib} `{MJ : !McpJson} `{JT : !JsonText} `{UL : UuidLib}.

Definition fuzz_flow_deser (data : list ascii) : option (result unit SzalError) :=
  if utf8_valid data then
    match from_str read_flow (from_bytes data) with
    | Ok flow => Some (validate flow)
    | Err _ => None
    end
  else None.

Definition fuzz_step_deser (data : list ascii) : option (result StepDef string) :=
  if utf8_valid data then Some (from_str read_step (from_bytes data)) else None.

Lemma fuzz_step_deser_holds `{LW : !JsonLaws} `{ML : !McpJsonLaws} data s :
  fuzz_step_deser data = Some (Ok s) -> Forall step_range (subtree s).
Proof.
  unfold fuzz_step_deser. destruct (utf8_valid data); [|done]. intros [= H].
  unfold from_str in H. destruct (json_tree _ ≫= read_step) as [s'|] eqn:E; [|done].
  injection H as ->. apply bind_Some in E as (v & _ & Hv). by eapply read_step_in_range.
Qed.
End Deser.

(** ** The examples

    What [main] prints, line by line; [None] is a panic. *)

Module Examples.
Definition quoted : string -> string := StreamTests.quoted.

(** [{:?}] of a [Vec<&String>] and of an [Option<u64>] *)
Definition debug_names (l : list string) : string := "[" +:+ String.concat ", " (quoted <$> l) +:+ "]".
Definition debug_option (o : option Z) : string :=
  match o with Some n => "Some(" +:+ show_Z n +:+ ")" | None => "None" end.
Definition show_nat (n : nat) : string := show_Z (Z.of_nat n).
Definition show_bool (b : bool) : string := if b then "true" else "false".

(** [flow.validate().unwrap()] before what is printed *)
Definition validated (flow : FlowDef) (lines : list string) : option (list string) :=
  match validate flow with Ok _ => Some lines | Err _ => None end.
End Examples.

Module SequentialExample.
Import Examples.
Definition main : option (list string) :=
  let flow := flow_new 9%N "deploy-pipeline" FlowMode.Sequential in
  let flow := add_step flow (with_timeout (step_new 1%N "build") 60000) in
  let flow := add_step flow (with_timeout (with_retries (step_new 2%N "test") 2 1000) 120000) in
  let flow := add_step flow (with_rollback (step_new 3%N "deploy")) in
  validated flow
    (("Flow '" +:+ flow_name flow +:+ "' validated: " +:+ show_nat (length (steps flow)) +:+
      " steps, mode=" +:+ FlowMode.fmt (flow_mode flow)) ::
     ((fun step => "  - " +:+ name step +:+ " (timeout=" +:+ show_Z (timeout_ms step) +:+
        "ms, retries=" +:+ show_Z (max_retries step) +:+ ", rollback=" +:+
        show_bool (rollbackable step) +:+ ")") <$> steps flow)).

Example sequential_prints : main = Some
  ["Flow 'deploy-pipeline' validated: 3 steps, mode=sequential";
   "  - build (timeout=60000ms, retries=0, rollback=false)";
   "  - test (timeout=120000ms, retries=2, rollback=false)";
   "  - deploy (timeout=30000ms, retries=0, rollback=true)"].
Proof. vm_compute. reflexivity. Qed.
End SequentialExample.

Module DagExample.
Import Examples.
Definition main : option (list string) :=
  let build := step_new 1%N "build" in
  let unit_test := with_dependency (step_new 2%N "unit-test") (id build) in
  let integ_test := with_dependency (step_new 3%N "integ-test") (id build) in
  let deploy := with_rollback (with_dependency (with_dependency (step_new 4%N "deploy")
    (id unit_test)) (id integ_test)) in
  let flow := flow_with_rollback (flow_new 9%N "ci-cd" FlowMode.Dag) in
  let flow := add_step flow build in
  let flow := add_step flow unit_test in
  let flow := add_step flow integ_test in
  let flow := add_step flow deploy in
  validated flow
    (("DAG flow '" +:+ flow_name flow +:+ "' validated: " +:+ show_nat (length (steps flow)) +:+
      " steps") ::
     ((fun step => "  - " +:+ name step +:+ " (deps=" +:+ show_nat (length (depends_on step)) +:+
        ")") <$> steps flow)).

Example dag_prints : main = Some
  ["DAG flow 'ci-cd' validated: 4 steps"; "  - build (deps=0)"; "  - unit-test (deps=1)";
   "  - integ-test (deps=1)"; "  - deploy (deps=2)"].
Proof. vm_compute. reflexivity. Qed.
End DagExample.

Module RetryRollbackExample.
Import Examples.
Definition main : option (list string) :=
  let flow := flow_with_timeout (flow_with_rollback
    (flow_new 9%N "resilient-pipeline" FlowMode.Sequential)) 300000 in
  let flow := add_step flow (with_rollback (with_retries (with_timeout
    (step_new 1%N "provision-infra") 120000) 3 5000)) in
  let flow := add_step flow (with_rollback (with_retries (step_new 2%N "run-migrations") 2 10000)) in
  let flow := add_step flow (with_rollback (with_retries (step_new 3%N "deploy-app") 3 5000)) in
  let flow := add_step flow (with_retries (step_new 4%N "smoke-test") 2 3000) in
  validated flow
    (("Flow '" +:+ flow_name flow +:+ "': " +:+ show_nat (length (steps flow)) +:+
      " steps, rollback_on_failure=" +:+ show_bool (rollback_on_failure flow) +:+ ", timeout=" +:+
      debug_option (flow_timeout_ms flow) +:+ "ms") ::
     ((fun step => "  - " +:+ name step +:+ " (retries=" +:+ show_Z (max_retries step) +:+
        ", delay=" +:+ show_Z (retry_delay_ms step) +:+ "ms, rollback=" +:+
        show_bool (rollbackable step) +:+ ")") <$> steps flow)).

Example retry_rollback_prints : main = Some
  ["Flow 'resilient-pipeline': 4 steps, rollback_on_failure=true, timeout=Some(300000)ms";
   "  - provision-infra (retries=3, delay=5000ms, rollback=true)";
   "  - run-migrations (retries=2, delay=10000ms, rollback=true)";
   "  - deploy-app (retries=3, delay=5000ms, rollback=true)";
   "  - smoke-test (retries=2, delay=3000ms, rollback=false)"].
Proof. vm_compute. reflexivity. Qed.
End RetryRollbackExample.

Module FlowMigrationExample.
Import Examples.
Definition names (flow : FlowDef) : string := debug_names (name <$> steps flow).

(** [None] also where an [assert_eq!] of the example fails. *)
Definition main : option (list string) :=
  registry ← with_migrations registry_new
    [fn_migration 1 2 (fun flow =>
       Ok (MigrationTests.with_steps flow
         ((fun step => if bool_decide (name step = "deploy")
                       then MigrationTests.rename "release" step else step) <$> steps flow)));
     fn_migration 2 3 (fun flow => Ok (add_step flow (step_new 3%N "smoke-test")))];
  let old := flow_new 9%N "deploy-pipeline" FlowMode.Sequential in
  let old := add_step old (step_new 1%N "build") in
  let old := add_step old (step_new 2%N "deploy") in
  res ← migrate_latest registry old;
  match res with
  | Ok upgraded =>
      if (version upgraded =? 3) &&
         some_is (fun s => same (name s) "release") (steps upgraded !! 1%nat) &&
         some_is (fun s => same (name s) "smoke-test") (steps upgraded !! 2%nat)
      then Some ["before: v" +:+ show_Z (version old) +:+ " steps=" +:+ names old;
                 "after:  v" +:+ show_Z (version upgraded) +:+ " steps=" +:+ names upgraded]
      else None
  | Err _ => None
  end.

Example flow_migration_prints : main = Some
  ["before: v1 steps=[" +:+ quoted "build" +:+ ", " +:+ quoted "deploy" +:+ "]";
   "after:  v3 steps=[" +:+ quoted "build" +:+ ", " +:+ quoted "release" +:+ ", " +:+
     quoted "smoke-test" +:+ "]"].
Proof. vm_compute. reflexivity. Qed.
End FlowMigrationExample.

Module StateMachineExample.
Import WorkflowState.
Definition transitions : list (WorkflowState.t * WorkflowState.t) :=
  [(Created, Running); (Running, Paused); (Paused, Running); (Running, Completed);
   (Running, Failed); (Failed, RollingBack); (RollingBack, RolledBack);
   (Completed, Running); (Created, Completed)].

Definition main : list string :=
  (fun '(from, to) =>
     let valid := valid_transition from to in
     let terminal := is_terminal to in
     fmt from +:+ " -> " +:+ fmt to +:+ " : " +:+ (if valid then "VALID" else "INVALID") +:+ " " +:+
     (if terminal then "(terminal)" else "")) <$> transitions.

Example state_machine_prints : main =
  ["created -> running : VALID "; "running -> paused : VALID "; "paused -> running : VALID ";
   "running -> completed : VALID (terminal)"; "running -> failed : VALID ";
   "failed -> rolling_back : VALID "; "rolling_back -> rolled_back : VALID (terminal)";
   "completed -> running : INVALID "; "created -> completed : INVALID (terminal)"].
Proof. vm_compute. reflexivity. Qed.
End StateMachineExample.
