(* ===== verification/ConformEngine.v ===== *)
(** * Conformance: the engine

    The tests of [rust-old/src/engine/mod.rs] and [engine/distributed.rs], which
    the model passes.  A test gives the handlers and the token ([world]); its run
    is one schedule of the model ([played_reaches]) with all the calls made, in
    order, in a log: what the counters, sinks and stores of a test record is read
    from there.  Clocks do not move. *)

From Stdlib Require Import ZArith Lia Ascii.
From stdpp Require Import base tactics option list strings gmap relations.
From S2P Require Import Prelude RustStr Json State Error Bus Stream Step Condition Flow EngineResult.
From S2P Require Import Storage Prog StepExec Sequential Pool Runner SubFlow.
From S2P Require Import RustPath Mcp Serde SerdeTypes Codecs ConformKit ConformDefs.

Open Scope Z_scope.

#[export] Existing Instances StepExamples.release RunnerExamples.utc.

(** ** Running a test *)

(** What a test supplies; each answer may depend on the calls made before, by
    whatever task. *)
Record world : Type := mkWorld {
  w_handler : history -> StepDef -> option Z -> handler_outcome;
  w_rollback : history -> StepDef -> rollback_outcome;
  w_cancelled : history -> bool
}.

Definition answers_in (w : world) (log h : history) (a : act) : res a :=
  match a return res a with
  | CallHandler s timeout => w_handler w log s timeout
  | CallRollback s => w_rollback w log s
  | IsCancelled => w_cancelled w log
  | a => answers (fun _ _ => HandlerOk Null) (fun _ _ => JoinError "") h a
  end.

(** A handler that is awaited without a limit answers. *)
Definition answering (w : world) : Prop := forall log s, w_handler w log s None <> HandlerTimeout.

Lemma answers_in_legal w log : answering w -> legal_oracle (fun _ _ => True) (answers_in w log).
Proof.
  intros Hw h a.
  pose proof (answers_legal (fun _ _ => HandlerOk Null) (fun _ _ => JoinError "") (fun _ _ => True)
    ltac:(done) ltac:(done) h a) as Ho.
  destruct a as [| | |s [ms|]| | | | | | | | |n| | | | | | | | | | | | | | | | | | | |]; try exact Ho;
    try done. apply Hw.
Qed.

(** The call task [n] makes next *)
Definition next_call {A} (o : history -> forall a, res a) (c : config (A := A)) (n : nat)
  : history :=
  match tasks c !! n with
  | Some (Running _ (Act a _) h) => [Call a (o h a)]
  | _ => []
  end.

Section Play.
Context (cx : ExecCtx) (w : world) {A : Type}.

Fixpoint task_turn (log : history) (c : config (A := A)) (ns : list nat)
  : option (history * config (A := A)) :=
  match ns with
  | [] => None
  | n :: ns =>
      match task_move cx (answers_in w log) c n with
      | Some c' => Some (log ++ next_call (answers_in w log) c n, c')
      | None => task_turn log c ns
      end
  end.

(** The coordinator moves when it can, else the first task that can. *)
Fixpoint played (fuel : nat) (log : history) (c : config (A := A)) : history * config (A := A) :=
  match fuel with
  | O => (log, c)
  | S fuel =>
      match coord_move (answers_in w log) c with
      | Some c' => played fuel (log ++ drop (length (coord_history c)) (coord_history c')) c'
      | None =>
          match task_turn log c (seq 0 (length (tasks c))) with
          | Some (log, c') => played fuel log c'
          | None => (log, c)
          end
      end
  end.

Lemma played_reaches : answering w -> forall fuel log c,
  rtc (step cx) c (played fuel log c).2.
Proof.
  intros Hw. induction fuel as [|fuel IH]; intros log c; cbn; [apply rtc_refl|].
  destruct (coord_move (answers_in w log) c) as [c1|] eqn:E1.
  { eapply rtc_l; [|apply IH]. eapply coord_move_step; [by apply answers_in_legal|done]. }
  destruct (task_turn log c _) as [[log1 c1]|] eqn:E2; [|apply rtc_refl].
  eapply rtc_l; [|apply IH]. revert E2. induction (seq 0 _) as [|n ns IHn]; cbn; [done|].
  destruct (task_move cx (answers_in w log) c n) as [c2|] eqn:E3; [|apply IHn].
  intros [= _ <-]. eapply task_move_step; [by apply answers_in_legal|done].
Qed.
End Play.

(** [engine.run(&flow).await] and the like, with the log of the run; 2000 moves
    are enough for every test. *)
Definition ran {A} (e : Engine) (f : FlowDef) (w : world) (p : prog A)
  : history * outcome A :=
  let '(log, c) := played (exec_ctx e f) w 2000 []
    (start_config (max_concurrency (engine_config e)) p) in
  (log, match coord c with Done o => o | Act _ _ => OutOfFuel end).

Definition engine_run (e : Engine) (f : FlowDef) (w : world)
  : history * outcome (result FlowResult SzalError) := ran e f w (run 0 e f).
Definition engine_run_with_cancellation (e : Engine) (f : FlowDef) (w : world)
  : history * outcome (result FlowResult SzalError) := ran e f w (run_with_cancellation e f).

(** [.unwrap()] of the result, and a test of it *)
Definition result_is (p : FlowResult -> bool)
    (r : history * outcome (result FlowResult SzalError)) : bool :=
  match r.2 with Returned (Ok fr) => p fr | _ => false end.
Definition run_errs (r : history * outcome (result FlowResult SzalError)) : bool :=
  match r.2 with Returned (Err _) => true | _ => false end.

Definition counts (completed failed skipped : nat) (fr : FlowResult) : bool :=
  (completed_count fr =? completed)%nat && (failed_count fr =? failed)%nat &&
  (skipped_count fr =? skipped)%nat.
(** [result.steps[i]] *)
Definition step_is (i : nat) (p : StepResult -> bool) (fr : FlowResult) : bool :=
  some_is p (result_steps fr !! i).

(** [counter.load(SeqCst)] of a handler, and of a rollback handler, that counts *)
Definition handled_calls (log : history) : list StepDef :=
  omap (fun c => match c with Call (CallHandler s _) _ => Some s | _ => None end) log.
Definition calls (log : history) : nat := length (handled_calls log).
Definition rollbacks (log : history) : nat :=
  length (omap (fun c => match c with Call (CallRollback s) _ => Some s | _ => None end) log).

(** The events a sink captured, and their types *)
Definition events (log : history) : list Event.t :=
  omap (fun c => match c with Call (Emit e) _ => Some e | _ => None end) log.
Definition types (log : history) : list EventType.t := Event.event_type <$> events log.

(** ** Handlers *)

Definition done_output (s : StepDef) : Value :=
  object [("step", VString (name s)); ("status", VString "done")].
Definition named_output (s : StepDef) : Value := object [("step", VString (name s))].

Definition plain_world (f : history -> StepDef -> handler_outcome) : world :=
  {| w_handler log s _ := f log s; w_rollback _ _ := RollbackOk; w_cancelled _ := false |}.

Definition success_handler : world := plain_world (fun _ s => HandlerOk (done_output s)).
(** The counter is read from the log. *)
Definition counting_handler : world := plain_world (fun _ s => HandlerOk (named_output s)).
Definition failing_handler : world := plain_world (fun _ _ => HandlerErr "intentional failure").
(** [n] is the number of calls before this one. *)
Definition fail_then_succeed_handler : world := plain_world (fun log _ =>
  let n := calls log in
  if (n <? 2)%nat then HandlerErr "transient failure"
  else HandlerOk (object [("recovered", VBool true)])).

Definition cancelled_token (w : world) : world :=
  {| w_handler := w_handler w; w_rollback := w_rollback w; w_cancelled _ := true |}.

(** ** Flows *)

Definition flow_with (nm : string) (mode : FlowMode.t) (l : list StepDef) : FlowDef :=
  fold_left add_step l (flow_new 99%N nm mode).

(** [StepDef::new] with the next id *)
Definition a := step_new 1%N "a".
Definition b := step_new 2%N "b".
Definition c := step_new 3%N "c".

Definition default_engine : Engine := engine_new config_default.
Definition with_concurrency (n : nat) : EngineConfig :=
  {| max_concurrency := n; global_timeout_ms := None; cfg_storage := false; cfg_metrics := false;
     cfg_heartbeat := false; cfg_queue := false; cfg_step_type_metrics := false;
     cfg_progress_sink := false; cfg_execution_store := false |}.

(** ** engine/mod.rs *)

Module EngineTests.
Definition engine_config_default : checks :=
  let cfg := config_default in
  [same (max_concurrency cfg) 16%nat; none_is (global_timeout_ms cfg)].

Definition flow_result_counts : checks :=
  let result :=
    {| result_flow := "test";
       result_steps :=
         [{| step_id := 1%N; status := StepStatus.Completed; output := object []; duration_ms := 100;
             attempts := 1; error := None |};
          {| step_id := 2%N; status := StepStatus.Failed; output := object []; duration_ms := 50;
             attempts := 3; error := Some "timeout" |}];
       total_duration_ms := 150; success := false; rolled_back := false |} in
  [same (completed_count result) 1%nat; same (failed_count result) 1%nat].

Definition run_sequential_all_pass : checks :=
  let flow := flow_with "test" FlowMode.Sequential [a; b; c] in
  let result := engine_run default_engine flow success_handler in
  [result_is success result; result_is (counts 3 0 0) result].

(** [n] steps named [step-0] and so on *)
Definition numbered (n : nat) : list StepDef :=
  (fun i => step_new (N.of_nat i) ("step-" +:+ show_Z (Z.of_nat i))) <$> seq 0 n.

Definition run_parallel_all_pass : checks :=
  let flow := flow_with "test" FlowMode.Parallel (numbered 10) in
  let result := engine_run default_engine flow counting_handler in
  [result_is success result; result_is (counts 10 0 0) result; same (calls result.1) 10%nat].

Definition run_parallel_respects_concurrency : checks :=
  let flow := flow_with "test" FlowMode.Parallel (numbered 20) in
  let result := engine_run (engine_new (with_concurrency 2)) flow counting_handler in
  [result_is success result; result_is (counts 20 0 0) result].

Definition build := step_new 1%N "build".

Definition run_dag_diamond : checks :=
  let test_unit := with_dependency (step_new 2%N "unit-test") (id build) in
  let test_integ := with_dependency (step_new 3%N "integ-test") (id build) in
  let deploy := with_dependency (with_dependency (step_new 4%N "deploy") (id test_unit))
    (id test_integ) in
  let flow := flow_with "ci-cd" FlowMode.Dag [build; test_unit; test_integ; deploy] in
  let result := engine_run default_engine flow success_handler in
  [result_is success result; result_is (counts 4 0 0) result].

Definition run_dag_skips_on_dependency_failure : checks :=
  let test := with_dependency (step_new 2%N "test") (id build) in
  let deploy := with_dependency (step_new 3%N "deploy") (id test) in
  let flow := flow_with "fail-pipeline" FlowMode.Dag [build; test; deploy] in
  let result := engine_run default_engine flow failing_handler in
  [result_is (fun r => negb (success r)) result; result_is (counts 0 1 2) result].

Definition run_with_retry_success : checks :=
  let flow := flow_with "retry-test" FlowMode.Sequential
    [with_retries (step_new 1%N "flaky") 3 1] in
  let result := engine_run default_engine flow fail_then_succeed_handler in
  [result_is success result; result_is (step_is 0 (fun r => attempts r =? 3)) result].

Definition run_with_retry_exhausted : checks :=
  let flow := flow_with "exhaust-test" FlowMode.Sequential
    [with_retries (step_new 1%N "always-fail") 2 1] in
  let result := engine_run default_engine flow failing_handler in
  [result_is (fun r => negb (success r)) result;
   result_is (step_is 0 (fun r => attempts r =? 3)) result;
   result_is (step_is 0 (fun r => same (status r) StepStatus.Failed)) result].

(** The handler sleeps for five seconds. *)
Definition run_with_step_timeout : checks :=
  let slow_handler :=
    {| w_handler _ _ timeout := match timeout with
                                | Some ms => if ms <? 5000 then HandlerTimeout
                                             else HandlerOk (object [])
                                | None => HandlerOk (object [])
                                end;
       w_rollback _ _ := RollbackOk; w_cancelled _ := false |} in
  let flow := flow_with "timeout-test" FlowMode.Sequential
    [with_timeout (step_new 1%N "slow") 50] in
  let result := engine_run default_engine flow slow_handler in
  [result_is (fun r => negb (success r)) result;
   result_is (step_is 0 (fun r => same (status r) StepStatus.Failed)) result;
   result_is (step_is 0 (fun r => some_is (contains "timeout") (error r))) result].

(** The first call succeeds, the others fail with [e]. *)
Definition first_succeeds (v : Value) (e : string) (log : history) (_ : StepDef) : handler_outcome :=
  if (calls log =? 0)%nat then HandlerOk v else HandlerErr e.

Definition rollback_flow (nm : string) : FlowDef :=
  flow_with_rollback (flow_with nm FlowMode.Sequential
    [with_rollback (step_new 1%N "setup"); step_new 2%N "deploy"]).

Definition run_with_rollback : checks :=
  let handler := plain_world (first_succeeds (object [("done", VBool true)]) "second step fails") in
  let engine := with_rollback_handler default_engine in
  let result := engine_run engine (rollback_flow "rollback-test") handler in
  [result_is (fun r => negb (success r)) result; result_is rolled_back result;
   same (rollbacks result.1) 1%nat].

Definition run_sequential_stops_after_failure : checks :=
  let handler := plain_world (fun log _ =>
    if (calls log =? 0)%nat then HandlerErr "first fails" else HandlerOk (object [])) in
  let flow := flow_with "fail-fast" FlowMode.Sequential [a; b; c] in
  let result := engine_run default_engine flow handler in
  [result_is (fun r => negb (success r)) result; result_is (counts 0 1 2) result;
   same (calls result.1) 1%nat].

Definition run_rollback_failure_reports_not_rolled_back : checks :=
  let handler :=
    {| w_handler log s _ := first_succeeds (object []) "fails" log s;
       w_rollback _ _ := RollbackErr "rollback failed"; w_cancelled _ := false |} in
  let engine := with_rollback_handler default_engine in
  let result := engine_run engine (rollback_flow "rb-fail") handler in
  [result_is (fun r => negb (success r)) result; result_is (fun r => negb (rolled_back r)) result].

Definition flow_result_serde_roundtrip : checks :=
  let result :=
    {| result_flow := "test";
       result_steps :=
         [{| step_id := 1%N; status := StepStatus.Completed;
             output := object [("key", VString "value")]; duration_ms := 100; attempts := 1;
             error := None |}];
       total_duration_ms := 100; success := true; rolled_back := false |} in
  let back := through_text write_flow_result read_flow_result result in
  [ok_is (fun back => same (result_flow back) "test") back; ok_is success back;
   ok_is (fun back => same (length (result_steps back)) 1%nat) back].

Definition run_rejects_invalid_flow : checks :=
  let flow := flow_with "cycle" FlowMode.Dag [with_dependency a 2%N; with_dependency b 1%N] in
  [run_errs (engine_run default_engine flow success_handler)].

(** [handler_fn] boxes the function. *)
Definition handler_fn_convenience : checks :=
  let handler := plain_world (fun _ step => HandlerOk (named_output step)) in
  let flow := flow_with "test" FlowMode.Sequential [a] in
  [result_is success (engine_run default_engine flow handler)].

Definition run_with_cancellation_stops_sequential : checks :=
  let flow := flow_with "cancel-test" FlowMode.Sequential [a; b] in
  let result := engine_run_with_cancellation default_engine flow (cancelled_token success_handler) in
  [result_is (fun r => negb (success r)) result; result_is (counts 0 0 2) result].

Definition run_with_cancellation_stops_dag : checks :=
  let flow := flow_with "cancel-dag" FlowMode.Dag [a; b] in
  let result := engine_run_with_cancellation default_engine flow (cancelled_token success_handler) in
  [result_is (fun r => negb (success r)) result; result_is (counts 0 0 2) result].

(** The first call of the handler cancels the token. *)
Definition run_with_cancellation_partial_execution : checks :=
  let handler :=
    {| w_handler _ s _ := HandlerOk (named_output s); w_rollback _ _ := RollbackOk;
       w_cancelled log := (0 <? calls log)%nat |} in
  let flow := flow_with "partial-cancel" FlowMode.Sequential [a; b; c] in
  let result := engine_run_with_cancellation default_engine flow handler in
  [result_is (counts 1 0 2) result; same (calls result.1) 1%nat].

Definition run_with_cancellation_uncancelled_succeeds : checks :=
  let flow := flow_with "no-cancel" FlowMode.Sequential [a; b] in
  let result := engine_run_with_cancellation default_engine flow success_handler in
  [result_is success result; result_is (counts 2 0 0) result].

Lemma engine_run_tests_pass :
  forallb passes [engine_config_default; flow_result_counts; run_sequential_all_pass;
    run_parallel_all_pass; run_parallel_respects_concurrency; run_dag_diamond;
    run_dag_skips_on_dependency_failure; run_with_retry_success; run_with_retry_exhausted;
    run_with_step_timeout; run_with_rollback; run_sequential_stops_after_failure;
    run_rollback_failure_reports_not_rolled_back; flow_result_serde_roundtrip;
    run_rejects_invalid_flow; handler_fn_convenience; run_with_cancellation_stops_sequential;
    run_with_cancellation_stops_dag; run_with_cancellation_partial_execution;
    run_with_cancellation_uncancelled_succeeds] = true.
Proof. vm_compute. reflexivity. Qed.

(** A sink captures what the log shows. *)
Definition event_sink_sequential_flow : checks :=
  let flow := flow_with "test" FlowMode.Sequential [a; b] in
  let result := engine_run (with_event_sink default_engine) flow success_handler in
  [result_is success result;
   same (types result.1) [EventType.FlowStarted; EventType.StepStarted; EventType.StepCompleted;
                          EventType.StepStarted; EventType.StepCompleted; EventType.FlowCompleted]].

Definition event_sink_failure_and_skip : checks :=
  let flow := flow_with "test" FlowMode.Sequential [a; b] in
  let result := engine_run (with_event_sink default_engine) flow failing_handler in
  [result_is (fun r => negb (success r)) result;
   same (types result.1) [EventType.FlowStarted; EventType.StepStarted; EventType.StepFailed;
                          EventType.StepSkipped; EventType.FlowFailed]].

Definition event_sink_retry_events : checks :=
  let flow := flow_with "retry" FlowMode.Sequential [with_retries (step_new 1%N "flaky") 3 1] in
  let result := engine_run (with_event_sink default_engine) flow fail_then_succeed_handler in
  [result_is success result;
   same (take 6 (types result.1))
     [EventType.FlowStarted; EventType.StepStarted; EventType.StepRetry; EventType.StepRetry;
      EventType.StepCompleted; EventType.FlowCompleted]].

Definition event_sink_rollback_events : checks :=
  let handler := plain_world (first_succeeds (object [("done", VBool true)]) "second step fails") in
  let engine := with_event_sink (with_rollback_handler default_engine) in
  let result := engine_run engine (rollback_flow "rb-test") handler in
  [result_is (fun r => negb (success r)) result; result_is rolled_back result;
   bool_decide (EventType.StepRollback ∈ types result.1);
   bool_decide (EventType.FlowRolledBack ∈ types result.1);
   bool_decide (EventType.FlowFailed ∈ types result.1)].

Definition hierarchical_no_substeps_like_sequential : checks :=
  let flow := flow_with "test" FlowMode.Hierarchical [a; b; c] in
  let result := engine_run default_engine flow success_handler in
  [result_is success result; result_is (counts 3 0 0) result].

Definition manager : StepDef :=
  with_sub_step (with_sub_step (step_new 1%N "manager") (step_new 2%N "child-a"))
    (step_new 3%N "child-b").
Definition manager_flow : FlowDef :=
  flow_with "test" FlowMode.Hierarchical [manager; step_new 4%N "after"].

Definition hierarchical_substeps_execute_on_success : checks :=
  let result := engine_run default_engine manager_flow counting_handler in
  [result_is success result; same (calls result.1) 4%nat;
   result_is (fun r => same (length (result_steps r)) 4%nat) result;
   result_is (fun r => same (completed_count r) 4%nat) result].

Definition hierarchical_substeps_skipped_on_failure : checks :=
  let handler := plain_world (fun _ _ => HandlerErr "manager fails") in
  let result := engine_run default_engine manager_flow handler in
  [result_is (fun r => negb (success r)) result; same (calls result.1) 1%nat;
   result_is (counts 0 1 3) result].

Definition hierarchical_nested_depth_3 : checks :=
  let leaf := step_new 1%N "leaf" in
  let mid := with_sub_step (step_new 2%N "mid") leaf in
  let top := with_sub_step (step_new 3%N "top") mid in
  let result := engine_run default_engine (flow_with "deep" FlowMode.Hierarchical [top])
    counting_handler in
  [result_is success result; same (calls result.1) 3%nat;
   result_is (fun r => same (length (result_steps r)) 3%nat) result].

Definition one_child : FlowDef :=
  flow_with "cancel" FlowMode.Hierarchical
    [with_sub_step (step_new 1%N "manager") (step_new 2%N "child")].

Definition hierarchical_cancellation : checks :=
  let result := engine_run_with_cancellation default_engine one_child
    (cancelled_token success_handler) in
  [result_is (fun r => negb (success r)) result; result_is (counts 0 0 2) result].

Definition hierarchical_rejects_depends_on : checks :=
  let flow := flow_with "bad" FlowMode.Hierarchical [a; with_dependency b (id a)] in
  [run_errs (engine_run default_engine flow success_handler)].

Definition hierarchical_substeps_serde_roundtrip : checks :=
  let back := through_text write_step read_step manager in
  [ok_is (fun back => same (length (sub_steps back)) 2%nat) back;
   ok_is (fun back => some_is (fun s => same (name s) "child-a") (sub_steps back !! 0%nat)) back;
   ok_is (fun back => some_is (fun s => same (name s) "child-b") (sub_steps back !! 1%nat)) back].

Definition hierarchical_events_with_substeps : checks :=
  let result := engine_run (with_event_sink default_engine) one_child success_handler in
  [result_is success result; same (length (types result.1)) 6%nat;
   same (types result.1 !! 0%nat) (Some EventType.FlowStarted);
   same (types result.1 !! 5%nat) (Some EventType.FlowCompleted)].

Definition step_type_and_config_accessible_in_handler : checks :=
  let handler := plain_world (fun _ step =>
    let st := default "" (step_type step) in
    let cfg := default Null (Step.config step) in
    HandlerOk (object [("type", VString st); ("config", cfg)])) in
  let url := VString "https://example.com" in
  let flow := flow_with "test" FlowMode.Sequential
    [with_config (with_step_type (step_new 1%N "fetch") "http") (object [("url", url)])] in
  let result := engine_run default_engine flow handler in
  [result_is success result;
   result_is (step_is 0 (fun r => is_text "http" (at_key (output r) ["type"]))) result;
   result_is (step_is 0 (fun r => is_text "https://example.com"
     (at_key (output r) ["config"; "url"]))) result].

Definition merge (nm1 nm2 : string) : list StepDef :=
  [step_new 1%N nm1; step_new 2%N nm2;
   with_trigger_mode (with_dependency (with_dependency (step_new 3%N "merge") 1%N) 2%N)
     TriggerMode.Any].

Definition dag_any_trigger_fires_on_first_dep : checks :=
  let flow := flow_with "any-test" FlowMode.Dag (merge "fast" "slow") in
  let result := engine_run default_engine flow success_handler in
  [result_is success result; result_is (fun r => same (completed_count r) 3%nat) result].

(** The first call of the handler, if it is for [a], fails. *)
Definition any_fail_run : history * outcome (result FlowResult SzalError) :=
  let handler := plain_world (fun log step =>
    let n := calls log in
    if bool_decide (name step = "a") && (n =? 0)%nat then HandlerErr "a fails"
    else HandlerOk (named_output step)) in
  engine_run default_engine (flow_with "any-fail" FlowMode.Dag (merge "a" "b")) handler.
Definition dag_any_trigger_with_one_failure : checks :=
  [result_is (fun r => negb (success r)) any_fail_run].
(** The comment of the test has [merge] fire, since [b] completed; it is skipped. *)
Example any_trigger_skipped : result_is (counts 1 1 1) any_fail_run = true.
Proof. vm_compute. reflexivity. Qed.

Definition dag_any_trigger_rejects_no_deps : checks :=
  let flow := flow_with "bad" FlowMode.Dag
    [with_trigger_mode (step_new 1%N "orphan") TriggerMode.Any] in
  [run_errs (engine_run default_engine flow success_handler)].

Definition condition_true_executes : checks :=
  let flow := flow_with "cond" FlowMode.Sequential
    [a; with_condition b "steps.a.status == 'completed'"] in
  let result := engine_run default_engine flow success_handler in
  [result_is success result; result_is (fun r => same (completed_count r) 2%nat) result].

Definition condition_false_skips : checks :=
  let flow := flow_with "cond" FlowMode.Sequential
    [a; with_condition b "steps.a.status == 'failed'"] in
  let result := engine_run default_engine flow success_handler in
  [result_is success result; result_is (counts 1 0 1) result;
   result_is (step_is 1 (fun r => same (error r) (Some "condition not met"))) result].

Definition condition_no_condition_always_runs : checks :=
  let flow := flow_with "cond" FlowMode.Sequential [a; b] in
  let result := engine_run default_engine flow success_handler in
  [result_is success result; result_is (fun r => same (completed_count r) 2%nat) result].

Lemma engine_mode_tests_pass :
  forallb passes [event_sink_sequential_flow; event_sink_failure_and_skip;
    event_sink_retry_events; event_sink_rollback_events; hierarchical_no_substeps_like_sequential;
    hierarchical_substeps_execute_on_success; hierarchical_substeps_skipped_on_failure;
    hierarchical_nested_depth_3; hierarchical_cancellation; hierarchical_rejects_depends_on;
    hierarchical_substeps_serde_roundtrip; hierarchical_events_with_substeps;
    step_type_and_config_accessible_in_handler; dag_any_trigger_fires_on_first_dep;
    dag_any_trigger_with_one_failure; dag_any_trigger_rejects_no_deps; condition_true_executes;
    condition_false_skips; condition_no_condition_always_runs] = true.
Proof. vm_compute. reflexivity. Qed.

(** What the callback of the step-type metrics was called with *)
Definition typed_metrics (log : history) : list (string * string) :=
  omap (fun c => match c with Call (StepTypeMetric ty st _) _ => Some (ty, st) | _ => None end) log.

Definition step_type_metrics_callback : checks :=
  let flow := flow_with "typed" FlowMode.Sequential
    [with_step_type (step_new 1%N "build") "bash"; with_step_type (step_new 2%N "deploy") "http";
     step_new 3%N "notify"] in
  let result := engine_run (with_step_type_metrics default_engine true) flow success_handler in
  [result_is success result;
   same (typed_metrics result.1)
     [("bash", "completed"); ("http", "completed"); ("default", "completed")]].

Definition step_type_metrics_records_failure : checks :=
  let flow := flow_with "fail" FlowMode.Sequential [with_step_type (step_new 1%N "boom") "webhook"] in
  let result := engine_run (with_step_type_metrics default_engine true) flow failing_handler in
  [result_is (fun r => negb (success r)) result;
   same (typed_metrics result.1) [("webhook", "failed")]].

(** [handler_fn_with_progress]: each call reports twice, to the sink. *)
Definition progress_reporting : checks :=
  let reports := [object [("percent", int 50)]; object [("percent", int 100)]] in
  let flow := flow_with "prog" FlowMode.Sequential [step_new 1%N "upload"] in
  let result := engine_run (with_progress_sink default_engine) flow counting_handler in
  let entries := step ← handled_calls result.1; omap (report (reporter_for step)) reports in
  let entry i p := some_is p (entries !! i) in
  [result_is success result; same (length entries) 2%nat;
   entry 0%nat (fun e => same (progress_step e) "upload");
   entry 0%nat (fun e => is_int 50 (at_key (progress_data e) ["percent"]));
   entry 1%nat (fun e => is_int 100 (at_key (progress_data e) ["percent"]))].

(** The handler of a [sub_flow] step runs an engine of its own, which uses the
    inner handler. *)
Definition with_sub_flows (storage : InMemoryStorage) (inner : world) : world :=
  plain_world (fun _ step =>
    match (ran sub_engine (flow_with "" FlowMode.Sequential []) inner
             (sub_flow_handler (get_by_name storage)
                (fun fr => Ok (to_value (write_flow_result fr))) step)).2 with
    | Returned (Ok v) => HandlerOk v
    | Returned (Err e) => HandlerErr e
    | _ => HandlerPanic
    end).

Definition sub_flow_step (nm : string) (cfg : Value) : StepDef :=
  with_config (with_step_type (step_new 2%N nm) "sub_flow") cfg.

Definition sub_flow_execution : checks :=
  let sub := flow_with "deploy-infra" FlowMode.Sequential
    [step_new 11%N "provision"; step_new 12%N "configure"] in
  let storage := storage_insert sub storage_new in
  let flow := flow_with "pipeline" FlowMode.Sequential
    [step_new 1%N "build";
     sub_flow_step "infra" (object [("flow_name", VString "deploy-infra")]);
     step_new 3%N "smoke-test"] in
  let result := engine_run default_engine flow (with_sub_flows storage success_handler) in
  [result_is success result; result_is (fun r => same (completed_count r) 3%nat) result;
   result_is (step_is 1 (fun r => is_text "deploy-infra" (at_key (output r) ["flow_name"]))) result;
   result_is (step_is 1 (fun r => is_true (at_key (output r) ["success"]))) result].

Definition sub_flow_missing_flow_name : checks :=
  let flow := flow_with "bad" FlowMode.Sequential [sub_flow_step "no-config" (object [])] in
  let result := engine_run default_engine flow (with_sub_flows storage_new success_handler) in
  [result_is (fun r => negb (success r)) result;
   result_is (step_is 0 (fun r => some_is (contains "flow_name") (error r))) result].

Definition sub_flow_not_found : checks :=
  let flow := flow_with "bad" FlowMode.Sequential
    [sub_flow_step "missing" (object [("flow_name", VString "nonexistent")])] in
  let result := engine_run default_engine flow (with_sub_flows storage_new success_handler) in
  [result_is (fun r => negb (success r)) result;
   result_is (step_is 0 (fun r => some_is (contains "not found") (error r))) result].

(** The store after the saves of a run *)
Definition store_of (log : history) : InMemoryExecutionStore :=
  fold_left (fun s r => mem_save r s) (saves_of (frames log)) executions_new.

Definition execution_store_persists_state : checks :=
  let flow := flow_with "persist-test" FlowMode.Sequential [a; b] in
  let result := engine_run (with_execution_store default_engine) flow success_handler in
  let record := mem_get (uuid_to_string (flow_id flow)) (store_of result.1) in
  [result_is success result; some_is (fun r => same (record_flow r) "persist-test") record;
   some_is (fun r => same (record_state r) WorkflowState.Completed) record;
   some_is (fun r => negb (none_is (record_result r))) record;
   some_is (fun r => negb (none_is (finished_at r))) record].

Definition execution_store_records_failure : checks :=
  let flow := flow_with "fail-test" FlowMode.Sequential [step_new 1%N "boom"] in
  let result := engine_run (with_execution_store default_engine) flow failing_handler in
  let record := mem_get (uuid_to_string (flow_id flow)) (store_of result.1) in
  [result_is (fun r => negb (success r)) result;
   some_is (fun r => same (record_state r) WorkflowState.Failed) record;
   some_is (fun r => negb (none_is (finished_at r))) record].

Lemma engine_service_tests_pass :
  forallb passes [step_type_metrics_callback; step_type_metrics_records_failure;
    progress_reporting; sub_flow_execution; sub_flow_missing_flow_name; sub_flow_not_found;
    execution_store_persists_state; execution_store_records_failure] = true.
Proof. vm_compute. reflexivity. Qed.
End EngineTests.
