(* ===== verification/ConformStores.v ===== *)
(** * Conformance: distributed runs and recorded runs

    The tests of [rust-old/src/engine/distributed.rs], and the test of
    [rust-old/src/sql_store.rs] that runs an engine, which the model passes. *)

From Stdlib Require Import ZArith Lia Ascii.
From stdpp Require Import base tactics option list strings gmap relations.
From S2P Require Import Prelude RustStr Json State Error Step Condition Flow EngineResult.
From S2P Require Import Storage SqlStore SqlBackend Prog StepExec Sequential Pool Distributed Fleet.
From S2P Require Import Runner RunDistributed.
From S2P Require Import RustPath Mcp Serde SerdeTypes Codecs ConformKit ConformDefs ConformEngine.

Open Scope Z_scope.

(** ** engine/distributed.rs *)

Module DistributedTests.
Section Nodes.
(** [fleet_with_nodes(n)]: the nodes accept every step, which goes to the first. *)
Context (n : nat) (handler : StepDef -> handler_outcome).

Definition fleet_with_nodes (h : history) (a : act) : res a :=
  match a return res a with
  | FleetNodes => (fun i => "node-" +:+ show_Z (Z.of_nat i)) <$> seq 0 n
  | FleetHasQueue _ => true
  | FleetSubmit s => Some ("node-0", id s)
  | a => answers (fun _ s => handler s) (fun _ _ => JoinError "") h a
  end.

Context (cx : ExecCtx) {A : Type}.

(** The handler call worker [k] makes in its next turn *)
Definition handler_turn (c : fleet (A := A)) (k : nat) : nat :=
  match workers c !! k with
  | Some (Executing _ _ (Act (CallHandler _ _) _) _) => 1
  | _ => 0
  end.

(** The workers take turns; the number of handler calls is counted. *)
Fixpoint turns (script : list nat) (c : fleet (A := A)) (calls : nat) : nat * fleet (A := A) :=
  let c := coord_run fleet_with_nodes 100 c in
  match script with
  | [] => (calls, c)
  | k :: script =>
      turns script (worker_run cx fleet_with_nodes k c) (calls + handler_turn c k)
  end.

Lemma turns_reach : (forall s, handler s <> HandlerTimeout) -> forall script c calls,
  rtc (fleet_step cx) c (turns script c calls).2.
Proof.
  intros Hh. assert (legal_oracle (fun _ _ => True) fleet_with_nodes) as Ho.
  { intros h a. pose proof (answers_legal (fun _ s => handler s) (fun _ _ => JoinError "")
      (fun _ _ => True) ltac:(intros ?; exact Hh) ltac:(done) h a) as Ho. by destruct a. }
  induction script as [|k script IH]; intros c calls; cbn [turns];
    [by apply coord_run_reaches|].
  etrans; [by apply coord_run_reaches|]. etrans; [by apply worker_run_reaches|apply IH].
Qed.
End Nodes.

(** [engine.run_distributed(&flow, fleet_with_nodes(n)).await], with the number of
    handler calls; four hundred turns of each worker are enough. *)
Definition distributed (e : Engine) (f : FlowDef) (n : nat) (handler : StepDef -> handler_outcome)
  : nat * outcome (result FlowResult SzalError) :=
  let '(calls, c) := turns n handler (exec_ctx e f) (concat (replicate 400 (seq 0 n)))
    (start_fleet (run_distributed e f)) 0 in
  (calls, match fleet_coord c with Done o => o | Act _ _ => OutOfFuel end).

Definition outcome_is (p : FlowResult -> bool)
    (r : nat * outcome (result FlowResult SzalError)) : bool :=
  match r.2 with Returned (Ok fr) => p fr | _ => false end.

Definition success_handler (step : StepDef) : handler_outcome := HandlerOk (named_output step).

Definition build := step_new 1%N "build".

Definition distributed_diamond_across_two_nodes : checks :=
  let unit_ := with_dependency (step_new 2%N "unit") (id build) in
  let integ := with_dependency (step_new 3%N "integ") (id build) in
  let deploy := with_dependency (with_dependency (step_new 4%N "deploy") (id unit_)) (id integ) in
  let flow := flow_with "ci" FlowMode.Dag [build; unit_; integ; deploy] in
  let result := distributed default_engine flow 2 success_handler in
  [outcome_is success result; outcome_is (fun r => same (completed_count r) 4%nat) result].

Definition distributed_runs_every_step_once : checks :=
  let root := step_new 100%N "root" in
  let leaf i := with_dependency (step_new (N.of_nat i) ("leaf-" +:+ show_Z (Z.of_nat i))) (id root) in
  let flow := flow_with "fanout" FlowMode.Dag (root :: (leaf <$> seq 0 12)) in
  let result := distributed default_engine flow 3 success_handler in
  [outcome_is success result; outcome_is (fun r => same (completed_count r) 13%nat) result;
   same result.1 13%nat].

Definition distributed_skips_on_dependency_failure : checks :=
  let test := with_dependency (step_new 2%N "test") (id build) in
  let deploy := with_dependency (step_new 3%N "deploy") (id test) in
  let flow := flow_with "fail" FlowMode.Dag [build; test; deploy] in
  let result := distributed default_engine flow 2 (fun _ => HandlerErr "boom") in
  [outcome_is (fun r => negb (success r)) result;
   outcome_is (fun r => same (failed_count r) 1%nat) result;
   outcome_is (fun r => same (skipped_count r) 2%nat) result].

Definition distributed_skips_on_condition_false : checks :=
  let b := with_condition (with_dependency (step_new 2%N "b") 1%N) "steps.a.status == 'failed'" in
  let flow := flow_with "cond" FlowMode.Dag [step_new 1%N "a"; b] in
  let result := distributed default_engine flow 1 success_handler in
  [outcome_is success result; outcome_is (fun r => same (completed_count r) 1%nat) result;
   outcome_is (fun r => same (skipped_count r) 1%nat) result].

Definition distributed_rejects_non_dag_mode : checks :=
  let flow := flow_with "seq" FlowMode.Sequential [step_new 1%N "a"] in
  [match (distributed default_engine flow 1 success_handler).2 with
   | Returned (Err _) => true
   | _ => false
   end].

Lemma distributed_tests_pass :
  forallb passes [distributed_diamond_across_two_nodes; distributed_runs_every_step_once;
    distributed_skips_on_dependency_failure; distributed_skips_on_condition_false;
    distributed_rejects_non_dag_mode] = true.
Proof. vm_compute. reflexivity. Qed.
End DistributedTests.

(** ** sql_store.rs, with an engine *)

Module SqlEngineTests.
#[local] Existing Instances serde_records SqlTests.sqlite_calls SqlTests.sqlite_backend.

(** The sink after the saves of a run, and the database once the background
    writer has emptied the queue: at most as many turns as saves. *)
Fixpoint written (fuel : nat) (s : SpawnSink) (d : SqlModel.db) : SqlModel.db :=
  match fuel with
  | O => d
  | S fuel => match writer_turn s d with Some (s, d) => written fuel s d | None => d end
  end.

Definition engine_sink_persists_execution : checks :=
  let flow := flow_with "persist" FlowMode.Sequential [step_new 1%N "a"] in
  let result := engine_run (with_execution_store default_engine) flow counting_handler in
  let saves := saves_of (frames result.1) in
  let sink := fold_left (fun s r => sink_save r s) saves sink_new in
  let store := written (length saves) sink SqlTests.temp_store in
  let found := (sql_get (uuid_to_string (flow_id flow)) store).1 in
  [result_is success result;
   ok_is (some_is (fun r => same (record_state r) WorkflowState.Completed)) found;
   ok_is (some_is (fun r => same (record_flow r) "persist")) found;
   ok_is (some_is (fun r => negb (none_is (finished_at r)))) found].

Lemma sql_engine_test_passes : passes engine_sink_persists_execution = true.
Proof. vm_compute. reflexivity. Qed.
End SqlEngineTests.
