(* ===== verification/ConformText.v ===== *)
(** * Conformance: the libraries of the MCP tools

    Concrete functions for the libraries the tools of the MCP server call, which
    the tests of the tools run with: JSON text as RFC 8259 and the options of
    [serde_json] have it, the text of a [Uuid], Base64 (RFC 4648), SHA-256 (FIPS
    180-4), MD5 (RFC 1321), a token bucket.  They are instances of the classes the
    model is parameterised by, each written from the public format. *)

From Stdlib Require Import ZArith Lia Ascii SpecFloat.
From stdpp Require Import base tactics option list strings gmap.
From S2P Require Import Prelude RustStr Json Step Storage RustPath Float Mcp McpText McpFiles McpNet.
From S2P Require Import McpConvert Serde Codecs ConformKit.

Open Scope Z_scope.

(** ** Writing JSON *)

Module JsonWriter.
Import SerdeModel.

Definition quote : ascii := ascii_of_nat 34.
Definition backslash : ascii := ascii_of_nat 92.

Definition escape (c : ascii) : list ascii :=
  let n := code c in
  if (n =? 34) || (n =? 92) then [backslash; c]
  else if n =? 8 then [backslash; "b"%char]
  else if n =? 9 then [backslash; "t"%char]
  else if n =? 10 then [backslash; "n"%char]
  else if n =? 12 then [backslash; "f"%char]
  else if n =? 13 then [backslash; "r"%char]
  else if n <? 32 then [backslash; "u"; "0"; "0"; to_char (n / 16); to_char (n mod 16)]%char
  else [c].

Definition write_string (s : string) : list ascii :=
  quote :: flat_map escape (as_bytes s) ++ [quote].

(** A positive [f64], its shortest digits [d * 10^k] laid out: a point in the
    digits if their first power is between -5 and 15, an exponent otherwise. *)
Definition layout (d k : Z) : string :=
  let s := show_Z d in
  let e := Z.of_nat (String.length s) + k in
  if (0 <=? k) && (e <=? 16) then s +:+ zeros k +:+ ".0"
  else if (-5 <? e) && (e <=? 16) then show_scaled d k
  else
    let tail := String.substring 1 (String.length s - 1) s in
    String.substring 0 1 s +:+ (if bool_decide (tail = "") then "" else "." +:+ tail) +:+
      "e" +:+ show_Z (e - 1).

Definition write_f64 (x : f64) : string :=
  match x with
  | S754_zero s => if s then "-0.0" else "0.0"
  | S754_finite s m e =>
      let '(num, den) := f64_ratio m e in
      let '(d, k) := shortest 17 (S754_finite false m e) num den (decimal_exponent num den) 1 in
      (if s then "-" else "") +:+ layout d k
  | _ => "null"
  end.

Definition write_number (n : Num) : list ascii :=
  as_bytes match n with PosInt z | NegInt z => show_Z z | Float x => write_f64 x end.

Fixpoint joined (sep : list ascii) (parts : list (list ascii)) : list ascii :=
  match parts with
  | [] => []
  | [p] => p
  | p :: parts => p ++ sep ++ joined sep parts
  end.

(** [to_string] *)
Fixpoint compact (v : @Value serde_number) : list ascii :=
  match v with
  | Null => as_bytes "null"
  | VBool b => as_bytes (if b then "true" else "false")
  | VNumber n => write_number n
  | VString s => write_string s
  | VArray a => "["%char :: joined [","%char] (map compact a) ++ ["]"%char]
  | VObject o =>
      "{"%char :: joined [","%char]
        (map (fun '(k, w) => write_string k ++ ":"%char :: compact w) o) ++ ["}"%char]
  end.

(** [to_string_pretty], at a level of indentation *)
Definition line_at (level : nat) : list ascii := LF :: repeat " "%char (2 * level).

Definition block (l r : ascii) (level : nat) (parts : list (list ascii)) : list ascii :=
  match parts with
  | [] => [l; r]
  | _ => l :: line_at (S level) ++ joined (","%char :: line_at (S level)) parts ++ line_at level ++ [r]
  end.

Fixpoint pretty_at (level : nat) (v : @Value serde_number) : list ascii :=
  match v with
  | VArray a => block "[" "]" level (map (pretty_at (S level)) a)
  | VObject o =>
      block "{" "}" level
        (map (fun '(k, w) => write_string k ++ as_bytes ": " ++ pretty_at (S level) w) o)
  | v => compact v
  end.
End JsonWriter.

(** ** Reading JSON *)

Module JsonReader.
Import SerdeModel JsonWriter.

Definition skip (l : list ascii) : list ascii :=
  (span (fun c => bool_decide (code c ∈ [9; 10; 13; 32])) l).2.

Definition hex_value (c : ascii) : option Z :=
  if is_ascii_digit c then Some (code c - 48)
  else if between 97 102 c then Some (code c - 87)
  else if between 65 70 c then Some (code c - 55) else None.

Definition hex4 (l : list ascii) : option (Z * list ascii) :=
  match l with
  | a :: b :: c :: d :: l =>
      a ← hex_value a; b ← hex_value b; c ← hex_value c; d ← hex_value d;
      Some (((a * 16 + b) * 16 + c) * 16 + d, l)
  | _ => None
  end.

Definition byte (n : Z) : ascii := ascii_of_N (Z.to_N n).

(** UTF-8 *)
Definition utf8 (n : Z) : list ascii :=
  if n <? 128 then [byte n]
  else if n <? 2048 then [byte (192 + n / 64); byte (128 + n mod 64)]
  else if n <? 65536 then
    [byte (224 + n / 4096); byte (128 + n / 64 mod 64); byte (128 + n mod 64)]
  else [byte (240 + n / 262144); byte (128 + n / 4096 mod 64); byte (128 + n / 64 mod 64);
        byte (128 + n mod 64)].

(** After [\u]: a character, or a pair of surrogates *)
Definition read_unicode (l : list ascii) : option (list ascii * list ascii) :=
  '(n, l) ← hex4 l;
  if (55296 <=? n) && (n <? 56320) then
    match l with
    | a :: b :: l =>
        if eqc a backslash && eqc b "u" then
          '(m, l) ← hex4 l;
          if (56320 <=? m) && (m <? 57344)
          then Some (utf8 (65536 + (n - 55296) * 1024 + (m - 56320)), l) else None
        else None
    | _ => None
    end
  else if (56320 <=? n) && (n <? 57344) then None
  else Some (utf8 n, l).

Definition read_escape (l : list ascii) : option (list ascii * list ascii) :=
  match l with
  | [] => None
  | c :: l =>
      if bool_decide (c ∈ [quote; backslash; "/"%char]) then Some ([c], l)
      else if eqc c "b" then Some ([byte 8], l)
      else if eqc c "t" then Some ([byte 9], l)
      else if eqc c "n" then Some ([byte 10], l)
      else if eqc c "f" then Some ([byte 12], l)
      else if eqc c "r" then Some ([byte 13], l)
      else if eqc c "u" then read_unicode l else None
  end.

(** The rest of a string after its first quote *)
Fixpoint read_string (fuel : nat) (l : list ascii) : option (list ascii * list ascii) :=
  match fuel, l with
  | S fuel, c :: l =>
      if eqc c quote then Some ([], l)
      else if eqc c backslash then
        '(p, l) ← read_escape l; '(s, l) ← read_string fuel l; Some (p ++ s, l)
      else if code c <? 32 then None
      else '(s, l) ← read_string fuel l; Some (c :: s, l)
  | _, _ => None
  end.

(** A number starts without a superfluous zero; one without point and exponent is
    an integer if it fits. *)
Definition read_number (l : list ascii) : option (Num * list ascii) :=
  let '(text, rest) := span (fun c => is_ascii_digit c || bool_decide (c ∈ ["+"; "-"; "."; "e"; "E"]%char)) l in
  let '(negative, digits) := match text with
    | c :: l => if eqc c "-" then (true, l) else (false, text)
    | [] => (false, [])
    end in
  let ip := (span is_ascii_digit digits).1 in
  let well_formed := match ip with
    | [] => false
    | c :: l => negb (eqc c "0" && bool_decide (l <> []))
    end && negb (ends_with "." digits) && negb (RustPath.contains (as_bytes ".e") digits) &&
    negb (RustPath.contains (as_bytes ".E") digits) in
  if negb well_formed then None
  else
    let n := digits_val digits in
    if forallb is_ascii_digit digits && negb negative && (n <=? u64_max) then Some (PosInt n, rest)
    else if forallb is_ascii_digit digits && negative && (1 <=? n) && (n <=? 2 ^ 63)
    then Some (NegInt (- n), rest)
    else
      x ← parse_f64_text text;
      if f64_is_finite x then Some (Float x, rest) else None.

Definition keyword (word : string) (v : @Value serde_number) (l : list ascii)
  : option (@Value serde_number * list ascii) :=
  if starts_with (as_bytes word) l then Some (v, drop (String.length word) l) else None.

Definition comma_or (close : ascii) (l : list ascii) : option (bool * list ascii) :=
  match skip l with
  | c :: l => if eqc c "," then Some (true, l) else if eqc c close then Some (false, l) else None
  | [] => None
  end.

(** A value, the elements of an array and the members of an object from the next
    one on; [depth] is what remains of the limit of 128. *)
Fixpoint read_value (fuel depth : nat) (l : list ascii) : option (@Value serde_number * list ascii) :=
  match fuel with
  | O => None
  | S fuel =>
      match skip l with
      | [] => None
      | c :: l' =>
          if eqc c "n" then keyword "null" Null (c :: l')
          else if eqc c "t" then keyword "true" (VBool true) (c :: l')
          else if eqc c "f" then keyword "false" (VBool false) (c :: l')
          else if eqc c quote then
            '(s, l) ← read_string (length l') l'; Some (VString (from_bytes s), l)
          else if eqc c "[" then
            match depth with
            | S (S depth) =>
                match skip l' with
                | d :: l => if eqc d "]" then Some (VArray [], l)
                            else '(a, l) ← read_elements fuel (S depth) l'; Some (VArray a, l)
                | [] => None
                end
            | _ => None
            end
          else if eqc c "{" then
            match depth with
            | S (S depth) =>
                match skip l' with
                | d :: l => if eqc d "}" then Some (VObject [], l)
                            else '(o, l) ← read_members fuel (S depth) l'; Some (VObject o, l)
                | [] => None
                end
            | _ => None
            end
          else '(n, l) ← read_number (c :: l'); Some (VNumber (n : @Number serde_number), l)
      end
  end
with read_elements (fuel depth : nat) (l : list ascii)
  : option (list (@Value serde_number) * list ascii) :=
  match fuel with
  | O => None
  | S fuel =>
      '(v, l) ← read_value fuel depth l;
      '(more, l) ← comma_or "]" l;
      if (more : bool) then '(a, l) ← read_elements fuel depth l; Some (v :: a, l)
      else Some ([v], l)
  end
with read_members (fuel depth : nat) (l : list ascii)
  : option (list (string * @Value serde_number) * list ascii) :=
  match fuel with
  | O => None
  | S fuel =>
      match skip l with
      | q :: l =>
          if eqc q quote then
            '(k, l) ← read_string (length l) l;
            match skip l with
            | c :: l =>
                if eqc c ":" then
                  '(v, l) ← read_value fuel depth l;
                  '(more, l) ← comma_or "}" l;
                  if (more : bool)
                  then '(o, l) ← read_members fuel depth l; Some ((from_bytes k, v) :: o, l)
                  else Some ([(from_bytes k, v)], l)
                else None
            | [] => None
            end
          else None
      | [] => None
      end
  end.

(** A text is one value: two units of fuel for each byte are enough. *)
Definition read_json (s : string) : option (@Value serde_number) :=
  let l := as_bytes s in
  '(v, l) ← read_value (2 * S (length l)) 128 l;
  match skip l with [] => Some v | _ => None end.
End JsonReader.

(** ** The instances *)

Module JsonModel.
Import SerdeModel JsonWriter JsonReader.

(** A [Map] is ordered by its keys. *)
Fixpoint insert (k : string) (v : @Value serde_number) (o : list (string * @Value serde_number))
  : list (string * @Value serde_number) :=
  match o with
  | [] => [(k, v)]
  | (k', v') :: o =>
      match String.compare k k' with
      | Eq => (k, v) :: o
      | Lt => (k, v) :: (k', v') :: o
      | Gt => (k', v') :: insert k v o
      end
  end.

#[export] Instance json_lib : JsonLib (H := serde_number) := {|
  value_get := SerdeModel.get; map_insert := insert; value_to_string v := from_bytes (compact v)
|}.

Definition no_value : JsonError := mkJsonError "expected value" 1 1.

#[export] Instance json_mcp : McpJson (JN := serde_number) := {|
  number_as_u64 := McpModel.number_u64 : Number -> option Z;
  number_of_i64 n := (if 0 <=? n then PosInt n else NegInt n) : Number;
  json_from_str s := ok_or (rebuild <$> read_json s) no_value;
  to_string_pretty v := Ok (from_bytes (pretty_at 0 v))
|}.

#[export] Instance json_text : JsonText (JL := json_lib) (MJ := json_mcp) := {|
  json_tree := read_json;
  renumber n := n;
  from_str_error s := "expected value";
  from_value_error v := "invalid type"
|}.

Lemma assoc_sorted_insert k k' v o :
  assoc k' (insert k v o) = if decide (k' = k) then Some v else assoc k' o.
Proof.
  induction o as [|[k1 v1] o IH]; cbn; [done|].
  destruct (String.compare k k1) eqn:E; cbn.
  - apply String.compare_eq_iff in E as <-. by destruct (decide (k' = k)).
  - done.
  - rewrite IH. destruct (decide (k' = k1)) as [->|]; [|done].
    rewrite (decide_False (P := k1 = k)); [done|]. intros <-.
    pose proof (String.compare_antisym k1 k1) as Hs. by rewrite E in Hs.
Qed.

#[export] Instance json_model_laws : JsonLaws.
Proof.
  split.
  - done.
  - intros [] k Hv; try done. by destruct (Hv o).
  - intros. apply assoc_sorted_insert.
  - intros x Hx. exists (Float x). cbn. by rewrite Hx.
  - intros x Hx. cbn. by rewrite Hx.
Qed.

#[export] Instance json_model_mcp_laws : McpJsonLaws.
Proof. destruct (McpModel.mcp_json_laws (fun _ => Err no_value)). by split. Qed.
End JsonModel.

(** A document through the printers and the reader, escapes and numbers included *)
Module JsonExamples.
Import SerdeModel JsonWriter JsonReader JsonModel.

Definition unicode : string := from_bytes (as_bytes "a" ++ [quote; backslash; LF; byte 1] ++ utf8 233 ++ utf8 128512).
Definition document : Value := VObject
  [("empty", VArray []); ("flags", VArray [VBool true; VBool false; Null]);
   ("nested", VObject [("none", VObject []); (unicode, VString unicode)]);
   ("numbers", VArray (VNumber <$>
      ([PosInt 0; PosInt u64_max; NegInt (-5); Float (f64_of_decimal 15 1); Float (f64_of_Z (10 ^ 22));
        Float (f64_of_decimal 1 7); Float (f64_of_Z 30)] : list Number)))].

Definition reads_as (s : string) (v : Value) : Prop :=
  TextModel.to_tree <$> read_json s = Some (TextModel.to_tree v).

Example compact_reads_back : reads_as (value_to_string document) document.
Proof. vm_compute. reflexivity. Qed.
Example pretty_reads_back : reads_as (pretty document) document.
Proof. vm_compute. reflexivity. Qed.
Example numbers_print : from_bytes (joined [" "%char] (write_number <$>
    [PosInt 7; NegInt (-7); Float (f64_of_Z 30); Float (f64_of_decimal 15 1); Float (f64_of_Z (10 ^ 16));
     Float (f64_of_decimal 25 8)])) = "7 -7 30.0 1.5 1e16 2.5e-7".
Proof. vm_compute. reflexivity. Qed.
Example surrogates_read :
  reads_as (from_bytes (quote :: [backslash] ++ as_bytes "ud83d" ++ [backslash] ++ as_bytes "ude00" ++ [quote]))
    (VString (from_bytes (utf8 128512))).
Proof. vm_compute. reflexivity. Qed.
Example malformed_refused : forallb (fun s => none_is (read_json s))
  ["01"; "1."; "[1,]"; "{bad json}"; "nul"; ""; "1 2"; "-"; "1e999"; "[" +:+ from_bytes [quote]] = true.
Proof. vm_compute. reflexivity. Qed.
Example depth_limit :
  none_is (read_json (from_bytes (repeat "["%char 128 ++ repeat "]"%char 128))) = true /\
  none_is (read_json (from_bytes (repeat "["%char 127 ++ repeat "]"%char 127))) = false.
Proof. vm_compute. auto. Qed.
End JsonExamples.
