(* ===== verification/ConformLib.v ===== *)
(** * Conformance: identifiers, encodings, digests and limits

    More libraries of the MCP tools as concrete functions: the text of a [Uuid]
    (RFC 9562), Base64 (RFC 4648), SHA-256 (FIPS 180-4), MD5 (RFC 1321), and a
    rate limiter that keeps a bucket of tokens for each key. *)

From Stdlib Require Import ZArith Lia Ascii.
From stdpp Require Import base tactics option list strings gmap.
From S2P Require Import Prelude RustStr Step Bus McpConvert McpText McpFiles McpNet ConformText.

Open Scope Z_scope.

Definition byte (n : Z) : ascii := JsonReader.byte n.

(** ** Identifiers *)

Module UuidText.

(** The last [n] digits of a number to the base 16 *)
Fixpoint hex_digits (n : nat) (u : Z) : list ascii :=
  match n with
  | O => []
  | S n => hex_digits n (u / 16) ++ [to_char (u mod 16)]
  end.

(** A text cut after 8, 4, 4 and 4 characters *)
Fixpoint hyphenated (cuts : list nat) (l : list ascii) : list ascii :=
  match cuts with
  | [] => l
  | n :: cuts => take n l ++ "-"%char :: hyphenated cuts (drop n l)
  end.

Definition print (u : Uuid) : string :=
  from_bytes (hyphenated [8; 4; 4; 4]%nat (hex_digits 32 (Z.of_N u))).

(** The number 32 hexadecimal digits denote *)
Definition from_hex (l : list ascii) : option Uuid :=
  if (length l =? 32)%nat then
    fold_left (fun n c => n ← n; d ← JsonReader.hex_value c; Some (n * 16 + Z.to_N d)%N) l (Some 0%N)
  else None.

(** With its hyphens in their places, or without any *)
Definition parse (s : string) : option Uuid :=
  let l := as_bytes s in
  let plain := filter (fun c => c <> "-"%char) l in
  if bool_decide (l = plain \/ l = hyphenated [8; 4; 4; 4]%nat plain) then from_hex plain else None.

Definition ids : UuidLib := {| uuid_to_string := print; uuid_parse := parse |}.

Example nil_uuid : print 0%N = "00000000-0000-0000-0000-000000000000".
Proof. vm_compute. reflexivity. Qed.
Example ids_read_back : forallb (fun u => bool_decide (parse (print u) = Some u))
  [0; 1; 2 ^ 64; 2 ^ 128 - 1]%N = true.
Proof. vm_compute. reflexivity. Qed.
Example no_uuid : parse "not-a-uuid" = None /\ parse "0000000000000000-0000-0000-000000000000" = None.
Proof. vm_compute. auto. Qed.
End UuidText.

(** ** Base64 *)

Module Base64Text.

Definition alphabet : list ascii :=
  as_bytes "ABCDEFGHIJKLMNOPQRSTUVWXYZabcdefghijklmnopqrstuvwxyz0123456789+/".
Definition symbol (n : Z) : ascii := nth (Z.to_nat n) alphabet "="%char.
Definition value (c : ascii) : option Z :=
  (fun p => Z.of_nat p.1) <$> list_find (fun d => d = c) alphabet.

(** Three bytes are four symbols of six bits; [=] fills the last four. *)
Fixpoint encode (l : list ascii) : list ascii :=
  match l with
  | a :: b :: c :: l =>
      let n := (code a * 256 + code b) * 256 + code c in
      symbol (n / 262144) :: symbol (n / 4096 mod 64) :: symbol (n / 64 mod 64) ::
      symbol (n mod 64) :: encode l
  | [a; b] =>
      let n := (code a * 256 + code b) * 4 in
      [symbol (n / 4096); symbol (n / 64 mod 64); symbol (n mod 64); "="%char]
  | [a] => let n := code a * 16 in [symbol (n / 64); symbol (n mod 64); "="%char; "="%char]
  | [] => []
  end.

(** Padding is required, and the bits it covers are zero. *)
Fixpoint decode (l : list ascii) : option (list ascii) :=
  match l with
  | [] => Some []
  | a :: b :: c :: d :: l =>
      a ← value a; b ← value b;
      if eqc c "=" then
        if eqc d "=" && bool_decide (l = []) && (b mod 16 =? 0) then Some [byte (a * 4 + b / 16)] else None
      else
        c ← value c;
        if eqc d "=" then
          if bool_decide (l = []) && (c mod 4 =? 0)
          then Some [byte (a * 4 + b / 16); byte (b mod 16 * 16 + c / 4)] else None
        else
          d ← value d; rest ← decode l;
          Some (byte (a * 4 + b / 16) :: byte (b mod 16 * 16 + c / 4) :: byte (c mod 4 * 64 + d) :: rest)
  | _ => None
  end.

Definition standard : Base64 := {|
  base64_encode l := from_bytes (encode l);
  base64_decode s := ok_or (decode (as_bytes s)) "Invalid byte"
|}.
End Base64Text.

(** ** Digests *)

Module DigestModel.

Definition word (n : Z) : Z := n mod 2 ^ 32.
Definition add (a b : Z) : Z := word (a + b).
Definition rotl (n x : Z) : Z := word (Z.lor (Z.shiftl x n) (Z.shiftr x (32 - n))).
Definition rotr (n x : Z) : Z := rotl (32 - n) x.
Definition not32 (x : Z) : Z := 2 ^ 32 - 1 - x.

(** The message with a bit, zeros up to a multiple of 64 bytes, and its length,
    which [counter] lays out. *)
Definition padded (counter : Z -> list ascii) (l : list ascii) : list ascii :=
  let n := Z.of_nat (length l) in
  l ++ byte 128 :: repeat (byte 0) (Z.to_nat ((55 - n) mod 64)) ++ counter (8 * n).

(** A number as its last [n] bytes, the lowest first *)
Fixpoint low_first (n : nat) (x : Z) : list ascii :=
  match n with O => [] | S n => byte (x mod 256) :: low_first n (x / 256) end.
Definition high_first (n : nat) (x : Z) : list ascii := rev (low_first n x).

(** Lists in pieces of [n] *)
Fixpoint pieces (fuel n : nat) {A} (l : list A) : list (list A) :=
  match fuel, l with
  | S fuel, _ :: _ => take n l :: pieces fuel n (drop n l)
  | _, _ => []
  end.
Definition number_of (l : list ascii) : Z := fold_left (fun x c => x * 256 + code c) l 0.
Definition at_ (l : list Z) (i : nat) : Z := nth i l 0.

(** *** SHA-256 *)

Definition sha_init : list Z :=
  [1779033703; 3144134277; 1013904242; 2773480762; 1359893119; 2600822924; 528734635;
   1541459225].
Definition sha_round : list Z :=
  [1116352408; 1899447441; 3049323471; 3921009573; 961987163; 1508970993; 2453635748;
   2870763221; 3624381080; 310598401; 607225278; 1426881987; 1925078388; 2162078206;
   2614888103; 3248222580; 3835390401; 4022224774; 264347078; 604807628; 770255983;
   1249150122; 1555081692; 1996064986; 2554220882; 2821834349; 2952996808; 3210313671;
   3336571891; 3584528711; 113926993; 338241895; 666307205; 773529912; 1294757372;
   1396182291; 1695183700; 1986661051; 2177026350; 2456956037; 2730485921; 2820302411;
   3259730800; 3345764771; 3516065817; 3600352804; 4094571909; 275423344; 430227734;
   506948616; 659060556; 883997877; 958139571; 1322822218; 1537002063; 1747873779;
   1955562222; 2024104815; 2227730452; 2361852424; 2428436474; 2756734187; 3204031479;
   3329325298].

(** The schedule is kept backwards: the last word first. *)
Fixpoint schedule (n : nat) (w : list Z) : list Z :=
  match n with
  | O => w
  | S n =>
      let w15 := at_ w 14 in
      let w2 := at_ w 1 in
      let s0 := Z.lxor (Z.lxor (rotr 7 w15) (rotr 18 w15)) (Z.shiftr w15 3) in
      let s1 := Z.lxor (Z.lxor (rotr 17 w2) (rotr 19 w2)) (Z.shiftr w2 10) in
      schedule n (word (at_ w 15 + s0 + at_ w 6 + s1) :: w)
  end.

Definition sha_step (h : list Z) (kw : Z * Z) : list Z :=
  match h with
  | [a; b; c; d; e; f; g; h] =>
      let s1 := Z.lxor (Z.lxor (rotr 6 e) (rotr 11 e)) (rotr 25 e) in
      let ch := Z.lxor (Z.land e f) (Z.land (not32 e) g) in
      let t1 := word (h + s1 + ch + kw.1 + kw.2) in
      let s0 := Z.lxor (Z.lxor (rotr 2 a) (rotr 13 a)) (rotr 22 a) in
      let maj := Z.lxor (Z.lxor (Z.land a b) (Z.land a c)) (Z.land b c) in
      [word (t1 + s0 + maj); a; b; c; add d t1; e; f; g]
  | _ => h
  end.

Definition sha_block (h : list Z) (block : list ascii) : list Z :=
  let w := rev (schedule 48 (rev (map number_of (pieces 16 4 block)))) in
  zip_with add h (fold_left sha_step (combine sha_round w) h).

Definition sha256 (l : list ascii) : list ascii :=
  let m := padded (high_first 8) l in
  flat_map (high_first 4) (fold_left sha_block (pieces (length m) 64 m) sha_init).

(** *** MD5 *)

Definition md5_init : list Z := [1732584193; 4023233417; 2562383102; 271733878].
Definition md5_shift : list Z := [7; 12; 17; 22; 5; 9; 14; 20; 4; 11; 16; 23; 6; 10; 15; 21].
Definition md5_sine : list Z :=
  [3614090360; 3905402710; 606105819; 3250441966; 4118548399; 1200080426; 2821735955;
   4249261313; 1770035416; 2336552879; 4294925233; 2304563134; 1804603682; 4254626195;
   2792965006; 1236535329; 4129170786; 3225465664; 643717713; 3921069994; 3593408605;
   38016083; 3634488961; 3889429448; 568446438; 3275163606; 4107603335; 1163531501;
   2850285829; 4243563512; 1735328473; 2368359562; 4294588738; 2272392833; 1839030562;
   4259657740; 2763975236; 1272893353; 4139469664; 3200236656; 681279174; 3936430074;
   3572445317; 76029189; 3654602809; 3873151461; 530742520; 3299628645; 4096336452;
   1126891415; 2878612391; 4237533241; 1700485571; 2399980690; 4293915773; 2240044497;
   1873313359; 4264355552; 2734768916; 1309151649; 4149444226; 3174756917; 718787259;
   3951481745].

Definition md5_step (w h : list Z) (i : nat) : list Z :=
  match h with
  | [a; b; c; d] =>
      let quarter := (i / 16)%nat in
      let '(f, g) := match quarter with
        | 0%nat => (Z.lor (Z.land b c) (Z.land (not32 b) d), i)
        | 1%nat => (Z.lor (Z.land d b) (Z.land (not32 d) c), (5 * i + 1)%nat)
        | 2%nat => (Z.lxor (Z.lxor b c) d, (3 * i + 5)%nat)
        | _ => (Z.lxor c (Z.lor b (not32 d)), (7 * i)%nat)
        end in
      let x := word (a + f + at_ md5_sine i + at_ w (g mod 16)%nat) in
      [d; add b (rotl (at_ md5_shift (4 * quarter + i mod 4)%nat) x); b; c]
  | _ => h
  end.

Definition md5_block (h : list Z) (block : list ascii) : list Z :=
  let w := map (fun p => number_of (rev p)) (pieces 16 4 block) in
  zip_with add h (fold_left (md5_step w) (seq 0 64) h).

Definition md5 (l : list ascii) : list ascii :=
  let m := padded (low_first 8) l in
  flat_map (low_first 4) (fold_left md5_block (pieces (length m) 64 m) md5_init).

Definition standard : Digests := {| sha256_digest := sha256; md5_digest := md5 |}.

(** The test vectors of the two standards *)
Example sha256_vectors : hex (sha256 (as_bytes "abc")) =
    "ba7816bf8f01cfea414140de5dae2223b00361a396177a9cb410ff61f20015ad" /\
  hex (sha256 (as_bytes "abcdbcdecdefdefgefghfghighijhijkijkljklmklmnlmnomnopnopq")) =
    "248d6a61d20638b8e5c026930c3e6039a33ce45964ff2167f6ecedd419db06c1".
Proof. vm_compute. auto. Qed.
Example md5_vectors : hex (md5 []) = "d41d8cd98f00b204e9800998ecf8427e" /\
  hex (md5 (as_bytes "message digest")) = "f96b697d7cb7938d525a2f31aaf161d0".
Proof. vm_compute. auto. Qed.
End DigestModel.

(** ** Rate limits *)

(** A bucket for each key holds at most [burst] tokens, in thousandths, and is
    filled by [rate] tokens a second; a request takes one. *)
Module TokenBucket.

Record bucket : Type := mkBucket { tokens : Z; filled_at : Bus.Timestamp }.
Record limiter : Type := mkLimiter { rate : Z; burst : Z; buckets : gmap string bucket }.

Definition request (l : limiter) (now : Bus.Timestamp) (key : string) : bool * limiter :=
  let b := default (mkBucket (1000 * burst l) now) (buckets l !! key) in
  let level := Z.min (1000 * burst l) (tokens b + rate l * (now - filled_at b)) in
  let ok := 1000 <=? level in
  (ok, mkLimiter (rate l) (burst l)
         (<[key := mkBucket (if ok then level - 1000 else level) now]> (buckets l))).

Definition token_bucket : RateLimiter := {|
  Limiter := limiter;
  limiter_new r b := mkLimiter r b ∅;
  limiter_check := request
|}.
End TokenBucket.
