(* ===== verification/ConformMcp.v ===== *)
(** * Conformance: the tools that compute

    The tests of the MCP tools that call nothing but the random source: those of
    [rust-old/src/mcp/tools/] for states, steps, flows, the engine, arithmetic,
    conversions, JSON, encodings, templates and digests.  A tool is called and its
    response read as the tests do, with the libraries of [ConformText] and
    [ConformLib]. *)

From Stdlib Require Import ZArith Lia Ascii.
From stdpp Require Import base tactics option list strings gmap.
From S2P Require Import Prelude RustStr Json State Step Flow RustPath Float.
From S2P Require Import Serde SerdeTypes Codecs ConformKit ConformDefs ConformText ConformLib.
From S2P Require Import Mcp McpWorkflow McpMath McpConvert McpText McpFiles.

Open Scope Z_scope.

(** The libraries the tools run with *)
Module McpLibraries.
Export SerdeModel JsonModel.
#[export] Existing Instances json_lib json_mcp json_text UuidText.ids Base64Text.standard
  DigestModel.standard.
#[export] Instance definitions : DefinitionCodec := serde_definitions.
End McpLibraries.
Import McpLibraries.

(** JSON in a literal, with single quotes for the quotation marks *)
Definition dq (s : string) : string :=
  from_bytes ((fun c => if eqc c "'" then JsonWriter.quote else c) <$> as_bytes s).

(** [tool.call(json!({..})).await] on a machine, after what has happened on it *)
Definition machine : Type := list event -> forall a, io_res a.
Definition call_after (o : machine) (h : list event) (t : Tool) (args : list (string * Value))
  : list event * option Value :=
  mcp_run o h (tool_call t (object args)).
Definition call_on (o : machine) (t : Tool) (args : list (string * Value)) : option Value :=
  (call_after o [] t args).2.

(** Fresh ids and bytes, nothing else *)
Definition random_source : machine := fun h a =>
  match a with
  | NewUuid => N.of_nat (length h)
  | OpenRandom => Ok tt
  | RandomBytes n => Ok (repeat (byte 171) n)
  | a => denied a
  end.
Definition call : Tool -> list (string * Value) -> option Value := call_on random_source.

(** [assert_eq!(result["isError"], b)] *)
Definition is_error (b : bool) (r : option Value) : bool :=
  some_is (fun v => (if b then is_true else is_false) (at_key v ["isError"])) r.

(** [result["content"][0]["text"].as_str().unwrap()] *)
Definition text (r : option Value) : option string :=
  v ← r;
  match at_key v ["content"] with VArray (c :: _) => as_str (at_key c ["text"]) | _ => None end.
Definition text_has (sub : string) (r : option Value) : bool := some_is (contains (dq sub)) (text r).
Definition text_is (s : string) (r : option Value) : bool := some_is (same s) (text r).

(** [serde_json::from_str(text).unwrap()] *)
Definition text_reads {A} (read : Value -> option A) (p : A -> bool) (r : option Value) : bool :=
  some_is (fun s => ok_is p (from_str read s)) (text r).
Definition read_values (v : Value) : option (list Value) := as_array v.
Definition read_strings (v : Value) : option (list string) := as_array v ≫= mapM as_str.

(** [serde_json::to_string(&step).unwrap()] *)
Definition step_string (s : StepDef) : Value := VString (value_to_string (write_step s)).
Definition flow_string (f : FlowDef) : Value := VString (value_to_string (write_flow f)).

(** ** state_tools.rs *)

Module StateToolTests.
Definition state_check_running : checks :=
  let result := call StateCheck [("state", VString "running")] in
  [is_error false result; text_has "'is_terminal': false" result].
Definition state_check_completed : checks :=
  let result := call StateCheck [("state", VString "completed")] in
  [is_error false result; text_has "'is_terminal': true" result].
Definition state_check_invalid : checks :=
  [is_error true (call StateCheck [("state", VString "nope")])].
Definition state_transition_valid : checks :=
  let result := call StateTransition [("from", VString "created"); ("to", VString "running")] in
  [text_has "'valid': true" result].
Definition state_transition_invalid : checks :=
  let result := call StateTransition [("from", VString "completed"); ("to", VString "running")] in
  [text_has "'valid': false" result].
Definition state_lifecycle : checks :=
  let result := call StateLifecycle [] in
  [is_error false result; text_reads read_values (fun states => same (length states) 8%nat) result].

Lemma state_tool_tests_pass :
  forallb passes [state_check_running; state_check_completed; state_check_invalid;
    state_transition_valid; state_transition_invalid; state_lifecycle] = true.
Proof. vm_compute. reflexivity. Qed.
End StateToolTests.

(** ** step_tools.rs *)

Module StepToolTests.
Definition step_create_basic : checks :=
  let result := call StepCreate [("name", VString "build")] in
  [is_error false result; text_reads read_step (fun step => same (name step) "build") result].
Definition step_create_full : checks :=
  let result := call StepCreate
    [("name", VString "deploy"); ("timeout_ms", int 60000); ("max_retries", int 3);
     ("retry_delay_ms", int 5000); ("rollbackable", VBool true)] in
  [is_error false result; text_reads read_step (fun step => timeout_ms step =? 60000) result;
   text_reads read_step (fun step => max_retries step =? 3) result;
   text_reads read_step rollbackable result].
Definition step_create_missing_name : checks := [is_error true (call StepCreate [])].
Definition step_validate_valid : checks :=
  [is_error false (call StepValidate [("step_json", step_string (step_new 5%N "test"))])].
Definition step_validate_bad_json : checks :=
  [is_error true (call StepValidate [("step_json", VString "not json")])].
Definition step_inspect : checks :=
  let step := Step.with_rollback (with_retries (step_new 5%N "build") 3 5000) in
  let result := call StepInspect [("step_json", step_string step)] in
  [is_error false result; text_has "'rollbackable': true" result;
   text_has "'max_retries': 3" result].

Lemma step_tool_tests_pass :
  forallb passes [step_create_basic; step_create_full; step_create_missing_name;
    step_validate_valid; step_validate_bad_json; step_inspect] = true.
Proof. vm_compute. reflexivity. Qed.
End StepToolTests.

(** ** flow_tools.rs *)

Module FlowToolTests.
Definition flow_create_basic : checks :=
  let result := call FlowCreate [("name", VString "ci-cd"); ("mode", VString "dag")] in
  [is_error false result; text_reads read_flow (fun flow => same (flow_name flow) "ci-cd") result;
   text_reads read_flow (fun flow => same (flow_mode flow) FlowMode.Dag) result].
Definition flow_create_with_options : checks :=
  let result := call FlowCreate
    [("name", VString "deploy"); ("mode", VString "sequential"); ("rollback_on_failure", VBool true);
     ("timeout_ms", int 300000)] in
  [is_error false result; text_reads read_flow rollback_on_failure result;
   text_reads read_flow (fun flow => same (flow_timeout_ms flow) (Some 300000)) result].
Definition flow_create_invalid_mode : checks :=
  [is_error true (call FlowCreate [("name", VString "x"); ("mode", VString "nope")])].
Definition flow_validate_valid_dag : checks :=
  let build := step_new 1%N "build" in
  let test := with_dependency (step_new 2%N "test") (id build) in
  let flow := add_step (add_step (flow_new 9%N "pipeline" FlowMode.Dag) build) test in
  [is_error false (call FlowValidate [("flow_json", flow_string flow)])].
(** The ids are assigned afterwards in the test; each step depends on the other. *)
Definition flow_validate_cycle : checks :=
  let a := with_dependency (step_new 1%N "a") 2%N in
  let b := with_dependency (step_new 2%N "b") 1%N in
  let flow := add_step (add_step (flow_new 9%N "broken" FlowMode.Dag) a) b in
  [is_error true (call FlowValidate [("flow_json", flow_string flow)])].
Definition flow_list_modes : checks :=
  let result := call FlowListModes [] in
  [is_error false result; text_has "sequential" result; text_has "dag" result].
Definition flow_add_step : checks :=
  let flow := flow_new 9%N "test" FlowMode.Sequential in
  let result := call FlowAddStep
    [("flow_json", flow_string flow); ("step_json", step_string (step_new 1%N "build"))] in
  [is_error false result;
   text_reads read_flow (fun updated => same (length (steps updated)) 1%nat) result].
Definition flow_from_json : checks :=
  let flow := add_step (add_step (flow_new 9%N "pipeline" FlowMode.Dag) (step_new 1%N "build"))
    (step_new 2%N "test") in
  let result := call FlowFromJson [("flow_json", flow_string flow)] in
  [is_error false result; text_has "'step_count': 2" result].

Lemma flow_tool_tests_pass :
  forallb passes [flow_create_basic; flow_create_with_options; flow_create_invalid_mode;
    flow_validate_valid_dag; flow_validate_cycle; flow_list_modes; flow_add_step; flow_from_json] = true.
Proof. vm_compute. reflexivity. Qed.
End FlowToolTests.

(** ** engine_tools.rs *)

Module EngineToolTests.
Definition engine_create_default : checks :=
  let result := call EngineCreate [] in
  [is_error false result; text_has "'max_concurrency': 16" result].
Definition engine_create_custom : checks :=
  let result := call EngineCreate [("max_concurrency", int 4); ("global_timeout_ms", int 60000)] in
  [is_error false result; text_has "'max_concurrency': 4" result].
Definition step_status_list : checks :=
  let result := call StepStatusList [] in [is_error false result; text_has "pending" result].
Definition error_list : checks :=
  let result := call ErrorList [] in [is_error false result; text_has "CycleDetected" result].
Definition server_info : checks :=
  let result := call ServerInfo [] in
  [is_error false result; text_has "szal" result; text_has "bote" result].

Lemma engine_tool_tests_pass :
  forallb passes [engine_create_default; engine_create_custom; step_status_list; error_list;
    server_info] = true.
Proof. vm_compute. reflexivity. Qed.
End EngineToolTests.

(** ** math_tools.rs *)

Module MathToolTests.
Definition text_starts (p : string) (r : option Value) : bool :=
  some_is (fun s => starts_with (as_bytes p) (as_bytes s)) (text r).
Definition math_eval_basic : checks :=
  let result := call MathEval [("expression", VString "2 + 3")] in
  [is_error false result; text_starts "5" result].
Definition math_eval_complex : checks :=
  let result := call MathEval [("expression", VString "10 * 5 + 3")] in
  [is_error false result; text_starts "53" result].
Definition math_eval_rejects_injection : checks :=
  [is_error true (call MathEval [("expression", VString "1; rm -rf /")])].

Lemma math_tool_tests_pass :
  forallb passes [math_eval_basic; math_eval_complex; math_eval_rejects_injection] = true.
Proof. vm_compute. reflexivity. Qed.
End MathToolTests.

(** ** conversion_tools.rs *)

Module ConversionToolTests.
Definition converted (v : string) (from to : Z) : option Value :=
  call BaseConvert [("value", VString v); ("from_base", int from); ("to_base", int to)].
Definition base_convert_dec_to_hex : checks := [text_has "0xff" (converted "255" 10 16)].
Definition base_convert_hex_to_bin : checks := [text_has "0b11111111" (converted "0xFF" 16 2)].
Definition base_convert_bin_to_dec : checks := [text_has "'result': '10'" (converted "1010" 2 10)].
Definition byte_format : checks :=
  [text_has "1.43 MB" (call ByteFormat [("bytes", int 1500000)])].
Definition duration_format : checks :=
  [text_has "1d 1h 1m 1s" (call DurationFormat [("seconds", int 90061)])].

Lemma conversion_tool_tests_pass :
  forallb passes [base_convert_dec_to_hex; base_convert_hex_to_bin; base_convert_bin_to_dec;
    byte_format; duration_format] = true.
Proof. vm_compute. reflexivity. Qed.
End ConversionToolTests.

(** ** json_tools.rs *)

Module JsonToolTests.
Definition json (s : string) : Value := VString (dq s).
(** [trim_matches] at the quotation marks *)
Definition trim_quotes (s : string) : string :=
  let strip l := (span (eqc JsonWriter.quote) l).2 in
  from_bytes (rev (strip (rev (strip (as_bytes s))))).
Definition json_path_nested : checks :=
  let result := call JsonPath
    [("json", json "{'data': {'items': [{'name': 'first'}, {'name': 'second'}]}}");
     ("path", VString "data.items.1.name")] in
  [some_is (fun s => same (trim_quotes s) "second") (text result)].
Definition json_path_missing : checks :=
  [is_error true (call JsonPath [("json", json "{'a': 1}"); ("path", VString "b")])].
Definition json_diff_equal : checks :=
  [text_has "'equal': true" (call JsonDiff [("a", json "{'x':1}"); ("b", json "{'x':1}")])].
Definition json_diff_not_equal : checks :=
  [text_has "'equal': false" (call JsonDiff [("a", json "{'x':1}"); ("b", json "{'x':2}")])].
Definition json_validate_ok : checks :=
  let result := call JsonValidate [("json", json "{'a': [1,2,3]}")] in
  [text_has "'valid': true" result; text_has "'type': 'object'" result].
Definition json_validate_bad : checks :=
  [text_has "'valid': false" (call JsonValidate [("json", json "{bad json}")])].

Lemma json_tool_tests_pass :
  forallb passes [json_path_nested; json_path_missing; json_diff_equal; json_diff_not_equal;
    json_validate_ok; json_validate_bad] = true.
Proof. vm_compute. reflexivity. Qed.
End JsonToolTests.

(** ** encoding_tools.rs *)

Module EncodingToolTests.
Definition uuid_single : checks :=
  let result := call UuidGen [] in
  [is_error false result; some_is (fun s => negb (none_is (uuid_parse s))) (text result)].
Definition uuid_multiple : checks :=
  let result := call UuidGen [("count", int 3)] in
  [is_error false result; text_reads read_strings (fun uuids => same (length uuids) 3%nat) result].
Definition base64_encode_decode : checks :=
  let result := call Base64Tool [("input", VString "hello world")] in
  let encoded := default "" (text result) in
  let back := call Base64Tool [("input", VString encoded); ("operation", VString "decode")] in
  [is_error false result; same encoded "aGVsbG8gd29ybGQ="; is_error false back;
   text_is "hello world" back].

Lemma encoding_tool_tests_pass :
  forallb passes [uuid_single; uuid_multiple; base64_encode_decode] = true.
Proof. vm_compute. reflexivity. Qed.
End EncodingToolTests.

(** ** template_tools.rs *)

Module TemplateToolTests.
Definition template_render : checks :=
  let result := call TemplateRender
    [("template", VString "Hello {{name}}, you are {{age}} years old");
     ("variables", object [("name", VString "Alice"); ("age", int 30)])] in
  [text_is "Hello Alice, you are 30 years old" result].
Definition word_count : checks :=
  let result := call WordCount
    [("text", VString ("hello world" +:+ StreamTests.newline +:+ "foo bar baz"))] in
  [text_has "'lines': 2" result; text_has "'words': 5" result].
Definition replace_args : list (string * Value) :=
  [("text", VString "aaa"); ("search", VString "a"); ("replace", VString "b")].
Definition text_replace_all : checks := [text_is "bbb" (call TextReplace replace_args)].
Definition text_replace_first : checks :=
  [text_is "baa" (call TextReplace (replace_args ++ [("all", VBool false)]))].
Definition text_split : checks :=
  let result := call TextSplit [("text", VString "a,b,c"); ("delimiter", VString ",")] in
  [text_reads read_strings (fun parts => same parts ["a"; "b"; "c"]) result].
Definition text_join : checks :=
  let result := call TextJoin
    [("parts", VArray [VString "x"; VString "y"; VString "z"]); ("separator", VString "-")] in
  [text_is "x-y-z" result].

Lemma template_tool_tests_pass :
  forallb passes [template_render; word_count; text_replace_all; text_replace_first; text_split;
    text_join] = true.
Proof. vm_compute. reflexivity. Qed.
End TemplateToolTests.

(** ** hash_tools.rs *)

Module HashToolTests.
Definition sha256_string : checks :=
  let result := call Sha256 [("input", VString "hello")] in
  [is_error false result;
   text_has "2cf24dba5fb0a30e26e83b2ac5b9e29e1b161e5c1fa7425e73043362938b9824" result].
Definition sha256_no_input : checks := [is_error true (call Sha256 [])].
Definition md5_string : checks :=
  let result := call Md5 [("input", VString "hello")] in
  [is_error false result; text_has "'algorithm': 'md5'" result; text_has "'hash':" result].
Definition text_len (n : nat) (r : option Value) : bool :=
  some_is (fun s => same (String.length s) n) (text r).
Definition random_token_default : checks :=
  let result := call RandomToken [] in [is_error false result; text_len 64 result].
Definition random_token_custom : checks :=
  let result := call RandomToken [("bytes", int 16)] in [is_error false result; text_len 32 result].

Lemma hash_tool_tests_pass :
  forallb passes [sha256_string; sha256_no_input; md5_string; random_token_default;
    random_token_custom] = true.
Proof. vm_compute. reflexivity. Qed.
End HashToolTests.
