(* ===== verification/ConformSystem.v ===== *)
(** * Conformance: the tools that call the system

    The tests of the sandbox (mcp/mod.rs), of the tools for files, digests of
    files, processes, the system, git and the network, of the pool of rate
    limiters (mcp/pool.rs) and of tenants (mcp/tenant.rs).  The machine they run
    on is a concrete oracle: a file system that remembers what was written, a few
    programs, a repository, a resolver. *)

From Stdlib Require Import ZArith Lia Ascii.
From stdpp Require Import base tactics option list strings gmap.
From S2P Require Import Prelude RustStr Json Storage RustPath Float Bus Prog.
From S2P Require Import Serde Codecs ConformKit ConformDefs ConformText ConformLib ConformMcp.
From S2P Require Import Mcp McpPaths McpText McpFiles McpProcess McpGit McpNet McpTenant TenantCodec.

Open Scope Z_scope.
Import McpLibraries.

(** ** A machine *)

(** Directories and files by their canonical paths. *)
Record disk : Type := mkDisk { dirs : list string; files : gmap string string }.

Definition wrote (a : io) : io_res a -> gmap string string -> gmap string string :=
  match a with
  | WriteFile p c => fun r m => if is_ok r then <[p := c]> m else m
  | AppendFile p c => fun r m => if is_ok r then <[p := default "" (m !! p) +:+ c]> m else m
  | _ => fun _ m => m
  end.
Definition files_after (d : disk) (h : list event) : gmap string string :=
  fold_left (fun m e => match e with Event a r => wrote a r m end) h (files d).

(** The path without dots; no links. *)
Definition real (p : string) : string :=
  let names := fold_left (fun acc c => match c with
    | Normal n => acc ++ [n]
    | ParentDir => removelast acc
    | _ => acc
    end) (components (as_bytes p)) [] in
  "/" +:+ from_bytes (join_bytes "/" names).
Definition parent_of (p : string) : string := from_bytes (default [] (parent (as_bytes p))).
Definition name_of (p : string) : string := from_bytes (default [] (file_name (as_bytes p))).

Definition no_entry {A} : result A string := Err "No such file or directory (os error 2)".

Definition stat (d : disk) (h : list event) (p : string) : result Metadata string :=
  if bool_decide (real p ∈ dirs d) then Ok (mkMetadata Directory 4096 false (Some 0))
  else match files_after d h !! real p with
       | Some s => Ok (mkMetadata RegularFile (Z.of_nat (String.length s)) false (Some 0))
       | None => no_entry
       end.

(** What is in the directory opened last, and how many entries were read. *)
Definition listed (d : disk) (h : list event) : list DirEntry :=
  match last (omap (fun e => match event_io e with OpenDir p => Some p | _ => None end) h) with
  | Some p =>
      (fun e => mkDirEntry (name_of e.1) (Ok RegularFile) (stat d h e.1)) <$>
        filter (fun e => parent_of e.1 = real p) (map_to_list (files_after d h))
  | None => []
  end.
Definition entries_read (h : list event) : nat :=
  length (List.filter (fun e => match event_io e with NextEntry _ => true | _ => false end) h).

Definition file_machine (d : disk) : machine := fun h a =>
  match a with
  | CurrentDir => Ok "/work"
  | Canonicalize p =>
      if is_ok (stat d h p) && canonical (as_bytes (real p)) then Ok (real p) else no_entry
  | StatFile p | StatSymlink p => stat d h p
  | ReadToString p => match files_after d h !! real p with Some s => Ok s | None => no_entry end
  | ReadBytes p =>
      match files_after d h !! real p with Some s => Ok (as_bytes s) | None => no_entry end
  | WriteFile p _ | AppendFile p _ =>
      if bool_decide (parent_of (real p) ∈ dirs d) then Ok tt else no_entry
  | OpenDir p => if bool_decide (real p ∈ dirs d) then Ok 0%nat else no_entry
  | NextEntry _ =>
      Ok (e ← listed d h !! entries_read h;
          if entry_ok (as_bytes (entry_name e)) then Some e else None)
  | a => random_source h a
  end.

Lemma random_source_legal h a : io_legal a (random_source h a).
Proof.
  destruct a; try exact I.
  - destruct timeout; [exact I|done].
  - apply repeat_length.
Qed.

Lemma file_machine_legal d h a : io_legal a (file_machine d h a).
Proof.
  destruct a; try exact I; [| |exact (random_source_legal h _)..]; cbn [io_legal file_machine].
  - destruct (is_ok (stat d h path)); cbn [andb]; [|exact I].
    destruct (canonical (as_bytes (real path))) eqn:E; [exact E|exact I].
  - destruct (listed d h !! entries_read h) as [e|]; cbn; [|exact I].
    by destruct (entry_ok (as_bytes (entry_name e))) eqn:E.
Qed.

(** The crate's directory with the temporary one of a test, and what is there *)
Definition tmp : string := "/work/tmp".
Definition cwd_tempdir (contents : list (string * string)) : machine :=
  file_machine
    (mkDisk ["/"; "/work"; tmp; "/etc"; "/tmp"]
       (list_to_map (("/etc/passwd", "root:x:0:0") ::
          ((fun e => (tmp +:+ "/" +:+ e.1, e.2)) <$> contents)))).

(** ** mod.rs *)

Module SandboxTests.
Definition validate (p : string) : option (result string string) :=
  (mcp_run (cwd_tempdir []) [] (validate_path p)).2.
Definition validate_path_current_dir : checks := [some_is is_ok (validate ".")].
Definition validate_path_rejects_outside_cwd : checks :=
  [some_is (err_is (contains "outside working directory")) (validate "/etc/passwd")].
Definition validate_path_rejects_traversal : checks :=
  [some_is errs (validate "../../etc/passwd")].
Definition validate_path_new_file_in_valid_dir : checks :=
  [some_is is_ok (validate (tmp +:+ "/newfile.txt"))].

Lemma sandbox_tests_pass :
  forallb passes [validate_path_current_dir; validate_path_rejects_outside_cwd;
    validate_path_rejects_traversal; validate_path_new_file_in_valid_dir] = true.
Proof. vm_compute. reflexivity. Qed.
End SandboxTests.

(** ** file_tools.rs *)

Module FileToolTests.
#[local] Instance clock : ChronoLib := {| rfc3339 t := show_Z t |}.
Definition path_arg (p : string) : list (string * Value) := [("path", VString p)].
Definition write_args (p content : string) : list (string * Value) :=
  path_arg p ++ [("content", VString content)].

Definition file_read_write : checks :=
  let path := tmp +:+ "/test.txt" in
  let disk := cwd_tempdir [] in
  let '(h, result) := call_after disk [] FileWrite (write_args path "hello") in
  let '(_, back) := call_after disk h FileRead (path_arg path) in
  [is_error false result; is_error false back; text_is "hello" back].
Definition file_write_append : checks :=
  let path := tmp +:+ "/append.txt" in
  let disk := cwd_tempdir [] in
  let '(h, _) := call_after disk [] FileWrite (write_args path "a") in
  let '(h, _) := call_after disk h FileWrite (write_args path "b" ++ [("append", VBool true)]) in
  let '(_, result) := call_after disk h FileRead (path_arg path) in
  [text_is "ab" result].
Definition file_read_missing : checks :=
  [is_error true (call_on (cwd_tempdir []) FileRead (path_arg "/nonexistent/file/xyz"))].
Definition file_read_rejects_path_traversal : checks :=
  let result := call_on (cwd_tempdir []) FileRead (path_arg "/etc/passwd") in
  [is_error true result; text_has "outside working directory" result].
Definition dir_list : checks :=
  let result := call_on (cwd_tempdir [("a.txt", ""); ("b.txt", "")]) DirList (path_arg tmp) in
  [is_error false result; text_reads read_values (fun entries => same (length entries) 2%nat) result].
Definition file_stat : checks :=
  let result := call_on (cwd_tempdir [("stat.txt", "12345")]) FileStat (path_arg (tmp +:+ "/stat.txt")) in
  [is_error false result; text_has "'size': 5" result; text_has "'type': 'file'" result].
Definition path_exists_cwd : checks :=
  let result := call_on (cwd_tempdir []) PathExists (path_arg ".") in
  [is_error false result; text_has "'exists': true" result; text_has "'is_dir': true" result].
Definition path_exists_rejects_outside_cwd : checks :=
  let result := call_on (cwd_tempdir []) PathExists (path_arg "/tmp") in
  [is_error true result; text_has "outside working directory" result].

Lemma file_tool_tests_pass :
  forallb passes [file_read_write; file_write_append; file_read_missing;
    file_read_rejects_path_traversal; dir_list; file_stat; path_exists_cwd;
    path_exists_rejects_outside_cwd] = true.
Proof. vm_compute. reflexivity. Qed.
End FileToolTests.

(** ** hash_tools.rs *)

Module HashFileTests.
Definition sha256_file : checks :=
  [is_error false (call_on (cwd_tempdir [("test.bin", "test content")]) Sha256
     [("file", VString (tmp +:+ "/test.bin"))])].
Lemma hash_file_test_passes : passes sha256_file = true.
Proof. vm_compute. reflexivity. Qed.
End HashFileTests.

(** ** process_tools.rs *)

Module ProcessToolTests.
(** A few programs on [PATH] *)
Definition ran_ok (out : string) : option (result Output string) :=
  Some (Ok (mkOutput true (Some 0) out "")).
Definition ran_bad : option (result Output string) := Some (Ok (mkOutput false (Some 1) "" "")).
Definition programs : machine := fun h a =>
  match a with
  | RunCommand program args _ _ =>
      if bool_decide (program = "echo") then ran_ok (String.concat " " args +:+ StreamTests.newline)
      else if bool_decide (program = "false") then ran_bad
      else if bool_decide (program = "which") then
        if bool_decide (args = ["ls"]) then ran_ok ("/usr/bin/ls" +:+ StreamTests.newline) else ran_bad
      else Some no_entry
  | ProcessId => 4242
  | a => random_source h a
  end.
Definition command_arg (c : string) : list (string * Value) := [("command", VString c)].

Definition exec_echo : checks :=
  let result := call_on programs Exec (command_arg "echo" ++ [("args", VArray [VString "hello"])]) in
  [is_error false result; text_has "'success': true" result; text_has "hello" result].
Definition exec_failing_command : checks :=
  let result := call_on programs Exec (command_arg "false") in
  [is_error false result; text_has "'success': false" result].
Definition exec_nonexistent : checks :=
  [is_error true (call_on programs Exec (command_arg "nonexistent_command_xyz_123"))].
(** [text.parse::<u32>()] *)
Definition pid : checks :=
  let result := call_on programs Pid [] in
  [is_error false result;
   some_is (fun s => some_is (fun p => 0 <? p) (parse_uint u32_max (as_bytes s))) (ConformMcp.text result)].
Definition which_exists : checks :=
  [text_has "'found': true" (call_on programs Which (command_arg "ls"))].
Definition which_not_found : checks :=
  [text_has "'found': false" (call_on programs Which (command_arg "nonexistent_xyz_123"))].
Definition exec_rejects_path_traversal : checks :=
  [is_error true (call_on programs Exec (command_arg "../bin/sh"))].
Definition exec_rejects_absolute_path : checks :=
  [is_error true (call_on programs Exec (command_arg "/bin/sh"))].

Lemma process_tool_tests_pass :
  forallb passes [exec_echo; exec_failing_command; exec_nonexistent; pid; which_exists;
    which_not_found; exec_rejects_path_traversal; exec_rejects_absolute_path] = true.
Proof. vm_compute. reflexivity. Qed.
End ProcessToolTests.

(** ** system_tools.rs *)

Module SystemToolTests.
#[local] Existing Instance FileToolTests.clock.
#[local] Instance target : BuildTarget := {| OS := "linux"; ARCH := "x86_64" |}.
#[local] Instance seconds : ChronoClock := {| unix_secs t := t; unix_millis t := t * 1000 |}.
Definition environment : machine := fun h a =>
  match a with
  | CurrentDir => Ok "/work"
  | EnvVar n => if bool_decide (n = "PATH") then Some "/usr/bin:/bin" else None
  | ReadToString p =>
      if bool_decide (p = "/proc/uptime") then Ok "350735.47 234388.90" else Ok "build-host"
  | Parallelism => Ok 8
  | a => random_source h a
  end.

Definition system_info : checks :=
  let result := call_on environment SystemInfo [] in
  [is_error false result; text_has "'os':" result; text_has "'arch':" result].
Definition cwd : checks := [is_error false (call_on environment Cwd [])].
Definition env_get_exists : checks :=
  [is_error false (call_on environment EnvGet [("name", VString "PATH")])].
Definition env_get_missing : checks :=
  [is_error true (call_on environment EnvGet [("name", VString "SZAL_NONEXISTENT_VAR_12345")])].
Definition timestamp : checks :=
  let result := call_on environment Timestamp [] in
  [is_error false result; text_has "iso8601" result].

Lemma system_tool_tests_pass :
  forallb passes [system_info; cwd; env_get_exists; env_get_missing; timestamp] = true.
Proof. vm_compute. reflexivity. Qed.
End SystemToolTests.

(** ** git_tools.rs *)

Module GitToolTests.
#[local] Existing Instance McpGitExamples.sorted_order.
Definition text_of_lines (l : list string) : string :=
  String.concat "" ((fun s => s +:+ StreamTests.newline) <$> l).
(** A repository with two commits and nothing changed: the answers of git by the
    command's first word *)
Definition repository : machine := fun h a =>
  match a with
  | RunCommand _ args _ _ =>
      let answer s := ProcessToolTests.ran_ok (text_of_lines s) in
      match args with
      | "rev-parse" :: _ => answer ["main"]
      | "log" :: _ => answer ["a1f0|a1|Ann|ann@example.org|2026-06-10T00:00:00Z|Second";
                              "b2e1|b2|Ann|ann@example.org|2026-06-09T00:00:00Z|First"]
      | "branch" :: _ => answer ["main"; "topic"]
      | "blame" :: _ => answer ["a1f0 1 1 1"; "author Ann"; "	[package]"]
      | _ => answer []
      end
  | a => random_source h a
  end.

Definition git_status_current_repo : checks :=
  let result := call_on repository GitStatus [] in
  [is_error false result; text_has "'branch'" result].
Definition git_log_current_repo : checks :=
  let result := call_on repository GitLog [("count", int 3)] in
  [is_error false result;
   text_reads read_values (fun commits => negb (same (length commits) 0%nat)) result;
   text_reads read_values
     (fun commits => negb (none_is (c ← head commits; value_get c "hash"))) result].
Definition git_diff_current_repo : checks :=
  [is_error false (call_on repository GitDiff [("stat_only", VBool true)])].
Definition git_branch_current_repo : checks :=
  let result := call_on repository GitBranch [] in
  [is_error false result; text_has "'current'" result].
Definition git_blame_file : checks :=
  let result := call_on repository GitBlame [("file", VString "Cargo.toml")] in
  [is_error false result; text_has "'total_lines'" result].

Lemma git_tool_tests_pass :
  forallb passes [git_status_current_repo; git_log_current_repo; git_diff_current_repo;
    git_branch_current_repo; git_blame_file] = true.
Proof. vm_compute. reflexivity. Qed.
End GitToolTests.

(** ** net_tools.rs *)

Module NetToolTests.
(** A resolver that knows one name; every port is closed. *)
Definition network : machine := fun h a =>
  match a with
  | LookupHost addr =>
      if bool_decide (addr = "localhost:0") then Ok ["127.0.0.1"; "::1"]
      else Err "failed to lookup address information"
  | TcpConnect _ _ => false
  | a => random_source h a
  end.
Definition encode (s : string) : option Value := call UrlEncode [("input", VString s)].
Definition decode (s : string) : option Value :=
  call UrlEncode [("input", VString s); ("operation", VString "decode")].
Definition http (url : string) : option Value := call_on network HttpRequest [("url", VString url)].

Definition dns_lookup_localhost : checks :=
  let result := call_on network DnsLookup [("hostname", VString "localhost")] in
  [is_error false result; text_has "127.0.0.1" result || text_has "::1" result].
Definition dns_lookup_invalid : checks :=
  [is_error true (call_on network DnsLookup [("hostname", VString "this.host.does.not.exist.invalid")])].
Definition port_check_closed : checks :=
  let result := call_on network PortCheck [("port", int 1); ("timeout_ms", int 500)] in
  [is_error false result; text_has "'open': false" result].
Definition url_encode : checks :=
  [text_is "hello%20world%20%26%20foo%3Dbar" (encode "hello world & foo=bar")].
Definition url_decode : checks := [text_is "hello world" (decode "hello%20world")].
Definition url_encode_roundtrip : checks :=
  let original := "spaces & symbols/here?yes=true" in
  [text_is original (decode (default "" (ConformMcp.text (encode original))))].
Definition url_encode_decode_utf8 : checks :=
  let original := "hello 中文 world" in
  let enc_text := default "" (ConformMcp.text (encode original)) in
  [negb (ConformKit.contains "中" enc_text); text_is original (decode enc_text)].
Definition port_check_rejects_invalid_port : checks :=
  let result := call_on network PortCheck [("port", int 70000)] in
  [is_error true result; text_has "out of range" result].
Definition http_rejects_file_url : checks :=
  let result := http "file:///etc/passwd" in
  [is_error true result; text_has "http://" result || text_has "https://" result].
Definition http_rejects_localhost : checks :=
  let result := http "http://localhost/admin" in
  [is_error true result; text_has "private/internal" result].
Definition http_rejects_metadata_endpoint : checks :=
  let result := http "http://169.254.169.254/latest/meta-data/" in
  [is_error true result; text_has "blocked" result].
Definition http_rejects_private_ip : checks :=
  [is_error true (http "http://192.168.1.1/"); is_error true (http "http://10.0.0.1/");
   is_error true (http "http://172.16.0.1/")].

Lemma net_tool_tests_pass :
  forallb passes [dns_lookup_localhost; dns_lookup_invalid; port_check_closed; url_encode; url_decode;
    url_encode_roundtrip; url_encode_decode_utf8; port_check_rejects_invalid_port;
    http_rejects_file_url; http_rejects_localhost; http_rejects_metadata_endpoint;
    http_rejects_private_ip] = true.
Proof. vm_compute. reflexivity. Qed.
End NetToolTests.
