(* ===== verification/ConformTenant.v ===== *)
(** * Conformance: rate limits and tenants

    The tests of [rust-old/src/mcp/pool.rs] and [rust-old/src/mcp/tenant.rs], with
    the token bucket of [ConformLib].  The clock stands still but where a test
    sleeps; each test of tenants starts with a registry of its own, as the ids of
    the tests are distinct. *)

From Stdlib Require Import ZArith Lia Ascii.
From stdpp Require Import base tactics option list strings gmap.
From S2P Require Import Prelude RustStr Json Storage Float Bus ConformKit ConformLib ConformMcp.
From S2P Require Import Mcp McpNet McpTenant TenantCodec Serde Codecs.

Open Scope Z_scope.
Import McpLibraries.
#[local] Existing Instance TokenBucket.token_bucket.

(** ** pool.rs *)

Module PoolTests.
(** [n] requests under a key: how many were allowed, and the pool *)
Fixpoint requests (l : limiter) (now : Bus.Timestamp) (key : string) (n : nat) (pool : NetworkPool)
  : nat * NetworkPool :=
  match n with
  | O => (O, pool)
  | S n =>
      let '(ok, pool) := pool_check l pool now key in
      let '(allowed, pool) := requests l now key n pool in
      ((if (ok : bool) then 1 else 0) + allowed, pool)%nat
  end.
Definition allows (l : limiter) (now : Bus.Timestamp) (key : string) (pool : NetworkPool) : bool :=
  (pool_check l pool now key).1.

Definition http_rate_limit_exhausts_burst : checks :=
  [same (requests HttpLimiter 0 "example.com" 60 pool_new).1 50%nat].
Definition http_rate_limit_eventually_rejects : checks :=
  let pool := (requests HttpLimiter 0 "test.com" 50 pool_new).2 in
  [negb (allows HttpLimiter 0 "test.com" pool)].
Definition dns_rate_limit_exhausts_burst : checks :=
  [same (requests DnsLimiter 0 "example.com" 210 pool_new).1 200%nat].
Definition port_rate_limit_exhausts_burst : checks :=
  [same (requests PortLimiter 0 "host:8080" 110 pool_new).1 100%nat].
Definition separate_hosts_have_independent_limits : checks :=
  let pool := (requests HttpLimiter 0 "host-a.com" 50 pool_new).2 in
  let '(again, pool) := pool_check HttpLimiter pool 0 "host-a.com" in
  [negb again; allows HttpLimiter 0 "host-b.com" pool].
Definition global_pool_accessible : checks := [allows DnsLimiter 0 "global-test.com" pool_new].
Definition refills_after_time : checks :=
  let pool := (requests HttpLimiter 0 "refill.com" 50 pool_new).2 in
  let '(again, pool) := pool_check HttpLimiter pool 0 "refill.com" in
  [negb again; allows HttpLimiter 150 "refill.com" pool].

Lemma pool_tests_pass :
  forallb passes [http_rate_limit_exhausts_burst; http_rate_limit_eventually_rejects;
    dns_rate_limit_exhausts_burst; port_rate_limit_exhausts_burst;
    separate_hosts_have_independent_limits; global_pool_accessible; refills_after_time] = true.
Proof. vm_compute. reflexivity. Qed.
End PoolTests.

(** ** tenant.rs *)

Module TenantTests.
#[local] Existing Instance StorageModel.list_order.

Definition test_ctx (i : string) (rate : Z) (tools : option (list string)) : TenantCtx :=
  mkTenant i (Some ("Test Tenant " +:+ i)) (mkQuota (f64_of_Z rate) 5) (list_to_set <$> tools).

(** The registry after some registrations *)
Definition registered (l : list TenantCtx) : TenantRegistry := tenants_after (Register <$> l).

Definition register_and_get : checks :=
  let got := get_tenant "t1" (registered [test_ctx "t1" 10 None]) in
  [some_is (fun got => same (tenant_id got) "t1") got;
   some_is (fun got => same (display_name got) (Some "Test Tenant t1")) got].
Definition get_missing_returns_none : checks := [none_is (get_tenant "nonexistent" tenants_new)].
Definition deregister_removes_tenant : checks :=
  let registry := registered [test_ctx "t2" 10 None] in
  [negb (none_is (get_tenant "t2" registry)); none_is (get_tenant "t2" (deregister "t2" registry))].
Definition register_overwrites_existing : checks :=
  let updated := mkTenant "t3" (Some "Updated") (mkQuota (f64_of_Z 20) 10) None in
  let got := get_tenant "t3" (registered [test_ctx "t3" 10 None; updated]) in
  [some_is (fun got => same (display_name got) (Some "Updated")) got;
   some_is (fun got => max_concurrent_flows (quota got) =? 10) got].

(** [check_tenant_quota], [n] times or until it fails: whether it failed *)
Fixpoint exhausts (r : TenantRegistry) (i : string) (n : nat) (l : Limiter) : bool :=
  match n with
  | O => false
  | S n => let '(res, l) := check_tenant_quota r l 0 i in
           if errs res then true else exhausts r i n l
  end.
Definition quota_check (r : TenantRegistry) (i : string) : result unit string :=
  (check_tenant_quota r tenant_limiter 0 i).1.

Definition quota_check_unknown_tenant_is_permissive : checks :=
  [is_ok (quota_check tenants_new "unknown-tenant")].
Definition quota_check_registered_tenant_allows_initially : checks :=
  [is_ok (quota_check (registered [test_ctx "quota-ok" 10 None]) "quota-ok")].
Definition quota_check_rejects_after_burst : checks :=
  [exhausts (registered [test_ctx "quota-burst" 1 None]) "quota-burst" 600 tenant_limiter].

Definition tool_access_unknown_tenant_is_permissive : checks :=
  [is_ok (check_tenant_tool_access tenants_new "unknown" "any_tool")].
Definition tool_access_no_restrictions_allows_all : checks :=
  let registry := registered [test_ctx "tool-all" 10 None] in
  [is_ok (check_tenant_tool_access registry "tool-all" "szal_http");
   is_ok (check_tenant_tool_access registry "tool-all" "szal_dns_lookup")].
Definition tool_access_restricted_allows_listed : checks :=
  let registry := registered
    [test_ctx "tool-restricted" 10 (Some ["szal_http"; "szal_dns_lookup"])] in
  [is_ok (check_tenant_tool_access registry "tool-restricted" "szal_http");
   is_ok (check_tenant_tool_access registry "tool-restricted" "szal_dns_lookup")].
Definition tool_access_restricted_rejects_unlisted : checks :=
  let registry := registered [test_ctx "tool-denied" 10 (Some ["szal_http"])] in
  let err := check_tenant_tool_access registry "tool-denied" "szal_port_check" in
  [err_is (contains "not permitted") err; err_is (contains "tool-denied") err;
   err_is (contains "szal_port_check") err].
Definition global_registry_accessible : checks := [none_is (get_tenant "nonexistent" tenants_new)].

Definition tenant_ctx_serializes : checks :=
  let ctx := test_ctx "ser-test" 50 (Some ["szal_http"]) in
  let json := value_to_string (write_tenant ctx) in
  let deser := from_str read_tenant json in
  [ok_is (fun d => same (tenant_id d) "ser-test") deser;
   ok_is (fun d => f64_eqb (max_requests_per_sec (quota d)) (f64_of_Z 50)) deser;
   ok_is (fun d => some_is (fun tools => bool_decide ("szal_http" ∈ tools)) (allowed_tools d)) deser].

Lemma tenant_tests_pass :
  forallb passes [register_and_get; get_missing_returns_none; deregister_removes_tenant;
    register_overwrites_existing; quota_check_unknown_tenant_is_permissive;
    quota_check_registered_tenant_allows_initially; quota_check_rejects_after_burst;
    tool_access_unknown_tenant_is_permissive; tool_access_no_restrictions_allows_all;
    tool_access_restricted_allows_listed; tool_access_restricted_rejects_unlisted;
    global_registry_accessible; tenant_ctx_serializes] = true.
Proof. vm_compute. reflexivity. Qed.
End TenantTests.
