(* ===== verification/ConformHardware.v ===== *)
(** * Conformance: devices and metrics

    The tests of [rust-old/src/engine/hardware.rs], on every machine rather than
    the one at hand, and those of [rust-old/src/metrics.rs]. *)

From Stdlib Require Import ZArith Lia Ascii.
From stdpp Require Import base tactics option list strings.
From S2P Require Import Prelude RustStr Json Error Step Flow Prog StepExec Hardware ConformKit.

Open Scope Z_scope.
#[local] Existing Instance HwModel.crate.

(** ** engine/hardware.rs *)

Module HardwareTests.
Definition gpu_step (u : StepId) (nm : string) : HwStepDef :=
  step_with_hardware (hw_step_new u nm) HwModel.Gpu.
(** [if c { .. }] around the assertions *)
Definition only_if (c : bool) (test : checks) : checks := if c then test else [].

Definition check_requirements_none_always_passes (m : Machine) : checks :=
  [negb (errs (check_requirements detect m [hw_step_new 1%N "cpu-work"]))].
Definition check_requirements_gpu_fails_without_gpu (m : Machine) : checks :=
  only_if (negb (has_accelerator (registry detect m)))
    (let result := check_requirements detect m [gpu_step 1%N "train"] in
     [errs result; err_is (fun e => contains "hardware unavailable" (fmt_error e)) result;
      err_is (fun e => contains "train" (fmt_error e)) result]).
Definition effective_concurrency_unconstrained_for_cpu_steps (m : Machine) : checks :=
  let steps := [hw_step_new 1%N "a"; hw_step_new 2%N "b"; hw_step_new 3%N "c"] in
  [same (effective_concurrency detect m steps 16) 16%nat].
Definition effective_concurrency_caps_at_device_count (m : Machine) : checks :=
  let gpu_count := length (by_family (registry detect m) FamilyGpu) in
  only_if ((0 <? gpu_count) && (gpu_count <? 16))%nat
    (let steps := [gpu_step 1%N "train-1"; gpu_step 2%N "train-2"] in
     [(effective_concurrency detect m steps 16 <=? gpu_count)%nat]).
Definition hardware_context_debug (m : Machine) : checks :=
  let debug := fmt_context detect m in [contains "HardwareContext" debug; contains "devices" debug].

Lemma hardware_tests_pass m :
  passes (check_requirements_none_always_passes m) = true /\
  passes (check_requirements_gpu_fails_without_gpu m) = true /\
  passes (effective_concurrency_unconstrained_for_cpu_steps m) = true /\
  passes (effective_concurrency_caps_at_device_count m) = true /\
  passes (hardware_context_debug m) = true.
Proof.
  split_and!; [reflexivity|by destruct m; vm_compute|reflexivity| |reflexivity].
  unfold effective_concurrency_caps_at_device_count. set (n := length _).
  destruct ((0 <? n) && (n <? 16))%nat eqn:Hn; [|done]. cbn [only_if passes forallb].
  change (effective_concurrency _ _ _ _) with (Nat.max (Nat.min 16 (Nat.max n 1)) 1).
  rewrite andb_true_r. apply Nat.leb_le. apply andb_prop in Hn as [?%Nat.ltb_lt _]. lia.
Qed.
End HardwareTests.

(** ** metrics.rs *)

Module MetricsTests.
Definition no_answers (h : history) (a : act) : res a :=
  answers (fun _ _ => HandlerErr "") (fun _ _ => JoinError "") h a.
(** What a sequence of calls does *)
Definition recorded (p : prog unit) : nat * bool :=
  let '(h, out) := exec no_answers [] p in
  (length h, match out with Returned _ => true | _ => false end).

(** No sink: nothing is called. *)
Definition metric_sink_none_is_noop : checks :=
  let '(n, returned) := recorded
    (let! _ := metric_run_started false "test" in
     let! _ := metric_run_completed false "test" 100 in
     let! _ := metric_run_failed false "test" 50 in
     let! _ := metric_step_started false "test" "step-1" in
     metric_step_finished false "test" "step-1" "completed" 30) in
  [returned; same n 0%nat].

(** A sink: it is called each time. *)
Definition metric_sink_with_noop : checks :=
  let '(n, returned) := recorded
    (let! _ := metric_run_started true "test" in
     let! _ := metric_run_completed true "test" 100 in
     let! _ := metric_step_started true "test" "step-1" in
     metric_step_finished true "test" "step-1" "failed" 30) in
  [returned; same n 4%nat].

Lemma metrics_tests_pass : forallb passes [metric_sink_none_is_noop; metric_sink_with_noop] = true.
Proof. vm_compute. reflexivity. Qed.
End MetricsTests.
